(* ===== verification/_CoqProject ===== *)
-Q . S2P
Prelude.v
GoText.v
Float64.v
Rounding.v
Limits.v
LimitsTime.v
Json.v
Pg.v
Memory.v
Sessions.v
Identity.v
Governance.v
Registry.v
Repository.v
Gateway.v
GatewayStore.v
GatewayConcurrent.v
GatewayAudit.v
GatewayLoad.v
RegistrySpec.v
Http.v
GatewayServer.v
Path.v
FileTree.v
Regexp.v
Manifest.v
Checklist.v
Workspace.v
Recipe.v
Task.v
TaskSpec.v
RuntimeServer.v
RuntimeProcess.v
Goose.v
CLI.v
RuntimeClient.v
Url.v
Slack.v
SlackProcess.v
Scheduler.v
Dashboard.v
Proxy.v
Time.v
Net.v
Assembly.v
AssemblyStore.v
MemoryMCP.v
Process.v
GatewayMain.v
EngAgent.v
EngServer.v
Finance.v
Template.v
McpServers.v
Mains.v
ApiTypes.v
