(* ===== verification/Prelude.v ===== *)
(** * The ScottyLabs agent platform: a verification development

    The platform lets an AI agent act for an organisation: members talk to it in
    Slack, a runtime runs the tasks, and every tool the agent calls goes
    through a gateway that knows who may use what and which actions a human has
    to approve. This library models the Go services under src/ as functions and
    transition systems and proves what they promise. It is meant to be read
    next to the code: a definition has the name of the Go function or type it
    translates where Rocq allows it (fields get a short prefix, methods of
    several clients the name of the client).

    ** The program and its files here

    Shared groundwork:
    - Prelude (this file): results, a state monad, lists, ordering.
    - GoText: strings, strconv, fmt, errors. Float64: float64 as IEEE doubles.
      Rounding: how far each operation is from the exact one.
      Json: payloads and RedactArgs (gateway/internal/policy/redact.go). Time,
      Net, Path, Url, Regexp: the parts of the standard library in use.
      FileTree: directory walks. Http: ServeMux, JSON bodies, answers.
    - Pg: uuids, clocks, constraint errors of the database, and what it takes
      as text and jsonb ([PgText]: a parameter; NUL characters are refused).

    The platform's store (services/session-memory/store):
    - Memory, Sessions, Identity, Governance, Registry: one file per Go file;
      the tables are lists of rows, an operation is a function from the table
      (and the clock and identifiers of its statement) to a result and a table.
    - Repository: all tables together, [exec] of one statement, histories.
      RegistrySpec: what the registry promises, as a map of servers.

    The tool gateway (gateway/):
    - Limits: rate limits. LimitsTime: what they grant in a window of time.
      Gateway: policy/gateway.go over the interfaces [Store] and [ToolCaller].
      GatewayStore: the same over the tables. GatewayConcurrent: its calls as
      threads over a database shared with other clients. GatewayAudit: the rows
      they leave in the audit log. GatewayLoad: how many of them get past the
      limiter. GatewayServer: the HTTP service. Proxy: the downstream caller.
      Manifest: manifests, settings and [gateway sync].
      GatewayMain: the process around them.
    - Checklist: infra/validate, the checks that guard what is synced.

    The agent runtime (runtime/):
    - Recipe: recipes, models, configuration, command line. Task: the goroutine
      of a task with its channels, as a transition system over any [Engine].
      TaskSpec: what a task promises, without channels.
      Goose: the Goose engine. RuntimeServer: the HTTP service around tasks.
      RuntimeProcess: its requests and all its tasks together.
      CLI: the command line, its loop next to the goroutine of its task.

    Its clients:
    - RuntimeClient: the HTTP clients of the runtime, and the runtime service as
      their other end. Slack: services/slack-gateway. SlackProcess: its tasks and
      clicks together. Scheduler: services/scheduler. Dashboard:
      services/dashboard. ApiTypes: the types of its JSON answers.

    Context and memory (services/session-memory/internal, cmd):
    - Assembly, AssemblyStore: what a turn's prompt is made of. MemoryMCP: the
      memory tools and the retention job.

    Other agents and servers:
    - EngAgent: services/engineering-agent. EngServer: its process and its
      notifier. Finance: mcp-servers/finance-rules. Template: the copy of its
      rules in mcp-servers/_template. Workspace: mcp-servers/google-workspace,
      from the tools to the message that Gmail gets.

    The processes:
    - Process: how a main ends, opening and migrating the database, the front
      of the MCP servers. McpServers: tools, settings and main of the four MCP
      servers, the template's audit clients. Mains: those of the Slack
      gateway, the dashboard, the runtime service and the scheduler.

    ** How the parts are put together

    An interface of the source is a class here: [Store], [ToolCaller], [Engine],
    [ContextStore], [Transport], [SlackRuntime], [JobRuntime], [DashStore],
    [Google], [AuditSink]; and so are the libraries with a state of their own:
    [GoogleAPI], [Postgres], [SlackAPI]. The client's theorems are proved for
    every instance, so for stores and servers that answer anything, and where
    both ends are in the repository an instance connects them: the gateway to
    the tables, the Slack gateway and the scheduler over HTTP to the runtime
    service and its tasks, the dashboard to the tables the gateway reads, the
    gateway to the Google Workspace server's tools.

    Concurrency is explicit where it matters. A task is a labelled transition
    system whose labels are the moves of the goroutines, and a theorem about it
    holds for every sequence of labels. The gateway's calls in flight are
    threads ([pc], [thread_step]) that stop before each bucket of the limiter
    (a region of its own mutex, with its own reading of the clock), before each
    statement and before the call downstream. The registry lookup is three
    statements in no transaction (class [Lookups]: the server's row, its tools,
    its committees), so what a call sees of a server may be torn by a
    registration in between ([torn_lookup]). [Call] is what one thread does
    alone ([thread_is_Call]); an event moves one of them, or is a statement of
    another client. The runtime service is its requests, its waiting approve
    handlers and the goroutines of its tasks ([service], [net_event]); the Slack
    gateway's tasks and clicks are threads like the gateway's calls, and the
    engineering agent's runs are sequences of exchanges that interleave.
    Elsewhere each operation of the store, each region under a mutex and each
    transaction is one step, and a history is a list of steps; the dashboard's
    list of servers and the reading back after RegisterServer are steps in this
    sense although they are several SELECTs.

    ** What is shown

    - The gateway's gate: no call leaves without authorization and, for a
      high-impact tool, an approved approval, however the calls in flight and
      other clients of the database interleave, each check on what its own
      statement read ([Call_guarded], [concurrent_provenance]); a server that is switched off gets at most the
      calls that had read its row before ([concurrent_kill_switch],
      [switch_race]); every call ends after at most eight steps of its own
      ([call_terminates]); approval then makes the call go through
      ([approve_then_call_runs]); every decided call and every call sent has its
      own audit statement, one call alone ([Call_audited]) and with any
      interleaving ([concurrent_audited]), whose row is in the log when the
      database takes its values ([storable]) and lost otherwise
      ([nul_argument_unaudited]); what a member sees is what a member may call
      ([visible_iff_callable]); the status of an answer tells what was sent
      ([call_route_status]).
    - Deployment: a clean security checklist and a successful sync make tools
      with irreversible-looking names gated ([clean_checkout_gated]); what the
      checklist and the sync do exactly ([RunChecklist_exact],
      [syncRegistry_lands]); and no email leaves through the Google Workspace
      server without an approval ([no_email_without_approval]), while a message
      whose header fields have no line breaks is read back as the draft it was,
      by readers that end lines at CR LF, at a bare LF or CR or at any of them
      ([line_reader], [message_roundtrip]).
    - Refinement: the registry's tables and the gateway's checks over them
      implement a map of servers ([registry_refines]).
    - Types: the dashboard answers each request with a value of its route's JSON
      type, and relays the runtime's answers on its console ([dashboard_typed]).
    - Processes: what a gateway sends downstream in its life was asked for over
      HTTP, passed the checks and keeps to the rate ([gateway_process_safe]), what
      a task of the runtime service does and is told was asked for and decided
      over HTTP ([runtime_process_safe]), what the Slack gateway submits and
      decides belongs to signed requests ([slack_process_safe]), what an
      engineering agent exchanges with GitHub, its sandboxes and Slack is the
      course of a run ([transcript]) for an authorized task
      ([eng_process_authorized]), a scheduler submits what is due minute by
      minute ([scheduler_minutes]).
    - The database: a fact is found until a statement forgets it
      ([Repository.WriteFact_SearchFacts]), constraints are kept by every
      history ([run_empty_wf]), approvals change only by decisions, and each
      component's operations have exact specifications.
    - A task: decisions answer exactly the questions asked, the event stream is
      complete and ordered, nothing deadlocks, and a returned engine ends its
      task ([approvals_answered], [events_stream], [no_deadlock],
      [engine_return_finishes]); the snapshots served are consistent
      ([snapshot_sound]); the runs that end uncancelled are exactly the engine's
      conversations with its answers ([task_is_conversation]); the command line
      denies what it is asked and ends ([cli_denies]).
    - End to end: a click in Slack resumes the waiting engine
      ([click_resumes_task]), a scheduled job starts a runtime task
      ([job_starts_task]), a decision on the dashboard opens the gateway's gate
      ([decide_unlocks]).
    - Confinement: recipe ids stay below their directory, contexts depend only
      on their own scope, the engineering agent's sandboxes are destroyed and
      its pull requests stay drafts on the task's repository.
    - Numbers: what fits a token budget, exactly ([Assemble_priority],
      [Assemble_budget]), and the reimbursement policy in IEEE arithmetic; the
      rate limits over any window of time, with the rounding errors of their
      tokens bounded ([window_bound]), and that waiting helps ([wait_restores]).
    Lemmas named for a divergence between code and comment are kept beside the
    theorems: [global_denial_spends_committee_token], [approve_wrong_id],
    [approval_covers_other_server], [Approve_announced_regardless],
    [bad_spec_stops_all], [Assemble_text_over_budget], [RedactArgs_undecodable],
    [parseArgs_trailing_flag], [Railway_Create_ignores_spec], [subject_injects],
    [bcc_smuggled], [bcc_smuggled_lf], [bad_audit_url_fails], [torn_lookup],
    [nul_argument_unaudited], [sessionless_high_never_runs].

    ** Bounds and fuel

    [Slack.runTask] polls every 900 ms for 100 s; 113 rounds of fuel are enough
    because the clock advances by at least the interval between two rounds
    ([runTask_reports]). Assembly's [shrink] cuts sixteen bytes a round and its
    fuel is the length of the text ([shrink_total]). [strip_mentions] and Net's
    [groups] have the length of the text as fuel and consume a character a
    round. PostgreSQL's integers and Go's int64 are kept in their ranges where
    the code relies on them ([in_int4], [wrap64]); the token counts of Assembly
    are integers without a bound, as no counter gets near the end of Go's int.
    [read_headers] has the length of the message as fuel. Other recursions are
    structural.

    ** Not modelled

    Connections to the database that fail while a service runs (the gateway's
    theorems allow any store), text that PostgreSQL refuses outside the rows of
    approvals and audit log (there it is an error of the statement), the SQL
    scripts behind the migration library (their constraints are part of the
    tables), what is logged, contexts and timeouts other than a task's cancellation, and the embedded
    web page. Libraries are parameters: YAML, JSON Schema, cron expressions, the
    Slack SDK, the MCP library, Google's clients and their credentials, the
    database driver. A served process handles its requests one after the
    other, except the gateway, the runtime service, the Slack gateway and the
    engineering agent's runs, which interleave. Text is bytes; case folding and
    white space are ASCII. *)

From Stdlib Require Import ZArith Lia Ascii String.
From stdpp Require Export base tactics list gmap strings sorting.
From stdpp Require Import options.

#[export] Set Default Goal Selector "!".

Declare Scope bark_scope.
Delimit Scope bark_scope with bark.

(** ** Results

    A Go function that returns a pair (value, error) and whose value is
    meaningless when the error is not nil is modelled with [res]. *)

Inductive res (E A : Type) : Type :=
  | Ok (a : A)
  | Err (e : E).
Arguments Ok {E A} a.
Arguments Err {E A} e.

#[export] Instance res_ret E : MRet (res E) := λ A a, Ok a.
#[export] Instance res_bind E : MBind (res E) := λ A B f m,
  match m with Ok a => f a | Err e => Err e end.
#[export] Instance res_fmap E : FMap (res E) := λ A B f m,
  match m with Ok a => Ok (f a) | Err e => Err e end.

Definition is_ok {E A} (r : res E A) : bool :=
  match r with Ok _ => true | Err _ => false end.

#[export] Instance res_eq_dec {E A} `{EqDecision E, EqDecision A} :
  EqDecision (res E A).
Proof. solve_decision. Defined.

(** [res_guard b e] is Go's [if !b { return e }]. *)
Definition res_guard {E} (b : bool) (e : E) : res E unit :=
  if b then Ok () else Err e.

(** Running a list of fallible steps from left to right and stopping at the
    first error is the loop [for _, x := range xs { if err := f(x) ... }]. *)
Fixpoint res_map {E A B} (f : A → res E B) (l : list A) : res E (list B) :=
  match l with
  | [] => Ok []
  | x :: l => y ← f x; ys ← res_map f l; Ok (y :: ys)
  end.

Lemma res_bind_Ok {E A B} (r : res E A) (f : A → res E B) b :
  (r ≫= f) = Ok b ↔ ∃ a, r = Ok a ∧ f a = Ok b.
Proof. destruct r; naive_solver. Qed.

Lemma res_bind_Err {E A B} (r : res E A) (f : A → res E B) e :
  (r ≫= f) = Err e ↔ r = Err e ∨ ∃ a, r = Ok a ∧ f a = Err e.
Proof. destruct r; naive_solver. Qed.

Lemma res_guard_Ok {E} (b : bool) (e : E) : res_guard b e = Ok () ↔ b = true.
Proof. destruct b; naive_solver. Qed.

Section res_map.
Context {E A B : Type}.
Implicit Types (f : A → res E B).

Lemma res_map_Ok f l l' :
  res_map f l = Ok l' ↔ Forall2 (λ x y, f x = Ok y) l l'.
Proof.
  revert l'. induction l as [|x l IH]; intros l'; simpl.
  - split; [intros [= <-]; constructor | by inversion 1].
  - rewrite res_bind_Ok. setoid_rewrite res_bind_Ok. setoid_rewrite IH.
    split.
    + intros (y & Hy & ys & Hys & [= <-]). by constructor.
    + inversion 1; subst. eauto.
Qed.

Lemma res_map_Err f l e :
  res_map f l = Err e →
  ∃ l1 x l2, l = l1 ++ x :: l2 ∧ Forall (λ y, is_ok (f y)) l1 ∧ f x = Err e.
Proof.
  induction l as [|x l IH]; simpl; [done|].
  rewrite res_bind_Err. intros [Hx|(y & Hy & Hl)].
  - exists [], x, l. done.
  - apply res_bind_Err in Hl as [Hl|(? & _ & ?)]; [|done].
    destruct (IH Hl) as (l1 & z & l2 & -> & Hl1 & Hz).
    exists (x :: l1), z, l2. repeat split; [|done]. constructor; [|done].
    by rewrite Hy.
Qed.
End res_map.

(** ** State-passing computations

    Operations that update a store return the result and the new state. *)

Definition M (S A : Type) : Type := S → A * S.

#[export] Instance M_ret S : MRet (M S) := λ A a s, (a, s).
#[export] Instance M_bind S : MBind (M S) := λ A B f m s,
  let '(a, s') := m s in f a s'.

Definition M_run {S A} (m : M S A) (s : S) : A * S := m s.

(** ** Reachability

    [rtc] of stdpp is the reflexive transitive closure; an invariant that
    holds initially and is kept by each step holds in every reachable state. *)

Lemma rtc_invariant {S} (step : S → S → Prop) (I : S → Prop) (s s' : S) :
  (∀ a b, I a → step a b → I b) → I s → rtc step s s' → I s'.
Proof. intros Hstep Hs H. revert Hs. induction H; eauto. Qed.

Lemma M_bind_step {S A B} (m : M S A) (f : A → M S B) s :
  (m ≫= f) s = f (m s).1 (m s).2.
Proof. unfold mbind, M_bind. by destruct (m s). Qed.

(** ** Lists *)

Section lists.
Context {A : Type}.
Implicit Types (l k : list A) (p : A → bool).

(** Go's [for] loop that returns true at the first match. *)
Lemma existsb_elem_of p l : existsb p l = true ↔ ∃ x, x ∈ l ∧ p x = true.
Proof.
  rewrite existsb_exists. by setoid_rewrite list_elem_of_In.
Qed.

Lemma existsb_not_elem_of p l :
  existsb p l = false ↔ ∀ x, x ∈ l → p x = false.
Proof.
  rewrite <-not_true_iff_false, existsb_elem_of.
  split.
  - intros H x Hx. apply not_true_is_false. naive_solver.
  - intros H (x & Hx & Hp). rewrite (H x Hx) in Hp. done.
Qed.

Lemma find_Some_elem_of p l x : List.find p l = Some x → x ∈ l ∧ p x = true.
Proof. intros H%List.find_some. by rewrite list_elem_of_In. Qed.

Lemma find_None_elem_of p l :
  List.find p l = None → ∀ x, x ∈ l → p x = false.
Proof.
  intros H x Hx. eapply List.find_none; [done|]. by apply list_elem_of_In.
Qed.

(** [l[:n]] of the last [n] elements. *)
Definition last_n (n : nat) l : list A := drop (length l - n) l.

Lemma last_n_suffix n l : last_n n l `suffix_of` l.
Proof. exists (take (length l - n) l). unfold last_n. by rewrite take_drop. Qed.

Lemma length_last_n n l : length (last_n n l) = min n (length l).
Proof. unfold last_n. rewrite length_drop. lia. Qed.

Lemma last_n_all n l : length l ≤ n → last_n n l = l.
Proof. intros. unfold last_n. by replace (_ - _) with 0 by lia. Qed.

Lemma reverse_take_reverse n l : reverse (take n (reverse l)) = last_n n l.
Proof.
  unfold last_n. rewrite take_reverse, reverse_involutive. done.
Qed.

Lemma filter_nil_iff (P : A → Prop) `{∀ x, Decision (P x)} l :
  filter P l = [] ↔ ∀ x, x ∈ l → ¬ P x.
Proof.
  split.
  - intros Hf x Hx Hp. assert (x ∈ filter P l) as Hin
      by (apply list_elem_of_filter; done).
    rewrite Hf in Hin. by apply elem_of_nil in Hin.
  - intros H1. destruct (filter P l) as [|x k] eqn:Hf; [done|].
    assert (x ∈ filter P l) as Hin by (rewrite Hf; left).
    apply list_elem_of_filter in Hin as [? ?]. naive_solver.
Qed.

Lemma NoDup_fmap_filter {B} (f : A → B) (P : A → Prop)
    `{∀ x, Decision (P x)} l :
  NoDup (f <$> l) → NoDup (f <$> filter P l).
Proof.
  induction l as [|x l IH]; [done|].
  rewrite fmap_cons, NoDup_cons, filter_cons. intros [Hx Hl].
  case_decide; [|by apply IH]. rewrite fmap_cons. constructor; [|by apply IH].
  contradict Hx. apply list_elem_of_fmap in Hx as (y & -> & Hy).
  apply list_elem_of_fmap. exists y. split; [done|].
  by apply list_elem_of_filter in Hy as [_ ?].
Qed.
End lists.

(** ** Ordered query results

    [ORDER BY] is [merge_sort] on a total preorder: a permutation of the rows
    in which neighbours are in order. Rows that compare equal have no order in
    SQL; the theorems use only the two facts below. *)

Definition order_by {A} (R : relation A) `{∀ x y, Decision (R x y)}
    (l : list A) : list A := merge_sort R l.

Section order_by.
Context {A : Type} (R : relation A) `{∀ x y, Decision (R x y)}.
Implicit Types l : list A.

Lemma order_by_perm l : order_by R l ≡ₚ l.
Proof. apply merge_sort_Permutation. Qed.

Lemma elem_of_order_by l x : x ∈ order_by R l ↔ x ∈ l.
Proof. by rewrite order_by_perm. Qed.

Lemma order_by_sorted l :
  Transitive R → Total R → StronglySorted R (order_by R l).
Proof. intros. by apply StronglySorted_merge_sort. Qed.

(** Rows that are already in a strict order stay as they are. *)
Lemma order_by_id l :
  Transitive R → Total R →
  (∀ x y, x ∈ l → y ∈ l → R x y → R y x → x = y) →
  StronglySorted R l → order_by R l = l.
Proof.
  intros ?? Hanti Hl. apply (StronglySorted_unique_strong R); [|by apply order_by_sorted|done|].
  - intros x y Hx. rewrite elem_of_order_by in Hx. by apply Hanti.
  - apply order_by_perm.
Qed.

Lemma length_order_by l : length (order_by R l) = length l.
Proof. by rewrite order_by_perm. Qed.
End order_by.

Lemma StronglySorted_filter {A} (R : relation A) (P : A → Prop)
    `{∀ x, Decision (P x)} (l : list A) :
  StronglySorted R l → StronglySorted R (filter P l).
Proof.
  induction 1 as [|x l Hl IH Hx]; [constructor|].
  rewrite filter_cons. case_decide; [|done]. constructor; [done|].
  apply Forall_forall. intros y [_ Hy]%list_elem_of_filter.
  rewrite Forall_forall in Hx. by apply Hx.
Qed.

Lemma StronglySorted_impl {A} (R1 R2 : relation A) (l : list A) :
  (∀ x y, R1 x y → R2 x y) → StronglySorted R1 l → StronglySorted R2 l.
Proof.
  induction 2 as [|x l Hl IH Hx]; [constructor|]. constructor; [done|].
  eapply Forall_impl; eauto.
Qed.

Lemma StronglySorted_fmap_iff {A B} (f : A → B) (R : relation B) (l : list A) :
  StronglySorted R (f <$> l) ↔ StronglySorted (λ x y, R (f x) (f y)) l.
Proof.
  induction l as [|x l IH]; [split; constructor|].
  rewrite fmap_cons, !StronglySorted_cons, IH, Forall_fmap. done.
Qed.

Lemma StronglySorted_reverse {A} (R : relation A) (l : list A) :
  StronglySorted R l → StronglySorted (flip R) (reverse l).
Proof.
  induction 1 as [|x l Hl IH Hx]; [constructor|]. rewrite reverse_cons.
  apply StronglySorted_app_2; [|done|by repeat constructor].
  intros y z Hy ->%list_elem_of_singleton. rewrite elem_of_reverse in Hy.
  rewrite Forall_forall in Hx. exact (Hx y Hy).
Qed.

Lemma StronglySorted_take {A} (R : relation A) n (l : list A) :
  StronglySorted R l → StronglySorted R (take n l).
Proof.
  intros Hl. rewrite <-(take_drop n l) in Hl.
  by apply StronglySorted_app_1_l in Hl.
Qed.

(** ** Automation *)

Create HintDb bark.
#[export] Hint Resolve last_n_suffix order_by_perm : bark.
#[export] Hint Rewrite @elem_of_order_by @length_order_by @length_last_n
  @list_elem_of_filter @elem_of_cons @elem_of_app @elem_of_nil : bark.

(** Opens a handler: unfolds one layer and splits on the guards it meets. *)
Ltac split_guards :=
  repeat (case_match || case_decide); simplify_eq/=.

(** Turns the boolean tests of the code into propositions. *)
Ltac bools :=
  repeat match goal with
  | H : _ && _ = true |- _ => apply andb_true_iff in H as [? ?]
  | H : _ || _ = false |- _ => apply orb_false_iff in H as [? ?]
  | H : negb _ = true |- _ => apply negb_true_iff in H
  | H : negb _ = false |- _ => apply negb_false_iff in H
  | H : bool_decide _ = true |- _ => apply bool_decide_eq_true in H
  | H : bool_decide _ = false |- _ => apply bool_decide_eq_false in H
  | H : String.eqb _ _ = true |- _ => apply String.eqb_eq in H
  | H : String.eqb _ _ = false |- _ => apply String.eqb_neq in H
  | H : Z.eqb _ _ = true |- _ => apply Z.eqb_eq in H
  | H : Z.eqb _ _ = false |- _ => apply Z.eqb_neq in H
  | H : Z.leb _ _ = true |- _ => apply Z.leb_le in H
  | H : Z.leb _ _ = false |- _ => apply Z.leb_gt in H
  | H : Z.ltb _ _ = true |- _ => apply Z.ltb_lt in H
  | H : Z.ltb _ _ = false |- _ => apply Z.ltb_ge in H
  end.
