(* ===== verification/GoText.v ===== *)
(** * Go strings, formatting and errors

    The parts of Go's packages [strings], [strconv], [fmt] and [errors] that
    the services use. A Go string is a byte string ([String.string], one
    [ascii] per byte), so [String.length] is Go's [len] and [substring 0 n] is
    [s[:n]]. Case folding and white space are the ASCII ones: letters and
    spaces outside ASCII are left as they are. *)

From S2P Require Import Prelude.
From Stdlib Require Import ZArith Lia Ascii String.
From stdpp Require Import pretty numbers.
From stdpp Require Import options.

Open Scope string_scope.

(** [simpl] computes concatenation once its left operand is a constructor. *)
#[global] Arguments String.append !s1 s2 /.

(** ** Bytes *)

Definition chr (n : nat) : string := String (ascii_of_nat n) EmptyString.
Definition NL : string := chr 10.
Definition CRLF : string := chr 13 +:+ chr 10.
Definition QUOTE : string := chr 34.

Definition in_range (lo hi : nat) (c : ascii) : bool :=
  Nat.leb lo (nat_of_ascii c) && Nat.leb (nat_of_ascii c) hi.

Definition lower_ascii (c : ascii) : ascii :=
  if in_range 65 90 c then ascii_of_nat (nat_of_ascii c + 32) else c.

(** [unicode.IsSpace] on one byte: tab, LF, VT, FF, CR and the space. *)
Definition is_space (c : ascii) : bool := in_range 9 13 c || in_range 32 32 c.

Definition is_digit (c : ascii) : bool := in_range 48 57 c.

(** ** Package strings *)

Fixpoint is_prefix (p s : string) : bool :=
  match p, s with
  | EmptyString, _ => true
  | String c p', String d s' => Ascii.eqb c d && is_prefix p' s'
  | String _ _, EmptyString => false
  end.


Fixpoint string_forall (p : ascii → bool) (s : string) : bool :=
  match s with
  | EmptyString => true
  | String c s => p c && string_forall p s
  end.

Fixpoint string_map (f : ascii → ascii) (s : string) : string :=
  match s with
  | EmptyString => EmptyString
  | String c s => String (f c) (string_map f s)
  end.

Definition ToLower (s : string) : string := string_map lower_ascii s.

Fixpoint trim_left (s : string) : string :=
  match s with
  | String c s' => if is_space c then trim_left s' else s
  | EmptyString => EmptyString
  end.

(** Keeps a blank only when a byte that is no blank follows it. *)
Fixpoint trim_right (s : string) : string :=
  match s with
  | EmptyString => EmptyString
  | String c s' =>
      match trim_right s' with
      | EmptyString => if is_space c then EmptyString else String c EmptyString
      | t => String c t
      end
  end.

Definition TrimSpace (s : string) : string := trim_right (trim_left s).

Definition HasPrefix (s p : string) : bool := is_prefix p s.

Definition HasSuffix (s p : string) : bool :=
  Nat.leb (String.length p) (String.length s) &&
  String.eqb (substring (String.length s - String.length p) (String.length p) s) p.

Fixpoint Contains (s sub : string) : bool :=
  is_prefix sub s ||
  match s with EmptyString => false | String _ s' => Contains s' sub end.

Definition TrimPrefix (s p : string) : string :=
  if is_prefix p s
  then substring (String.length p) (String.length s - String.length p) s else s.

(** [strings.Split(s, c)] for a separator of one byte: never empty. *)
Fixpoint Split (c : ascii) (s : string) : list string :=
  match s with
  | EmptyString => [EmptyString]
  | String a s' =>
      let r := Split c s' in
      if Ascii.eqb a c then EmptyString :: r
      else match r with
           | [] => [String a EmptyString]
           | t :: ts => String a t :: ts
           end
  end.

(** [strings.SplitN(s, sep, 2)]: None is a slice of length one. *)
Fixpoint Cut (sep s : string) : option (string * string) :=
  if is_prefix sep s
  then Some (EmptyString,
             substring (String.length sep) (String.length s - String.length sep) s)
  else match s with
       | EmptyString => None
       | String c s' =>
           match Cut sep s' with
           | Some (a, b) => Some (String c a, b)
           | None => None
           end
       end.

Definition Join (sep : string) (l : list string) : string := String.concat sep l.

Definition nonempty (s : string) : bool := negb (String.eqb s EmptyString).

(** The helper [firstNonEmpty] of every config package. *)
Fixpoint firstNonEmpty (values : list string) : string :=
  match values with
  | [] => EmptyString
  | v :: vs => if nonempty v then v else firstNonEmpty vs
  end.

(** [s[:n]] of a byte slice. *)
Definition byte_prefix (n : nat) (s : string) : string := substring 0 n s.

(** ** Package strconv *)

Definition Itoa (z : Z) : string := pretty z.

Fixpoint digits_value (acc : Z) (s : string) : option Z :=
  match s with
  | EmptyString => Some acc
  | String c s' =>
      if is_digit c
      then digits_value (10 * acc + (Z.of_nat (nat_of_ascii c) - 48))%Z s'
      else None
  end.

Definition int64_min : Z := - 2 ^ 63.
Definition int64_max : Z := 2 ^ 63 - 1.
Definition in_int64 (z : Z) : bool := (int64_min <=? z)%Z && (z <=? int64_max)%Z.

(** Two's complement wrap-around at 64 bits. *)
Definition wrap64 (z : Z) : Z := ((z + 2 ^ 63) `mod` 2 ^ 64 - 2 ^ 63)%Z.

(** [strconv.Atoi]: an optional sign, at least one decimal digit, in range. *)
Definition Atoi (s : string) : option Z :=
  let unsigned (neg : bool) (t : string) :=
    if String.eqb t EmptyString then None
    else v ← digits_value 0 t;
         let z := if neg then (- v)%Z else v in
         if in_int64 z then Some z else None in
  match s with
  | String c t =>
      if Nat.eqb (nat_of_ascii c) 45 then unsigned true t
      else if Nat.eqb (nat_of_ascii c) 43 then unsigned false t
      else unsigned false s
  | EmptyString => None
  end.

(** The helper [envInt] of the config packages over [os.Getenv]. *)
Definition envInt (getenv : string → string) (key : string) (def : Z) : Z :=
  let v := getenv key in
  if nonempty v then default def (Atoi v) else def.

(** ** Package fmt *)

Definition hex_digit (n : nat) : ascii :=
  ascii_of_nat (if Nat.ltb n 10 then n + 48 else n + 87).

(** [%q] on one byte: [strconv.Quote] on ASCII; other bytes are passed through,
    which is what Go does for printable text in UTF-8. *)
Definition quote_byte (c : ascii) : string :=
  let n := nat_of_ascii c in
  let esc k := String "\" (chr k) in
  if Nat.eqb n 34 then esc 34 else if Nat.eqb n 92 then esc 92
  else if Nat.eqb n 7 then esc 97 else if Nat.eqb n 8 then esc 98
  else if Nat.eqb n 12 then esc 102 else if Nat.eqb n 10 then esc 110
  else if Nat.eqb n 13 then esc 114 else if Nat.eqb n 9 then esc 116
  else if Nat.eqb n 11 then esc 118
  else if Nat.ltb n 32 || Nat.eqb n 127
  then String "\" (String "x" (String (hex_digit (n / 16))
         (String (hex_digit (n mod 16)) EmptyString)))
  else String c EmptyString.

Fixpoint quote_bytes (s : string) : string :=
  match s with
  | EmptyString => EmptyString
  | String c s' => quote_byte c +:+ quote_bytes s'
  end.

Definition Quote (s : string) : string := QUOTE +:+ quote_bytes s +:+ QUOTE.

Inductive fmtarg : Type :=
  | Fs (s : string)   (* a string, for %s and %q *)
  | Fd (z : Z).       (* an integer, for %d *)

Definition fmt_verb (v : ascii) (a : fmtarg) : string :=
  match a with
  | Fs s => if Ascii.eqb v "q" then Quote s else s
  | Fd z => Itoa z
  end.

(** [fmt.Sprintf] for the verbs %s, %q, %d and the literal %%. *)
Fixpoint Sprintf (f : string) (args : list fmtarg) : string :=
  match f with
  | String "%" (String "%" f') => String "%" (Sprintf f' args)
  | String "%" (String v f') =>
      match args with
      | a :: args' => fmt_verb v a +:+ Sprintf f' args'
      | [] => "%!" +:+ String v ("(MISSING)" +:+ Sprintf f' [])
      end
  | String c f' => String c (Sprintf f' args)
  | EmptyString => EmptyString
  end.

(** ** Package errors

    The error values of the program. [ErrNew] is [errors.New] and [fmt.Errorf]
    without %w; [ErrWrap] is [fmt.Errorf] with a final %w; the last constructor
    is the gateway's own error type [ApprovalRequiredError]. Sentinel errors
    have distinct texts, so the pointer comparison of [errors.Is] is a
    comparison of texts. *)

Inductive error : Type :=
  | ErrNew (text : string)
  | ErrWrap (prefix : string) (cause : error)
  | ErrApprovalRequired (ApprovalID Tool : string).

#[export] Instance error_eq_dec : EqDecision error.
Proof. solve_decision. Defined.

Notation result A := (res error A).

Definition Errorf (f : string) (args : list fmtarg) : error :=
  ErrNew (Sprintf f args).

Definition Errorf_w (f : string) (args : list fmtarg) (cause : error) : error :=
  ErrWrap (Sprintf f args) cause.

Fixpoint Error (e : error) : string :=
  match e with
  | ErrNew t => t
  | ErrWrap p e' => p +:+ Error e'
  | ErrApprovalRequired id tool =>
      Sprintf "gateway: tool %q requires human approval (approval %s)" [Fs tool; Fs id]
  end.

(** [errors.Is] *)
Fixpoint errors_Is (e target : error) : bool :=
  bool_decide (e = target) ||
  match e with ErrWrap _ e' => errors_Is e' target | _ => false end.

(** [errors.As] for [*ApprovalRequiredError] *)
Fixpoint errors_As_approval (e : error) : option (string * string) :=
  match e with
  | ErrApprovalRequired id tool => Some (id, tool)
  | ErrWrap _ e' => errors_As_approval e'
  | ErrNew _ => None
  end.

(** ** Lemmas on text *)

Lemma nonempty_true s : nonempty s = true ↔ s ≠ EmptyString.
Proof. unfold nonempty. rewrite negb_true_iff. apply String.eqb_neq. Qed.

Lemma nonempty_false s : nonempty s = false ↔ s = EmptyString.
Proof. unfold nonempty. rewrite negb_false_iff. apply String.eqb_eq. Qed.

Lemma length_append s t : String.length (s +:+ t) = String.length s + String.length t.
Proof. induction s; simpl; congruence. Qed.

Lemma append_nil_r s : s +:+ EmptyString = s.
Proof. induction s; simpl; congruence. Qed.

Lemma append_assoc s t u : s +:+ (t +:+ u) = (s +:+ t) +:+ u.
Proof. induction s; simpl; congruence. Qed.

Lemma append_inj_l s t u : s +:+ t = s +:+ u → t = u.
Proof. induction s; simpl; [done|]. intros Heq. injection Heq. auto. Qed.

Lemma substring_full s : substring 0 (String.length s) s = s.
Proof. induction s; simpl; congruence. Qed.

Lemma substring_append s t :
  substring (String.length s) (String.length (s +:+ t) - String.length s) (s +:+ t) = t.
Proof.
  rewrite length_append. replace (_ + _ - _) with (String.length t) by lia.
  induction s as [|c s IH]; simpl; [apply substring_full | apply IH].
Qed.

Lemma length_byte_prefix n s : String.length (byte_prefix n s) = min n (String.length s).
Proof.
  unfold byte_prefix. revert n. induction s as [|c s IH]; intros [|n]; simpl; auto.
Qed.

Lemma byte_prefix_append n s : ∃ t, s = byte_prefix n s +:+ t.
Proof.
  unfold byte_prefix. revert n. induction s as [|c s IH]; intros [|n]; simpl.
  - by exists EmptyString.
  - by exists EmptyString.
  - by exists (String c s).
  - destruct (IH n) as [t Ht]. exists t. by f_equal.
Qed.

Lemma prefix_true p s : is_prefix p s = true ↔ ∃ t, s = p +:+ t.
Proof.
  revert s. induction p as [|c p IH]; intros s; simpl.
  - split; [intros _; by exists s | intros _]. by destruct s.
  - destruct s as [|d s]; [split; [done | by intros [? ?]]|].
    rewrite andb_true_iff, Ascii.eqb_eq, IH. split.
    + intros [-> [t ->]]. by exists t.
    + intros [t Ht]. injection Ht as -> ->. eauto.
Qed.

Lemma HasPrefix_true s p : HasPrefix s p = true ↔ ∃ t, s = p +:+ t.
Proof. apply prefix_true. Qed.

Lemma substring_split n s : (n ≤ String.length s)%nat →
  s = substring 0 n s +:+ substring n (String.length s - n) s.
Proof.
  revert n. induction s as [|c s IH]; intros [|n] Hn; simpl in *; try done.
  - f_equal. symmetry. apply substring_full.
  - f_equal. apply IH. lia.
Qed.

Lemma HasSuffix_true s p : HasSuffix s p = true ↔ ∃ t, s = t +:+ p.
Proof.
  unfold HasSuffix. rewrite andb_true_iff, Nat.leb_le, String.eqb_eq. split.
  - intros [Hle Heq]. exists (substring 0 (String.length s - String.length p) s).
    rewrite (substring_split (String.length s - String.length p) s) at 1 by lia.
    f_equal. by replace (String.length s - (String.length s - String.length p))
      with (String.length p) by lia.
  - intros [t ->]. rewrite length_append. split; [lia|].
    replace (String.length t + String.length p - String.length p)
      with (String.length t) by lia.
    pose proof (substring_append t p) as H. rewrite length_append in H.
    by replace (String.length t + String.length p - String.length t)
      with (String.length p) in H by lia.
Qed.

Lemma Contains_true s sub : Contains s sub = true ↔ ∃ a b, s = a +:+ (sub +:+ b).
Proof.
  induction s as [|c s IH]; simpl; rewrite orb_true_iff.
  - rewrite prefix_true. split.
    + intros [[t Ht]|?]; [|done]. by exists EmptyString, t.
    + intros (a & b & H). left. destruct a; [by exists b|done].
  - rewrite IH, prefix_true. split.
    + intros [[t Ht]|(a & b & ->)]; [by exists EmptyString, t|].
      by exists (String c a), b.
    + intros ([|d a] & b & H); [left; by exists b|].
      simplify_eq/=. right. by exists a, b.
Qed.

(** [Cut] splits at the first separator when its first byte is not in [a]. *)
Lemma Cut_append d sep a b :
  string_forall (λ c, negb (Ascii.eqb c d)) a = true →
  Cut (String d sep) (a +:+ (String d sep +:+ b)) = Some (a, b).
Proof.
  induction a as [|c a IH]; intros Ha.
  - cbn [append Cut].
    assert (is_prefix (String d sep) (String d (sep +:+ b)) = true) as ->
      by (apply prefix_true; by exists b).
    do 2 f_equal. apply (substring_append (String d sep) b).
  - cbn [append Cut string_forall is_prefix] in *.
    apply andb_true_iff in Ha as [Hc Ha]. apply negb_true_iff, Ascii.eqb_neq in Hc.
    assert (Ascii.eqb d c = false) as -> by (apply Ascii.eqb_neq; congruence).
    simpl. by rewrite (IH Ha).
Qed.

Lemma string_forall_true p s :
  string_forall p s = true ↔ ∀ c, c ∈ list_ascii_of_string s → p c = true.
Proof.
  induction s as [|c s IH]; simpl.
  - split; [|done]. intros _ c Hc. by apply elem_of_nil in Hc.
  - rewrite andb_true_iff, IH. setoid_rewrite elem_of_cons. naive_solver.
Qed.

Lemma string_forall_append p s t :
  string_forall p (s +:+ t) = string_forall p s && string_forall p t.
Proof. induction s as [|c s IH]; simpl; [done|]. by rewrite IH, andb_assoc. Qed.

(** [TrimSpace] leaves no blank at either end. *)
Definition no_outer_space (s : string) : Prop :=
  (∀ c t, s = String c t → is_space c = false) ∧
  (∀ c t, s = t +:+ String c EmptyString → is_space c = false).

Lemma trim_left_first s c t : trim_left s = String c t → is_space c = false.
Proof.
  induction s as [|d s IH]; simpl; [done|]. destruct (is_space d) eqn:?; naive_solver.
Qed.

Lemma trim_right_nil s : trim_right s = EmptyString → string_forall is_space s = true.
Proof.
  induction s as [|c s IH]; simpl; [done|].
  destruct (trim_right s) eqn:?; [|done]. destruct (is_space c); naive_solver.
Qed.

Lemma trim_right_last s c t :
  trim_right s = t +:+ String c EmptyString → is_space c = false.
Proof.
  revert t. induction s as [|d s IH]; intros t; simpl; [by destruct t|].
  destruct (trim_right s) as [|x r] eqn:Hr.
  - destruct (is_space d) eqn:?; [by destruct t|].
    destruct t as [|y [|z t]]; simpl; naive_solver.
  - destruct t as [|y t]; simpl; [done|]. intros [= -> H]. by apply (IH t).
Qed.

Lemma trim_right_first s c t :
  trim_right s = String c t → ∃ t', s = String c t'.
Proof.
  destruct s as [|d s]; simpl; [done|].
  destruct (trim_right s), (is_space d); naive_solver.
Qed.

Lemma TrimSpace_trimmed s : no_outer_space (TrimSpace s).
Proof.
  unfold TrimSpace. split; intros c t H.
  - apply trim_right_first in H as [t' H]. by apply trim_left_first in H.
  - by apply trim_right_last in H.
Qed.

Lemma trim_right_id s :
  (∀ c t, s = t +:+ String c EmptyString → is_space c = false) → trim_right s = s.
Proof.
  induction s as [|c s IH]; intros Hl; simpl; [done|]. rewrite IH.
  - destruct s; [|done]. by rewrite (Hl c EmptyString).
  - intros d t ->. by apply (Hl d (String c t)).
Qed.

Lemma TrimSpace_id s : no_outer_space s → TrimSpace s = s.
Proof.
  intros [H1 H2]. unfold TrimSpace.
  assert (trim_left s = s) as ->; [|by apply trim_right_id].
  destruct s as [|c s]; simpl; [done|]. by rewrite (H1 c s).
Qed.

Lemma TrimSpace_idemp s : TrimSpace (TrimSpace s) = TrimSpace s.
Proof. apply TrimSpace_id, TrimSpace_trimmed. Qed.

(** The separator never survives in a field. *)
Lemma Split_no_sep c s t :
  t ∈ Split c s → string_forall (λ d, negb (Ascii.eqb d c)) t = true.
Proof.
  revert t. induction s as [|d s IH]; intros t; simpl.
  - by intros ->%list_elem_of_singleton.
  - destruct (Ascii.eqb d c) eqn:Hd.
    + intros [->|Ht]%elem_of_cons; [done|]. by apply IH.
    + destruct (Split c s) as [|u us].
      * intros ->%list_elem_of_singleton. simpl. by rewrite Hd.
      * intros [->|Ht]%elem_of_cons.
        -- simpl. rewrite Hd. apply IH. left.
        -- apply IH. by right.
Qed.

(** Splitting at an occurrence of the separator. *)
Lemma Split_app c a b : Split c (a +:+ String c b) = (Split c a ++ Split c b)%list.
Proof.
  induction a as [|d a IH]; simpl; [by rewrite Ascii.eqb_refl|].
  rewrite IH. destruct (Ascii.eqb d c); [done|].
  destruct (Split c a) as [|u us] eqn:Hs; [|done].
  by destruct a; simpl in Hs; repeat case_match.
Qed.

Lemma Split_id c s :
  string_forall (λ d, negb (Ascii.eqb d c)) s = true → Split c s = [s].
Proof.
  induction s as [|d s IH]; [done|]. simpl. intros [Hd Hs]%andb_true_iff.
  apply negb_true_iff in Hd. by rewrite Hd, IH.
Qed.

(** Fields without the separator survive joining and splitting. *)
Lemma Split_Join c l :
  l ≠ [] → Forall (λ s, string_forall (λ d, negb (Ascii.eqb d c)) s = true) l →
  Split c (Join (String c EmptyString) l) = l.
Proof.
  intros Hne Hl. induction Hl as [|s l Hs Hl IH]; [done|]. unfold Join in *. simpl.
  destruct l as [|t l]; [by apply Split_id|].
  change (String c EmptyString +:+ ?x) with (String c x).
  rewrite Split_app, Split_id, IH by done. done.
Qed.

Lemma TrimPrefix_append p s : TrimPrefix (p +:+ s) p = s.
Proof.
  unfold TrimPrefix. assert (is_prefix p (p +:+ s) = true) as -> by (apply prefix_true; eauto).
  rewrite length_append. replace (_ - _) with (String.length s) by lia.
  induction p as [|c p IH]; simpl; [apply substring_full|done].
Qed.

Lemma errors_Is_refl e : errors_Is e e = true.
Proof. destruct e; simpl; by rewrite bool_decide_true. Qed.

Lemma firstNonEmpty_spec vs :
  firstNonEmpty vs = default EmptyString (List.find nonempty vs).
Proof. induction vs as [|v vs IH]; simpl; [done|]. by destruct (nonempty v). Qed.

Lemma wrap64_id z : in_int64 z = true → wrap64 z = z.
Proof.
  unfold in_int64, int64_min, int64_max, wrap64. intros H. bools.
  rewrite Z.mod_small by lia. lia.
Qed.

Lemma wrap64_range z : in_int64 (wrap64 z) = true.
Proof.
  unfold in_int64, wrap64, int64_min, int64_max.
  pose proof (Z.mod_pos_bound (z + 2 ^ 63) (2 ^ 64)).
  apply andb_true_iff. rewrite !Z.leb_le. lia.
Qed.

#[export] Hint Resolve TrimSpace_trimmed wrap64_range errors_Is_refl : bark.
