(* ===== verification/Float64.v ===== *)
(** * Go's float64

    IEEE 754 binary64 as the Standard Library specifies it ([SpecFloat] with a
    precision of 53 bits and an exponent bound of 1024): every operation is
    the correctly rounded one, computed on integers. The compiler is taken not
    to fuse a product with a sum, as it does not on amd64. *)

From S2P Require Import Prelude GoText.
From Stdlib Require Import ZArith Lia SpecFloat.
From stdpp Require Import options.

Open Scope Z_scope.

Abbreviation float64 := spec_float.

Definition f64_add : float64 → float64 → float64 := SFadd 53 1024.
Definition f64_sub : float64 → float64 → float64 := SFsub 53 1024.
Definition f64_mul : float64 → float64 → float64 := SFmul 53 1024.
Definition f64_div : float64 → float64 → float64 := SFdiv 53 1024.

(** The conversion [float64(i)] of an integer. *)
Definition f64_of_Z (z : Z) : float64 := binary_normalize 53 1024 z 0 false.

Definition f64_leb (x y : float64) : bool := SFleb x y.
Definition f64_ltb (x y : float64) : bool := SFltb x y.
Definition f64_geb (x y : float64) : bool := SFleb y x.
Definition f64_gtb (x y : float64) : bool := SFltb y x.

(** The untyped constant n/d as a float64: the quotient of two exact integers
    rounds once, like the constant itself. *)
Definition f64_ratio (n d : Z) : float64 := f64_div (f64_of_Z n) (f64_of_Z d).

(** The integer that a float is, if it is one. *)
Definition f64_to_Z (x : float64) : option Z :=
  match x with
  | S754_zero _ => Some 0
  | S754_finite s m e =>
      let v := if 0 <=? e then Some (Zpos m * 2 ^ e)
               else let d := 2 ^ (- e) in
                    if Zpos m mod d =? 0 then Some (Zpos m / d) else None in
      (λ z, if s then - z else z) <$> v
  | _ => None
  end.

(** [fmt]'s %.2f: the exact value rounded half-even to cents. *)
Definition f64_cents (x : float64) : option Z :=
  match x with
  | S754_zero _ => Some 0
  | S754_finite s m e =>
      let v :=
        if 0 <=? e then 100 * Zpos m * 2 ^ e
        else let d := 2 ^ (- e) in
             let q := (100 * Zpos m) / d in
             let r := (100 * Zpos m) mod d in
             if (2 * r <? d) || ((2 * r =? d) && Z.even q) then q else q + 1 in
      Some (if s then - v else v)
  | _ => None
  end.

Definition two_digits (z : Z) : string :=
  (if z <? 10 then "0" else EmptyString) +:+ Itoa z.

Definition f64_fixed2 (x : float64) : string :=
  match x with
  | S754_nan => "NaN"
  | S754_infinity s => if s then "-Inf" else "+Inf"
  | S754_zero s => if s then "-0.00" else "0.00"
  | S754_finite s _ _ =>
      let v := Z.abs (default 0 (f64_cents x)) in
      (if s then "-" else EmptyString) +:+ Itoa (v / 100) +:+ "." +:+ two_digits (v mod 100)
  end.

(** ** Exact integers

    Integers below 2^53 are represented exactly, and counting down by one on
    such floats never rounds. *)

Section exact.
Lemma iter_xO m d : Zpos (Pos.iter xO m d) = Zpos m * 2 ^ Zpos d.
Proof.
  induction d as [|d IH] using Pos.peano_ind; [simpl; lia|].
  rewrite Pos.iter_succ, Pos2Z.inj_succ, Z.pow_succ_r by lia.
  rewrite Pos2Z.inj_xO, IH. lia.
Qed.

Lemma digits2_bounds m :
  2 ^ (Zpos (digits2_pos m) - 1) <= Zpos m < 2 ^ Zpos (digits2_pos m).
Proof.
  induction m as [m IH|m IH|]; simpl digits2_pos; [| |simpl; lia];
    rewrite Pos2Z.inj_succ;
    replace (Z.succ (Zpos (digits2_pos m)) - 1)
      with (Z.succ (Zpos (digits2_pos m) - 1)) by lia;
    rewrite !Z.pow_succ_r by lia; lia.
Qed.

Lemma digits2_unique m d :
  0 < d → 2 ^ (d - 1) <= Zpos m < 2 ^ d → Zpos (digits2_pos m) = d.
Proof.
  intros Hd Hm. pose proof (digits2_bounds m) as Hb.
  assert (¬ Zpos (digits2_pos m) < d) as H1.
  { intros Hlt. assert (2 ^ Zpos (digits2_pos m) <= 2 ^ (d - 1))
      by (apply Z.pow_le_mono_r; lia). lia. }
  assert (¬ d < Zpos (digits2_pos m)) as H2.
  { intros Hlt. assert (2 ^ d <= 2 ^ (Zpos (digits2_pos m) - 1))
      by (apply Z.pow_le_mono_r; lia). lia. }
  lia.
Qed.

Lemma digits2_shift n m k :
  0 <= k → Zpos m = Zpos n * 2 ^ k →
  Zpos (digits2_pos m) = Zpos (digits2_pos n) + k.
Proof.
  intros Hk Hm. pose proof (digits2_bounds n) as [H1 H2].
  apply digits2_unique; [lia|]. rewrite Hm.
  replace (Zpos (digits2_pos n) + k - 1) with (Zpos (digits2_pos n) - 1 + k) by lia.
  rewrite !Z.pow_add_r by lia. nia.
Qed.

(** Shifting out zeros keeps the value exact. *)
Lemma shr_1_exact x :
  shr_1 {| shr_m := 2 * x; shr_r := false; shr_s := false |} =
  {| shr_m := x; shr_r := false; shr_s := false |}.
Proof. by destruct x. Qed.

Lemma iter_pos_iter {A} (f : A → A) p x : iter_pos f p x = Pos.iter f x p.
Proof.
  revert x. induction p as [p IH|p IH|]; intros x; simpl; rewrite ?IH; [|done|done].
  by rewrite !Pos.iter_swap.
Qed.

Lemma shr_exact p x :
  iter_pos shr_1 p {| shr_m := x * 2 ^ Zpos p; shr_r := false; shr_s := false |} =
  {| shr_m := x; shr_r := false; shr_s := false |}.
Proof.
  rewrite iter_pos_iter. revert x.
  induction p as [|p IH] using Pos.peano_ind; intros x.
  - cbn [Pos.iter]. replace (x * 2 ^ 1) with (2 * x) by lia. apply shr_1_exact.
  - rewrite Pos.iter_succ, Pos2Z.inj_succ, Z.pow_succ_r by lia.
    replace (x * (2 * 2 ^ Zpos p)) with ((2 * x) * 2 ^ Zpos p) by lia.
    by rewrite IH, shr_1_exact.
Qed.

Lemma fexp_small d : 1 <= d → fexp 53 1024 d = d - 53.
Proof. unfold fexp, emin. lia. Qed.

(** The canonical float of a positive integer below 2^53. *)
Definition int_float (n : positive) : float64 :=
  S754_finite false (Z.to_pos (Zpos n * 2 ^ (53 - Zpos (digits2_pos n))))
    (Zpos (digits2_pos n) - 53).

Lemma round_aux_exact n :
  Zpos (digits2_pos n) <= 53 → ∀ m p, 
  Zpos m = Zpos n * 2 ^ (53 - Zpos (digits2_pos n)) * 2 ^ p → 0 <= p →
  binary_round_aux 53 1024 false (Zpos m) (Zpos (digits2_pos n) - 53 - p) loc_Exact =
  int_float n.
Proof.
  intros Hd m p Hm Hp. set (d := Zpos (digits2_pos n)) in *.
  assert (1 <= d) by (subst d; lia).
  assert (Zpos (digits2_pos m) = 53 + p) as Hdm.
  { rewrite (digits2_shift n m (53 - d + p)); [subst d; lia | lia |].
    rewrite Hm, Z.pow_add_r by lia. lia. }
  unfold binary_round_aux, shr_fexp. cbn [Zdigits2 shr_record_of_loc].
  rewrite Hdm, fexp_small by lia.
  replace (53 + p + (d - 53 - p) - 53 - (d - 53 - p)) with p by lia.
  remember (Zpos n * 2 ^ (53 - d)) as y eqn:Hy.
  assert (0 < y) by (rewrite Hy; apply Z.mul_pos_pos; [lia | apply Z.pow_pos_nonneg; lia]).
  assert (shr {| shr_m := Zpos m; shr_r := false; shr_s := false |} (d - 53 - p) p =
    ({| shr_m := y; shr_r := false; shr_s := false |}, d - 53)) as ->.
  { unfold shr. destruct p as [|p|p]; [| |lia].
    - f_equal; [|lia]. f_equal. rewrite Hm. simpl. lia.
    - rewrite Hm, shr_exact. f_equal. lia. }
  cbn [shr_m loc_of_shr_record round_nearest_even].
  destruct y as [|yp|yp]; [lia| |lia].
  cbn [Zdigits2].
  assert (Zpos (digits2_pos yp) = 53) as Hdy.
  { rewrite (digits2_shift n yp (53 - d)); [fold d; lia | fold d; lia | exact Hy]. }
  rewrite Hdy, fexp_small by lia.
  replace (53 + (d - 53) - 53 - (d - 53)) with 0 by lia. cbn [shr shr_m].
  assert (d - 53 <=? 1024 - 53 = true) as -> by (apply Z.leb_le; lia).
  unfold int_float. fold d. by rewrite <-Hy.
Qed.

Lemma normalize_exact n k m :
  Zpos (digits2_pos n) <= 53 → 0 <= k → Zpos m = Zpos n * 2 ^ k →
  binary_normalize 53 1024 (Zpos m) (- k) false = int_float n.
Proof.
  intros Hd Hk Hm. unfold binary_normalize, binary_round, shl_align.
  set (d := Zpos (digits2_pos n)) in *.
  assert (1 <= d) by (subst d; lia).
  rewrite (digits2_shift n m k Hk Hm), fexp_small by (fold d; lia). fold d.
  replace (d + k + - k - 53) with (d - 53) by lia.
  destruct (d - 53 - - k) as [|p|p] eqn:Hp.
  - replace (- k) with (d - 53 - 0) by lia.
    apply round_aux_exact; [done| |lia]. rewrite Hm. fold d. simpl.
    replace (53 - d) with k by lia. lia.
  - replace (- k) with (d - 53 - Zpos p) by lia.
    apply round_aux_exact; [done| |lia]. rewrite Hm. fold d.
    rewrite <-Z.mul_assoc, <-Z.pow_add_r by lia. do 2 f_equal. lia.
  - replace (d - 53) with (d - 53 - 0) at 1 by lia.
    apply round_aux_exact; [done| |lia]. rewrite iter_xO, Hm. fold d. simpl.
    rewrite <-Z.mul_assoc, <-Z.pow_add_r, Z.mul_1_r by lia. do 2 f_equal. lia.
Qed.

Lemma digits2_small n : Zpos n < 2 ^ 53 → Zpos (digits2_pos n) <= 53.
Proof.
  intros Hn. pose proof (digits2_bounds n).
  destruct (Z.le_gt_cases (Zpos (digits2_pos n)) 53); [done|].
  assert (2 ^ 53 <= 2 ^ (Zpos (digits2_pos n) - 1)) by (apply Z.pow_le_mono_r; lia).
  lia.
Qed.

Lemma f64_of_Z_pos n : Zpos n < 2 ^ 53 → f64_of_Z (Zpos n) = int_float n.
Proof.
  intros Hn. unfold f64_of_Z. change 0 with (- 0).
  apply normalize_exact; [by apply digits2_small | lia | simpl; lia].
Qed.

Lemma int_float_1 : int_float 1 = f64_of_Z 1.
Proof. vm_compute. reflexivity. Qed.
End exact.

Lemma shl_align_int n : Zpos n < 2 ^ 53 →
  Zpos (fst (shl_align (Z.to_pos (Zpos n * 2 ^ (53 - Zpos (digits2_pos n))))
    (Zpos (digits2_pos n) - 53) (-52))) = Zpos n * 2 ^ 52.
Proof.
  intros Hn. pose proof (digits2_small n Hn) as Hd.
  set (d := Zpos (digits2_pos n)) in *. assert (1 <= d) by (subst d; lia).
  assert (0 < Zpos n * 2 ^ (53 - d)) by
    (apply Z.mul_pos_pos; [lia | apply Z.pow_pos_nonneg; lia]).
  unfold shl_align. destruct (-52 - (d - 53)) as [|p|p] eqn:Hp; cbn [fst].
  - rewrite Z2Pos.id by lia. do 2 f_equal. lia.
  - lia.
  - rewrite iter_xO, Z2Pos.id by lia.
    rewrite <-Z.mul_assoc, <-Z.pow_add_r by lia. do 2 f_equal. lia.
Qed.

(** One step down from an exact integer is exact. *)
Lemma f64_sub_one n : 1 <= n < 2 ^ 53 →
  f64_sub (f64_of_Z n) (f64_of_Z 1) = f64_of_Z (n - 1).
Proof.
  intros [H1 H2]. destruct n as [|n|n]; [lia| |lia].
  rewrite (f64_of_Z_pos n), (f64_of_Z_pos 1) by lia.
  unfold f64_sub, int_float, SFsub.
  pose proof (digits2_small n H2).
  replace (Z.min (Zpos (digits2_pos n) - 53) (Zpos (digits2_pos 1) - 53))
    with (-52) by (simpl digits2_pos at 2; lia).
  unfold cond_Zopp. rewrite shl_align_int by lia.
  replace (Zpos (fst (shl_align (Z.to_pos (1 * 2 ^ (53 - Zpos (digits2_pos 1))))
    (Zpos (digits2_pos 1) - 53) (-52)))) with (2 ^ 52) by reflexivity.
  destruct (Zpos n - 1) as [|p|p] eqn:Hp; [| |lia].
  - assert (Zpos n = 1) as -> by lia. reflexivity.
  - rewrite f64_of_Z_pos by lia.
    replace (Zpos n * 2 ^ 52 - 2 ^ 52) with (Zpos p * 2 ^ 52) by lia.
    change (-52) with (- (52)).
    destruct (Zpos p * 2 ^ 52) as [|m|m] eqn:Hm; [lia| |lia].
    apply normalize_exact; [apply digits2_small; lia | lia | by rewrite Hm].
Qed.

(** The test [tokens >= 1] on an exact integer. *)
Lemma f64_geb_one n : 0 <= n < 2 ^ 53 →
  f64_geb (f64_of_Z n) (f64_of_Z 1) = (1 <=? n).
Proof.
  intros [H1 H2]. destruct n as [|n|n]; [reflexivity| |lia].
  rewrite (f64_of_Z_pos n) by lia. rewrite (proj2 (Z.leb_le _ _)) by lia.
  pose proof (digits2_bounds n) as [Hlo Hhi].
  change (f64_of_Z 1) with (S754_finite false (2 ^ 52)%positive (-52)).
  unfold f64_geb, SFleb, int_float, SFcompare.
  destruct (Z.compare_spec (-52) (Zpos (digits2_pos n) - 53)) as [Heq|?|?]; [|done|lia].
  assert (Zpos (digits2_pos n) = 1) as Hd by lia. rewrite Hd in *.
  assert (Zpos n = 1) as -> by lia. reflexivity.
Qed.

Lemma f64_leb_refl_int n : 0 <= n < 2 ^ 53 → f64_gtb (f64_of_Z n) (f64_of_Z n) = false.
Proof.
  intros [H1 H2]. destruct n as [|n|n]; [reflexivity| |lia].
  rewrite (f64_of_Z_pos n) by lia. unfold f64_gtb, SFltb, int_float, SFcompare.
  rewrite Z.compare_refl. change (Pos.compare_cont Eq) with Pos.compare.
  by rewrite Pos.compare_refl.
Qed.
