(* ===== verification/Rounding.v ===== *)
(** * Rounding errors of float64

    How far the operations of Float64.v are from the exact ones, on floats that
    are not negative: a result exceeds the exact value by at most a factor of
    1 + 2^-52 and a tiny amount. Values are rationals. *)

From S2P Require Import Prelude GoText Float64.
From Stdlib Require Import ZArith Lia SpecFloat QArith Qpower Lqa.
From stdpp Require Import options.

Open Scope Z_scope.

(** ** Powers of two *)

Definition p2 (e : Z) : Q := Qpower 2 e.

Lemma p2_pos e : (0 < p2 e)%Q.
Proof. by apply Qpower_0_lt. Qed.

Lemma p2_plus a b : (p2 (a + b) == p2 a * p2 b)%Q.
Proof. by apply Qpower_plus. Qed.

Lemma p2_Z n : 0 <= n → (inject_Z (2 ^ n) == p2 n)%Q.
Proof. intros Hn. by apply Zpower_Qpower. Qed.

Lemma p2_le a b : a <= b → (p2 a <= p2 b)%Q.
Proof. intros. by apply Qpower_le_compat_l. Qed.

Lemma p2_shift z e k : 0 <= k → (inject_Z (z * 2 ^ k) * p2 e == inject_Z z * p2 (e + k))%Q.
Proof. intros Hk. rewrite inject_Z_mult, p2_Z, p2_plus by done. ring. Qed.

(** [m] units of [2^e] below [m'] units of [2^e'] *)
Lemma p2_scale_le m e m' e' :
  e <= e' → m <= m' * 2 ^ (e' - e) → (inject_Z m * p2 e <= inject_Z m' * p2 e')%Q.
Proof.
  intros He Hm. replace e' with (e + (e' - e)) by lia. rewrite <-p2_shift by lia.
  replace (e + (e' - e) - e) with (e' - e) by lia.
  apply Qmult_le_compat_r; [by rewrite <-Zle_Qle|apply Qlt_le_weak, p2_pos].
Qed.

(** ** Shifting out bits *)

(** The mantissa of a record is the integer part of a number. *)
Definition holds_at (mrs : shr_record) (x : Q) : Prop :=
  0 <= shr_m mrs ∧ (inject_Z (shr_m mrs) <= x)%Q ∧ (x < inject_Z (shr_m mrs) + 1)%Q.

#[export] Instance holds_at_Proper mrs : Proper (Qeq ==> iff) (holds_at mrs).
Proof. intros x y Hxy. unfold holds_at. by rewrite Hxy. Qed.

Lemma shr_1_div2 m r s :
  0 <= m → shr_1 {| shr_m := m; shr_r := r; shr_s := s |} =
           {| shr_m := Z.div2 m; shr_r := Z.odd m; shr_s := r || s |}.
Proof. by destruct m as [|[p|p|]|p]. Qed.

Lemma holds_at_shr_1 mrs x : holds_at mrs x → holds_at (shr_1 mrs) (x * (1 # 2)).
Proof.
  destruct mrs as [m r s]. intros (Hm & Hl & Hu). unfold holds_at in *. cbn [shr_m] in *.
  rewrite shr_1_div2 by done. cbn [shr_m].
  pose proof (Z.div2_odd m) as Hd. set (q := Z.div2 m) in *.
  assert (inject_Z m == 2 * inject_Z q + inject_Z (Z.b2z (Z.odd m)))%Q as Hq
    by (rewrite Hd at 1; by rewrite inject_Z_plus, inject_Z_mult).
  split; [destruct (Z.odd m); simpl in Hd; lia|].
  destruct (Z.odd m); cbn [Z.b2z] in Hq; [change (inject_Z 1) with 1%Q in Hq
    | change (inject_Z 0) with 0%Q in Hq]; lra.
Qed.

Lemma holds_at_shr mrs e n x :
  0 <= n → holds_at mrs x →
  ∃ mrs', shr mrs e n = (mrs', e + n) ∧ holds_at mrs' (x * p2 (- n)).
Proof.
  intros Hn Hx. destruct n as [|p|p]; [| |lia]; cbn [shr].
  - exists mrs. rewrite Z.add_0_r. split; [done|]. change (p2 (- 0)) with 1%Q.
    by rewrite Qmult_1_r.
  - eexists. split; [done|]. rewrite iter_pos_iter.
    induction p as [|p IH] using Pos.peano_ind; [by apply holds_at_shr_1|].
    rewrite Pos.iter_succ. apply holds_at_shr_1 in IH; [|lia].
    replace (- Z.pos (Pos.succ p)) with (- Z.pos p + -1) by lia.
    rewrite p2_plus. change (p2 (-1)) with (1 # 2)%Q. by rewrite Qmult_assoc.
Qed.

Lemma Zdigits2_bounds m :
  0 <= m → m < 2 ^ Zdigits2 m ∧ (0 < m → 2 ^ (Zdigits2 m - 1) <= m) ∧ 0 <= Zdigits2 m.
Proof.
  intros Hm. destruct m as [|m|m]; cbn [Zdigits2]; [lia| |lia].
  pose proof (digits2_bounds m). lia.
Qed.

Lemma Zdigits2_unique m d : 0 < d → 2 ^ (d - 1) <= m < 2 ^ d → Zdigits2 m = d.
Proof.
  intros Hd Hm. destruct m as [|m|m].
  - assert (0 < 2 ^ (d - 1)) by (apply Z.pow_pos_nonneg; lia). lia.
  - by apply digits2_unique.
  - assert (0 < 2 ^ (d - 1)) by (apply Z.pow_pos_nonneg; lia). lia.
Qed.

Lemma fexp_max z : fexp 53 1024 z = Z.max (z - 53) (-1074).
Proof. reflexivity. Qed.

(** ** Rounding *)

Definition nonneg (y : float64) : Prop :=
  match y with
  | S754_zero _ => True
  | S754_finite false m e => fexp 53 1024 (Zpos (digits2_pos m) + e) = e
  | _ => False
  end.

Definition val (y : float64) : Q :=
  match y with S754_finite false m e => inject_Z (Zpos m) * p2 e | _ => 0 end.

Definition u : Q := p2 (-52).
Definition tiny : Q := p2 (-1074).

(** What an operation with the exact result [x] makes of it. *)
Definition rounded (y : float64) (x : Q) : Prop :=
  y = S754_infinity false ∧ (p2 1023 <= x)%Q ∨
  nonneg y ∧ (val y <= x * (1 + u) + tiny)%Q ∧ (x * (1 - u) - tiny <= val y)%Q.

(** The first shift keeps 53 bits, or as many as the least exponent allows. *)
Lemma shr_fexp_spec mx ex lx x :
  ex <= fexp 53 1024 (Zdigits2 mx + ex) → holds_at (shr_record_of_loc mx lx) x →
  ∃ mrs e, shr_fexp 53 1024 mx ex lx = (mrs, e) ∧ holds_at mrs (x * p2 (ex - e)) ∧
    shr_m mrs < 2 ^ 53 ∧ (e = -1074 ∨ -1074 < e ∧ 2 ^ 52 <= shr_m mrs).
Proof.
  intros Hc Hx. unfold shr_fexp. set (e := fexp 53 1024 (Zdigits2 mx + ex)) in *.
  destruct (holds_at_shr _ ex (e - ex) x ltac:(lia) Hx) as (mrs & -> & Hm).
  replace (- (e - ex)) with (ex - e) in Hm by lia. replace (ex + (e - ex)) with e by lia.
  exists mrs, e. split; [done|]. split; [done|].
  assert (shr_m (shr_record_of_loc mx lx) = mx) as Hmx by by destruct lx as [|[]].
  destruct Hx as (Hx0 & Hxl & Hxu). rewrite Hmx in *. destruct (Zdigits2_bounds mx Hx0) as (Hd & Hd' & Hd0).
  subst e. rewrite fexp_max in *. destruct Hm as (Hm0 & Hml & Hmu).
  set (e := Z.max _ _) in *. set (d := Zdigits2 mx) in *.
  assert (0 < p2 (ex - e))%Q as Hp by apply p2_pos.
  split.
  - rewrite Zlt_Qlt. eapply Qle_lt_trans; [exact Hml|]. rewrite p2_Z by done.
    eapply Qlt_le_trans; [|apply (p2_le (d + (ex - e))); lia]. rewrite p2_plus.
    apply Qmult_lt_compat_r; [done|]. eapply Qlt_le_trans; [exact Hxu|].
    rewrite <-p2_Z by done. change 1%Q with (inject_Z 1). rewrite <-inject_Z_plus, <-Zle_Qle. lia.
  - destruct (Z.le_gt_cases e (-1074)); [left; lia|]. right. split; [done|].
    assert (1 <= d) by lia.
    assert (mx ≠ 0) by (intros ->; subst d; cbn [Zdigits2] in *; lia).
    enough (2 ^ 52 < shr_m mrs + 1) by lia. rewrite Zlt_Qlt. rewrite inject_Z_plus, p2_Z by done.
    eapply Qle_lt_trans; [|exact Hmu]. replace 52 with (d - 1 + (ex - e)) by lia. rewrite p2_plus.
    apply Qmult_le_compat_r; [|by apply Qlt_le_weak]. rewrite <-p2_Z by lia.
    eapply Qle_trans; [|exact Hxl]. rewrite <-Zle_Qle. lia.
Qed.

(** The second shift only carries. *)
Lemma shr_fexp_carry m e :
  0 <= m <= 2 ^ 53 → e = -1074 ∨ -1074 < e ∧ 2 ^ 52 <= m →
  shr_fexp 53 1024 m e loc_Exact =
  if bool_decide (m = 2 ^ 53) then ({| shr_m := 2 ^ 52; shr_r := false; shr_s := false |}, e + 1)
  else ({| shr_m := m; shr_r := false; shr_s := false |}, e).
Proof.
  intros Hm He. unfold shr_fexp. rewrite fexp_max. cbn [shr_record_of_loc].
  case_bool_decide as Hc.
  - subst m. change (Zdigits2 (2 ^ 53)) with 54.
    by replace (Z.max (54 + e - 53) (-1074) - e) with 1 by lia.
  - destruct (Zdigits2_bounds m) as (Hd & Hd' & Hd0); [lia|].
    assert (Zdigits2 m <= 53) as Hle.
    { destruct (decide (m = 0)) as [->|]; [done|]. apply Z.lt_succ_r, (Z.pow_lt_mono_r_iff 2); [lia..|].
      rewrite Z.pow_succ_r by lia. replace (2 ^ Zdigits2 m) with (2 * 2 ^ (Zdigits2 m - 1))
        by (rewrite <-Z.pow_succ_r by (destruct m; cbn [Zdigits2]; lia); f_equal; lia). lia. }
    unfold shr. destruct (Z.max (Zdigits2 m + e - 53) (-1074) - e) as [|p|p] eqn:Hn; [done| |done].
    exfalso. lia.
Qed.

Lemma canonical_carry m e :
  0 < m < 2 ^ 53 → e = -1074 ∨ -1074 < e ∧ 2 ^ 52 <= m → fexp 53 1024 (Zdigits2 m + e) = e.
Proof.
  intros Hm He. rewrite fexp_max. destruct (Zdigits2_bounds m) as (Hd & Hd' & Hd0); [lia|].
  destruct (decide (2 ^ 52 <= m)) as [Hb|Hb].
  - rewrite (Zdigits2_unique m 53) by (simpl; lia). lia.
  - assert (Zdigits2 m - 1 < 52); [|lia]. apply (Z.pow_lt_mono_r_iff 2); [lia..|].
    eapply Z.le_lt_trans; [apply Hd'; lia|]. lia.
Qed.

(** Rounding up by one unit in the last place. *)
Lemma round_bound m m' e x :
  0 <= m → (inject_Z m <= x)%Q → (x < inject_Z m + 1)%Q → m <= m' <= m + 1 →
  e = -1074 ∨ -1074 < e ∧ 2 ^ 52 <= m →
  (inject_Z m' * p2 e <= x * p2 e * (1 + u) + tiny)%Q ∧
  (x * p2 e * (1 - u) - tiny <= inject_Z m' * p2 e)%Q.
Proof.
  intros Hm0 Hx Hx' [Hml Hm] He. pose proof (p2_pos e) as Hp. pose proof (p2_pos (-52)) as Hu.
  pose proof (p2_pos (-1074)) as Ht. fold u in Hu. fold tiny in Ht.
  assert (0 <= inject_Z m ∧ inject_Z m <= inject_Z m' ∧ inject_Z m' <= inject_Z m + 1)%Q as (H0 & H1 & H2).
  { change 1%Q with (inject_Z 1). change 0%Q with (inject_Z 0).
    by rewrite <-inject_Z_plus, <-!Zle_Qle. }
  assert (p2 e <= x * p2 e * u + tiny)%Q as Hunit.
  { destruct He as [->|[He H52]].
    - fold tiny. assert (0 <= x * tiny * u)%Q by
        (apply Qmult_le_0_compat; [apply Qmult_le_0_compat|]; lra). lra.
    - assert (1 <= x * u)%Q as H3.
      { apply Qle_trans with (inject_Z (2 ^ 52) * u)%Q; [done|]. apply Qmult_le_compat_r; [|lra].
        eapply Qle_trans; [|exact Hx]. by rewrite <-Zle_Qle. }
      assert (1 * p2 e <= x * u * p2 e)%Q by (apply Qmult_le_compat_r; [done|lra]). lra. }
  assert (inject_Z m' * p2 e <= (x + 1) * p2 e)%Q by (apply Qmult_le_compat_r; lra).
  assert ((x - 1) * p2 e <= inject_Z m' * p2 e)%Q by (apply Qmult_le_compat_r; lra).
  split; lra.
Qed.

Lemma round_aux_spec mx ex lx x :
  ex <= fexp 53 1024 (Zdigits2 mx + ex) → holds_at (shr_record_of_loc mx lx) x →
  rounded (binary_round_aux 53 1024 false mx ex lx) (x * p2 ex).
Proof.
  intros Hc Hx. destruct (shr_fexp_spec mx ex lx x Hc Hx) as (mrs & e & Hs & (Hm0 & Hml & Hmu) & Hm & He).
  unfold binary_round_aux. rewrite Hs. set (m := shr_m mrs) in *.
  set (m' := round_nearest_even m (loc_of_shr_record mrs)).
  assert (m <= m' <= m + 1) as Hm'.
  { subst m'. destruct (loc_of_shr_record mrs) as [|[]]; cbn [round_nearest_even];
      repeat case_match; lia. }
  rewrite shr_fexp_carry by lia.
  set (x1 := (x * p2 (ex - e))%Q) in *.
  assert (x * p2 ex == x1 * p2 e)%Q as Hx1.
  { subst x1. rewrite <-Qmult_assoc, <-p2_plus. by replace (ex - e + e) with ex by lia. }
  pose proof (round_bound m m' e x1 Hm0 Hml Hmu Hm' He) as Hbound. rewrite <-Hx1 in Hbound.
  assert (971 <= e → (p2 1023 <= x * p2 ex)%Q) as Hinf.
  { intros. rewrite Hx1. replace 1023 with (52 + 971) by lia. rewrite p2_plus.
    assert (0 < p2 52)%Q by apply p2_pos. assert (0 < p2 971)%Q by apply p2_pos.
    apply Qmult_le_compat_nonneg; split; [by apply Qlt_le_weak| |by apply Qlt_le_weak|by apply p2_le].
    eapply Qle_trans; [|exact Hml]. rewrite <-p2_Z, <-Zle_Qle by done. lia. }
  case_bool_decide as Hc'; cbn [shr_m].
  - change (2 ^ 52) with (Zpos (2 ^ 52)).
    destruct (e + 1 <=? 1024 - 53) eqn:Hi; [right|left; split; [done|apply Hinf; lia]].
    split; [cbn [nonneg]; apply (canonical_carry (2 ^ 52)); [done|right; lia]|]. cbn [val].
    rewrite <-p2_shift by done. by rewrite Hc' in Hbound.
  - destruct m' as [|p|p]; [right; split; [done|]| |lia]; cbn [val].
    + rewrite Qmult_0_l in Hbound. done.
    + destruct (e <=? 1024 - 53) eqn:Hi; [right; split; [|done]|left; split; [done|apply Hinf; lia]].
      cbn [nonneg]. apply (canonical_carry (Zpos p)); lia.
Qed.

#[export] Instance rounded_Proper y : Proper (Qeq ==> iff) (rounded y).
Proof. intros x x' Hx. unfold rounded. by rewrite Hx. Qed.

Lemma fexp_mono a b : a <= b → fexp 53 1024 a <= fexp 53 1024 b.
Proof. rewrite !fexp_max. lia. Qed.

Lemma shl_align_spec m e e' :
  inject_Z (Zpos (shl_align m e e').1) * p2 (Z.min e e') == inject_Z (Zpos m) * p2 e ∧
  (shl_align m e e').2 = Z.min e e' ∧
  Zpos (digits2_pos (shl_align m e e').1) + Z.min e e' = Zpos (digits2_pos m) + e.
Proof.
  unfold shl_align. destruct (e' - e) as [|p|p] eqn:Hp; cbn [fst snd].
  1,2: rewrite Z.min_l by lia; by repeat split.
  rewrite Z.min_r by lia. replace e with (e' + Zpos p) by lia. rewrite iter_xO. split; [|split; [lia|]].
  - by rewrite p2_shift.
  - rewrite (digits2_shift m (Pos.iter xO m p) (Zpos p)); [lia..|apply iter_xO].
Qed.

Lemma binary_round_spec m e : rounded (binary_round 53 1024 false m e) (inject_Z (Zpos m) * p2 e).
Proof.
  unfold binary_round. set (e' := fexp 53 1024 _). pose proof (shl_align_spec m e e') as (Hv & He & Hd).
  destruct (shl_align m e e') as [mz ez]. cbn [fst snd] in *. rewrite <-Hv. rewrite <-He in *.
  apply round_aux_spec.
  - cbn [Zdigits2]. rewrite Hd. fold e'. lia.
  - cbn [shr_record_of_loc]. unfold holds_at. cbn [shr_m]. split; [lia|]. split; [apply Qle_refl|lra].
Qed.

Lemma tiny_pos : (0 < tiny)%Q.
Proof. apply p2_pos. Qed.

Lemma normalize_spec m e s : 0 <= m → rounded (binary_normalize 53 1024 m e s) (inject_Z m * p2 e).
Proof.
  intros Hm. destruct m as [|m|m]; [|apply binary_round_spec|lia]. right. split; [done|].
  cbn [binary_normalize val]. pose proof tiny_pos. rewrite !Qmult_0_l. split; lra.
Qed.

(** ** The operations *)

Lemma nonneg_val y : nonneg y → (0 <= val y)%Q.
Proof.
  destruct y as [| | |[] m e]; try done; intros _; cbn [val].
  apply Qmult_le_0_compat; [done|apply Qlt_le_weak, p2_pos].
Qed.

Lemma rounded_exact y : nonneg y → rounded y (val y).
Proof.
  intros Hy. right. split; [done|]. pose proof (nonneg_val y Hy). pose proof tiny_pos.
  assert (0 <= val y * u)%Q by (apply Qmult_le_0_compat; [done|apply Qlt_le_weak, p2_pos]). split; lra.
Qed.

Lemma f64_add_spec x y : nonneg x → nonneg y → rounded (f64_add x y) (val x + val y).
Proof.
  intros Hx Hy. unfold f64_add, SFadd.
  destruct x as [sx| | |[] mx ex]; try done; destruct y as [sy| | |[] my ey]; try done.
  - cbn [val]. rewrite Qplus_0_l. by destruct sx, sy; apply (rounded_exact (S754_zero _)).
  - cbn [val]. rewrite Qplus_0_l. by apply (rounded_exact (S754_finite false my ey)).
  - cbn [val]. rewrite Qplus_0_r. by apply (rounded_exact (S754_finite false mx ex)).
  - cbn [val cond_Zopp]. pose proof (shl_align_spec mx ex (Z.min ex ey)) as (Hvx & _).
    pose proof (shl_align_spec my ey (Z.min ex ey)) as (Hvy & _).
    rewrite <-Hvx, <-Hvy. replace (ex `min` (ex `min` ey)) with (ex `min` ey) by lia.
    replace (ey `min` (ex `min` ey)) with (ex `min` ey) by lia.
    rewrite <-Qmult_plus_distr_l, <-inject_Z_plus. apply normalize_spec. lia.
Qed.

Lemma f64_sub_spec x y :
  nonneg x → nonneg y → (val y <= val x)%Q → rounded (f64_sub x y) (val x - val y).
Proof.
  intros Hx Hy Hle. unfold f64_sub, SFsub.
  destruct x as [sx| | |[] mx ex]; try done; destruct y as [sy| | |[] my ey]; try done.
  - cbn [val]. change (0 - 0)%Q with 0%Q. by destruct sx, sy; apply (rounded_exact (S754_zero _)).
  - exfalso. cbn [val] in Hle. assert (0 < inject_Z (Zpos my) * p2 ey)%Q; [|lra].
    apply Qmult_lt_0_compat; [done|apply p2_pos].
  - cbn [val]. setoid_replace (inject_Z (Zpos mx) * p2 ex - 0)%Q with (inject_Z (Zpos mx) * p2 ex)%Q
      using relation Qeq by ring. by apply (rounded_exact (S754_finite false mx ex)).
  - cbn [val cond_Zopp] in *. pose proof (shl_align_spec mx ex (Z.min ex ey)) as (Hvx & _).
    pose proof (shl_align_spec my ey (Z.min ex ey)) as (Hvy & _).
    rewrite <-Hvx, <-Hvy in *. replace (ex `min` (ex `min` ey)) with (ex `min` ey) in * by lia.
    replace (ey `min` (ex `min` ey)) with (ex `min` ey) in * by lia.
    set (m := Zpos (shl_align mx _ _).1) in *. set (n := Zpos (shl_align my _ _).1) in *.
    apply Qmult_le_r in Hle; [|apply p2_pos]. rewrite <-Zle_Qle in Hle.
    assert (inject_Z m * p2 (ex `min` ey) - inject_Z n * p2 (ex `min` ey) ==
            inject_Z (m - n) * p2 (ex `min` ey))%Q as ->
      by (unfold Z.sub; rewrite inject_Z_plus, inject_Z_opp; ring).
    apply normalize_spec. lia.
Qed.

Lemma Zdigits2_mul m n : 0 < m → 0 < n → Zdigits2 m + Zdigits2 n - 1 <= Zdigits2 (m * n).
Proof.
  intros Hm Hn. destruct (Zdigits2_bounds m) as (_ & H1 & H1'), (Zdigits2_bounds n) as (_ & H2 & H2'),
    (Zdigits2_bounds (m * n)) as (H3 & _ & H3'); [nia|lia..|].
  destruct (Z.le_gt_cases (Zdigits2 m + Zdigits2 n - 1) (Zdigits2 (m * n))) as [|Hlt]; [done|].
  assert (1 <= Zdigits2 m) by (destruct m; cbn [Zdigits2]; lia).
  assert (1 <= Zdigits2 n) by (destruct n; cbn [Zdigits2]; lia).
  assert (2 ^ Zdigits2 (m * n) <= 2 ^ ((Zdigits2 m - 1) + (Zdigits2 n - 1))) by (apply Z.pow_le_mono_r; lia).
  rewrite Z.pow_add_r in * by lia. specialize (H1 Hm). specialize (H2 Hn).
  assert (2 ^ (Zdigits2 m - 1) * 2 ^ (Zdigits2 n - 1) <= m * n) by
    (apply Z.mul_le_mono_nonneg; lia). lia.
Qed.

Lemma holds_at_int m l : 0 <= m → holds_at (shr_record_of_loc m l) (inject_Z m).
Proof.
  intros Hm. assert (shr_m (shr_record_of_loc m l) = m) as Hs by by destruct l as [|[]].
  unfold holds_at. rewrite Hs. split; [done|]. split; [apply Qle_refl|lra].
Qed.

Lemma f64_mul_spec x y : nonneg x → nonneg y → rounded (f64_mul x y) (val x * val y).
Proof.
  intros Hx Hy. unfold f64_mul, SFmul.
  destruct x as [sx| | |[] mx ex]; try done; destruct y as [sy| | |[] my ey]; try done.
  1,2: cbn [val]; rewrite Qmult_0_l; by apply (rounded_exact (S754_zero _)).
  - cbn [val]; rewrite Qmult_0_r; by apply (rounded_exact (S754_zero _)).
  - cbn [val xorb nonneg] in *.
    assert (inject_Z (Zpos mx) * p2 ex * (inject_Z (Zpos my) * p2 ey) ==
      inject_Z (Zpos (mx * my)) * p2 (ex + ey))%Q as ->
      by (rewrite p2_plus, Pos2Z.inj_mul, inject_Z_mult; ring).
    apply round_aux_spec; [|by apply (holds_at_int _ loc_Exact)].
    pose proof (Zdigits2_mul (Zpos mx) (Zpos my) ltac:(lia) ltac:(lia)) as Hd.
    change (Zdigits2 (Zpos mx)) with (Zpos (digits2_pos mx)) in Hd.
    change (Zdigits2 (Zpos my)) with (Zpos (digits2_pos my)) in Hd.
    change (Zpos mx * Zpos my) with (Zpos (mx * my)) in Hd.
    rewrite !fexp_max in Hx, Hy |- *. lia.
Qed.

Lemma Zdigits2_div m s n :
  0 < m → 0 <= s → 0 < n → Zdigits2 m + s - Zdigits2 n <= Zdigits2 (m * 2 ^ s / n).
Proof.
  intros Hm Hs Hn. destruct (Zdigits2_bounds m) as (_ & H1 & H1'), (Zdigits2_bounds n) as (H2 & _ & H2');
    [lia..|]. specialize (H1 Hm).
  assert (0 <= m * 2 ^ s / n) as Hq by (apply Z.div_pos; [apply Z.mul_nonneg_nonneg|]; lia).
  destruct (Zdigits2_bounds _ Hq) as (H3 & _ & H3'). set (q := m * 2 ^ s / n) in *.
  assert (1 <= Zdigits2 m) by (destruct m; cbn [Zdigits2]; lia).
  destruct (Z.le_gt_cases (Zdigits2 m + s - Zdigits2 n) (Zdigits2 q)) as [|Hlt]; [done|].
  assert (m * 2 ^ s < n * (q + 1)).
  { subst q. pose proof (Z.mul_succ_div_gt (m * 2 ^ s) n Hn). lia. }
  assert (2 ^ Zdigits2 n * 2 ^ Zdigits2 q <= 2 ^ (Zdigits2 m - 1) * 2 ^ s).
  { rewrite <-!Z.pow_add_r by lia. apply Z.pow_le_mono_r; lia. }
  assert (2 ^ (Zdigits2 m - 1) * 2 ^ s <= m * 2 ^ s) by (apply Z.mul_le_mono_nonneg_r; lia).
  assert (n * (q + 1) <= 2 ^ Zdigits2 n * 2 ^ Zdigits2 q) by (apply Z.mul_le_mono_nonneg; lia). lia.
Qed.

Lemma holds_at_div m n l :
  0 <= m → 0 < n → holds_at (shr_record_of_loc (m / n) l) (inject_Z m / inject_Z n).
Proof.
  intros Hm Hn. assert (shr_m (shr_record_of_loc (m / n) l) = m / n) as Hs by by destruct l as [|[]].
  unfold holds_at. rewrite Hs. assert (0 < inject_Z n)%Q as Hn' by (change 0%Q with (inject_Z 0); by rewrite <-Zlt_Qlt).
  split; [by apply Z.div_pos|]. pose proof (Z.mul_div_le m n Hn). pose proof (Z.mul_succ_div_gt m n Hn).
  split.
  - apply Qle_shift_div_l; [done|]. rewrite <-inject_Z_mult, <-Zle_Qle. lia.
  - apply Qlt_shift_div_r; [done|]. change 1%Q with (inject_Z 1).
    rewrite <-inject_Z_plus, <-inject_Z_mult, <-Zlt_Qlt. lia.
Qed.

Lemma f64_div_spec x y : nonneg x → nonneg y → (0 < val y)%Q → rounded (f64_div x y) (val x / val y).
Proof.
  intros Hx Hy Hy0. unfold f64_div, SFdiv.
  destruct x as [sx| | |[] mx ex]; try done; destruct y as [sy| | |[] my ey]; try done.
  - cbn [val]. unfold Qdiv. rewrite Qmult_0_l. by apply (rounded_exact (S754_zero _)).
  - cbn [val xorb] in *. unfold SFdiv_core_binary.
    set (e := Z.min _ _). set (s := ex - ey - e). assert (0 <= s) as Hs by lia.
    assert (match s with Z0 => Zpos mx | Zpos _ => Z.shiftl (Zpos mx) s | Zneg _ => 0 end = Zpos mx * 2 ^ s) as ->
      by (rewrite <-Z.shiftl_mul_pow2 by done; by destruct s).
    pose proof (Zdigits2_div (Zpos mx) s (Zpos my) ltac:(lia) Hs ltac:(lia)) as Hd.
    unfold Z.div in Hd. pose proof (holds_at_div (Zpos mx * 2 ^ s) (Zpos my)) as Hh. unfold Z.div in Hh.
    destruct (Z.div_eucl _ _) as [q r].
    assert (inject_Z (Zpos mx) * p2 ex / (inject_Z (Zpos my) * p2 ey) ==
      inject_Z (Zpos mx * 2 ^ s) / inject_Z (Zpos my) * p2 e)%Q as ->.
    { rewrite inject_Z_mult, p2_Z by done. replace ex with (ey + (s + e)) by lia. rewrite !p2_plus.
      field. split; [done|]. pose proof (p2_pos ey). lra. }
    apply round_aux_spec; [|apply Hh; [apply Z.mul_nonneg_nonneg; lia|lia]].
    etransitivity; [apply Z.le_min_l|]. apply fexp_mono. lia.
Qed.

Lemma rounded_finite y x :
  rounded y x → (x < p2 1023)%Q →
  nonneg y ∧ (val y <= x * (1 + u) + tiny)%Q ∧ (x * (1 - u) - tiny <= val y)%Q.
Proof. intros [[_ Hx]|Hy] Hlt; [|done]. exfalso. lra. Qed.

Lemma f64_of_Z_spec n : 0 <= n → rounded (f64_of_Z n) (inject_Z n).
Proof.
  intros Hn. pose proof (normalize_spec n 0 false Hn) as H. change (p2 0) with 1%Q in H.
  by rewrite Qmult_1_r in H.
Qed.

(** ** Comparison *)

Lemma val_lt_exp m e n f :
  nonneg (S754_finite false m e) → nonneg (S754_finite false n f) → e < f →
  (val (S754_finite false m e) < val (S754_finite false n f))%Q.
Proof.
  cbn [nonneg val]. rewrite !fexp_max. intros Hm Hn Hlt.
  pose proof (digits2_bounds m) as [_ Hm']. pose proof (digits2_bounds n) as [Hn' _].
  assert (Zpos (digits2_pos n) = 53) as Hdn by lia. rewrite Hdn in Hn'.
  assert (2 ^ Zpos (digits2_pos m) <= 2 ^ 53) by (apply Z.pow_le_mono_r; lia).
  replace f with (e + (f - e)) by lia. rewrite <-p2_shift by lia.
  apply Qmult_lt_compat_r; [apply p2_pos|]. rewrite <-Zlt_Qlt.
  assert (2 ^ 1 <= 2 ^ (f - e)) by (apply Z.pow_le_mono_r; lia).
  assert (2 ^ 52 * 2 ^ 1 <= Zpos n * 2 ^ (f - e)) by (apply Z.mul_le_mono_nonneg; lia). lia.
Qed.

Lemma SFcompare_spec x y : nonneg x → nonneg y → SFcompare x y = Some (val x ?= val y)%Q.
Proof.
  intros Hx Hy.
  assert (∀ m e, (0 < val (S754_finite false m e))%Q) as Hpos
    by (intros; apply Qmult_lt_0_compat; [done|apply p2_pos]).
  destruct x as [sx| | |[] mx ex]; try done; destruct y as [sy| | |[] my ey]; try done;
    cbn [SFcompare]; f_equal; symmetry.
  - apply Qlt_alt, Hpos.
  - apply Qgt_alt, Hpos.
  - destruct (Z.compare_spec ex ey) as [->|Hlt|Hgt].
    + change (Pos.compare_cont Eq mx my) with (Zpos mx ?= Zpos my). cbn [val].
      destruct (Z.compare_spec (Zpos mx) (Zpos my)) as [->|Hlt|Hgt].
      * by apply Qeq_alt.
      * apply Qlt_alt, Qmult_lt_compat_r; [apply p2_pos|]. by rewrite <-Zlt_Qlt.
      * apply Qgt_alt, Qmult_lt_compat_r; [apply p2_pos|]. by rewrite <-Zlt_Qlt.
    + by apply Qlt_alt, val_lt_exp.
    + by apply Qgt_alt, val_lt_exp.
Qed.

Lemma f64_gtb_spec x y :
  nonneg x → nonneg y → if f64_gtb x y then (val y < val x)%Q else (val x <= val y)%Q.
Proof.
  intros Hx Hy. unfold f64_gtb, SFltb. rewrite SFcompare_spec by done.
  destruct (Qcompare_spec (val y) (val x)) as [H|H|H]; lra.
Qed.

Lemma f64_geb_spec x y :
  nonneg x → nonneg y → if f64_geb x y then (val y <= val x)%Q else (val x < val y)%Q.
Proof.
  intros Hx Hy. unfold f64_geb, SFleb. rewrite SFcompare_spec by done.
  destruct (Qcompare_spec (val y) (val x)) as [H|H|H]; lra.
Qed.

(** ** Negative numbers *)

Definition nonpos (y : float64) : bool :=
  match y with S754_zero _ | S754_nan => true | S754_finite s _ _ | S754_infinity s => s end.

Lemma round_aux_nonpos m e l : nonpos (binary_round_aux 53 1024 true m e l).
Proof. unfold binary_round_aux. repeat case_match; done. Qed.

Lemma normalize_nonpos m e : m <= 0 → nonpos (binary_normalize 53 1024 m e false).
Proof.
  intros Hm. destruct m as [|m|m]; [done|lia|]. unfold binary_normalize, binary_round.
  destruct (shl_align _ _ _). apply round_aux_nonpos.
Qed.

Lemma f64_add_nonpos x y : nonpos x → nonpos y → nonpos (f64_add x y).
Proof.
  intros Hx Hy. unfold f64_add, SFadd.
  destruct x as [[]|[]| |[] mx ex]; try done; destruct y as [[]|[]| |[] my ey]; try done.
  apply normalize_nonpos. cbn [cond_Zopp]. lia.
Qed.

Lemma f64_div_nonpos x n f : nonpos x → nonpos (f64_div x (S754_finite false n f)).
Proof.
  intros Hx. unfold f64_div, SFdiv. destruct x as [[]|[]| |[] m e]; try done.
  destruct (SFdiv_core_binary _ _ _ _ _ _) as [[? ?] ?]. apply round_aux_nonpos.
Qed.

Lemma nonpos_not_gtb y : nonpos y → f64_gtb y (f64_of_Z 0) = false.
Proof. by destruct y as [[]|[]| |[] m e]. Qed.
