(* ===== verification/Limits.v ===== *)
(** * Rate limits (gateway/internal/limits)

    The keyed token bucket, the limiter that combines the committee and the
    global bucket, and what they grant. Instants are nanoseconds; the mutex of
    a keyed bucket makes each of its [Allow]s one step, so a concurrent history
    of one is a sequence of calls. The combined limiter takes two such steps. *)

From S2P Require Import Prelude GoText Float64.
From Stdlib Require Import ZArith Lia SpecFloat.
From stdpp Require Import options.

Open Scope Z_scope.
Open Scope list_scope.

(** ** Durations *)

(** [t.Sub(u)] saturates at the bounds of int64. *)
Definition time_Sub (t u : Z) : Z := Z.max int64_min (Z.min int64_max (t - u)).

(** [d.Seconds()]: whole seconds plus the nanoseconds that remain. *)
Definition Seconds (d : Z) : float64 :=
  f64_add (f64_of_Z (Z.quot d 1000000000))
          (f64_div (f64_of_Z (Z.rem d 1000000000)) (f64_of_Z 1000000000)).

(** ** The keyed bucket *)

Record bucket := Bucket { tokens : float64; last : Z }.

Record RateLimiter := MkRateLimiter {
  buckets : gmap string bucket;
  rate : float64;
  burst : float64;
}.

Definition NewRateLimiter (perMinute burst : Z) : RateLimiter :=
  let burst := if burst <? 1 then 1 else burst in
  {| buckets := ∅;
     rate := f64_div (f64_of_Z perMinute) (f64_of_Z 60);
     burst := f64_of_Z burst |}.

(** The bucket of a key after the refill of this call. *)
Definition refill (r : RateLimiter) (now : Z) (b : bucket) : bucket :=
  let elapsed := Seconds (time_Sub now (last b)) in
  if f64_gtb elapsed (f64_of_Z 0) then
    let t := f64_add (tokens b) (f64_mul elapsed (rate r)) in
    {| tokens := if f64_gtb t (burst r) then burst r else t; last := now |}
  else b.

Definition set_bucket (r : RateLimiter) (key : string) (b : bucket) : RateLimiter :=
  {| buckets := <[key := b]> (buckets r); rate := rate r; burst := burst r |}.

Definition bucket_of (r : RateLimiter) (now : Z) (key : string) : bucket :=
  default {| tokens := burst r; last := now |} (buckets r !! key).

Definition RateLimiter_Allow (r : RateLimiter) (now : Z) (key : string) :
    bool * RateLimiter :=
  let b := refill r now (bucket_of r now key) in
  if f64_geb (tokens b) (f64_of_Z 1) then
    (true, set_bucket r key
             {| tokens := f64_sub (tokens b) (f64_of_Z 1); last := last b |})
  else (false, set_bucket r key b).

(** ** Committee and global limits *)

Record Limiter := MkLimiter {
  committee : option RateLimiter;
  global : option RateLimiter;
}.

Definition NewLimiter (committeePerMinute committeeBurst globalPerMinute globalBurst : Z) :
    Limiter :=
  {| committee := if 0 <? committeePerMinute
                  then Some (NewRateLimiter committeePerMinute committeeBurst) else None;
     global := if 0 <? globalPerMinute
               then Some (NewRateLimiter globalPerMinute globalBurst) else None |}.

(** A dimension that is not configured grants. *)
Definition opt_Allow (r : option RateLimiter) (now : Z) (key : string) :
    bool * option RateLimiter :=
  match r with
  | None => (true, None)
  | Some r => let '(ok, r') := RateLimiter_Allow r now key in (ok, Some r')
  end.

Definition committee_key (c : string) : string :=
  if nonempty c then c else "_unknown".

(** The two halves of [Allow]: each takes the mutex of its own bucket and reads
    the clock again. *)
Definition committee_Allow (l : Limiter) (now : Z) (c : string) : bool * Limiter :=
  let '(ok, c') := opt_Allow (committee l) now (committee_key c) in
  (ok, {| committee := c'; global := global l |}).

Definition global_Allow (l : Limiter) (now : Z) : bool * Limiter :=
  let '(ok, g') := opt_Allow (global l) now "_global" in
  (ok, {| committee := committee l; global := g' |}).

(** [now] is the clock at the committee's bucket, [now'] at the global one. *)
Definition Limiter_Allow (l : Limiter) (now now' : Z) (c : string) : bool * Limiter :=
  let '(ok, l) := committee_Allow l now c in
  if ok then global_Allow l now' else (false, l).

(** Calls made one after the other at one instant. *)
Fixpoint Allow_n (n : nat) (r : RateLimiter) (now : Z) (key : string) :
    list bool * RateLimiter :=
  match n with
  | O => ([], r)
  | S n => let '(ok, r1) := RateLimiter_Allow r now key in
           let '(oks, r2) := Allow_n n r1 now key in (ok :: oks, r2)
  end.

(** ** Lemmas *)

Lemma Seconds_0 : Seconds 0 = f64_of_Z 0.
Proof. reflexivity. Qed.

Lemma time_Sub_same t : time_Sub t t = 0.
Proof. unfold time_Sub, int64_min, int64_max. lia. Qed.

(** No time has passed, so nothing is refilled. *)
Lemma refill_same r now b : last b = now → refill r now b = b.
Proof. intros <-. unfold refill. by rewrite time_Sub_same, Seconds_0. Qed.

Lemma lookup_set_bucket r key b : buckets (set_bucket r key b) !! key = Some b.
Proof. apply lookup_insert_eq. Qed.

(** A call of one key leaves every other key alone. *)
Lemma Allow_other_key r now key key' :
  key ≠ key' → buckets (RateLimiter_Allow r now key).2 !! key' = buckets r !! key'.
Proof.
  intros Hne. unfold RateLimiter_Allow. case_match; simpl; by rewrite lookup_insert_ne.
Qed.

Lemma Allow_config r now key :
  rate (RateLimiter_Allow r now key).2 = rate r ∧
  burst (RateLimiter_Allow r now key).2 = burst r.
Proof. unfold RateLimiter_Allow. by case_match. Qed.

(** The state of a key that holds [n] whole tokens since [now]. *)
Definition holds (r : RateLimiter) (now : Z) (key : string) (n : Z) : Prop :=
  bucket_of r now key = {| tokens := f64_of_Z n; last := now |}.

Lemma holds_Allow r now key n :
  0 <= n < 2 ^ 53 → holds r now key n →
  (RateLimiter_Allow r now key).1 = (1 <=? n) ∧
  holds (RateLimiter_Allow r now key).2 now key (if 1 <=? n then n - 1 else n).
Proof.
  unfold holds, RateLimiter_Allow. intros Hn ->. rewrite refill_same by done.
  cbn [tokens last]. rewrite f64_geb_one by done.
  destruct (1 <=? n) eqn:H1; (split; [done|]);
    unfold bucket_of; cbn [snd]; rewrite lookup_set_bucket; [|done].
  bools. by rewrite f64_sub_one by lia.
Qed.

Lemma Allow_n_holds k r now key n :
  0 <= n < 2 ^ 53 → holds r now key n →
  (Allow_n k r now key).1 =
    replicate (k `min` Z.to_nat n) true ++ replicate (k - Z.to_nat n) false.
Proof.
  revert r n. induction k as [|k IH]; intros r n Hn Hh; simpl; [done|].
  destruct (holds_Allow r now key n Hn Hh) as [Hok Hh'].
  destruct (RateLimiter_Allow r now key) as [ok r1]. simpl in Hok, Hh'. subst ok.
  specialize (IH r1 (if 1 <=? n then n - 1 else n)).
  destruct (Allow_n k r1 now key) as [oks r2]. simpl in *.
  rewrite IH; [|destruct (1 <=? n) eqn:?; bools; lia|done].
  destruct (1 <=? n) eqn:H1; bools.
  - destruct (Z.to_nat n) as [|m] eqn:Hm; [lia|].
    by replace (Z.to_nat (n - 1)) with m by lia.
  - assert (n = 0) as -> by lia. simpl. rewrite Nat.min_0_r, Nat.sub_0_r. done.
Qed.

Lemma NewRateLimiter_holds perMinute b now key :
  holds (NewRateLimiter perMinute b) now key (Z.max 1 b).
Proof.
  unfold holds, bucket_of, NewRateLimiter. cbn [buckets burst]. rewrite lookup_empty. simpl.
  do 2 f_equal. destruct (b <? 1) eqn:?; bools; lia.
Qed.

(** ** What the limiter grants *)

(** A fresh limiter grants exactly max(1, burst) of the calls that arrive at one
    instant for a key and refuses the rest, in IEEE double arithmetic. *)
Theorem burst_exact perMinute b now key k :
  b < 2 ^ 53 →
  (Allow_n k (NewRateLimiter perMinute b) now key).1 =
    replicate (k `min` Z.to_nat (Z.max 1 b)) true ++
    replicate (k - Z.to_nat (Z.max 1 b)) false.
Proof. intros. apply Allow_n_holds; [lia|]. apply NewRateLimiter_holds. Qed.

Lemma burst_exact_witness :
  (Allow_n 5 (NewRateLimiter 120 3) 1000 "finance").1 = [true; true; true; false; false].
Proof. rewrite burst_exact; [reflexivity|lia]. Defined.

Theorem global_denial_spends_committee_token l now now' c rc rc' :
  committee l = Some rc →
  RateLimiter_Allow rc now (committee_key c) = (true, rc') →
  (opt_Allow (global l) now' "_global").1 = false →
  (Limiter_Allow l now now' c).1 = false ∧
  committee (Limiter_Allow l now now' c).2 = Some rc'.
Proof.
  intros Hl Ha Hg. unfold Limiter_Allow, committee_Allow, global_Allow. rewrite Hl. cbn [opt_Allow].
  rewrite Ha. cbn [global committee]. by destruct (opt_Allow (global l) now' "_global") as [[] ?].
Qed.
