(* ===== verification/LimitsTime.v ===== *)
(** * Rate limits over time

    What the token buckets of Limits.v grant over a stretch of time and after a
    wait, in the doubles they are computed with: the rounding errors of
    Rounding.v stay below one token. *)

From S2P Require Import Prelude GoText Float64 Rounding Limits.
From Stdlib Require Import ZArith Lia SpecFloat QArith Qpower Lqa.
From stdpp Require Import options.

Open Scope Z_scope.
Open Scope list_scope.

(** An inequality between rational constants. *)
Ltac q_const :=
  lazymatch goal with
  | |- (_ <= _)%Q => apply Qle_bool_iff; vm_compute; reflexivity
  | |- (_ < _)%Q => apply Qlt_alt; vm_compute; reflexivity
  end.

(** ** Relative errors *)

(** [y] is [x] up to a relative error of [a]. *)
Definition near (a y x : Q) : Prop := (x * (1 - a) <= y)%Q ∧ (y <= x * (1 + a))%Q.

#[export] Instance near_Proper : Proper (Qeq ==> Qeq ==> Qeq ==> iff) near.
Proof. intros a a' Ha y y' Hy x x' Hx. unfold near. by rewrite Ha, Hy, Hx. Qed.

Lemma near_refl x : near 0 x x.
Proof. split; lra. Qed.

Lemma near_weaken a b y x : (0 <= x)%Q → (a <= b)%Q → near a y x → near b y x.
Proof. unfold near. intros Hx Hab [H1 H2]. assert (0 <= x * (b - a))%Q by nra. split; nra. Qed.

Lemma near_nonneg a y x : (0 <= x)%Q → (a <= 1)%Q → near a y x → (0 <= y)%Q.
Proof. unfold near. intros Hx Ha [H _]. nra. Qed.

Lemma near_trans a b z y x :
  (0 <= x)%Q → (0 <= a <= 1)%Q → (0 <= b <= 1)%Q → near a y x → near b z y → near (a + b + a * b) z x.
Proof.
  unfold near. intros Hx [Ha Ha1] [Hb Hb1] [H1 H2] [H3 H4].
  assert (x * (1 - a) * (1 - b) <= y * (1 - b))%Q by (apply Qmult_le_compat_r; lra).
  assert (y * (1 + b) <= x * (1 + a) * (1 + b))%Q by (apply Qmult_le_compat_r; lra).
  assert (0 <= x * (a * b))%Q by (apply Qmult_le_0_compat; [done|by apply Qmult_le_0_compat]).
  split; lra.
Qed.

Lemma near_mult a b y y' x x' :
  (0 <= x)%Q → (0 <= x')%Q → (0 <= a <= 1)%Q → (0 <= b <= 1)%Q →
  near a y x → near b y' x' → near (a + b + a * b) (y * y') (x * x').
Proof.
  intros Hx Hx' Ha Hb Hy Hy'.
  assert (0 <= y)%Q as Hy0 by (apply (near_nonneg a y x); [done|apply Ha|done]).
  apply (near_trans a b (y * y') (y * x')); [by apply Qmult_le_0_compat|done|done| |].
  - destruct Hy as [H1 H2]. split.
    + apply Qle_trans with (x * (1 - a) * x')%Q; [lra|]. by apply Qmult_le_compat_r.
    + apply Qle_trans with (x * (1 + a) * x')%Q; [|lra]. by apply Qmult_le_compat_r.
  - destruct Hy' as [H1 H2]. split.
    + rewrite <-Qmult_assoc, !(Qmult_comm y). by apply Qmult_le_compat_r.
    + rewrite <-Qmult_assoc, !(Qmult_comm y). by apply Qmult_le_compat_r.
Qed.

Lemma near_plus a y y' x x' : near a y x → near a y' x' → near a (y + y') (x + x').
Proof. unfold near. intros [] []. split; lra. Qed.

(** ** The float operations on what a limiter computes with *)

(** Far from the bounds of the exponent an operation is off by a factor only. *)
Definition mid (x : Q) : Prop := (p2 (-1000) <= x)%Q ∧ (x < p2 1023)%Q.

(** Two units in the last place. *)
Definition ulp : Q := p2 (-51).

Definition close (a : Q) (y : float64) (x : Q) : Prop := nonneg y ∧ near a (val y) x.

Lemma rounded_close y x : rounded y x → mid x → close ulp y x.
Proof.
  intros Hr [Hl Hu]. destruct (rounded_finite y x Hr Hu) as (Hn & Hup & Hlo). split; [done|].
  assert (tiny <= x * u)%Q as Ht.
  { apply Qle_trans with (p2 (-1000) * u)%Q; [done|]. by apply Qmult_le_compat_r. }
  assert (ulp == u + u)%Q as Hulp by done. unfold near. rewrite Hulp. split; lra.
Qed.

(** The sizes that occur here. *)
Definition sane (x : Q) : Prop := (1 # 10 ^ 40 <= x)%Q ∧ (x <= inject_Z (2 ^ 300))%Q.

Lemma near_mid a z x : near a z x → (0 <= a <= 1 # 2)%Q → sane x → mid z.
Proof.
  unfold near. intros [Hl Hu] [Ha0 Ha] [H1 H2]. assert (0 <= x)%Q as Hx by (eapply Qle_trans; [|exact H1]; done).
  assert (x * a <= x * (1 # 2))%Q by (rewrite !(Qmult_comm x); by apply Qmult_le_compat_r).
  split.
  - apply Qle_trans with ((1 # 10 ^ 40) * (1 # 2))%Q; [q_const|lra].
  - apply Qle_lt_trans with (inject_Z (2 ^ 300) * (3 # 2))%Q; [lra|q_const].
Qed.

(** The result of an operation on operands that are themselves off. *)
Lemma rounded_near a b y z x :
  rounded y z → near a z x → sane x → (0 <= a <= 1 # 2)%Q → (a + ulp + a * ulp <= b)%Q →
  close b y x.
Proof.
  intros Hr Hn Hx Ha Hb. destruct (rounded_close y z Hr) as [Hy Hc]; [by eapply near_mid|].
  split; [done|]. assert (0 <= x)%Q by (eapply Qle_trans; [|apply Hx]; done).
  eapply near_weaken; [done|exact Hb|]. apply near_trans with z; [done| | |done|done].
  - split; [apply Ha|]. apply Qle_trans with (1 # 2)%Q; [apply Ha|done].
  - split; q_const.
Qed.

Lemma int_exact n : 0 <= n < 2 ^ 53 → nonneg (f64_of_Z n) ∧ (val (f64_of_Z n) == inject_Z n)%Q.
Proof.
  intros [H0 Hn]. destruct n as [|n|n]; [done| |lia]. rewrite f64_of_Z_pos by done.
  pose proof (digits2_small n Hn) as Hd. set (d := Zpos (digits2_pos n)) in *.
  assert (0 < Zpos n * 2 ^ (53 - d)) by (apply Z.mul_pos_pos; [|apply Z.pow_pos_nonneg]; lia).
  unfold int_float. cbn [nonneg val]. fold d. rewrite (digits2_shift n _ (53 - d)).
  2: lia. 2: by rewrite Z2Pos.id.
  rewrite Z2Pos.id by done. fold d. split; [rewrite fexp_max; lia|].
  rewrite p2_shift by lia. replace (d - 53 + (53 - d)) with 0 by lia. apply Qmult_1_r.
Qed.

Lemma int_le a b : a <= b → (inject_Z a <= inject_Z b)%Q.
Proof. by rewrite <-Zle_Qle. Qed.

Lemma int_close n : 1 <= n <= 2 ^ 63 → close ulp (f64_of_Z n) (inject_Z n).
Proof.
  intros Hn. apply (rounded_near 0 _ _ (inject_Z n)); [apply f64_of_Z_spec; lia|apply near_refl| |split; q_const|q_const].
  split.
  - apply Qle_trans with (inject_Z 1); [done|]. apply int_le. lia.
  - apply int_le. lia.
Qed.

(** [d] nanoseconds in seconds *)
Definition secs (d : Z) : Q := (inject_Z d * (1 # 1000000000))%Q.

Lemma secs_plus a b : (secs (a + b) == secs a + secs b)%Q.
Proof. unfold secs. rewrite inject_Z_plus. ring. Qed.

Lemma secs_le a b : a <= b → (secs a <= secs b)%Q.
Proof. intros. apply Qmult_le_compat_r; [by apply int_le|done]. Qed.

Lemma int_nonneg n : 0 <= n → (0 <= inject_Z n)%Q.
Proof. apply int_le. Qed.

Lemma secs_nonneg d : 0 <= d → (0 <= secs d)%Q.
Proof. intros. apply Qmult_le_0_compat; [by apply int_nonneg|done]. Qed.

Lemma secs_sane d : 1 <= d <= 2 ^ 63 → sane (secs d).
Proof.
  intros Hd. split.
  - apply Qle_trans with (secs 1); [q_const|]. apply secs_le. lia.
  - apply Qle_trans with (secs (2 ^ 63)); [|q_const]. apply secs_le. lia.
Qed.

Lemma frac_close r : 0 <= r < 1000000000 →
  close ulp (f64_div (f64_of_Z r) (f64_of_Z 1000000000)) (secs r).
Proof.
  intros Hr. destruct (decide (r = 0)) as [->|Hr0]; [split; [done|split; q_const]|].
  destruct (int_exact r) as [Hrn Hrv]; [lia|].
  pose proof (f64_div_spec _ (f64_of_Z 1000000000) Hrn eq_refl eq_refl) as Hs.
  assert (/ val (f64_of_Z 1000000000) == 1 # 1000000000)%Q as Hinv by (vm_compute; reflexivity).
  unfold Qdiv in Hs. rewrite Hrv, Hinv in Hs.
  apply (rounded_near 0 _ _ (secs r)); [done|apply near_refl|apply secs_sane; lia|split; q_const|q_const].
Qed.

Lemma Seconds_close d : 1 <= d <= int64_max → close (p2 (-49)) (Seconds d) (secs d).
Proof.
  unfold int64_max. intros Hd. unfold Seconds.
  assert (0 <= Z.quot d 1000000000 < 2 ^ 53) as Hq.
  { rewrite Z.quot_div_nonneg by lia. split; [apply Z.div_pos; lia|]. apply Z.div_lt_upper_bound; lia. }
  assert (0 <= Z.rem d 1000000000 < 1000000000) as Hr by (apply Z.rem_bound_pos; lia).
  pose proof (Z.quot_rem' d 1000000000) as Hqr.
  set (q := Z.quot d 1000000000) in *. set (r := Z.rem d 1000000000) in *.
  destruct (int_exact q Hq) as [Hqn Hqv]. destruct (frac_close r Hr) as [Hrn Hrc].
  assert (near ulp (val (f64_of_Z q) + val (f64_div (f64_of_Z r) (f64_of_Z 1000000000))) (secs d)) as Hn.
  { rewrite Hqv. assert (secs d == inject_Z q + secs r)%Q as ->.
    { rewrite Hqr, secs_plus. unfold secs at 1. rewrite inject_Z_mult.
      change (inject_Z 1000000000) with (1000000000 # 1)%Q. ring. }
    apply near_plus; [|done]. apply near_weaken with 0%Q; [|q_const|apply near_refl].
    apply int_nonneg. lia. }
  apply (rounded_near ulp _ _ _ (secs d) (f64_add_spec _ _ Hqn Hrn) Hn); [apply secs_sane; lia|split; q_const|q_const].
Qed.

Lemma zero_nonneg : nonneg (f64_of_Z 0).
Proof. done. Qed.

Lemma Seconds_pos d : 1 <= d <= int64_max → f64_gtb (Seconds d) (f64_of_Z 0) = true.
Proof.
  intros Hd. destruct (Seconds_close d Hd) as [Hn [Hl _]].
  pose proof (f64_gtb_spec _ _ Hn zero_nonneg) as Hg. destruct (f64_gtb _ _); [done|].
  assert (0 < secs d)%Q. { apply Qlt_le_trans with (secs 1); [q_const|]. apply secs_le. lia. }
  assert (0 < secs d * (1 - p2 (-49)))%Q by (apply Qmult_lt_0_compat; [done|q_const]).
  change (val (f64_of_Z 0)) with 0%Q in Hg. lra.
Qed.

Lemma Seconds_neg d : d <= 0 → f64_gtb (Seconds d) (f64_of_Z 0) = false.
Proof.
  intros Hd. apply nonpos_not_gtb. unfold Seconds. apply f64_add_nonpos.
  - apply normalize_nonpos. pose proof (Z.quot_opp_l d 1000000000).
    pose proof (Z.quot_pos (- d) 1000000000). lia.
  - change (f64_of_Z 1000000000) with (S754_finite false 8388608000000000 (-23)).
    apply f64_div_nonpos, normalize_nonpos. apply Z.rem_nonpos; lia.
Qed.

(** ** A bucket *)

Section key.
Context (perMin B : Z) (r : RateLimiter).
Hypothesis Hper : 1 <= perMin <= 2 ^ 63.
Hypothesis HB : 1 <= B <= 2 ^ 50.
Hypothesis Hrate : rate r = f64_div (f64_of_Z perMin) (f64_of_Z 60).
Hypothesis Hburst : burst r = f64_of_Z B.

(** The tokens earned in [d] nanoseconds *)
Definition earned (d : Z) : Q := (secs d * (inject_Z perMin * (1 # 60)))%Q.

Lemma rate_close : close (p2 (-49)) (rate r) (inject_Z perMin * (1 # 60)).
Proof using Hper Hrate.
  rewrite Hrate. destruct (int_close perMin Hper) as [Hn Hc].
  pose proof (f64_div_spec _ (f64_of_Z 60) Hn eq_refl eq_refl) as Hs.
  assert (/ val (f64_of_Z 60) == 1 # 60)%Q as Hinv by (vm_compute; reflexivity).
  unfold Qdiv in Hs. rewrite Hinv in Hs.
  apply (rounded_near ulp _ _ _ _ Hs); [|split|split; q_const|q_const].
  - destruct Hc. split; lra.
  - apply Qle_trans with (inject_Z 1 * (1 # 60))%Q; [q_const|].
    apply Qmult_le_compat_r; [apply int_le; lia|done].
  - apply Qle_trans with (inject_Z (2 ^ 63) * (1 # 60))%Q; [|q_const].
    apply Qmult_le_compat_r; [apply int_le; lia|done].
Qed.

Lemma earned_sane d : 1 <= d <= int64_max → sane (earned d).
Proof using Hper.
  unfold int64_max. intros Hd. assert (0 <= secs d)%Q by (apply secs_nonneg; lia).
  assert (0 <= inject_Z perMin * (1 # 60))%Q by (apply Qmult_le_0_compat; [apply int_nonneg; lia|done]).
  split.
  - apply Qle_trans with (secs 1 * (inject_Z 1 * (1 # 60)))%Q; [q_const|].
    apply Qmult_le_compat_nonneg; (split; [done || q_const|]); [apply secs_le; lia|].
    apply Qmult_le_compat_r; [apply int_le; lia|done].
  - apply Qle_trans with (secs (2 ^ 63) * (inject_Z (2 ^ 63) * (1 # 60)))%Q; [|q_const].
    apply Qmult_le_compat_nonneg; (split; [done|]); [apply secs_le; lia|].
    apply Qmult_le_compat_r; [apply int_le; lia|done].
Qed.

Lemma earned_close d :
  1 <= d <= int64_max → close (p2 (-47)) (f64_mul (Seconds d) (rate r)) (earned d).
Proof using Hper Hrate.
  intros Hd. destruct (Seconds_close d Hd) as [Hs Hsc], rate_close as [Hr Hrc].
  apply (rounded_near (p2 (-49) + p2 (-49) + p2 (-49) * p2 (-49)) _ _ _ _ (f64_mul_spec _ _ Hs Hr)).
  - apply near_mult; [apply secs_nonneg; lia| |split; q_const..|done|done].
    apply Qmult_le_0_compat; [apply int_nonneg; lia|done].
  - by apply earned_sane.
  - split; q_const.
  - q_const.
Qed.

Definition bucket_ok (b : bucket) : Prop := nonneg (tokens b) ∧ (val (tokens b) <= inject_Z B)%Q.

Lemma burst_val : nonneg (burst r) ∧ (val (burst r) == inject_Z B)%Q.
Proof using HB Hburst. rewrite Hburst. apply int_exact. lia. Qed.

Lemma full_ok now : bucket_ok {| tokens := burst r; last := now |}.
Proof using HB Hburst. destruct burst_val as [Hn Hv]. split; [done|]. cbn [tokens]. rewrite Hv. lra. Qed.

Lemma refill_idle now b : now <= last b → refill r now b = b.
Proof. intros. unfold refill. rewrite Seconds_neg; [done|]. unfold time_Sub, int64_min. lia. Qed.

(** What a rounding adds to at most [B] tokens. *)
Lemma burst_bounds : (1 <= inject_Z B)%Q ∧ (inject_Z B <= inject_Z (2 ^ 50))%Q.
Proof using HB. split; [change 1%Q with (inject_Z 1)|]; apply int_le; lia. Qed.

Lemma round_slack v : (v <= inject_Z B)%Q → (v * u + tiny <= inject_Z B * ulp)%Q.
Proof using HB.
  intros Hv. assert (0 < u)%Q by apply p2_pos. assert (ulp == u + u)%Q as -> by done.
  assert (tiny <= 1 * u)%Q by q_const. pose proof burst_bounds as [HB1 _].
  assert (1 * u <= inject_Z B * u)%Q by (apply Qmult_le_compat_r; lra).
  assert (v * u <= inject_Z B * u)%Q by (apply Qmult_le_compat_r; lra). lra.
Qed.

Lemma refill_after now b d :
  bucket_ok b → d = Z.min int64_max (now - last b) → 1 <= d →
  bucket_ok (refill r now b) ∧ last (refill r now b) = now ∧
  (val (tokens (refill r now b)) <=
    val (tokens b) + earned d * (1 + p2 (-46)) + inject_Z B * ulp)%Q.
Proof using All.
  intros [Ht HtB] Hd Hd1. unfold refill.
  assert (time_Sub now (last b) = d) as -> by (unfold time_Sub, int64_min, int64_max in *; lia).
  rewrite Seconds_pos by lia. destruct (earned_close d) as [He [_ Heu]]; [lia|].
  set (e := f64_mul (Seconds d) (rate r)) in *. pose proof burst_bounds as [HB1 HB2].
  pose proof (nonneg_val _ Ht). pose proof (nonneg_val _ He).
  destruct (earned_sane d) as [Hs1 Hs2]; [lia|].
  assert (0 <= earned d)%Q as He0 by (eapply Qle_trans; [|exact Hs1]; q_const).
  assert (val e <= earned d * 2)%Q.
  { eapply Qle_trans; [exact Heu|]. rewrite !(Qmult_comm (earned d)).
    apply Qmult_le_compat_r; [q_const|done]. }
  destruct (rounded_finite _ _ (f64_add_spec _ _ Ht He)) as (Hn & Hup & _).
  { apply Qle_lt_trans with (inject_Z (2 ^ 50) + inject_Z (2 ^ 300) * 2)%Q; [lra|q_const]. }
  set (t := f64_add (tokens b) e) in *.
  assert (val t <= val (tokens b) + earned d * (1 + p2 (-46)) + inject_Z B * ulp)%Q as Hbound.
  { assert (0 < u)%Q by apply p2_pos. pose proof (round_slack _ HtB).
    assert (val e * u <= earned d * 2 * u)%Q by (apply Qmult_le_compat_r; lra).
    assert (earned d * (p2 (-47) + 2 * u) <= earned d * p2 (-46))%Q
      by (rewrite !(Qmult_comm (earned d)); apply Qmult_le_compat_r; [q_const|done]).
    lra. }
  destruct burst_val as [Hbn Hbv]. pose proof (f64_gtb_spec t (burst r) Hn Hbn) as Hg.
  destruct (f64_gtb t (burst r)); rewrite Hbv in Hg; cbn [tokens last].
  - split; [apply full_ok|]. split; [done|]. rewrite Hbv. lra.
  - by repeat split.
Qed.

Lemma earned_int d : (earned d == inject_Z (perMin * d) * (1 # 60000000000))%Q.
Proof. unfold earned, secs. rewrite inject_Z_mult. ring. Qed.

(** The time of a token, and a sixtieth of it for the rounding, earns one. *)
Lemma refill_waited now b d :
  bucket_ok b → d = Z.min int64_max (now - last b) → 1 <= d → 61000000000 <= perMin * d →
  (1 <= val (tokens (refill r now b)))%Q.
Proof using All.
  intros [Ht HtB] Hd Hd1 Hw. unfold refill.
  assert (time_Sub now (last b) = d) as -> by (unfold time_Sub, int64_min, int64_max in *; lia).
  rewrite Seconds_pos by lia. destruct (earned_close d) as [He [Hel _]]; [lia|].
  set (e := f64_mul (Seconds d) (rate r)) in *. pose proof burst_bounds as [HB1 HB2].
  pose proof (nonneg_val _ Ht).
  destruct burst_val as [Hbn Hbv].
  destruct (f64_add_spec _ _ Ht He) as [[Hinf Hlarge]|(Hn & _ & Hlo)].
  - rewrite Hinf. destruct (burst r) as [|[]| |[] m f]; try done; cbn [f64_gtb tokens]; by rewrite Hbv.
  - set (t := f64_add (tokens b) e) in *.
    assert (61 # 60 <= earned d)%Q.
    { rewrite earned_int. apply Qle_trans with (inject_Z 61000000000 * (1 # 60000000000))%Q; [q_const|].
      apply Qmult_le_compat_r; [by apply int_le|done]. }
    assert ((61 # 60) * (1 - p2 (-47)) <= earned d * (1 - p2 (-47)))%Q by (by apply Qmult_le_compat_r).
    assert (((61 # 60) * (1 - p2 (-47))) * (1 - u) <= (val (tokens b) + val e) * (1 - u))%Q
      by (apply Qmult_le_compat_r; [lra|q_const]).
    assert (1 <= (61 # 60) * (1 - p2 (-47)) * (1 - u) - tiny)%Q by q_const.
    destruct (f64_gtb t (burst r)); cbn [tokens]; [by rewrite Hbv|lra].
Qed.

(** A call that is granted takes one token. *)
Lemma consume_ok b :
  bucket_ok b → f64_geb (tokens b) (f64_of_Z 1) = true →
  bucket_ok {| tokens := f64_sub (tokens b) (f64_of_Z 1); last := last b |} ∧
  (val (f64_sub (tokens b) (f64_of_Z 1)) <= val (tokens b) - 1 + inject_Z B * ulp)%Q.
Proof using HB.
  intros [Ht HtB] Hg. pose proof (f64_geb_spec (tokens b) (f64_of_Z 1) Ht eq_refl) as H1. rewrite Hg in H1.
  assert (val (f64_of_Z 1) == 1)%Q as Hv1 by (vm_compute; reflexivity).
  pose proof (f64_sub_spec (tokens b) (f64_of_Z 1) Ht eq_refl H1) as Hs. rewrite Hv1 in Hs, H1.
  pose proof burst_bounds as [HB1 HB2].
  destruct (rounded_finite _ _ Hs) as (Hn & Hup & _).
  { apply Qle_lt_trans with (inject_Z (2 ^ 50)); [lra|q_const]. }
  assert (0 < u)%Q by apply p2_pos. pose proof (round_slack _ HtB).
  assert (inject_Z B * ulp <= inject_Z (2 ^ 50) * ulp)%Q by (apply Qmult_le_compat_r; [lra|q_const]).
  assert (inject_Z (2 ^ 50) * ulp <= 1 # 2)%Q by q_const.
  split; [split; [done|]|]; cbn [tokens]; lra.
Qed.

Lemma earned_plus a b : (earned (a + b) == earned a + earned b)%Q.
Proof. unfold earned. rewrite secs_plus. ring. Qed.

Lemma earned_le a b : a <= b → (earned a <= earned b)%Q.
Proof using Hper.
  intros. apply Qmult_le_compat_r; [by apply secs_le|].
  apply Qmult_le_0_compat; [apply int_nonneg; lia|done].
Qed.

(** ** A window of time

    From [t0] on, the tokens granted and those left are at most a full bucket,
    what the time since [t0] has earned, and the rounding errors of the
    operations so far. *)

Context (t0 t1 : Z).

Definition spent (g c : Z) (b : bucket) : Prop :=
  t0 <= last b <= t1 ∧
  (inject_Z g + val (tokens b) <=
    inject_Z B + earned (last b - t0) * (1 + p2 (-46)) + inject_Z (c * B) * ulp)%Q.

Definition bucket_inv (g c : Z) (b : bucket) : Prop :=
  bucket_ok b ∧ (last b <= t0 ∧ g = 0 ∨ spent g c b).

Lemma slack_succ c : (inject_Z ((c + 1) * B) * ulp == inject_Z (c * B) * ulp + inject_Z B * ulp)%Q.
Proof. rewrite Z.mul_add_distr_r, Z.mul_1_l, inject_Z_plus. ring. Qed.

Lemma slack_nonneg c : 0 <= c → (0 <= inject_Z (c * B) * ulp)%Q.
Proof using HB. intros. apply Qmult_le_0_compat; [apply int_nonneg, Z.mul_nonneg_nonneg; lia|q_const]. Qed.

Lemma spent_full c now b :
  0 <= c → t0 <= now <= t1 → bucket_ok b → last b = now → spent 0 c b.
Proof using HB Hper.
  intros Hc Hnow [_ HtB] Hl. split; [lia|]. pose proof (slack_nonneg c Hc).
  assert (0 <= earned (last b - t0))%Q.
  { apply Qle_trans with (earned 0); [done|]. apply earned_le. lia. }
  assert (0 <= earned (last b - t0) * (1 + p2 (-46)))%Q by (by apply Qmult_le_0_compat).
  change (inject_Z 0) with 0%Q. lra.
Qed.

Lemma refill_inv g c now b :
  0 <= c → t0 <= now <= t1 → bucket_inv g c b →
  bucket_ok (refill r now b) ∧ spent g (c + 1) (refill r now b).
Proof using All.
  intros Hc Hnow [Hok Hinv]. destruct (Z.le_gt_cases now (last b)) as [Hle|Hlt].
  - rewrite refill_idle by done. split; [done|]. destruct Hinv as [[Hl ->]|[Hl Hsp]].
    + apply spent_full with now; (done || lia).
    + split; [done|]. rewrite slack_succ. pose proof (slack_nonneg 1 ltac:(lia)) as H1.
      rewrite Z.mul_1_l in H1. lra.
  - set (d := Z.min int64_max (now - last b)).
    destruct (refill_after now b d Hok eq_refl) as (Hok' & Hl' & Hup); [unfold int64_max in *; lia|].
    split; [done|]. destruct Hinv as [[Hl ->]|[Hl Hsp]].
    + apply spent_full with now; (done || lia).
    + split; [lia|]. rewrite slack_succ, Hl'.
      assert (earned (last b - t0) * (1 + p2 (-46)) + earned d * (1 + p2 (-46)) <=
              earned (now - t0) * (1 + p2 (-46)))%Q; [|lra].
      rewrite <-Qmult_plus_distr_l, <-earned_plus. apply Qmult_le_compat_r; [|done].
      apply earned_le. lia.
Qed.

Lemma consume_inv g c b :
  bucket_ok b → spent g c b → f64_geb (tokens b) (f64_of_Z 1) = true →
  bucket_inv (g + 1) (c + 1) {| tokens := f64_sub (tokens b) (f64_of_Z 1); last := last b |}.
Proof using HB.
  intros Hok [Hl Hsp] Hg. destruct (consume_ok b Hok Hg) as [Hok' Hup]. split; [done|]. right.
  split; [done|]. cbn [tokens last]. rewrite slack_succ, inject_Z_plus. change (inject_Z 1) with 1%Q. lra.
Qed.

Lemma spent_mono g c c' b : c <= c' → spent g c b → spent g c' b.
Proof using HB.
  intros Hc [Hl Hsp]. split; [done|].
  assert (inject_Z (c * B) * ulp <= inject_Z (c' * B) * ulp)%Q; [|lra].
  apply Qmult_le_compat_r; [|q_const]. apply int_le. apply Z.mul_le_mono_nonneg_r; lia.
Qed.

(** What is left of the key's bucket, if it has one yet. *)
Definition key_inv (g c : Z) (key : string) : Prop :=
  match buckets r !! key with None => g = 0 | Some b => bucket_inv g c b end.
End key.

(** ** Sequences of calls *)

(** The calls of a list, one after the other: an instant and a key each. *)
Fixpoint after_calls (calls : list (Z * string)) (r : RateLimiter) : RateLimiter :=
  match calls with
  | [] => r
  | (now, key) :: calls => after_calls calls (RateLimiter_Allow r now key).2
  end.

(** How many calls of a key are granted. *)
Fixpoint grants (key : string) (calls : list (Z * string)) (r : RateLimiter) : Z :=
  match calls with
  | [] => 0
  | (now, k) :: calls =>
      let '(ok, r') := RateLimiter_Allow r now k in
      (if ok && bool_decide (k = key) then 1 else 0) + grants key calls r'
  end.

Definition configured (perMin B : Z) (r : RateLimiter) : Prop :=
  rate r = f64_div (f64_of_Z perMin) (f64_of_Z 60) ∧ burst r = f64_of_Z B.

Lemma Allow_configured perMin B r now key :
  configured perMin B r → configured perMin B (RateLimiter_Allow r now key).2.
Proof. unfold configured. by destruct (Allow_config r now key) as [-> ->]. Qed.

Lemma after_calls_configured perMin B calls r :
  configured perMin B r → configured perMin B (after_calls calls r).
Proof.
  revert r. induction calls as [|[now k] calls IH]; intros r Hr; [done|]. by apply IH, Allow_configured.
Qed.

Section window.
Context (perMin B t0 t1 : Z).
Hypothesis Hper : 1 <= perMin <= 2 ^ 63.
Hypothesis HB : 1 <= B <= 2 ^ 50.

Lemma Allow_key_inv r now key g c :
  configured perMin B r → 0 <= c → t0 <= now <= t1 → key_inv perMin B r t0 t1 g c key →
  key_inv perMin B (RateLimiter_Allow r now key).2 t0 t1
    (g + if (RateLimiter_Allow r now key).1 then 1 else 0) (c + 2) key.
Proof using Hper HB.
  intros [Hrate Hburst] Hc Hnow Hk.
  assert (bucket_ok B (refill r now (bucket_of r now key)) ∧
          spent perMin B t0 t1 g (c + 1) (refill r now (bucket_of r now key))) as [Hok Hsp].
  { unfold key_inv, bucket_of in *. destruct (buckets r !! key) as [b|]; cbn [default].
    - by apply refill_inv.
    - subst g. rewrite refill_same by done. pose proof (full_ok B r HB Hburst now) as Hok.
      split; [done|]. apply (spent_full perMin B Hper HB t0 t1 (c + 1) now); (done || lia). }
  unfold RateLimiter_Allow, key_inv. set (b := refill r now (bucket_of r now key)) in *.
  destruct (f64_geb (tokens b) (f64_of_Z 1)) eqn:Hg; cbn [fst snd]; rewrite lookup_set_bucket.
  - replace (c + 2) with (c + 1 + 1) by lia. by apply consume_inv.
  - split; [done|]. right. rewrite Z.add_0_r. by apply spent_mono with (c + 1); [|lia|].
Qed.

Lemma Allow_other_inv r now k g c key :
  k ≠ key → key_inv perMin B r t0 t1 g c key →
  key_inv perMin B (RateLimiter_Allow r now k).2 t0 t1 g (c + 2) key.
Proof using HB.
  intros Hne. unfold key_inv. rewrite Allow_other_key by done.
  destruct (buckets r !! key) as [b|]; [|done]. intros [Hok [Hl|Hsp]]; (split; [done|]); [by left|].
  right. by apply spent_mono with c; [|lia|].
Qed.

Lemma grants_bound calls key r g c :
  configured perMin B r → 0 <= g → 0 <= c → Forall (λ '(now, _), t0 <= now <= t1) calls →
  key_inv perMin B r t0 t1 g c key →
  key_inv perMin B (after_calls calls r) t0 t1 (g + grants key calls r)
    (c + 2 * Z.of_nat (length calls)) key.
Proof using Hper HB.
  revert r g c. induction calls as [|[now k] calls IH]; intros r g c Hr Hg Hc Hall Hk.
  - cbn [after_calls grants length]. by rewrite !Z.add_0_r.
  - apply Forall_cons in Hall as [Hnow Hall]. cbn [after_calls grants length].
    pose proof (Allow_configured perMin B r now k Hr) as Hr'.
    assert (key_inv perMin B (RateLimiter_Allow r now k).2 t0 t1
      (g + if (RateLimiter_Allow r now k).1 && bool_decide (k = key) then 1 else 0) (c + 2) key) as Hk'.
    { destruct (decide (k = key)) as [->|Hne].
      - rewrite bool_decide_true, andb_true_r by done. by apply Allow_key_inv.
      - rewrite bool_decide_false, andb_false_r, Z.add_0_r by done. by apply Allow_other_inv. }
    destruct (RateLimiter_Allow r now k) as [ok r'] eqn:Ha. cbn [fst snd] in *.
    rewrite Z.add_assoc. replace (c + 2 * Z.of_nat (S (length calls)))
      with (c + 2 + 2 * Z.of_nat (length calls)) by lia.
    apply IH; [done| |lia|done|done]. destruct (ok && _); lia.
Qed.

Lemma key_inv_bound r g c key :
  key_inv perMin B r t0 t1 g c key →
  g = 0 ∨ (inject_Z g <= inject_Z B + earned perMin (t1 - t0) * (1 + p2 (-46)) + inject_Z (c * B) * ulp)%Q.
Proof using Hper.
  unfold key_inv. destruct (buckets r !! key) as [b|]; [|by left].
  intros [[Hn _] [[_ ->]|[Hl Hsp]]]; [by left|right].
  pose proof (nonneg_val _ Hn).
  assert (earned perMin (last b - t0) * (1 + p2 (-46)) <= earned perMin (t1 - t0) * (1 + p2 (-46)))%Q; [|lra].
  apply Qmult_le_compat_r; [|done]. apply earned_le; [done|lia].
Qed.

(** Before the window every bucket is in order and was last refilled by [t0]. *)
Definition seen (r : RateLimiter) : Prop :=
  ∀ key b, buckets r !! key = Some b → bucket_ok B b ∧ last b <= t0.

Lemma refill_seen r now b :
  configured perMin B r → now <= t0 → bucket_ok B b → last b <= t0 →
  bucket_ok B (refill r now b) ∧ last (refill r now b) <= t0.
Proof using Hper HB.
  intros [Hrate Hburst] Hnow Hok Hl. destruct (Z.le_gt_cases now (last b)).
  - by rewrite refill_idle.
  - destruct (refill_after perMin B r Hper HB Hrate Hburst now b _ Hok eq_refl) as (Hok' & -> & _);
      [unfold int64_max; lia|done].
Qed.

Lemma Allow_seen r now key :
  configured perMin B r → now <= t0 → seen r → seen (RateLimiter_Allow r now key).2.
Proof using Hper HB.
  intros Hr Hnow Hs.
  assert (bucket_ok B (bucket_of r now key) ∧ last (bucket_of r now key) <= t0) as [Hok0 Hl0].
  { unfold bucket_of. destruct (buckets r !! key) eqn:Hb; cbn [default]; [by apply (Hs key)|].
    split; [apply full_ok; [done|apply Hr]|done]. }
  destruct (refill_seen r now (bucket_of r now key) Hr Hnow Hok0 Hl0) as [Hok Hl].
  unfold RateLimiter_Allow. set (b := refill r now (bucket_of r now key)) in *.
  destruct (f64_geb (tokens b) (f64_of_Z 1)) eqn:Hg; cbn [snd]; intros key' b'; unfold set_bucket; cbn [buckets];
    rewrite lookup_insert_Some; intros [[_ <-]|[_ Hb]]; eauto.
  by destruct (consume_ok B HB b Hok Hg).
Qed.

(** A key that has waited long enough has a token. *)
Lemma bucket_waited r now key :
  configured perMin B r → seen r → 61000000000 <= perMin * (now - t0) →
  nonneg (tokens (refill r now (bucket_of r now key))) ∧
  (1 <= val (tokens (refill r now (bucket_of r now key))))%Q.
Proof using Hper HB.
  intros [Hrate Hburst] Hs Hw. unfold bucket_of. destruct (buckets r !! key) as [b|] eqn:Hb; cbn [default id].
  - destruct (Hs _ _ Hb) as [Hok Hl]. set (d := Z.min int64_max (now - last b)).
    assert (1 <= now - last b) by nia. assert (1 <= d) by (unfold d, int64_max; lia).
    assert (61000000000 <= perMin * d).
    { assert (perMin * (now - t0) <= perMin * (now - last b)) by (apply Z.mul_le_mono_nonneg_l; lia).
      destruct (Z.min_spec int64_max (now - last b)) as [[_ Hd]|[_ Hd]]; fold d in Hd; rewrite Hd;
        unfold int64_max; lia. }
    split; [by apply (refill_after perMin B r Hper HB Hrate Hburst now b d)|by apply (refill_waited perMin B r Hper HB Hrate Hburst now b d)].
  - rewrite refill_same by done. destruct (burst_val B r HB Hburst) as [Hn Hv]. split; [done|].
    cbn [tokens]. rewrite Hv. by apply burst_bounds.
Qed.

Lemma after_calls_seen calls r :
  configured perMin B r → Forall (λ '(now, _), now <= t0) calls → seen r →
  seen (after_calls calls r) ∧ configured perMin B (after_calls calls r).
Proof using Hper HB.
  revert r. induction calls as [|[now k] calls IH]; intros r Hr Hall Hs; [done|].
  apply Forall_cons in Hall as [Hnow Hall]. cbn [after_calls].
  apply IH; [by apply Allow_configured|done|by apply Allow_seen].
Qed.
End window.

Lemma NewRateLimiter_configured perMin b :
  configured perMin (Z.max 1 b) (NewRateLimiter perMin b).
Proof. split; [done|]. cbn. f_equal. destruct (b <? 1) eqn:?; bools; lia. Qed.

Lemma NewRateLimiter_seen perMin b B t0 : seen B t0 (NewRateLimiter perMin b).
Proof. intros key bk. cbn [NewRateLimiter buckets]. by rewrite lookup_empty. Qed.

Lemma grants_le_length key calls r : 0 <= grants key calls r <= Z.of_nat (length calls).
Proof.
  revert r. induction calls as [|[now k] calls IH]; intros r; cbn [grants length]; [done|].
  destruct (RateLimiter_Allow r now k) as [ok r']. specialize (IH r').
  destruct (ok && _); lia.
Qed.

(** The bound on rationals as one on integers. *)
Lemma window_arith perMin B g n T c :
  1 <= perMin → 1 <= B → 0 <= n → 0 <= T → n * B <= 2 ^ 48 → perMin * T <= 60000000000 * 2 ^ 45 →
  0 <= c <= 2 * n →
  (inject_Z g <= inject_Z B + earned perMin T * (1 + p2 (-46)) + inject_Z (c * B) * ulp)%Q →
  g * 60000000000 < (B + 1) * 60000000000 + perMin * T.
Proof.
  intros Hper HB Hn HT HnB HpT Hc Hg.
  assert (inject_Z (c * B) * ulp <= 1 # 4)%Q as Hs.
  { apply Qle_trans with (inject_Z (2 ^ 49) * ulp)%Q; [|q_const].
    apply Qmult_le_compat_r; [|q_const]. apply int_le. nia. }
  pose proof (earned_int perMin T) as HE.
  assert (earned perMin T * p2 (-46) <= 1 # 2)%Q as He.
  { rewrite HE. apply Qle_trans with (inject_Z (60000000000 * 2 ^ 45) * (1 # 60000000000) * p2 (-46))%Q; [|q_const].
    apply Qmult_le_compat_r; [|done]. apply Qmult_le_compat_r; [by apply int_le|done]. }
  rewrite HE in Hg, He. rewrite Zlt_Qlt, inject_Z_plus, !inject_Z_mult, inject_Z_plus in *.
  change (inject_Z 60000000000) with (60000000000 # 1)%Q. change (inject_Z 1) with 1%Q. lra.
Qed.

(** ** The combined limiter

    The global bucket sees the calls that the committee's bucket grants. *)

Lemma after_calls_app c1 c2 r : after_calls (c1 ++ c2) r = after_calls c2 (after_calls c1 r).
Proof. revert r. induction c1 as [|[now k] c1 IH]; intros r; [done|]. apply IH. Qed.

Lemma grants_app key c1 c2 r :
  grants key (c1 ++ c2) r = grants key c1 r + grants key c2 (after_calls c1 r).
Proof.
  revert r. induction c1 as [|[now k] c1 IH]; intros r; [done|].
  cbn [app grants after_calls]. destruct (RateLimiter_Allow r now k) as [ok r']. cbn [snd].
  rewrite IH. lia.
Qed.

(** The global bucket is [r0] after the calls [gs]. *)
Definition global_after (r0 : RateLimiter) (gs : list (Z * string)) (l : option Limiter) : Prop :=
  ∃ lim, l = Some lim ∧ global lim = Some (after_calls gs r0).

(** The committee's half leaves the global bucket alone. *)
Lemma committee_Allow_global lim now c : global (committee_Allow lim now c).2 = global lim.
Proof. unfold committee_Allow. by destruct (opt_Allow _ _ _). Qed.

Lemma global_Allow_global r0 gs lim now :
  global lim = Some (after_calls gs r0) →
  let gs1 := [(now, "_global"%string)] in
  global (global_Allow lim now).2 = Some (after_calls (gs ++ gs1) r0) ∧
  (if (global_Allow lim now).1 then 1 else 0) <= grants "_global" gs1 (after_calls gs r0).
Proof.
  intros Hg. cbv zeta. unfold global_Allow. rewrite Hg, after_calls_app.
  cbn [opt_Allow after_calls grants].
  destruct (RateLimiter_Allow (after_calls gs r0) now "_global") as [ok r']. cbn [fst snd global].
  split; [done|]. rewrite bool_decide_true, andb_true_r by done. lia.
Qed.

(** The calls of a window, after whatever came before it. *)
Lemma seen_window perMin B r key within t0 T :
  1 <= perMin <= int64_max → 1 <= B → 0 <= T → configured perMin B r → (B <= 2 ^ 50 → seen B t0 r) →
  Forall (λ '(now, _), t0 <= now <= t0 + T) within →
  Z.of_nat (length within) * B <= 2 ^ 48 → perMin * T <= 60000000000 * 2 ^ 45 →
  grants key within r * 60000000000 < (B + 1) * 60000000000 + perMin * T.
Proof.
  unfold int64_max. intros Hper HB1 HT Hr Hs Hwithin Hn HpT.
  destruct (decide (within = [])) as [->|Hne]; [cbn [grants]; lia|].
  assert (1 <= Z.of_nat (length within)) by (destruct within; [done|cbn [length]; lia]).
  assert (1 <= B <= 2 ^ 50) as HB by nia. specialize (Hs ltac:(lia)).
  assert (1 <= perMin <= 2 ^ 63) as Hper' by lia.
  assert (key_inv perMin B r t0 (t0 + T) 0 0 key) as Hk.
  { unfold key_inv. destruct (buckets r !! key) as [bk|] eqn:Hbk; [|done].
    destruct (Hs _ _ Hbk). split; [done|]. by left. }
  apply grants_bound with (calls := within) in Hk; [|done..].
  rewrite !Z.add_0_l in Hk. apply key_inv_bound in Hk as [->|Hk]; [nia| |done].
  replace (t0 + T - t0) with T in Hk by lia.
  apply (window_arith perMin B _ (Z.of_nat (length within)) T (2 * Z.of_nat (length within))); (done || lia).
Qed.

Lemma new_seen perMin b before t0 :
  1 <= perMin <= int64_max → Forall (λ '(now, _), now <= t0) before →
  let r := after_calls before (NewRateLimiter perMin b) in
  configured perMin (Z.max 1 b) r ∧ (Z.max 1 b <= 2 ^ 50 → seen (Z.max 1 b) t0 r).
Proof.
  intros Hper Hbefore r. unfold int64_max in Hper. pose proof (NewRateLimiter_configured perMin b) as Hc. split.
  - by apply after_calls_configured.
  - intros HB. destruct (after_calls_seen perMin (Z.max 1 b) t0 ltac:(lia) ltac:(lia) before _ Hc Hbefore);
      [apply NewRateLimiter_seen|done].
Qed.

(** ** What the limiter promises over time *)

(** C12: In any window of time a key is granted fewer calls than the burst plus one plus
    what the rate earns in the window, whatever calls of whatever keys came before and in
    whatever order of instants, although tokens are refilled and spent in IEEE doubles
    whose rounding errors add up; for calls times burst up to 2^48 and up to 2^45 tokens
    of refill. *)
Theorem window_bound perMin b key before within t0 T :
  1 <= perMin <= int64_max → 0 <= T →
  Forall (λ '(now, _), now <= t0) before → Forall (λ '(now, _), t0 <= now <= t0 + T) within →
  Z.of_nat (length within) * Z.max 1 b <= 2 ^ 48 → perMin * T <= 60000000000 * 2 ^ 45 →
  grants key within (after_calls before (NewRateLimiter perMin b)) * 60000000000 <
    (Z.max 1 b + 1) * 60000000000 + perMin * T.
Proof.
  intros Hper HT Hbefore Hwithin Hn HpT.
  destruct (new_seen perMin b before t0 Hper Hbefore) as [Hr Hs]. apply seen_window with t0; (done || lia).
Qed.

(** Two calls before the window and six in the thirty seconds of it, against
    sixty a minute with a burst of two. *)
Definition sample_before : list (Z * string) := [(0, "a"%string); (5, "b"%string)].

Definition sample_within : list (Z * string) :=
  (λ s, (10 + s * 1000000000, "a"%string)) <$> [0; 0; 0; 1; 1; 30].

Lemma window_bound_witness :
  grants "a" sample_within (after_calls sample_before (NewRateLimiter 60 2)) = 3 ∧
  grants "a" sample_within (after_calls sample_before (NewRateLimiter 60 2)) * 60000000000 <
    (2 + 1) * 60000000000 + 60 * 30000000000.
Proof.
  split; [vm_compute; reflexivity|].
  apply (window_bound 60 2 "a" sample_before sample_within 10 30000000000).
  1,2: unfold int64_max; lia. 1,2: by repeat constructor. all: vm_compute; discriminate.
Defined.

(** C13: A call that comes a token's time and a sixtieth of it after all the calls before
    is granted, whatever keys and instants these had and in whatever order: the rounding
    of the doubles never starves a key. *)
Theorem wait_restores perMin b key before t0 now :
  1 <= perMin <= int64_max → b <= 2 ^ 50 →
  Forall (λ '(now, _), now <= t0) before → 61000000000 <= perMin * (now - t0) →
  (RateLimiter_Allow (after_calls before (NewRateLimiter perMin b)) now key).1 = true.
Proof.
  intros Hper Hb Hbefore Hw. destruct (new_seen perMin b before t0 Hper Hbefore) as [[Hrate Hburst] Hs].
  set (B := Z.max 1 b) in *. set (r := after_calls before _) in *.
  assert (1 <= B <= 2 ^ 50) as HB by lia. assert (1 <= perMin <= 2 ^ 63) as Hper' by (unfold int64_max in *; lia).
  specialize (Hs ltac:(lia)).
  destruct (bucket_waited perMin B t0 Hper' HB r now key) as [Hn Hv]; [done..|].
  unfold RateLimiter_Allow. pose proof (f64_geb_spec _ (f64_of_Z 1) Hn eq_refl) as Hg.
  destruct (f64_geb _ _); [done|]. assert (val (f64_of_Z 1) == 1)%Q as H1 by (vm_compute; reflexivity).
  rewrite H1 in Hg. lra.
Qed.

(** The bucket of "a" is empty after two calls and grants again after 1.1 s. *)
Lemma wait_restores_witness :
  let r := after_calls [(0, "a"%string); (0, "a"%string)] (NewRateLimiter 60 2) in
  (RateLimiter_Allow r 0 "a").1 = false ∧ (RateLimiter_Allow r 1100000000 "a").1 = true.
Proof.
  split; [vm_compute; reflexivity|]. apply (wait_restores 60 2 "a" _ 0).
  1,2: unfold int64_max; lia. 1: by repeat constructor. vm_compute; discriminate.
Defined.
