(* ===== verification/Json.v ===== *)
(** * JSON payloads and their redaction

    [json.RawMessage] as the bytes it carries, up to the reading that
    [encoding/json] gives them, and [RedactArgs] of
    gateway/internal/policy/redact.go. *)

From S2P Require Import Prelude GoText Float64.
From Stdlib Require Import ZArith Lia SpecFloat.
From stdpp Require Import options.

(** ** Values

    A number is the float64 that decoding into [any] yields, and stands for
    the literal that encoding/json writes for it (an integer below 1e21 has no
    fraction); [JHuge] is a number literal outside the range of float64, which JSON allows and
    [json.Unmarshal] into [any] refuses. The fields of an object are in the
    order of the text, repetitions included. *)
Inductive json : Type :=
  | JNull
  | JBool (b : bool)
  | JNum (f : float64)
  | JHuge (literal : string)
  | JStr (s : string)
  | JArr (elems : list json)
  | JObj (fields : list (string * json)).

Inductive RawMessage : Type :=
  | RawEmpty                    (* nil, or no bytes *)
  | RawText (text : string)     (* bytes that are not JSON *)
  | RawJSON (j : json).

(** Decoding into [any] succeeds: every number has a float64. *)
Fixpoint decodable (j : json) : bool :=
  match j with
  | JHuge _ => false
  | JArr l => forallb decodable l
  | JObj fs => forallb (λ kv, decodable kv.2) fs
  | _ => true
  end.

(** Decoding into a map: the last field of a name wins. *)
Definition field_map (fs : list (string * json)) : gmap string json :=
  list_to_map (reverse fs).

Definition key_le (x y : string * json) : Prop := String.le x.1 y.1.

#[export] Instance key_le_dec x y : Decision (key_le x y).
Proof. unfold key_le. apply _. Defined.

(** [json.Marshal] of a map writes the keys in order. *)
Definition map_fields (m : gmap string json) : list (string * json) :=
  order_by key_le (map_to_list m).

(** Decoding into [any] and encoding again. *)
Fixpoint renormalize (j : json) : json :=
  match j with
  | JArr l => JArr (List.map renormalize l)
  | JObj fs => JObj (map_fields (field_map (List.map (λ kv, (kv.1, renormalize kv.2)) fs)))
  | _ => j
  end.

(** ** RedactArgs *)

Definition sensitiveKeys : gset string :=
  {["authorization"; "token"; "api_key"; "apikey"; "password"; "secret";
    "access_token"; "refresh_token"]}.

Definition sensitive (k : string) : bool := bool_decide (ToLower k ∈ sensitiveKeys).

Definition redact_entry (k : string) (v : json) : option json :=
  Some (if sensitive k then JStr "***" else v).

Definition RedactArgs (args : RawMessage) : RawMessage :=
  match args with
  | RawEmpty => RawJSON (JObj [])
  | RawText _ => args
  | RawJSON (JObj fs) =>
      if decodable (JObj fs) then
        RawJSON (JObj (map_fields (map_imap redact_entry
          (field_map (List.map (λ kv, (kv.1, renormalize kv.2)) fs)))))
      else args
  | RawJSON JNull => RawJSON JNull
  | RawJSON _ => args
  end.

(** What a reader of the payload finds under a key. *)
Definition lookup_field (r : RawMessage) (k : string) : option json :=
  match r with RawJSON (JObj fs) => field_map fs !! k | _ => None end.

(** ** Lemmas *)

#[export] Instance key_le_trans : Transitive key_le.
Proof. intros x y z. unfold key_le. by etransitivity. Qed.

#[export] Instance key_le_total : Total key_le.
Proof. intros x y. unfold key_le. apply String.le_total. Qed.

Lemma field_map_map_fields m : field_map (map_fields m) = m.
Proof.
  unfold field_map, map_fields. rewrite <-(list_to_map_to_list m) at 2.
  apply list_to_map_proper.
  - rewrite reverse_Permutation, order_by_perm. apply NoDup_fst_map_to_list.
  - by rewrite reverse_Permutation, order_by_perm.
Qed.

Lemma map_fields_sorted m : StronglySorted key_le (map_fields m).
Proof. apply order_by_sorted; apply _. Qed.

Lemma field_map_fmap (f : json → json) fs :
  field_map (List.map (λ kv, (kv.1, f kv.2)) fs) = f <$> field_map fs.
Proof.
  unfold field_map. change (List.map ?g fs) with (g <$> fs).
  rewrite <-fmap_reverse. symmetry.
  etransitivity; [symmetry; apply (list_to_map_fmap (M:=gmap string))|done].
Qed.

(** C39: RedactArgs of a decodable JSON object masks the value of every top-level key that
    is sensitive in any letter case, and keeps every other field's value as Go re-encodes
    it. *)
Theorem RedactArgs_masks fs k :
  decodable (JObj fs) = true →
  lookup_field (RedactArgs (RawJSON (JObj fs))) k =
    if sensitive k
    then (λ _, JStr "***") <$> lookup_field (RawJSON (JObj fs)) k
    else renormalize <$> lookup_field (RawJSON (JObj fs)) k.
Proof.
  intros Hd. cbn [RedactArgs]. rewrite Hd. cbn [lookup_field].
  rewrite field_map_map_fields, map_lookup_imap, field_map_fmap, lookup_fmap.
  unfold redact_entry. destruct (field_map fs !! k), (sensitive k); done.
Qed.

Lemma RedactArgs_masks_witness :
  lookup_field (RedactArgs (RawJSON (JObj [("Token", JStr "s3cret"); ("to", JStr "a@b")]))) "Token"
    = Some (JStr "***").
Proof. rewrite RedactArgs_masks; reflexivity. Defined.

(** A number out of float64's range anywhere in the arguments keeps every value
    as it is, passwords included. *)
Lemma RedactArgs_undecodable fs :
  decodable (JObj fs) = false → RedactArgs (RawJSON (JObj fs)) = RawJSON (JObj fs).
Proof. intros Hd. cbn [RedactArgs]. by rewrite Hd. Qed.

Lemma RedactArgs_leak :
  lookup_field (RedactArgs (RawJSON (JObj [("password", JStr "hunter2"); ("n", JHuge "1e999")])))
    "password" = Some (JStr "hunter2").
Proof. rewrite RedactArgs_undecodable; reflexivity. Qed.
