(* ===== verification/Pg.v ===== *)
(** * The database the store talks to

    What the SQL statements of services/session-memory/store rely on: uuids
    and their text form, the clock and the identifiers a statement gets,
    NULL, the range of [integer] columns, what text and jsonb take, and the
    errors of constraints. The tables themselves are lists of rows in the component files. A failing
    connection is not part of this model; the gateway's theorems are proved
    for stores that may fail at any call. *)

From S2P Require Import Prelude GoText Json.
From Stdlib Require Import ZArith Lia Ascii.
From stdpp Require Import options.

Open Scope Z_scope.
Open Scope list_scope.

(** ** uuid *)

Abbreviation uuid := N.

(** A text holds no NUL character. *)
Definition nul_free (s : string) : bool :=
  string_forall (λ c, negb (Ascii.eqb c "000")) s.

(** No string and no key of a JSON value holds a NUL character ([\u0000]). *)
Fixpoint json_nul_free (j : json) : bool :=
  match j with
  | JStr s => nul_free s
  | JArr l => forallb json_nul_free l
  | JObj fs => forallb (λ kv, nul_free kv.1 && json_nul_free kv.2) fs
  | _ => true
  end.

(** PostgreSQL's input and output functions of the type uuid, and which values
    of a parameter it accepts for the types text and jsonb: neither takes a NUL
    character, and each has limits of its own besides (the encoding of a text,
    the range of a number, the size of a document). *)
Class PgText := {
  uuid_in : string → option uuid;
  uuid_out : uuid → string;
  uuid_in_out : ∀ u, uuid_in (uuid_out u) = Some u;
  text_in : string → bool;
  text_in_nul : ∀ s, text_in s = true → nul_free s = true;
  jsonb_in : json → bool;
  jsonb_in_nul : ∀ j, jsonb_in j = true → json_nul_free j = true;
}.

#[export] Instance uuid_out_inj `{PgText} : Inj (=) (=) uuid_out.
Proof. intros u v Huv. apply (f_equal uuid_in) in Huv. by rewrite !uuid_in_out in Huv; simplify_eq. Qed.

(** What one statement (or one transaction) sees: [now()], and the values of
    successive [gen_random_uuid()] calls. *)
Record Stmt := MkStmt { now : Z; gen_uuid : nat → uuid }.

(** ** Errors *)

Definition err_uuid_syntax (s : string) : error :=
  Errorf "ERROR: invalid input syntax for type uuid: %q (SQLSTATE 22P02)" [Fs s].
Definition err_unique (constraint : string) : error :=
  Errorf "ERROR: duplicate key value violates unique constraint %q (SQLSTATE 23505)"
    [Fs constraint].
Definition err_foreign_key (constraint : string) : error :=
  Errorf "ERROR: insert violates foreign key constraint %q (SQLSTATE 23503)" [Fs constraint].
Definition err_check (constraint : string) : error :=
  Errorf "ERROR: new row violates check constraint %q (SQLSTATE 23514)" [Fs constraint].
Definition err_int4 (z : Z) : error :=
  Errorf "%d is greater than maximum value for int4" [Fd z].
Definition err_json_syntax : error :=
  ErrNew "ERROR: invalid input syntax for type json (SQLSTATE 22P02)".

Definition err_text : error :=
  ErrNew "ERROR: invalid byte sequence for encoding UTF8 (SQLSTATE 22021)".
Definition err_jsonb : error := ErrNew "ERROR: unsupported Unicode escape sequence (SQLSTATE 22P05)".

(** The store's sentinel [ErrNotFound] (store.go). *)
Definition ErrNotFound : error := ErrNew "store: not found".

(** A text parameter bound to a uuid column. *)
Definition uuid_arg `{PgText} (s : string) : result uuid :=
  match uuid_in s with Some u => Ok u | None => Err (err_uuid_syntax s) end.

(** The helper [nullable] of identity/sessions: the empty string is NULL. *)
Definition nullable `{PgText} (s : string) : result (option uuid) :=
  if nonempty s then Some <$> uuid_arg s else Ok None.

(** [sql.NullString]: NULL reads as the empty string. *)
Definition null_text `{PgText} (u : option uuid) : string := from_option uuid_out EmptyString u.

Definition in_int4 (z : Z) : bool := (- 2 ^ 31 <=? z) && (z <? 2 ^ 31).

(** [fmt.Errorf("...: %w", err)] around the error of a statement. *)
Definition wrap {A} (prefix : string) (r : result A) : result A :=
  match r with Ok a => Ok a | Err e => Err (ErrWrap prefix e) end.

Lemma wrap_Ok {A} p (r : result A) a : wrap p r = Ok a ↔ r = Ok a.
Proof. destruct r; naive_solver. Qed.

Lemma nullable_Ok `{PgText} s o :
  nullable s = Ok o ↔
  (s = EmptyString ∧ o = None) ∨ (∃ u, s ≠ EmptyString ∧ uuid_in s = Some u ∧ o = Some u).
Proof.
  unfold nullable, uuid_arg. destruct (nonempty s) eqn:Hs.
  - apply nonempty_true in Hs. destruct (uuid_in s); naive_solver.
  - apply nonempty_false in Hs. naive_solver.
Qed.

Lemma uuid_arg_out `{PgText} u : uuid_arg (uuid_out u) = Ok u.
Proof. unfold uuid_arg. by rewrite uuid_in_out. Qed.

(** A concrete text form for evaluating the model: [n] strokes for [n]. It is
    used by the witnesses only. *)
Definition strokes (n : nat) : string :=
  String.string_of_list_ascii (repeat (Ascii.ascii_of_nat 35) (S n)).

Definition unary_text : PgText.
Proof.
  refine {| uuid_in := λ s, Some (N.of_nat (pred (String.length s)));
            uuid_out := λ u, strokes (N.to_nat u);
            text_in := nul_free; jsonb_in := json_nul_free |}; [|done..].
  intros u. f_equal. rewrite <-(N2Nat.id u) at 2. f_equal.
  unfold strokes. generalize (N.to_nat u). intros n. simpl.
  induction n as [|n IH]; simpl; congruence.
Defined.

(** A statement at time [t] whose generated ids count up from [id]. *)
Definition sample_stmt (t : Z) (id : N) : Stmt :=
  {| now := t; gen_uuid := λ n, (id + N.of_nat n)%N |}.
