(* ===== verification/Memory.v ===== *)
(** * Scoped long-term memory (store/memory.go)

    The table memory_facts and the operations on it. Every read and every
    deletion by key is bounded to one scope; the theorems state that bound and
    what the retention job removes. What a fact meets over a history of the
    whole store is in Repository.v. *)

From S2P Require Import Prelude GoText Json Pg.
From Stdlib Require Import ZArith Lia Ascii.
From stdpp Require Import options.

Open Scope Z_scope.
Open Scope list_scope.

(** ** Data (models.go, store.go, 00001_init.sql) *)

Definition ScopeUser : string := "user".
Definition ScopeCommittee : string := "committee".
Definition ScopeOrg : string := "org".

Definition validScope (t : string) : bool :=
  String.eqb t ScopeUser || String.eqb t ScopeCommittee || String.eqb t ScopeOrg.

Record fact_row := FactRow {
  f_id : uuid;
  f_scope_type : string;
  f_scope_id : string;
  f_key : string;
  f_value : string;
  f_tags : list string;
  f_source : string;
  f_created_at : Z;
  f_expires_at : option Z;
}.

#[export] Instance fact_row_eq_dec : EqDecision fact_row.
Proof. solve_decision. Defined.

Record Fact := MkFact {
  Fact_ID : string;
  Fact_ScopeType : string;
  Fact_ScopeID : string;
  Fact_Key : string;
  Fact_Value : string;
  Fact_Tags : list string;
  Fact_Source : string;
  Fact_CreatedAt : Z;
  Fact_ExpiresAt : option Z;
}.

Record FactInput := MkFactInput {
  in_ScopeType : string;
  in_ScopeID : string;
  in_Key : string;
  in_Value : string;
  in_Tags : list string;
  in_Source : string;
  in_ExpiresAt : option Z;
}.

Record FactQuery := MkFactQuery {
  q_ScopeType : string;
  q_ScopeID : string;
  q_Tags : list string;
  q_Limit : Z;
  q_IncludeExpired : bool;
}.

(** ** Tags travel as a JSON array *)

Definition encodeTags (tags : list string) : json := JArr (JStr <$> tags).

(** [jsonb_array_elements_text] collected into a text[] (tagsToArraySQL). *)
Definition tagsToArray (j : json) : list string :=
  match j with
  | JArr l => omap (λ x, match x with JStr s => Some s | _ => None end) l
  | _ => []
  end.

Lemma tagsToArray_encodeTags tags : tagsToArray (encodeTags tags) = tags.
Proof. simpl. induction tags as [|t tags IH]; csimpl; congruence. Qed.

(** From here on the two are used through this lemma only. *)
#[global] Arguments encodeTags : simpl never.
#[global] Arguments tagsToArray : simpl never.

(** [tags && $n]: the arrays have an element in common. *)
Definition overlaps (a b : list string) : bool :=
  existsb (λ x, bool_decide (x ∈ b)) a.

Lemma overlaps_true a b : overlaps a b = true ↔ ∃ x, x ∈ a ∧ x ∈ b.
Proof.
  unfold overlaps. rewrite existsb_elem_of. by setoid_rewrite bool_decide_eq_true.
Qed.

Section ops.
Context `{PgText}.
Implicit Types (facts : list fact_row) (r : fact_row) (st : Stmt).

Definition scanFact (r : fact_row) : Fact :=
  {| Fact_ID := uuid_out (f_id r); Fact_ScopeType := f_scope_type r;
     Fact_ScopeID := f_scope_id r; Fact_Key := f_key r; Fact_Value := f_value r;
     Fact_Tags := tagsToArray (encodeTags (f_tags r)); Fact_Source := f_source r;
     Fact_CreatedAt := f_created_at r; Fact_ExpiresAt := f_expires_at r |}.

(** ** WriteFact *)

Definition fact_of_input (st : Stmt) (i : FactInput) : fact_row :=
  {| f_id := gen_uuid st 0; f_scope_type := in_ScopeType i; f_scope_id := in_ScopeID i;
     f_key := in_Key i; f_value := in_Value i;
     f_tags := tagsToArray (encodeTags (in_Tags i)); f_source := in_Source i;
     f_created_at := now st; f_expires_at := in_ExpiresAt i |}.

Definition WriteFact (st : Stmt) (i : FactInput) facts : result Fact * list fact_row :=
  if validScope (in_ScopeType i) then
    let r := fact_of_input st i in
    if bool_decide (f_id r ∈ f_id <$> facts)
    then (Err (ErrWrap "store: write fact: " (err_unique "memory_facts_pkey")), facts)
    else (Ok (scanFact r), facts ++ [r])
  else (Err (Errorf "store: write fact: invalid scope_type %q" [Fs (in_ScopeType i)]), facts).

(** ** SearchFacts *)

Definition live (t : Z) (r : fact_row) : bool :=
  match f_expires_at r with None => true | Some e => t <? e end.

Definition in_scope (scopeType scopeID : string) (r : fact_row) : bool :=
  String.eqb (f_scope_type r) scopeType && String.eqb (f_scope_id r) scopeID.

(** The WHERE clause that SearchFacts builds. *)
Definition matches (st : Stmt) (q : FactQuery) (r : fact_row) : bool :=
  in_scope (q_ScopeType q) (q_ScopeID q) r &&
  (q_IncludeExpired q || live (now st) r) &&
  match q_Tags q with [] => true | ts => overlaps (f_tags r) (tagsToArray (encodeTags ts)) end.

(** ORDER BY created_at DESC, key *)
Definition newer (a b : fact_row) : Prop :=
  f_created_at b < f_created_at a ∨
  (f_created_at a = f_created_at b ∧ String.le (f_key a) (f_key b)).

#[export] Instance newer_dec a b : Decision (newer a b).
Proof. unfold newer. apply _. Defined.

Definition limit {A} (n : Z) (l : list A) : list A :=
  if 0 <? n then take (Z.to_nat n) l else l.

Definition select_facts (st : Stmt) (q : FactQuery) facts : list fact_row :=
  limit (q_Limit q) (order_by newer (filter (λ r, matches st q r = true) facts)).

Definition SearchFacts (st : Stmt) (q : FactQuery) facts : result (list Fact) :=
  if validScope (q_ScopeType q) then Ok (scanFact <$> select_facts st q facts)
  else Err (Errorf "store: search facts: invalid scope_type %q" [Fs (q_ScopeType q)]).

(** ** Deletions *)

(** DELETE ... WHERE p: the rows that remain and how many went. *)
Definition delete_where {A} (p : A → bool) (rows : list A) : Z * list A :=
  (Z.of_nat (length (filter (λ x, p x = true) rows)), filter (λ x, p x = false) rows).

Definition ForgetFact (id : string) facts : result bool * list fact_row :=
  match uuid_arg id with
  | Err e => (Err (ErrWrap "store: forget fact: " e), facts)
  | Ok u => let '(n, facts') := delete_where (λ r, bool_decide (f_id r = u)) facts in
            (Ok (0 <? n), facts')
  end.

Definition ForgetFactsByKey (scopeType scopeID key : string) facts :
    result Z * list fact_row :=
  let '(n, facts') :=
    delete_where (λ r, in_scope scopeType scopeID r && String.eqb (f_key r) key) facts in
  (Ok n, facts').

Definition expired (before : Z) (r : fact_row) : bool :=
  match f_expires_at r with None => false | Some e => e <=? before end.

Definition DeleteExpiredFacts (before : Z) facts : result Z * list fact_row :=
  let '(n, facts') := delete_where (expired before) facts in (Ok n, facts').

(** ** Invariant: primary key and CHECK constraint *)

Record facts_wf facts : Prop := {
  facts_pkey : NoDup (f_id <$> facts);
  facts_scope : ∀ r, r ∈ facts → validScope (f_scope_type r) = true;
}.

(** ** Lemmas *)

#[export] Instance newer_trans : Transitive newer.
Proof.
  intros a b c [?|[? ?]] [?|[? ?]]; unfold newer; [left; lia..|].
  right. split; [lia|]. by etransitivity.
Qed.

#[export] Instance newer_total : Total newer.
Proof.
  intros a b. unfold newer.
  destruct (Z.lt_trichotomy (f_created_at a) (f_created_at b)) as [?|[?|?]]; [tauto| |tauto].
  destruct (String.le_total (f_key a) (f_key b)); [left|right]; right; split; auto.
Qed.

Lemma elem_of_limit {A} n (l : list A) x : x ∈ limit n l → x ∈ l.
Proof.
  unfold limit. case_match; [|done].
  intros Hx. rewrite <-(take_drop (Z.to_nat n) l). apply elem_of_app. by left.
Qed.

Lemma elem_of_select st q facts r :
  r ∈ select_facts st q facts → r ∈ facts ∧ matches st q r = true.
Proof.
  intros Hr%elem_of_limit. rewrite elem_of_order_by, list_elem_of_filter in Hr. tauto.
Qed.

Lemma in_scope_true t i r :
  in_scope t i r = true ↔ f_scope_type r = t ∧ f_scope_id r = i.
Proof. unfold in_scope. by rewrite andb_true_iff, !String.eqb_eq. Qed.

Lemma live_expired t r : live t r = negb (expired t r).
Proof. unfold live, expired. case_match; [|done]. by rewrite Z.ltb_antisym. Qed.

Lemma scanFact_tags r : Fact_Tags (scanFact r) = f_tags r.
Proof. apply tagsToArray_encodeTags. Qed.

Lemma elem_of_delete_where {A} (p : A → bool) rows x :
  x ∈ (delete_where p rows).2 ↔ x ∈ rows ∧ p x = false.
Proof. simpl. rewrite list_elem_of_filter. tauto. Qed.

Lemma delete_where_count {A} (p : A → bool) rows :
  (delete_where p rows).1 + Z.of_nat (length (delete_where p rows).2) =
  Z.of_nat (length rows).
Proof.
  simpl. induction rows as [|x rows IH]; [done|].
  rewrite !filter_cons. destruct (p x); simpl; lia.
Qed.

Lemma facts_wf_filter (p : fact_row → bool) facts :
  facts_wf facts → facts_wf (delete_where p facts).2.
Proof.
  intros [Hk Hs]. split.
  - by apply NoDup_fmap_filter.
  - intros r Hr. apply Hs. by apply elem_of_delete_where in Hr as [? _].
Qed.

Lemma facts_empty_wf : facts_wf [].
Proof. split; [apply NoDup_nil_2|by intros ? ?%elem_of_nil]. Qed.

Lemma WriteFact_wf st i facts : facts_wf facts → facts_wf (WriteFact st i facts).2.
Proof.
  intros Hwf. pose proof Hwf as [Hk Hs].
  unfold WriteFact. case_match; [|done]. case_bool_decide as Hid; [done|].
  simpl. split.
  - rewrite fmap_app. apply NoDup_app. split; [done|]. split; [|apply NoDup_singleton].
    intros x Hx ->%list_elem_of_singleton. done.
  - intros r [Hr| ->%list_elem_of_singleton]%elem_of_app; [by apply Hs | done].
Qed.

Lemma ForgetFact_wf id facts : facts_wf facts → facts_wf (ForgetFact id facts).2.
Proof. intros Hwf. unfold ForgetFact. case_match; [|done]. by apply facts_wf_filter. Qed.

Lemma ForgetFactsByKey_wf t i k facts :
  facts_wf facts → facts_wf (ForgetFactsByKey t i k facts).2.
Proof. apply facts_wf_filter. Qed.

Lemma DeleteExpiredFacts_wf b facts :
  facts_wf facts → facts_wf (DeleteExpiredFacts b facts).2.
Proof. apply facts_wf_filter. Qed.

(** Expired rows are invisible to a search at or after the cutoff, so removing
    them changes no result. *)
Lemma matches_expired st q b r :
  b ≤ now st → q_IncludeExpired q = false → matches st q r = true → expired b r = false.
Proof.
  unfold matches, live, expired. intros Hb ->. rewrite !andb_true_iff.
  intros [[_ Hl] _]. case_match; [|done]. bools. apply Z.leb_gt. lia.
Qed.

Lemma select_after_delete st q b facts :
  b ≤ now st → q_IncludeExpired q = false →
  select_facts st q (delete_where (expired b) facts).2 = select_facts st q facts.
Proof.
  intros Hb Hq. unfold select_facts. f_equal. f_equal. simpl.
  rewrite list_filter_filter. apply list_filter_iff. intros r. split; [tauto|].
  intros Hm. split; [done|]. by eapply matches_expired.
Qed.

(** ** Properties *)

(** Results never cross scopes, are live unless the query asks otherwise, and
    carry one of the tags it names. *)
Theorem SearchFacts_scoped st q facts out :
  SearchFacts st q facts = Ok out →
  Forall (λ f, Fact_ScopeType f = q_ScopeType q ∧ Fact_ScopeID f = q_ScopeID q ∧
    (q_IncludeExpired q = false → ∀ e, Fact_ExpiresAt f = Some e → now st < e) ∧
    (q_Tags q ≠ [] → ∃ t, t ∈ q_Tags q ∧ t ∈ Fact_Tags f)) out.
Proof.
  unfold SearchFacts. case_match; [|done]. intros [= <-]. apply Forall_fmap, Forall_forall.
  intros r [_ Hr]%elem_of_select. unfold matches in Hr.
  apply andb_true_iff in Hr as [Hr Ht]. apply andb_true_iff in Hr as [Hs Hl].
  apply in_scope_true in Hs as [? ?]. split; [done|]. split; [done|]. split.
  - intros Hi e He. rewrite Hi in Hl. unfold live in Hl. simpl in He. rewrite He in Hl. by apply Z.ltb_lt.
  - intros Hne. rewrite scanFact_tags.
    destruct (q_Tags q) as [|t ts]; [done|].
    rewrite tagsToArray_encodeTags in Ht.
    apply overlaps_true in Ht as (x & ? & ?). eauto.
Qed.

(** SearchFacts returns the first Limit rows, the newest first and by key among
    equals, of exactly the rows that match the query's scope, expiry and tags. *)
Theorem SearchFacts_topk st q facts out :
  SearchFacts st q facts = Ok out →
  ∃ rows, out = scanFact <$> limit (q_Limit q) rows ∧
    rows ≡ₚ filter (λ r, matches st q r = true) facts ∧
    StronglySorted newer rows.
Proof.
  unfold SearchFacts. case_match; [|done]. intros [= <-].
  eexists. split; [reflexivity|]. split; [apply order_by_perm|].
  apply order_by_sorted; apply _.
Qed.

(** Deleting expired facts changes no search that leaves them out. *)
Theorem retention_invisible st q before facts :
  before ≤ now st → q_IncludeExpired q = false →
  SearchFacts st q (DeleteExpiredFacts before facts).2 = SearchFacts st q facts.
Proof.
  intros. unfold SearchFacts, DeleteExpiredFacts.
  destruct (delete_where (expired before) facts) as [n facts'] eqn:Hd.
  case_match; [|done]. do 2 f_equal. simpl.
  rewrite <-(select_after_delete st q before facts) by done. by rewrite Hd.
Qed.

(** A stored row whose scope, expiry and tags a search asks for is in its result. *)
Lemma SearchFacts_finds st q facts r :
  validScope (q_ScopeType q) = true → q_Limit q = 0 → r ∈ facts → matches st q r = true →
  ∃ out, SearchFacts st q facts = Ok out ∧ scanFact r ∈ out.
Proof.
  intros Hv Hlim Hin Hm. unfold SearchFacts. rewrite Hv. eexists. split; [reflexivity|].
  apply list_elem_of_fmap_2. unfold select_facts, limit. rewrite Hlim. simpl.
  by rewrite elem_of_order_by, list_elem_of_filter.
Qed.

(** What a search finds is a stored row. *)
Lemma SearchFacts_stored st q facts out f :
  SearchFacts st q facts = Ok out → f ∈ out → ∃ r, r ∈ facts ∧ f = scanFact r.
Proof.
  unfold SearchFacts. case_match; [|done]. intros [= <-] (r & -> & [Hr _]%elem_of_select)%list_elem_of_fmap.
  by exists r.
Qed.

(** WriteFact adds the row it returns, as it was given. *)
Lemma WriteFact_stores st i facts f facts' :
  WriteFact st i facts = (Ok f, facts') →
  validScope (in_ScopeType i) = true ∧ f = scanFact (fact_of_input st i) ∧
  facts' = facts ++ [fact_of_input st i].
Proof. unfold WriteFact. destruct (validScope _); [|done]. case_bool_decide; [done|]. by intros [= <- <-]. Qed.

Lemma elem_of_WriteFact st i facts r :
  r ∈ (WriteFact st i facts).2 ↔
  r ∈ facts ∨ r = fact_of_input st i ∧ is_ok (WriteFact st i facts).1 = true.
Proof.
  unfold WriteFact. destruct (validScope _); cbn [fst snd is_ok]; [|naive_solver].
  case_bool_decide; cbn [fst snd is_ok]; [naive_solver|].
  rewrite elem_of_app, list_elem_of_singleton. naive_solver.
Qed.

Lemma fact_of_input_matches st st' i q :
  q_ScopeType q = in_ScopeType i → q_ScopeID q = in_ScopeID i →
  (q_IncludeExpired q = false → ∀ e, in_ExpiresAt i = Some e → now st' < e) →
  (q_Tags q = [] ∨ ∃ t, t ∈ q_Tags q ∧ t ∈ in_Tags i) →
  matches st' q (fact_of_input st i) = true.
Proof.
  intros Ht Hi Hexp Htags. unfold matches. rewrite !andb_true_iff. split; [split|].
  - apply in_scope_true. by rewrite Ht, Hi.
  - destruct (q_IncludeExpired q); [done|]. unfold live. simpl. case_match; [|done].
    apply Z.ltb_lt. by apply Hexp.
  - destruct Htags as [->|(t & Htq & Hti)]; [done|].
    destruct (q_Tags q); [done|]. rewrite tagsToArray_encodeTags. apply overlaps_true.
    exists t. split; [|done]. simpl. by rewrite tagsToArray_encodeTags.
Qed.
End ops.

(** ** Concrete instances *)

#[local] Existing Instance unary_text.

Definition sample_input (key value : string) : FactInput :=
  {| in_ScopeType := ScopeUser; in_ScopeID := "U1"; in_Key := key; in_Value := value;
     in_Tags := ["food"]; in_Source := "chat"; in_ExpiresAt := Some 90 |}.

Definition sample_query : FactQuery :=
  {| q_ScopeType := ScopeUser; q_ScopeID := "U1"; q_Tags := ["food"; "travel"]; q_Limit := 0;
     q_IncludeExpired := false |}.

Definition sample_facts : list fact_row :=
  (WriteFact (sample_stmt 20 2) (sample_input "drink" "tea")
    (WriteFact (sample_stmt 10 1) (sample_input "lunch" "ramen") []).2).2.

Lemma SearchFacts_topk_witness :
  ∃ rows, Fact_Key <$> (scanFact <$> limit 1 rows) = ["drink"%string] ∧
    rows ≡ₚ filter (λ r, matches (sample_stmt 30 9)
      {| q_ScopeType := ScopeUser; q_ScopeID := "U1"; q_Tags := []; q_Limit := 1;
         q_IncludeExpired := false |} r = true) sample_facts ∧
    StronglySorted newer rows.
Proof.
  edestruct (SearchFacts_topk (sample_stmt 30 9)
    {| q_ScopeType := ScopeUser; q_ScopeID := "U1"; q_Tags := []; q_Limit := 1;
       q_IncludeExpired := false |} sample_facts) as (rows & Ho & Hp & Hs);
    [vm_compute; reflexivity|].
  exists rows. split; [|by split]. cbn [q_Limit] in Ho. rewrite <-Ho. reflexivity.
Defined.
