(* ===== verification/Sessions.v ===== *)
(** * Sessions, turns and summaries (store/sessions.go)

    The tables sessions, turns and summaries and the operations on them. *)

From S2P Require Import Prelude GoText Pg.
From Stdlib Require Import ZArith Lia Ascii.
From stdpp Require Import options.

Open Scope Z_scope.
Open Scope list_scope.

(** ** Data *)

Record session_row := SessionRow {
  s_id : uuid;
  s_user_id : option uuid;
  s_channel : string;
  s_thread_ts : string;
  s_recipe : string;
  s_status : string;
  s_created_at : Z;
  s_updated_at : Z;
}.

Record turn_row := TurnRow {
  t_id : Z;
  t_session_id : uuid;
  t_role : string;
  t_content : string;
  t_tokens : Z;
  t_created_at : Z;
}.

Record summary_row := SummaryRow { sm_summary : string; sm_updated_at : Z }.

Record Session := MkSession {
  Session_ID : string;
  Session_UserID : string;
  Session_Channel : string;
  Session_ThreadTS : string;
  Session_Recipe : string;
  Session_Status : string;
  Session_CreatedAt : Z;
  Session_UpdatedAt : Z;
}.

Record Turn := MkTurn {
  Turn_ID : Z;
  Turn_SessionID : string;
  Turn_Role : string;
  Turn_Content : string;
  Turn_Tokens : Z;
  Turn_CreatedAt : Z;
}.

Record Summary := MkSummary {
  Summary_SessionID : string;
  Summary_Summary : string;
  Summary_UpdatedAt : Z;
}.

Record conv := Conv {
  sessions : list session_row;
  turns : list turn_row;
  turn_seq : Z;                      (* the identity column of turns *)
  summaries : gmap uuid summary_row; (* PRIMARY KEY (session_id) *)
}.

Definition conv_empty : conv :=
  {| sessions := []; turns := []; turn_seq := 0; summaries := ∅ |}.

Definition turn_roles : list string := ["system"; "user"; "assistant"; "tool"]%string.

Section ops.
Context `{PgText}.
Implicit Types (c : conv) (st : Stmt).

Definition scanSession (r : session_row) : Session :=
  {| Session_ID := uuid_out (s_id r); Session_UserID := null_text (s_user_id r);
     Session_Channel := s_channel r; Session_ThreadTS := s_thread_ts r;
     Session_Recipe := s_recipe r; Session_Status := s_status r;
     Session_CreatedAt := s_created_at r; Session_UpdatedAt := s_updated_at r |}.

Definition scanTurn (r : turn_row) : Turn :=
  {| Turn_ID := t_id r; Turn_SessionID := uuid_out (t_session_id r); Turn_Role := t_role r;
     Turn_Content := t_content r; Turn_Tokens := t_tokens r;
     Turn_CreatedAt := t_created_at r |}.

Definition session_exists (c : conv) (u : uuid) : bool :=
  bool_decide (u ∈ s_id <$> sessions c).

Definition set_sessions (l : list session_row) (c : conv) : conv :=
  {| sessions := l; turns := turns c; turn_seq := turn_seq c; summaries := summaries c |}.

(** ** Sessions *)

(** [users] are the rows that the foreign key of sessions.user_id may name. *)
Definition insert_session (users : list uuid) (st : Stmt) (userID : string)
    (channel threadTS recipe : string) (c : conv) : result session_row :=
  owner ← nullable userID;
  _ ← res_guard (negb (session_exists c (gen_uuid st 0))) (err_unique "sessions_pkey");
  _ ← res_guard (from_option (λ u, bool_decide (u ∈ users)) true owner)
        (err_foreign_key "sessions_user_id_fkey");
  Ok {| s_id := gen_uuid st 0; s_user_id := owner; s_channel := channel;
        s_thread_ts := threadTS; s_recipe := recipe; s_status := "active";
        s_created_at := now st; s_updated_at := now st |}.

Definition CreateSession (users : list uuid) (st : Stmt) (userID channel threadTS recipe : string)
    (c : conv) : result Session * conv :=
  match insert_session users st userID channel threadTS recipe c with
  | Ok r => (Ok (scanSession r), set_sessions (sessions c ++ [r]) c)
  | Err e => (Err (ErrWrap "store: create session: " e), c)
  end.

Definition GetSession (id : string) (c : conv) : result Session :=
  match uuid_arg id with
  | Err e => Err (ErrWrap "store: get session: " e)
  | Ok u => match List.find (λ r, bool_decide (s_id r = u)) (sessions c) with
            | Some r => Ok (scanSession r)
            | None => Err ErrNotFound
            end
  end.

(** ORDER BY created_at DESC *)
Definition later (a b : session_row) : Prop := s_created_at b ≤ s_created_at a.

#[export] Instance later_dec a b : Decision (later a b).
Proof. unfold later. apply _. Defined.

Definition in_thread (channel threadTS : string) (r : session_row) : bool :=
  String.eqb (s_channel r) channel && String.eqb (s_thread_ts r) threadTS.

Definition GetSessionByThread (channel threadTS : string) (c : conv) : result Session :=
  match order_by later (filter (λ r, in_thread channel threadTS r = true) (sessions c)) with
  | r :: _ => Ok (scanSession r)
  | [] => Err ErrNotFound
  end.

Definition set_status (status : string) (t : Z) (r : session_row) : session_row :=
  {| s_id := s_id r; s_user_id := s_user_id r; s_channel := s_channel r;
     s_thread_ts := s_thread_ts r; s_recipe := s_recipe r; s_status := status;
     s_created_at := s_created_at r; s_updated_at := t |}.

Definition UpdateSessionStatus (st : Stmt) (id status : string) (c : conv) :
    result unit * conv :=
  match uuid_arg id with
  | Err e => (Err (ErrWrap "store: update session status: " e), c)
  | Ok u =>
      if session_exists c u then
        (Ok (), set_sessions
           ((λ r, if decide (s_id r = u) then set_status status (now st) r else r) <$> sessions c) c)
      else (Err ErrNotFound, c)
  end.

(** ** Turns *)

(** A statement that the server rejects has already drawn its identity value;
    one whose parameters do not bind has not. *)
Definition bump_turn_seq (c : conv) : conv :=
  {| sessions := sessions c; turns := turns c; turn_seq := turn_seq c + 1;
     summaries := summaries c |}.

Definition push_turn (r : turn_row) (c : conv) : conv :=
  {| sessions := sessions c; turns := turns c ++ [r]; turn_seq := turn_seq c;
     summaries := summaries c |}.

Definition AddTurn (st : Stmt) (sessionID role content : string) (tokens : Z) (c : conv) :
    result Turn * conv :=
  let fail e c := (Err (ErrWrap "store: add turn: " e), c) in
  match uuid_arg sessionID with
  | Err e => fail e c
  | Ok u =>
      if negb (in_int4 tokens) then fail (err_int4 tokens) c
      else
        let c := bump_turn_seq c in
        if negb (bool_decide (role ∈ turn_roles)) then fail (err_check "turns_role_check") c
        else if negb (session_exists c u)
        then fail (err_foreign_key "turns_session_id_fkey") c
        else
          let r := {| t_id := turn_seq c; t_session_id := u; t_role := role;
                      t_content := content; t_tokens := tokens; t_created_at := now st |} in
          (Ok (scanTurn r), push_turn r c)
  end.

(** ORDER BY id DESC and ORDER BY id ASC *)
Definition id_desc (a b : turn_row) : Prop := t_id b ≤ t_id a.
Definition id_asc (a b : turn_row) : Prop := t_id a ≤ t_id b.

#[export] Instance id_desc_dec a b : Decision (id_desc a b).
Proof. unfold id_desc. apply _. Defined.
#[export] Instance id_asc_dec a b : Decision (id_asc a b).
Proof. unfold id_asc. apply _. Defined.

Definition turns_of (u : uuid) (c : conv) : list turn_row :=
  filter (λ r, t_session_id r = u) (turns c).

Definition ListTurns (sessionID : string) (limit : Z) (c : conv) : result (list Turn) :=
  match uuid_arg sessionID with
  | Err e => Err (ErrWrap "store: list turns: " e)
  | Ok u =>
      Ok (scanTurn <$>
        if 0 <? limit
        then order_by id_asc (take (Z.to_nat limit) (order_by id_desc (turns_of u c)))
        else order_by id_asc (turns_of u c))
  end.

(** ** Summaries *)

Definition scanSummary (u : uuid) (r : summary_row) : Summary :=
  {| Summary_SessionID := uuid_out u; Summary_Summary := sm_summary r;
     Summary_UpdatedAt := sm_updated_at r |}.

Definition set_summaries (m : gmap uuid summary_row) (c : conv) : conv :=
  {| sessions := sessions c; turns := turns c; turn_seq := turn_seq c; summaries := m |}.

Definition UpsertSummary (st : Stmt) (sessionID summary : string) (c : conv) :
    result Summary * conv :=
  match uuid_arg sessionID with
  | Err e => (Err (ErrWrap "store: upsert summary: " e), c)
  | Ok u =>
      if session_exists c u then
        let r := {| sm_summary := summary; sm_updated_at := now st |} in
        (Ok (scanSummary u r), set_summaries (<[u := r]> (summaries c)) c)
      else (Err (ErrWrap "store: upsert summary: "
                   (err_foreign_key "summaries_session_id_fkey")), c)
  end.

Definition GetSummary (sessionID : string) (c : conv) : result Summary :=
  match uuid_arg sessionID with
  | Err e => Err (ErrWrap "store: get summary: " e)
  | Ok u => match summaries c !! u with
            | Some r => Ok (scanSummary u r)
            | None => Err ErrNotFound
            end
  end.

(** ** Invariant

    Keys, foreign keys and CHECK constraints; turns are stored in the order of
    their identity column. *)
Record conv_wf (users : list uuid) (c : conv) : Prop := {
  sessions_pkey : NoDup (s_id <$> sessions c);
  sessions_user_fkey : ∀ r u, r ∈ sessions c → s_user_id r = Some u → u ∈ users;
  turns_ordered : StronglySorted Z.lt (t_id <$> turns c);
  turns_seq : ∀ r, r ∈ turns c → t_id r ≤ turn_seq c;
  turns_fkey : ∀ r, r ∈ turns c → t_session_id r ∈ s_id <$> sessions c;
  turns_role : ∀ r, r ∈ turns c → t_role r ∈ turn_roles;
  turns_int4 : ∀ r, r ∈ turns c → in_int4 (t_tokens r) = true;
  summaries_fkey : ∀ u, is_Some (summaries c !! u) → u ∈ s_id <$> sessions c;
}.

(** ** Lemmas *)

#[export] Instance later_trans : Transitive later.
Proof. intros a b d. unfold later. lia. Qed.
#[export] Instance later_total : Total later.
Proof. intros a b. unfold later. lia. Qed.
#[export] Instance id_desc_trans : Transitive id_desc.
Proof. intros a b d. unfold id_desc. lia. Qed.
#[export] Instance id_desc_total : Total id_desc.
Proof. intros a b. unfold id_desc. lia. Qed.
#[export] Instance id_asc_trans : Transitive id_asc.
Proof. intros a b d. unfold id_asc. lia. Qed.
#[export] Instance id_asc_total : Total id_asc.
Proof. intros a b. unfold id_asc. lia. Qed.

Definition id_lt (a b : turn_row) : Prop := t_id a < t_id b.

Lemma session_exists_true c u : session_exists c u = true ↔ u ∈ s_id <$> sessions c.
Proof. unfold session_exists. by rewrite bool_decide_eq_true. Qed.

Lemma turns_of_sorted users c u : conv_wf users c → StronglySorted id_lt (turns_of u c).
Proof.
  intros Hwf. apply StronglySorted_filter, (StronglySorted_fmap_iff t_id Z.lt), (turns_ordered _ _ Hwf).
Qed.

(** In a strictly ordered table two rows with one identity are one row. *)
Lemma id_lt_unique l x y :
  StronglySorted id_lt l → x ∈ l → y ∈ l → t_id x = t_id y → x = y.
Proof.
  induction 1 as [|z l Hl IH Hz]; [by intros ?%elem_of_nil|].
  rewrite Forall_forall in Hz. unfold id_lt in Hz.
  intros [->|Hx]%elem_of_cons [->|Hy]%elem_of_cons Heq; auto.
  - specialize (Hz y Hy). lia.
  - specialize (Hz x Hx). lia.
Qed.

Lemma order_asc_id l : StronglySorted id_lt l → order_by id_asc l = l.
Proof.
  intros Hl. apply order_by_id; [apply _..| |].
  - unfold id_asc. intros x y Hx Hy ??. eapply id_lt_unique; [done..|lia].
  - eapply StronglySorted_impl; [|done]. unfold id_lt, id_asc. lia.
Qed.

Lemma order_desc_reverse l : StronglySorted id_lt l → order_by id_desc l = reverse l.
Proof.
  intros Hl. apply (StronglySorted_unique_strong id_desc).
  - intros x y Hx Hy ??. rewrite elem_of_order_by in Hx. rewrite elem_of_reverse in Hy.
    unfold id_desc in *.
    eapply id_lt_unique; [done..|lia].
  - apply order_by_sorted; apply _.
  - eapply StronglySorted_impl; [|by apply StronglySorted_reverse].
    unfold flip, id_lt, id_desc. lia.
  - by rewrite order_by_perm, reverse_Permutation.
Qed.

Lemma order_asc_take_desc n l :
  StronglySorted id_lt l → order_by id_asc (take n (order_by id_desc l)) = last_n n l.
Proof.
  intros Hl. rewrite order_desc_reverse by done.
  rewrite <-(reverse_take_reverse n l).
  set (k := take n (reverse l)).
  assert (StronglySorted id_lt (reverse k)) as Hk.
  { subst k. rewrite reverse_take_reverse. destruct (last_n_suffix n l) as [l1 Heq].
    rewrite Heq in Hl. by apply StronglySorted_app_1_r in Hl. }
  rewrite <-(order_asc_id (reverse k)) by done.
  apply (StronglySorted_unique_strong id_asc).
  - intros x y Hx Hy ??. rewrite elem_of_order_by in Hx, Hy. unfold id_asc in *.
    eapply id_lt_unique; [done| by rewrite elem_of_reverse | done | lia].
  - apply order_by_sorted; apply _.
  - apply order_by_sorted; apply _.
  - by rewrite !order_by_perm, reverse_Permutation.
Qed.

Lemma insert_session_Ok users st uid ch ts rc c r :
  insert_session users st uid ch ts rc c = Ok r →
  s_id r = gen_uuid st 0 ∧ gen_uuid st 0 ∉ s_id <$> sessions c ∧
  s_channel r = ch ∧ s_thread_ts r = ts ∧ s_recipe r = rc ∧ s_status r = "active"%string ∧
  s_created_at r = now st ∧
  (∀ u, s_user_id r = Some u → u ∈ users) ∧
  (uid ≠ EmptyString → s_user_id r = uuid_in uid).
Proof.
  unfold insert_session. rewrite res_bind_Ok. intros (owner & Ho & Hr).
  apply res_bind_Ok in Hr as ([] & Hpk & Hr). apply res_guard_Ok in Hpk.
  apply res_bind_Ok in Hr as ([] & Hfk & [= <-]). apply res_guard_Ok in Hfk.
  apply negb_true_iff in Hpk. apply nullable_Ok in Ho.
  repeat split.
  - intros Hin. apply session_exists_true in Hin. congruence.
  - simpl. intros u ->. simpl in Hfk. by apply bool_decide_eq_true in Hfk.
  - simpl. intros Hne. destruct Ho as [[? _]|(u & _ & -> & ->)]; done.
Qed.

(** ** The invariant is kept *)

Lemma conv_empty_wf users : conv_wf users conv_empty.
Proof. split; simpl; try set_solver; try constructor. intros u [? ?]. simplify_map_eq. Qed.

Lemma CreateSession_wf users st uid ch ts rc c :
  conv_wf users c → conv_wf users (CreateSession users st uid ch ts rc c).2.
Proof.
  intros Hwf. unfold CreateSession.
  destruct (insert_session users st uid ch ts rc c) as [r|e] eqn:Hr; [|done].
  apply insert_session_Ok in Hr as (Hid & Hfresh & _ & _ & _ & _ & _ & Hfk & _).
  rewrite <-Hid in Hfresh. destruct Hwf. split; simpl; try done.
  - rewrite fmap_app, NoDup_app. split; [done|]. split; [|apply NoDup_singleton].
    intros x Hx ->%list_elem_of_singleton. done.
  - intros r' u [Hr'| ->%list_elem_of_singleton]%elem_of_app Hu; eauto.
  - intros t Ht. rewrite fmap_app. apply elem_of_app. eauto.
  - intros u Hu. rewrite fmap_app. apply elem_of_app. eauto.
Qed.

Lemma set_status_ids u s t (l : list session_row) :
  s_id <$> ((λ r, if decide (s_id r = u) then set_status s t r else r) <$> l) = s_id <$> l.
Proof. rewrite <-list_fmap_compose. apply list_fmap_ext. intros. simpl. by case_decide. Qed.

Lemma UpdateSessionStatus_wf users st id s c :
  conv_wf users c → conv_wf users (UpdateSessionStatus st id s c).2.
Proof.
  intros Hwf. unfold UpdateSessionStatus. repeat case_match; try done.
  destruct Hwf. split; simpl; rewrite ?set_status_ids; try done.
  intros r u (r0 & -> & Hr0)%list_elem_of_fmap. case_decide; eauto.
Qed.

Lemma push_turn_wf users r c :
  conv_wf users c → t_id r = turn_seq c + 1 → t_session_id r ∈ s_id <$> sessions c →
  t_role r ∈ turn_roles → in_int4 (t_tokens r) = true →
  conv_wf users (push_turn r (bump_turn_seq c)).
Proof.
  intros [] Hid ???. split; simpl; try done.
  - rewrite fmap_app. apply StronglySorted_app_2; [|done|repeat constructor].
    intros x y (r' & -> & Hr')%list_elem_of_fmap ->%list_elem_of_singleton.
    specialize (turns_seq0 _ Hr'). lia.
  - intros r' [Hr'| ->%list_elem_of_singleton]%elem_of_app; [|lia].
    specialize (turns_seq0 _ Hr'). lia.
  - by intros r' [Hr'| ->%list_elem_of_singleton]%elem_of_app; auto.
  - by intros r' [Hr'| ->%list_elem_of_singleton]%elem_of_app; auto.
  - by intros r' [Hr'| ->%list_elem_of_singleton]%elem_of_app; auto.
Qed.

Lemma bump_turn_seq_wf users c : conv_wf users c → conv_wf users (bump_turn_seq c).
Proof.
  intros []. split; simpl; try done. intros r Hr. specialize (turns_seq0 _ Hr). lia.
Qed.

Lemma AddTurn_wf users st id role content n c :
  conv_wf users c → conv_wf users (AddTurn st id role content n c).2.
Proof.
  intros Hwf. unfold AddTurn. destruct (uuid_arg id) as [u|e]; [|done].
  destruct (in_int4 n) eqn:Hn; [|done]. cbn [negb].
  case_bool_decide; [|by apply bump_turn_seq_wf]. cbn [negb].
  destruct (session_exists (bump_turn_seq c) u) eqn:Hu; [|by apply bump_turn_seq_wf].
  cbn [negb snd]. apply session_exists_true in Hu. by apply push_turn_wf.
Qed.

Lemma UpsertSummary_wf users st id s c :
  conv_wf users c → conv_wf users (UpsertSummary st id s c).2.
Proof.
  intros Hwf. unfold UpsertSummary. destruct (uuid_arg id) as [u|]; [|done].
  destruct (session_exists c u) eqn:Hu; [|done].
  apply session_exists_true in Hu. destruct Hwf. split; simpl; try done.
  intros v Hv. destruct (decide (u = v)) as [->|Hne]; [done|].
  rewrite lookup_insert_ne in Hv by done. eauto.
Qed.

(** ** Properties *)

(** ListTurns with a positive limit n returns the last n turns of the session in the
    order in which they were added; with no limit it returns all of them. *)
Theorem ListTurns_recent users c id n out :
  conv_wf users c → ListTurns id n c = Ok out →
  ∃ u, uuid_in id = Some u ∧
    out = scanTurn <$> (if 0 <? n then last_n (Z.to_nat n) (turns_of u c) else turns_of u c).
Proof.
  intros Hwf. unfold ListTurns, uuid_arg. destruct (uuid_in id) as [u|]; [|done].
  intros [= <-]. exists u. split; [done|]. f_equal.
  pose proof (turns_of_sorted users c u Hwf).
  case_match; [by apply order_asc_take_desc | by apply order_asc_id].
Qed.

(** The session of a thread is the one created last. *)
Theorem GetSessionByThread_latest ch ts c s :
  GetSessionByThread ch ts c = Ok s →
  ∃ r, r ∈ sessions c ∧ s = scanSession r ∧ s_channel r = ch ∧ s_thread_ts r = ts ∧
    ∀ r', r' ∈ sessions c → s_channel r' = ch → s_thread_ts r' = ts →
      s_created_at r' ≤ s_created_at r.
Proof.
  unfold GetSessionByThread.
  set (rows := filter _ _). pose proof (order_by_sorted later rows _ _) as Hs.
  destruct (order_by later rows) as [|r l] eqn:Ho; [done|]. intros [= <-].
  assert (∀ x, x ∈ r :: l ↔ x ∈ sessions c ∧ s_channel x = ch ∧ s_thread_ts x = ts) as Hin.
  { intros x. rewrite <-Ho, elem_of_order_by. subst rows.
    rewrite list_elem_of_filter. unfold in_thread.
    rewrite andb_true_iff, !String.eqb_eq. tauto. }
  exists r. destruct (proj1 (Hin r)) as (? & ? & ?); [left|].
  repeat (split; [done|]). intros r' Hr1 Hr2 Hr3.
  assert (r' ∈ r :: l) as [->|Hr']%elem_of_cons by (apply Hin; done); [lia|].
  apply StronglySorted_cons in Hs as [Hs _]. rewrite Forall_forall in Hs.
  by apply Hs in Hr'.
Qed.
End ops.

(** ** Concrete instances *)

#[local] Existing Instance unary_text.

Definition sample_conv : conv :=
  let c0 := (CreateSession [] (sample_stmt 1 2) EmptyString "C1" "17.4" "r" conv_empty).2 in
  let c1 := (AddTurn (sample_stmt 2 0) (strokes 2) "user" "hello" 3 c0).2 in
  let c2 := (AddTurn (sample_stmt 2 0) (strokes 2) "assistant" "hi" 1 c1).2 in
  (AddTurn (sample_stmt 3 0) (strokes 2) "user" "bye" 2 c2).2.

Lemma ListTurns_recent_witness :
  ∃ out, ListTurns (strokes 2) 2 sample_conv = Ok out ∧
    out = scanTurn <$> last_n 2 (turns_of 2 sample_conv) ∧
    (Turn_Content <$> out) = ["hi"; "bye"]%string.
Proof.
  eexists. split; [vm_compute; reflexivity|]. split; [|reflexivity].
  destruct (ListTurns_recent [] sample_conv (strokes 2) 2
    (scanTurn <$> last_n 2 (turns_of 2 sample_conv))) as (u & [= <-] & Hout).
  - apply AddTurn_wf, AddTurn_wf, AddTurn_wf, CreateSession_wf, conv_empty_wf.
  - vm_compute. reflexivity.
  - etransitivity; [|symmetry; exact Hout]. reflexivity.
Defined.
