(* ===== verification/Identity.v ===== *)
(** * Users and committee roles (store/identity.go)

    The tables users and committee_roles and the operations on them. *)

From S2P Require Import Prelude GoText Pg.
From Stdlib Require Import ZArith Lia Ascii.
From stdpp Require Import options.

Open Scope Z_scope.
Open Scope list_scope.

(** ** Data *)

Record user_row := UserRow {
  u_id : uuid;
  u_slack_id : string;
  u_name : string;
  u_email : string;
  u_created_at : Z;
}.

Record role_row := RoleRow { r_role : string; r_created_at : Z }.

Record User := MkUser {
  User_ID : string;
  User_SlackID : string;
  User_Name : string;
  User_Email : string;
  User_CreatedAt : Z;
}.

Record CommitteeRole := MkCommitteeRole {
  CR_UserID : string;
  CR_Committee : string;
  CR_Role : string;
  CR_CreatedAt : Z;
}.

Record people := People {
  users : list user_row;
  committee_roles : gmap (uuid * string) role_row;  (* PRIMARY KEY (user_id, committee) *)
}.

Definition people_empty : people := {| users := []; committee_roles := ∅ |}.

Definition user_ids (p : people) : list uuid := u_id <$> users p.

Section ops.
Context `{PgText}.
Implicit Types (p : people) (st : Stmt).

Definition scanUser (r : user_row) : User :=
  {| User_ID := uuid_out (u_id r); User_SlackID := u_slack_id r; User_Name := u_name r;
     User_Email := u_email r; User_CreatedAt := u_created_at r |}.

Definition by_slack_id (slackID : string) (r : user_row) : bool :=
  String.eqb (u_slack_id r) slackID.

Definition rename (name email : string) (r : user_row) : user_row :=
  {| u_id := u_id r; u_slack_id := u_slack_id r; u_name := name; u_email := email;
     u_created_at := u_created_at r |}.

(** INSERT ... ON CONFLICT (slack_id) DO UPDATE ... RETURNING *)
Definition UpsertUser (st : Stmt) (slackID name email : string) (p : people) :
    result User * people :=
  match List.find (by_slack_id slackID) (users p) with
  | Some r =>
      (Ok (scanUser (rename name email r)),
       {| users := (λ r, if by_slack_id slackID r then rename name email r else r) <$> users p;
          committee_roles := committee_roles p |})
  | None =>
      if bool_decide (gen_uuid st 0 ∈ user_ids p)
      then (Err (ErrWrap "store: upsert user: " (err_unique "users_pkey")), p)
      else
        let r := {| u_id := gen_uuid st 0; u_slack_id := slackID; u_name := name;
                    u_email := email; u_created_at := now st |} in
        (Ok (scanUser r),
         {| users := users p ++ [r]; committee_roles := committee_roles p |})
  end.

Definition GetUserBySlackID (slackID : string) (p : people) : result User :=
  match List.find (by_slack_id slackID) (users p) with
  | Some r => Ok (scanUser r)
  | None => Err ErrNotFound
  end.

Definition set_roles (m : gmap (uuid * string) role_row) (p : people) : people :=
  {| users := users p; committee_roles := m |}.

(** The creation time of a role survives an update. *)
Definition SetCommitteeRole (st : Stmt) (userID committee role : string) (p : people) :
    result unit * people :=
  match uuid_arg userID with
  | Err e => (Err (ErrWrap "store: set committee role: " e), p)
  | Ok u =>
      if bool_decide (u ∈ user_ids p) then
        let created :=
          match committee_roles p !! (u, committee) with
          | Some r => r_created_at r | None => now st end in
        (Ok (), set_roles (<[(u, committee) := {| r_role := role; r_created_at := created |}]>
                             (committee_roles p)) p)
      else (Err (ErrWrap "store: set committee role: "
                   (err_foreign_key "committee_roles_user_id_fkey")), p)
  end.

(** ORDER BY committee *)
Definition committee_le (x y : (uuid * string) * role_row) : Prop :=
  String.le x.1.2 y.1.2.

#[export] Instance committee_le_dec x y : Decision (committee_le x y).
Proof. unfold committee_le. apply _. Defined.

Definition scanRole (x : (uuid * string) * role_row) : CommitteeRole :=
  {| CR_UserID := uuid_out x.1.1; CR_Committee := x.1.2; CR_Role := r_role x.2;
     CR_CreatedAt := r_created_at x.2 |}.

Definition ListCommitteeRoles (userID : string) (p : people) : result (list CommitteeRole) :=
  match uuid_arg userID with
  | Err e => Err (ErrWrap "store: list committee roles: " e)
  | Ok u => Ok (scanRole <$> order_by committee_le
                  (filter (λ x, x.1.1 = u) (map_to_list (committee_roles p))))
  end.

Definition RemoveCommitteeRole (userID committee : string) (p : people) :
    result bool * people :=
  match uuid_arg userID with
  | Err e => (Err (ErrWrap "store: remove committee role: " e), p)
  | Ok u => (Ok (bool_decide (is_Some (committee_roles p !! (u, committee)))),
             set_roles (delete (u, committee) (committee_roles p)) p)
  end.

(** ** Invariant *)

Record people_wf (p : people) : Prop := {
  users_pkey : NoDup (user_ids p);
  users_slack : NoDup (u_slack_id <$> users p);
  roles_fkey : ∀ u c, is_Some (committee_roles p !! (u, c)) → u ∈ user_ids p;
}.

(** ** Lemmas *)

Lemma rename_ids slackID name email (l : list user_row) :
  u_id <$> ((λ r, if by_slack_id slackID r then rename name email r else r) <$> l) = u_id <$> l.
Proof. rewrite <-list_fmap_compose. apply list_fmap_ext. intros. simpl. by case_match. Qed.

Lemma rename_slack slackID name email (l : list user_row) :
  u_slack_id <$> ((λ r, if by_slack_id slackID r then rename name email r else r) <$> l) =
  u_slack_id <$> l.
Proof. rewrite <-list_fmap_compose. apply list_fmap_ext. intros. simpl. by case_match. Qed.

Lemma find_slack_None slackID p :
  List.find (by_slack_id slackID) (users p) = None → slackID ∉ u_slack_id <$> users p.
Proof.
  intros Hf (r & -> & Hr)%list_elem_of_fmap. apply find_None_elem_of with (x := r) in Hf; [|done].
  unfold by_slack_id in Hf. by rewrite String.eqb_refl in Hf.
Qed.

Lemma people_empty_wf : people_wf people_empty.
Proof.
  split; simpl; try apply NoDup_nil_2. intros u c [r Hr]. by rewrite lookup_empty in Hr.
Qed.

Lemma UpsertUser_wf st s n e p : people_wf p → people_wf (UpsertUser st s n e p).2.
Proof.
  intros Hwf. pose proof Hwf as [Hk Hs Hr]. unfold UpsertUser.
  destruct (List.find _ _) as [r|] eqn:Hf.
  - split; unfold user_ids; simpl; rewrite ?rename_ids, ?rename_slack; done.
  - case_bool_decide; [done|]. apply find_slack_None in Hf.
    split; unfold user_ids in *; simpl; rewrite ?fmap_app.
    + apply NoDup_app. split; [done|]. split; [|apply NoDup_singleton].
      intros x Hx ->%list_elem_of_singleton. done.
    + apply NoDup_app. split; [done|]. split; [|apply NoDup_singleton].
      intros x Hx ->%list_elem_of_singleton. done.
    + intros u c Hc. apply elem_of_app. left. eauto.
Qed.

Lemma SetCommitteeRole_wf st u c r p :
  people_wf p → people_wf (SetCommitteeRole st u c r p).2.
Proof.
  intros [Hk Hs Hr]. unfold SetCommitteeRole. destruct (uuid_arg u) as [v|]; [|done].
  case_bool_decide as Hv; [|done]. split; simpl; try done.
  intros w d Hw. destruct (decide ((v, c) = (w, d))) as [[= -> ->]|Hne]; [done|].
  rewrite lookup_insert_ne in Hw by done. by eapply Hr.
Qed.

Lemma RemoveCommitteeRole_wf u c p :
  people_wf p → people_wf (RemoveCommitteeRole u c p).2.
Proof.
  intros [Hk Hs Hr]. unfold RemoveCommitteeRole. destruct (uuid_arg u) as [v|]; [|done].
  split; simpl; try done. intros w d Hw.
  destruct (decide ((v, c) = (w, d))) as [[= -> ->]|Hne].
  - rewrite lookup_delete_eq in Hw. by destruct Hw.
  - rewrite lookup_delete_ne in Hw by done. by eapply Hr.
Qed.

Lemma find_rename slackID name email (l : list user_row) r :
  List.find (by_slack_id slackID) l = Some r →
  List.find (by_slack_id slackID)
    ((λ r, if by_slack_id slackID r then rename name email r else r) <$> l) =
    Some (rename name email r).
Proof.
  induction l as [|x l IH]; [done|]. csimpl. destruct (by_slack_id slackID x) eqn:Hx.
  - intros [= <-]. unfold by_slack_id in *. simpl. by rewrite Hx.
  - rewrite Hx. done.
Qed.

Lemma find_rename_other s slackID name email (l : list user_row) :
  s ≠ slackID →
  List.find (by_slack_id s)
    ((λ r, if by_slack_id slackID r then rename name email r else r) <$> l) =
  List.find (by_slack_id s) l.
Proof.
  intros Hne. induction l as [|x l IH]; [done|]. csimpl. rewrite IH.
  destruct (by_slack_id slackID x) eqn:Hx; [|done].
  assert (by_slack_id s x = false) as Hs.
  { unfold by_slack_id in *. apply String.eqb_eq in Hx. apply String.eqb_neq. congruence. }
  rewrite Hs. unfold by_slack_id in *. simpl. by rewrite Hs.
Qed.

Lemma find_app_None {A} (f : A → bool) l k :
  List.find f l = None → List.find f (l ++ k) = List.find f k.
Proof. induction l as [|x l IH]; simpl; [done|]. by destruct (f x). Qed.

Lemma find_app_skip {A} (f : A → bool) l x : f x = false → List.find f (l ++ [x]) = List.find f l.
Proof.
  intros Hx. induction l as [|y l IH]; simpl; [by rewrite Hx|]. by destruct (f y).
Qed.

(** ** Properties *)

(** What UpsertUser returns is what GetUserBySlackID then finds; a user who was
    already known keeps their id and creation time, and no other user changes. *)
Theorem UpsertUser_GetUser st slackID name email p u p' :
  UpsertUser st slackID name email p = (Ok u, p') →
  GetUserBySlackID slackID p' = Ok u ∧
  User_SlackID u = slackID ∧ User_Name u = name ∧ User_Email u = email ∧
  (∀ u0, GetUserBySlackID slackID p = Ok u0 →
     User_ID u = User_ID u0 ∧ User_CreatedAt u = User_CreatedAt u0 ∧
     length (users p') = length (users p)) ∧
  (∀ s, s ≠ slackID → GetUserBySlackID s p' = GetUserBySlackID s p).
Proof.
  unfold UpsertUser, GetUserBySlackID.
  destruct (List.find (by_slack_id slackID) (users p)) as [r|] eqn:Hf.
  - intros [= <- <-]. cbn [users]. rewrite (find_rename _ _ _ _ r) by done.
    apply find_Some_elem_of in Hf as [_ Hr]. apply String.eqb_eq in Hr.
    repeat (split; [done|]). split.
    + intros u0 [= <-]. by rewrite length_fmap.
    + intros s Hs. by rewrite find_rename_other.
  - case_bool_decide; [done|]. intros [= <- <-]. cbn [users].
    rewrite (find_app_None _ _ _ Hf). simpl.
    unfold by_slack_id at 1. cbn [u_slack_id]. rewrite String.eqb_refl.
    repeat (split; [done|]). intros s Hs. rewrite find_app_skip; [done|].
    unfold by_slack_id. apply String.eqb_neq. simpl. congruence.
Qed.
End ops.

#[local] Existing Instance unary_text.

Lemma UpsertUser_GetUser_witness :
  ∃ u, GetUserBySlackID "U1"
         (UpsertUser (sample_stmt 9 5) "U1" "Ada L." "ada@x.org"
           (UpsertUser (sample_stmt 1 1) "U1" "Ada" EmptyString people_empty).2).2 = Ok u ∧
    User_Name u = "Ada L."%string ∧ User_CreatedAt u = 1.
Proof.
  eexists. edestruct (UpsertUser_GetUser (sample_stmt 9 5) "U1" "Ada L." "ada@x.org"
    (UpsertUser (sample_stmt 1 1) "U1" "Ada" EmptyString people_empty).2)
    as (Hg & _ & Hn & _ & Hold & _).
  - vm_compute. reflexivity.
  - split; [exact Hg|]. split; [exact Hn|].
    edestruct Hold as (_ & Hc & _); [vm_compute; reflexivity|]. exact Hc.
Defined.
