(* ===== verification/Governance.v ===== *)
(** * Approvals and the audit log (store/governance.go)

    The tables approvals and audit_log and the operations on them. *)

From S2P Require Import Prelude GoText Json Pg Memory.
From Stdlib Require Import ZArith Lia Ascii.
From stdpp Require Import options.

Open Scope Z_scope.
Open Scope list_scope.

(** ** Data *)

Record approval_row := ApprovalRow {
  a_id : uuid;
  a_session_id : option uuid;
  a_tool : string;
  a_args_redacted : RawMessage;
  a_status : string;
  a_decided_by : string;
  a_decided_at : option Z;
  a_created_at : Z;
}.

Record audit_row := AuditRow {
  l_id : Z;
  l_actor : string;
  l_tool : string;
  l_args_redacted : RawMessage;
  l_result : string;
  l_latency_ms : Z;
  l_created_at : Z;
}.

Record Approval := MkApproval {
  Approval_ID : string;
  Approval_SessionID : string;
  Approval_Tool : string;
  Approval_ArgsRedacted : RawMessage;
  Approval_Status : string;
  Approval_DecidedBy : string;
  Approval_DecidedAt : option Z;
  Approval_CreatedAt : Z;
}.

Record AuditEntry := MkAuditEntry {
  Audit_ID : Z;
  Audit_Actor : string;
  Audit_Tool : string;
  Audit_ArgsRedacted : RawMessage;
  Audit_Result : string;
  Audit_LatencyMS : Z;
  Audit_CreatedAt : Z;
}.

Record AuditInput := MkAuditInput {
  ai_Actor : string;
  ai_Tool : string;
  ai_ArgsRedacted : RawMessage;
  ai_Result : string;
  ai_LatencyMS : Z;
}.

Record gov := Gov {
  approvals : list approval_row;
  audit_log : list audit_row;
  audit_seq : Z;              (* the identity column of audit_log *)
}.

Definition gov_empty : gov := {| approvals := []; audit_log := []; audit_seq := 0 |}.

(** CHECK (status IN ...) *)
Definition approval_statuses : list string :=
  ["pending"; "approved"; "denied"; "cancelled"]%string.

Definition defaultJSON (b : RawMessage) : RawMessage :=
  match b with RawEmpty => RawJSON (JObj []) | _ => b end.

Section ops.
Context `{PgText}.
Implicit Types (g : gov) (st : Stmt).

(** Binding bytes to a jsonb column. *)
Definition jsonb_arg (b : RawMessage) : result RawMessage :=
  match b with
  | RawJSON j => if jsonb_in j then Ok b else Err err_jsonb
  | _ => Err err_json_syntax
  end.

(** Binding a string to a text column. *)
Definition text_arg (s : string) : result string := if text_in s then Ok s else Err err_text.

Definition set_approvals (l : list approval_row) (g : gov) : gov :=
  {| approvals := l; audit_log := audit_log g; audit_seq := audit_seq g |}.

Definition scanApproval (r : approval_row) : Approval :=
  {| Approval_ID := uuid_out (a_id r); Approval_SessionID := null_text (a_session_id r);
     Approval_Tool := a_tool r; Approval_ArgsRedacted := a_args_redacted r;
     Approval_Status := a_status r; Approval_DecidedBy := a_decided_by r;
     Approval_DecidedAt := a_decided_at r; Approval_CreatedAt := a_created_at r |}.

(** ** Approvals *)

(** [sess] are the rows that the foreign key of approvals.session_id may name. *)
Definition insert_approval (sess : list uuid) (st : Stmt) (sessionID tool : string)
    (args : RawMessage) (g : gov) : result approval_row :=
  s ← nullable sessionID;
  tool ← text_arg tool;
  j ← jsonb_arg (defaultJSON args);
  _ ← res_guard (negb (bool_decide (gen_uuid st 0 ∈ a_id <$> approvals g)))
        (err_unique "approvals_pkey");
  _ ← res_guard (from_option (λ u, bool_decide (u ∈ sess)) true s)
        (err_foreign_key "approvals_session_id_fkey");
  Ok {| a_id := gen_uuid st 0; a_session_id := s; a_tool := tool; a_args_redacted := j;
        a_status := "pending"; a_decided_by := EmptyString; a_decided_at := None;
        a_created_at := now st |}.

Definition CreateApproval (sess : list uuid) (st : Stmt) (sessionID tool : string)
    (args : RawMessage) (g : gov) : result Approval * gov :=
  match insert_approval sess st sessionID tool args g with
  | Ok r => (Ok (scanApproval r), set_approvals (approvals g ++ [r]) g)
  | Err e => (Err (ErrWrap "store: create approval: " e), g)
  end.

Definition GetApproval (id : string) (g : gov) : result Approval :=
  match uuid_arg id with
  | Err e => Err (ErrWrap "store: get approval: " e)
  | Ok u => match List.find (λ r, bool_decide (a_id r = u)) (approvals g) with
            | Some r => Ok (scanApproval r)
            | None => Err ErrNotFound
            end
  end.

Definition decide_row (status decidedBy : string) (t : Z) (r : approval_row) : approval_row :=
  {| a_id := a_id r; a_session_id := a_session_id r; a_tool := a_tool r;
     a_args_redacted := a_args_redacted r; a_status := status; a_decided_by := decidedBy;
     a_decided_at := Some t; a_created_at := a_created_at r |}.

(** The statement updates the row whatever its current status. *)
Definition DecideApproval (st : Stmt) (id status decidedBy : string) (g : gov) :
    result Approval * gov :=
  match uuid_arg id with
  | Err e => (Err (ErrWrap "store: decide approval: " e), g)
  | Ok u =>
      match List.find (λ r, bool_decide (a_id r = u)) (approvals g) with
      | None => (Err ErrNotFound, g)
      | Some r =>
          if bool_decide (status ∈ approval_statuses) then
            let upd r := decide_row status decidedBy (now st) r in
            (Ok (scanApproval (upd r)),
             set_approvals ((λ x, if decide (a_id x = u) then upd x else x) <$> approvals g) g)
          else (Err (ErrWrap "store: decide approval: " (err_check "approvals_status_check")), g)
      end
  end.

(** ORDER BY created_at DESC and ASC *)
Definition ap_newest (a b : approval_row) : Prop := a_created_at b ≤ a_created_at a.
Definition ap_oldest (a b : approval_row) : Prop := a_created_at a ≤ a_created_at b.

#[export] Instance ap_newest_dec a b : Decision (ap_newest a b).
Proof. unfold ap_newest. apply _. Defined.
#[export] Instance ap_oldest_dec a b : Decision (ap_oldest a b).
Proof. unfold ap_oldest. apply _. Defined.

(** The approvals of a query's rows, in their order. *)
Definition queryApprovals (rows : list approval_row) : list Approval := scanApproval <$> rows.

Definition ListApprovalsBySession (sessionID : string) (g : gov) : result (list Approval) :=
  match uuid_arg sessionID with
  | Err e => Err (ErrWrap "store: list approvals: " e)
  | Ok u => Ok (queryApprovals
                  (order_by ap_newest (filter (λ r, a_session_id r = Some u) (approvals g))))
  end.

Definition pending (r : approval_row) : Prop := a_status r = "pending"%string.

Definition ListPendingApprovals (g : gov) : list Approval :=
  queryApprovals (order_by ap_oldest (filter pending (approvals g))).

(** ** Audit log *)

Definition scanAudit (r : audit_row) : AuditEntry :=
  {| Audit_ID := l_id r; Audit_Actor := l_actor r; Audit_Tool := l_tool r;
     Audit_ArgsRedacted := l_args_redacted r; Audit_Result := l_result r;
     Audit_LatencyMS := l_latency_ms r; Audit_CreatedAt := l_created_at r |}.

Definition push_audit (r : audit_row) (g : gov) : gov :=
  {| approvals := approvals g; audit_log := audit_log g ++ [r]; audit_seq := l_id r |}.

Definition insert_audit (st : Stmt) (i : AuditInput) (g : gov) : result audit_row :=
  actor ← text_arg (ai_Actor i);
  tool ← text_arg (ai_Tool i);
  j ← jsonb_arg (defaultJSON (ai_ArgsRedacted i));
  res ← text_arg (ai_Result i);
  _ ← res_guard (in_int4 (ai_LatencyMS i)) (err_int4 (ai_LatencyMS i));
  Ok {| l_id := audit_seq g + 1; l_actor := actor; l_tool := tool; l_args_redacted := j;
        l_result := res; l_latency_ms := ai_LatencyMS i; l_created_at := now st |}.

Definition WriteAudit (st : Stmt) (i : AuditInput) (g : gov) : result AuditEntry * gov :=
  match insert_audit st i g with
  | Err e => (Err (ErrWrap "store: write audit: " e), g)
  | Ok r => (Ok (scanAudit r), push_audit r g)
  end.

(** The statement gets its row: the texts, the arguments and the latency are
    values that the columns take. *)
Definition storable (i : AuditInput) : bool :=
  text_in (ai_Actor i) && text_in (ai_Tool i) && text_in (ai_Result i) &&
  is_ok (jsonb_arg (defaultJSON (ai_ArgsRedacted i))) && in_int4 (ai_LatencyMS i).

(** ORDER BY id DESC *)
Definition au_newest (a b : audit_row) : Prop := l_id b ≤ l_id a.

#[export] Instance au_newest_dec a b : Decision (au_newest a b).
Proof. unfold au_newest. apply _. Defined.

Definition ListAudit (limit : Z) (g : gov) : list AuditEntry :=
  let limit := if limit <=? 0 then 100 else limit in
  scanAudit <$> take (Z.to_nat limit) (order_by au_newest (audit_log g)).

Definition set_audit (l : list audit_row) (g : gov) : gov :=
  {| approvals := approvals g; audit_log := l; audit_seq := audit_seq g |}.

Definition AgeOutAudit (before : Z) (g : gov) : result Z * gov :=
  let '(n, l) := delete_where (λ r, l_created_at r <? before) (audit_log g) in
  (Ok n, set_audit l g).

(** ** Invariant *)

Record gov_wf (sess : list uuid) (g : gov) : Prop := {
  approvals_pkey : NoDup (a_id <$> approvals g);
  approvals_fkey : ∀ r u, r ∈ approvals g → a_session_id r = Some u → u ∈ sess;
  approvals_status : ∀ r, r ∈ approvals g → a_status r ∈ approval_statuses;
  audit_ordered : StronglySorted Z.lt (l_id <$> audit_log g);
  audit_seq_bound : ∀ r, r ∈ audit_log g → l_id r ≤ audit_seq g;
}.

(** ** Lemmas *)

#[export] Instance ap_newest_trans : Transitive ap_newest.
Proof. intros a b d. unfold ap_newest. lia. Qed.
#[export] Instance ap_newest_total : Total ap_newest.
Proof. intros a b. unfold ap_newest. lia. Qed.
#[export] Instance ap_oldest_trans : Transitive ap_oldest.
Proof. intros a b d. unfold ap_oldest. lia. Qed.
#[export] Instance ap_oldest_total : Total ap_oldest.
Proof. intros a b. unfold ap_oldest. lia. Qed.
#[export] Instance au_newest_trans : Transitive au_newest.
Proof. intros a b d. unfold au_newest. lia. Qed.
#[export] Instance au_newest_total : Total au_newest.
Proof. intros a b. unfold au_newest. lia. Qed.

Lemma text_arg_Ok s s' : text_arg s = Ok s' → s' = s.
Proof. unfold text_arg. destruct (text_in s); naive_solver. Qed.

Lemma jsonb_arg_Ok b j : jsonb_arg b = Ok j → j = b.
Proof. unfold jsonb_arg. destruct b as [| |x]; [done..|]. destruct (jsonb_in x); naive_solver. Qed.

(** The row of a storable entry, and none of any other. *)
Lemma insert_audit_storable st i g :
  if storable i
  then insert_audit st i g =
    Ok {| l_id := audit_seq g + 1; l_actor := ai_Actor i; l_tool := ai_Tool i;
          l_args_redacted := defaultJSON (ai_ArgsRedacted i); l_result := ai_Result i;
          l_latency_ms := ai_LatencyMS i; l_created_at := now st |}
  else is_ok (insert_audit st i g) = false.
Proof.
  unfold storable, insert_audit. pose proof (jsonb_arg_Ok (defaultJSON (ai_ArgsRedacted i))) as Hj.
  unfold text_arg, res_guard, mbind, res_bind.
  destruct (text_in (ai_Actor i)), (text_in (ai_Tool i)); [|done..]. cbn [andb].
  destruct (jsonb_arg _) as [j|e]; cbn [is_ok]; [rewrite (Hj j eq_refl)|];
    destruct (text_in (ai_Result i)), (in_int4 (ai_LatencyMS i)); done.
Qed.

(** An entry that holds a NUL character gets no row. *)
Lemma nul_not_storable i :
  nul_free (ai_Actor i) && nul_free (ai_Tool i) && nul_free (ai_Result i) &&
    match ai_ArgsRedacted i with RawJSON j => json_nul_free j | _ => true end = false →
  storable i = false.
Proof.
  intros Hn. apply not_true_iff_false. unfold storable. intros Hs. bools.
  rewrite !text_in_nul in Hn by done. cbn [andb] in Hn.
  destruct (ai_ArgsRedacted i) as [| |j]; [done..|]. cbn [defaultJSON jsonb_arg] in *.
  destruct (jsonb_in j) eqn:Hj; [|done]. by rewrite (jsonb_in_nul j) in Hn.
Qed.

Lemma insert_approval_Ok sess st sid tool args g r :
  insert_approval sess st sid tool args g = Ok r →
  a_id r = gen_uuid st 0 ∧ gen_uuid st 0 ∉ a_id <$> approvals g ∧
  a_status r = "pending"%string ∧ a_tool r = tool ∧
  nullable sid = Ok (a_session_id r) ∧
  (∀ u, a_session_id r = Some u → u ∈ sess).
Proof.
  unfold insert_approval. rewrite res_bind_Ok. intros (s & Hs & Hr).
  apply res_bind_Ok in Hr as (tool' & ->%text_arg_Ok & Hr).
  apply res_bind_Ok in Hr as (j & _ & Hr).
  apply res_bind_Ok in Hr as ([] & Hpk & Hr). apply res_guard_Ok in Hpk.
  apply res_bind_Ok in Hr as ([] & Hfk & [= <-]). apply res_guard_Ok in Hfk.
  apply negb_true_iff, bool_decide_eq_false in Hpk.
  repeat split; [done..|]. simpl. intros u ->. by apply bool_decide_eq_true in Hfk.
Qed.

Lemma gov_empty_wf sess : gov_wf sess gov_empty.
Proof. split; simpl; try set_solver; constructor. Qed.

Lemma CreateApproval_wf sess st sid tool args g :
  gov_wf sess g → gov_wf sess (CreateApproval sess st sid tool args g).2.
Proof.
  intros Hwf. unfold CreateApproval.
  destruct (insert_approval sess st sid tool args g) as [r|e] eqn:Hr; [|done].
  apply insert_approval_Ok in Hr as (Hid & Hfresh & Hst & _ & _ & Hfk).
  rewrite <-Hid in Hfresh. destruct Hwf. split; simpl; try done.
  - rewrite fmap_app, NoDup_app. split; [done|]. split; [|apply NoDup_singleton].
    intros x Hx ->%list_elem_of_singleton. done.
  - intros r' u [Hr'| ->%list_elem_of_singleton]%elem_of_app Hu; eauto.
  - intros r' [Hr'| ->%list_elem_of_singleton]%elem_of_app; [eauto|].
    rewrite Hst. left.
Qed.

Lemma decide_ids u s b t (l : list approval_row) :
  a_id <$> ((λ x, if decide (a_id x = u) then decide_row s b t x else x) <$> l) = a_id <$> l.
Proof. rewrite <-list_fmap_compose. apply list_fmap_ext. intros. simpl. by case_decide. Qed.

Lemma DecideApproval_wf sess st id s b g :
  gov_wf sess g → gov_wf sess (DecideApproval st id s b g).2.
Proof.
  intros Hwf. unfold DecideApproval. destruct (uuid_arg id) as [u|]; [|done].
  case_match; [|done]. case_bool_decide; [|done].
  destruct Hwf. split; simpl; rewrite ?decide_ids; try done.
  - intros r u' (r0 & -> & Hr0)%list_elem_of_fmap. case_decide; eauto.
  - intros r (r0 & -> & Hr0)%list_elem_of_fmap. case_decide; eauto.
Qed.

Lemma WriteAudit_wf sess st i g : gov_wf sess g → gov_wf sess (WriteAudit st i g).2.
Proof.
  intros Hwf. unfold WriteAudit. pose proof (insert_audit_storable st i g) as Hr.
  destruct (storable i); [rewrite Hr|by destruct (insert_audit st i g)].
  destruct Hwf. split; simpl; try done.
  - rewrite fmap_app. apply StronglySorted_app_2; [|done|by repeat constructor].
    intros x y (r' & -> & Hr')%list_elem_of_fmap ->%list_elem_of_singleton.
    simpl. specialize (audit_seq_bound0 _ Hr'). lia.
  - intros r' [Hr'| ->%list_elem_of_singleton]%elem_of_app; [|simpl; lia].
    specialize (audit_seq_bound0 _ Hr'). lia.
Qed.

Lemma AgeOutAudit_wf sess b g : gov_wf sess g → gov_wf sess (AgeOutAudit b g).2.
Proof.
  intros []. split; simpl; try done.
  - apply (StronglySorted_fmap_iff l_id Z.lt), StronglySorted_filter.
    by apply (StronglySorted_fmap_iff l_id Z.lt).
  - intros r [_ Hr]%list_elem_of_filter. auto.
Qed.
End ops.
