(* ===== verification/Registry.v ===== *)
(** * The registry of MCP servers (store/registry.go)

    Servers, their tools and the committees each is granted to; registration
    as one transaction; lookup and the discovery query. *)

From S2P Require Import Prelude GoText Pg.
From Stdlib Require Import ZArith Lia Ascii.
From stdpp Require Import options.

Open Scope Z_scope.
Open Scope list_scope.

(** ** Data *)

Definition LifecycleProposed : string := "proposed".
Definition LifecycleApproved : string := "approved".
Definition LifecycleDeprecated : string := "deprecated".
Definition LifecycleDisabled : string := "disabled".

Definition lifecycles : list string :=
  [LifecycleProposed; LifecycleApproved; LifecycleDeprecated; LifecycleDisabled].
Definition impacts : list string := ["read"; "write"; "high"]%string.

Record ToolInput := MkToolInput { ti_Name : string; ti_Scope : string; ti_Impact : string }.

Record ServerInput := MkServerInput {
  si_Name : string;
  si_Owner : string;
  si_Description : string;
  si_Endpoint : string;
  si_Transport : string;
  si_Auth : string;
  si_Tools : list ToolInput;
  si_Committees : list string;
}.

Record Tool := MkTool {
  Tool_ID : string;
  Tool_ServerID : string;
  Tool_Name : string;
  Tool_Scope : string;
  Tool_Impact : string;
}.

Record Server := MkServer {
  Server_ID : string;
  Server_Name : string;
  Server_Owner : string;
  Server_Description : string;
  Server_Endpoint : string;
  Server_Transport : string;
  Server_Auth : string;
  Server_Lifecycle : string;
  Server_Enabled : bool;
  Server_Health : string;
  Server_CreatedAt : Z;
  Server_UpdatedAt : Z;
  Server_Tools : list Tool;
  Server_Committees : list string;
}.

Record VisibleTool := MkVisibleTool {
  vt_ServerName : string;
  vt_ServerID : string;
  vt_ToolName : string;
  vt_Scope : string;
  vt_Impact : string;
}.

Record ToolBinding := MkToolBinding { tb_Server : Server; tb_Tool : Tool }.

Record server_row := ServerRow {
  v_id : uuid;
  v_name : string;
  v_owner : string;
  v_description : string;
  v_endpoint : string;
  v_transport : string;
  v_auth : string;
  v_lifecycle : string;
  v_enabled : bool;
  v_health : string;
  v_created_at : Z;
  v_updated_at : Z;
}.

Record tool_row := ToolRow {
  o_id : uuid;
  o_server_id : uuid;
  o_name : string;
  o_scope : string;
  o_impact : string;
}.

Record registry := Registry {
  mcp_servers : list server_row;
  mcp_tools : list tool_row;
  server_committees : list (uuid * string);   (* PRIMARY KEY (server_id, committee) *)
}.

Definition registry_empty : registry :=
  {| mcp_servers := []; mcp_tools := []; server_committees := [] |}.

(** ** Ordering *)

Definition tool_name_le (a b : tool_row) : Prop := String.le (o_name a) (o_name b).
Definition server_name_le (a b : server_row) : Prop := String.le (v_name a) (v_name b).

(** ORDER BY s.name, t.name *)
Definition visible_le (a b : VisibleTool) : Prop :=
  String.le (vt_ServerName a) (vt_ServerName b) ∧
  (vt_ServerName a = vt_ServerName b → String.le (vt_ToolName a) (vt_ToolName b)).

#[export] Instance tool_name_le_dec a b : Decision (tool_name_le a b).
Proof. unfold tool_name_le. apply _. Defined.
#[export] Instance server_name_le_dec a b : Decision (server_name_le a b).
Proof. unfold server_name_le. apply _. Defined.
#[export] Instance visible_le_dec a b : Decision (visible_le a b).
Proof. unfold visible_le. apply _. Defined.
#[export] Instance VisibleTool_eq_dec : EqDecision VisibleTool.
Proof. solve_decision. Defined.

Section ops.
Context `{PgText}.
Implicit Types (d : registry) (st : Stmt).

Definition set_servers (l : list server_row) (d : registry) : registry :=
  {| mcp_servers := l; mcp_tools := mcp_tools d; server_committees := server_committees d |}.
Definition set_tools (l : list tool_row) (d : registry) : registry :=
  {| mcp_servers := mcp_servers d; mcp_tools := l; server_committees := server_committees d |}.
Definition set_grants (l : list (uuid * string)) (d : registry) : registry :=
  {| mcp_servers := mcp_servers d; mcp_tools := mcp_tools d; server_committees := l |}.

(** ** Reading *)

Definition scanTool (r : tool_row) : Tool :=
  {| Tool_ID := uuid_out (o_id r); Tool_ServerID := uuid_out (o_server_id r);
     Tool_Name := o_name r; Tool_Scope := o_scope r; Tool_Impact := o_impact r |}.

Definition listTools (sid : uuid) (d : registry) : list Tool :=
  scanTool <$> order_by tool_name_le (filter (λ r, o_server_id r = sid) (mcp_tools d)).

Definition listServerCommittees (sid : uuid) (d : registry) : list string :=
  order_by String.le (snd <$> filter (λ g, g.1 = sid) (server_committees d)).

(** scanServer, and the two lists that its callers add. *)
Definition server_of (r : server_row) (tools : list Tool) (committees : list string) : Server :=
  {| Server_ID := uuid_out (v_id r); Server_Name := v_name r; Server_Owner := v_owner r;
     Server_Description := v_description r; Server_Endpoint := v_endpoint r;
     Server_Transport := v_transport r; Server_Auth := v_auth r;
     Server_Lifecycle := v_lifecycle r; Server_Enabled := v_enabled r;
     Server_Health := v_health r; Server_CreatedAt := v_created_at r;
     Server_UpdatedAt := v_updated_at r; Server_Tools := tools;
     Server_Committees := committees |}.

(** All three read at once. *)
Definition scanServer (d : registry) (r : server_row) : Server :=
  server_of r (listTools (v_id r) d) (listServerCommittees (v_id r) d).

Definition find_server (name : string) (d : registry) : option server_row :=
  List.find (λ r, String.eqb (v_name r) name) (mcp_servers d).

(** SELECT ... FROM mcp_servers WHERE name = $1 *)
Definition select_server (name : string) (d : registry) : result server_row :=
  match find_server name d with Some r => Ok r | None => Err ErrNotFound end.

(** The three statements of GetServerByName over tables that stand still. They
    are no transaction: GatewayConcurrent.v takes them one at a time. *)
Definition GetServerByName (name : string) (d : registry) : result Server :=
  r ← select_server name d;
  Ok (server_of r (listTools (v_id r) d) (listServerCommittees (v_id r) d)).

Definition ListServers (d : registry) : list Server :=
  scanServer d <$> order_by server_name_le (mcp_servers d).

(** The loop of ResolveTool over the tools of the server. *)
Definition find_tool (toolName : string) (s : Server) : result ToolBinding :=
  match List.find (λ t, String.eqb (Tool_Name t) toolName) (Server_Tools s) with
  | Some t => Ok {| tb_Server := s; tb_Tool := t |}
  | None => Err ErrNotFound
  end.

Definition ResolveTool (serverName toolName : string) (d : registry) : result ToolBinding :=
  s ← GetServerByName serverName d; find_tool toolName s.

(** The rows of the three-way join, before DISTINCT. *)
Definition visible_join (committees : list string) (d : registry) : list VisibleTool :=
  t ← mcp_tools d;
  s ← filter (λ s, v_id s = o_server_id t) (mcp_servers d);
  g ← filter (λ g, g.1 = v_id s) (server_committees d);
  if String.eqb (v_lifecycle s) LifecycleApproved && v_enabled s &&
     bool_decide (g.2 ∈ committees)
  then [{| vt_ServerName := v_name s; vt_ServerID := uuid_out (v_id s);
           vt_ToolName := o_name t; vt_Scope := o_scope t; vt_Impact := o_impact t |}]
  else [].

Definition ListVisibleTools (committees : list string) (d : registry) : list VisibleTool :=
  match committees with
  | [] => []
  | _ => order_by visible_le (remove_dups (visible_join committees d))
  end.

(** ** Registration *)

(** UPDATE mcp_servers SET ... WHERE name = $1 *)
Definition update_server (name : string) (f : server_row → server_row) (d : registry) :
    registry :=
  set_servers ((λ x, if String.eqb (v_name x) name then f x else x) <$> mcp_servers d) d.

(** The SET list of ON CONFLICT (name) DO UPDATE. *)
Definition reregister (st : Stmt) (i : ServerInput) (transport auth : string)
    (x : server_row) : server_row :=
  {| v_id := v_id x; v_name := v_name x; v_owner := si_Owner i;
     v_description := si_Description i; v_endpoint := si_Endpoint i;
     v_transport := transport; v_auth := auth; v_lifecycle := v_lifecycle x;
     v_enabled := v_enabled x; v_health := v_health x;
     v_created_at := v_created_at x; v_updated_at := now st |}.

(** INSERT ... ON CONFLICT (name) DO UPDATE ... RETURNING id *)
Definition upsert_server (st : Stmt) (i : ServerInput) (transport auth : string)
    (d : registry) : result (uuid * registry) :=
  match find_server (si_Name i) d with
  | Some r =>
      Ok (v_id r, update_server (si_Name i) (reregister st i transport auth) d)
  | None =>
      let r := {| v_id := gen_uuid st 0; v_name := si_Name i; v_owner := si_Owner i;
                  v_description := si_Description i; v_endpoint := si_Endpoint i;
                  v_transport := transport; v_auth := auth;
                  v_lifecycle := LifecycleProposed; v_enabled := true;
                  v_health := "unknown"; v_created_at := now st; v_updated_at := now st |} in
      _ ← res_guard (negb (bool_decide (v_id r ∈ v_id <$> mcp_servers d)))
            (err_unique "mcp_servers_pkey");
      Ok (v_id r, set_servers (mcp_servers d ++ [r]) d)
  end.

(** One INSERT INTO mcp_tools: CHECK, primary key, UNIQUE (server_id, name). *)
Definition insert_tool (id sid : uuid) (t : ToolInput) (l : list tool_row) :
    result (list tool_row) :=
  _ ← res_guard (bool_decide (ti_Impact t ∈ impacts)) (err_check "mcp_tools_impact_check");
  _ ← res_guard (negb (bool_decide (id ∈ o_id <$> l))) (err_unique "mcp_tools_pkey");
  _ ← res_guard (negb (bool_decide ((sid, ti_Name t) ∈ (λ r, (o_server_id r, o_name r)) <$> l)))
        (err_unique "mcp_tools_server_id_name_key");
  Ok (l ++ [{| o_id := id; o_server_id := sid; o_name := ti_Name t;
               o_scope := ti_Scope t; o_impact := ti_Impact t |}]).

(** The loop over in.Tools; the n-th tool draws the n-th identifier. *)
Fixpoint insert_tools (ids : nat → uuid) (n : nat) (sid : uuid) (ts : list ToolInput)
    (l : list tool_row) : result (list tool_row) :=
  match ts with
  | [] => Ok l
  | t :: ts =>
      match insert_tool (ids n) sid t l with
      | Err e => Err (Errorf_w "store: register server: insert tool %q: " [Fs (ti_Name t)] e)
      | Ok l => insert_tools ids (S n) sid ts l
      end
  end.

(** INSERT ... ON CONFLICT DO NOTHING *)
Definition grant (sid : uuid) (l : list (uuid * string)) (c : string) : list (uuid * string) :=
  if bool_decide ((sid, c) ∈ l) then l else l ++ [(sid, c)].

(** The statements between BEGIN and COMMIT. *)
Definition register_tx (st : Stmt) (i : ServerInput) (transport auth : string)
    (d : registry) : result registry :=
  '(sid, d1) ← wrap "store: register server: upsert: " (upsert_server st i transport auth d);
  tools ← insert_tools (gen_uuid st) 1 sid (si_Tools i)
            (filter (λ r, o_server_id r ≠ sid) (mcp_tools d1));
  let d2 := set_tools tools d1 in
  let kept := filter (λ g, g.1 ≠ sid) (server_committees d2) in
  Ok (set_grants (foldl (grant sid) kept (si_Committees i)) d2).

Definition RegisterServer (st : Stmt) (i : ServerInput) (d : registry) :
    result Server * registry :=
  if negb (nonempty (si_Name i)) || negb (nonempty (si_Endpoint i))
  then (Err (ErrNew "store: register server: name and endpoint are required"), d)
  else
    let transport := if nonempty (si_Transport i) then si_Transport i else "streamable-http" in
    let auth := if nonempty (si_Auth i) then si_Auth i else "bearer" in
    match register_tx st i transport auth d with
    | Err e => (Err e, d)                       (* deferred tx.Rollback *)
    | Ok d' => (GetServerByName (si_Name i) d', d')
    end.

(** ** Lifecycle and kill switch *)

Definition with_lifecycle (lc : string) (t : Z) (r : server_row) : server_row :=
  {| v_id := v_id r; v_name := v_name r; v_owner := v_owner r;
     v_description := v_description r; v_endpoint := v_endpoint r;
     v_transport := v_transport r; v_auth := v_auth r; v_lifecycle := lc;
     v_enabled := v_enabled r; v_health := v_health r; v_created_at := v_created_at r;
     v_updated_at := t |}.

Definition with_enabled (b : bool) (t : Z) (r : server_row) : server_row :=
  {| v_id := v_id r; v_name := v_name r; v_owner := v_owner r;
     v_description := v_description r; v_endpoint := v_endpoint r;
     v_transport := v_transport r; v_auth := v_auth r; v_lifecycle := v_lifecycle r;
     v_enabled := b; v_health := v_health r; v_created_at := v_created_at r;
     v_updated_at := t |}.

Definition SetServerLifecycle (st : Stmt) (name lifecycle : string) (d : registry) :
    result unit * registry :=
  match find_server name d with
  | None => (Err ErrNotFound, d)
  | Some _ =>
      if bool_decide (lifecycle ∈ lifecycles)
      then (Ok (), update_server name (with_lifecycle lifecycle (now st)) d)
      else (Err (ErrWrap "store: set lifecycle: " (err_check "mcp_servers_lifecycle_check")), d)
  end.

Definition SetServerEnabled (st : Stmt) (name : string) (enabled : bool) (d : registry) :
    result unit * registry :=
  match find_server name d with
  | None => (Err ErrNotFound, d)
  | Some _ => (Ok (), update_server name (with_enabled enabled (now st)) d)
  end.

(** ** Invariant *)

Record registry_wf (d : registry) : Prop := {
  servers_pkey : NoDup (v_id <$> mcp_servers d);
  servers_name : NoDup (v_name <$> mcp_servers d);
  servers_lifecycle : ∀ r, r ∈ mcp_servers d → v_lifecycle r ∈ lifecycles;
  tools_pkey : NoDup (o_id <$> mcp_tools d);
  tools_unique : NoDup ((λ r, (o_server_id r, o_name r)) <$> mcp_tools d);
  tools_impact : ∀ r, r ∈ mcp_tools d → o_impact r ∈ impacts;
  tools_fkey : ∀ r, r ∈ mcp_tools d → o_server_id r ∈ v_id <$> mcp_servers d;
  grants_pkey : NoDup (server_committees d);
  grants_fkey : ∀ g, g ∈ server_committees d → g.1 ∈ v_id <$> mcp_servers d;
}.

(** ** Lemmas on reading *)

#[export] Instance visible_le_trans : Transitive visible_le.
Proof.
  intros a b c [H1 H2] [H3 H4]. split; [by etransitivity|]. intros Heq.
  assert (vt_ServerName a = vt_ServerName b) as Hab.
  { apply (anti_symm String.le); [done|]. by rewrite Heq. }
  etransitivity; [by apply H2 | apply H4; congruence].
Qed.

#[export] Instance visible_le_total : Total visible_le.
Proof.
  intros a b. unfold visible_le.
  destruct (decide (vt_ServerName a = vt_ServerName b)) as [Heq|Hne].
  - rewrite Heq. destruct (String.le_total (vt_ToolName a) (vt_ToolName b)); [left|right]; done.
  - destruct (String.le_total (vt_ServerName a) (vt_ServerName b)); [left|right];
      (split; [done|]); intros ?; congruence.
Qed.

Lemma find_server_Some name d r :
  find_server name d = Some r → r ∈ mcp_servers d ∧ v_name r = name.
Proof. intros [? ?%String.eqb_eq]%find_Some_elem_of. done. Qed.

Lemma find_server_None name d :
  find_server name d = None → name ∉ v_name <$> mcp_servers d.
Proof.
  intros Hf (r & -> & Hr)%list_elem_of_fmap.
  apply find_None_elem_of with (x := r) in Hf; [|done]. by rewrite String.eqb_refl in Hf.
Qed.

(** Two rows of a duplicate-free column are one row. *)
Lemma NoDup_fmap_eq {A B} (f : A → B) (l : list A) x y :
  NoDup (f <$> l) → x ∈ l → y ∈ l → f x = f y → x = y.
Proof.
  induction l as [|z l IH]; [by intros _ ?%elem_of_nil|].
  rewrite fmap_cons, NoDup_cons. intros [Hz Hl].
  intros [->|Hx]%elem_of_cons [->|Hy]%elem_of_cons Heq; auto.
  - destruct Hz. rewrite Heq. by apply list_elem_of_fmap_2.
  - destruct Hz. rewrite <-Heq. by apply list_elem_of_fmap_2.
Qed.

Lemma find_server_elem d r :
  registry_wf d → r ∈ mcp_servers d → find_server (v_name r) d = Some r.
Proof.
  intros Hwf Hr. destruct (find_server (v_name r) d) as [r'|] eqn:Hf.
  - apply find_server_Some in Hf as [Hr' Hn]. f_equal.
    by eapply (NoDup_fmap_eq v_name); [apply Hwf|..].
  - apply find_server_None in Hf. destruct Hf. by apply list_elem_of_fmap_2.
Qed.

Lemma elem_of_listTools sid d t :
  t ∈ listTools sid d ↔ ∃ r, r ∈ mcp_tools d ∧ o_server_id r = sid ∧ t = scanTool r.
Proof.
  unfold listTools. rewrite list_elem_of_fmap.
  setoid_rewrite elem_of_order_by. setoid_rewrite list_elem_of_filter. naive_solver.
Qed.

Lemma elem_of_listServerCommittees sid d c :
  c ∈ listServerCommittees sid d ↔ (sid, c) ∈ server_committees d.
Proof.
  unfold listServerCommittees. rewrite elem_of_order_by, list_elem_of_fmap.
  setoid_rewrite list_elem_of_filter. split.
  - intros ([u x] & -> & <- & Hg). done.
  - intros Hg. by exists (sid, c).
Qed.

Lemma find_tool_Ok tn s b :
  find_tool tn s = Ok b →
  tb_Server b = s ∧ tb_Tool b ∈ Server_Tools s ∧ Tool_Name (tb_Tool b) = tn.
Proof.
  unfold find_tool. destruct (List.find _ _) as [t|] eqn:Ht; [|done]. intros [= <-].
  apply find_Some_elem_of in Ht as [Ht Htn]. by apply String.eqb_eq in Htn.
Qed.

Lemma GetServerByName_found n d r :
  find_server n d = Some r → GetServerByName n d = Ok (scanServer d r).
Proof. unfold GetServerByName, select_server. by intros ->. Qed.

Lemma select_server_Ok n d r : select_server n d = Ok r ↔ find_server n d = Some r.
Proof. unfold select_server. destruct (find_server n d); naive_solver. Qed.

Lemma ResolveTool_Ok sn tn d b :
  registry_wf d →
  ResolveTool sn tn d = Ok b ↔
  ∃ s t, s ∈ mcp_servers d ∧ t ∈ mcp_tools d ∧ o_server_id t = v_id s ∧
    v_name s = sn ∧ o_name t = tn ∧ b = {| tb_Server := scanServer d s; tb_Tool := scanTool t |}.
Proof.
  intros Hwf. unfold ResolveTool, GetServerByName. rewrite res_bind_Ok. split.
  - intros (s & (r & Hf%select_server_Ok & [= <-])%res_bind_Ok & Hb).
    apply find_server_Some in Hf as [Hr Hn]. destruct b as [s t].
    apply find_tool_Ok in Hb as (Hb & Ht & Htn). cbn [tb_Server tb_Tool] in Hb, Ht, Htn. subst s.
    apply elem_of_listTools in Ht as (tr & Htr & Hsid & ->). by exists r, tr.
  - intros (s & t & Hs & Ht & Hid & <- & <- & ->).
    exists (scanServer d s). unfold select_server. rewrite (find_server_elem d s Hwf Hs). split; [done|].
    unfold find_tool.
    assert (scanTool t ∈ listTools (v_id s) d) as Hin
      by (apply elem_of_listTools; eauto).
    change (Server_Tools (scanServer d s)) with (listTools (v_id s) d).
    destruct (List.find (λ t0, String.eqb (Tool_Name t0) (o_name t)) (listTools (v_id s) d))
      as [t'|] eqn:Hf.
    + apply find_Some_elem_of in Hf as [Ht' Hn]. apply String.eqb_eq in Hn.
      apply elem_of_listTools in Ht' as (tr & Htr & Hsid & ->).
      do 2 f_equal. f_equal. apply (NoDup_fmap_eq (λ r, (o_server_id r, o_name r)) (mcp_tools d));
        [apply Hwf | done | done |]. simpl in *. congruence.
    + apply find_None_elem_of with (x := scanTool t) in Hf; [|done].
      simpl in Hf. by rewrite String.eqb_refl in Hf.
Qed.

Lemma elem_of_visible_join cs d vt :
  vt ∈ visible_join cs d ↔
  ∃ s t c, s ∈ mcp_servers d ∧ t ∈ mcp_tools d ∧ o_server_id t = v_id s ∧
    (v_id s, c) ∈ server_committees d ∧ c ∈ cs ∧
    v_lifecycle s = LifecycleApproved ∧ v_enabled s = true ∧
    vt = {| vt_ServerName := v_name s; vt_ServerID := uuid_out (v_id s);
            vt_ToolName := o_name t; vt_Scope := o_scope t; vt_Impact := o_impact t |}.
Proof.
  unfold visible_join. rewrite list_elem_of_bind. setoid_rewrite list_elem_of_bind.
  setoid_rewrite list_elem_of_bind. setoid_rewrite list_elem_of_filter. split.
  - intros (t & (s & ([u c] & Hvt & Hg & Hgc) & Hid & Hs) & Ht). simpl in *. subst u.
    destruct (String.eqb _ _ && _ && _) eqn:Hc; [|by apply elem_of_nil in Hvt].
    apply list_elem_of_singleton in Hvt as ->.
    apply andb_true_iff in Hc as [Hc Hin]. apply andb_true_iff in Hc as [Hl He].
    apply String.eqb_eq in Hl. apply bool_decide_eq_true in Hin.
    exists s, t, c. naive_solver.
  - intros (s & t & c & Hs & Ht & Hid & Hg & Hc & Hl & He & ->).
    exists t. split; [|done]. exists s. split; [|done]. exists (v_id s, c). split; [|done].
    simpl. rewrite Hl, He, String.eqb_refl, bool_decide_true by done. by left.
Qed.

Lemma elem_of_ListVisibleTools cs d vt :
  vt ∈ ListVisibleTools cs d ↔ vt ∈ visible_join cs d.
Proof.
  unfold ListVisibleTools. destruct cs as [|c cs].
  - split; [by intros ?%elem_of_nil|]. rewrite elem_of_visible_join.
    intros (? & ? & ? & _ & _ & _ & _ & ?%elem_of_nil & _). done.
  - by rewrite elem_of_order_by, elem_of_remove_dups.
Qed.

(** ** Lemmas on writing *)

Lemma update_server_ids name f d :
  (∀ r, v_id (f r) = v_id r) →
  v_id <$> mcp_servers (update_server name f d) = v_id <$> mcp_servers d.
Proof.
  intros Hf. simpl. rewrite <-list_fmap_compose. apply list_fmap_ext.
  intros _ r _. simpl. case_match; [apply Hf|done].
Qed.

Lemma update_server_names name f d :
  (∀ r, v_name (f r) = v_name r) →
  v_name <$> mcp_servers (update_server name f d) = v_name <$> mcp_servers d.
Proof.
  intros Hf. simpl. rewrite <-list_fmap_compose. apply list_fmap_ext.
  intros _ r _. simpl. case_match; [apply Hf|done].
Qed.

(** An update of one row that keeps its identity keeps the constraints. *)
Lemma update_server_wf name f d :
  (∀ r, v_id (f r) = v_id r) → (∀ r, v_name (f r) = v_name r) →
  (∀ r, v_lifecycle r ∈ lifecycles → v_lifecycle (f r) ∈ lifecycles) →
  registry_wf d → registry_wf (update_server name f d).
Proof.
  intros Hid Hname Hlc Hwf.
  pose proof (update_server_ids name f d Hid) as Hids.
  pose proof (update_server_names name f d Hname) as Hnames.
  destruct Hwf. split; try rewrite Hids; try rewrite Hnames; try done.
  simpl. intros r (x & -> & Hx)%list_elem_of_fmap. case_match; auto.
Qed.

Lemma find_map_server name n f (l : list server_row) :
  (∀ r, v_name (f r) = v_name r) →
  List.find (λ r, String.eqb (v_name r) n)
    ((λ x, if String.eqb (v_name x) name then f x else x) <$> l) =
  (λ r, if String.eqb n name then f r else r) <$>
    List.find (λ r, String.eqb (v_name r) n) l.
Proof.
  intros Hf. induction l as [|x l IH]; [done|]. simpl.
  destruct (String.eqb (v_name x) name) eqn:Hx.
  - rewrite Hf. destruct (String.eqb (v_name x) n) eqn:Hn; [|done].
    simpl. apply String.eqb_eq in Hn as <-. by rewrite Hx.
  - destruct (String.eqb (v_name x) n) eqn:Hn; [|done].
    simpl. apply String.eqb_eq in Hn as <-. by rewrite Hx.
Qed.

Lemma find_update_server name n f d :
  (∀ r, v_name (f r) = v_name r) →
  find_server n (update_server name f d) =
  (λ r, if String.eqb n name then f r else r) <$> find_server n d.
Proof. intros Hf. by apply find_map_server. Qed.

Lemma upsert_server_frame st i tr au d sid d1 :
  upsert_server st i tr au d = Ok (sid, d1) →
  mcp_tools d1 = mcp_tools d ∧ server_committees d1 = server_committees d.
Proof.
  unfold upsert_server. destruct (find_server _ _); [by intros [= _ <-]|].
  rewrite res_bind_Ok. by intros ([] & _ & [= _ <-]).
Qed.

(** The part of the invariant that the rows of mcp_tools carry. *)
Record tools_wf (sids : list uuid) (l : list tool_row) : Prop := {
  tw_pkey : NoDup (o_id <$> l);
  tw_unique : NoDup ((λ r, (o_server_id r, o_name r)) <$> l);
  tw_impact : ∀ r, r ∈ l → o_impact r ∈ impacts;
  tw_fkey : ∀ r, r ∈ l → o_server_id r ∈ sids;
}.

Lemma insert_tool_Ok id sid t l l' :
  insert_tool id sid t l = Ok l' →
  l' = l ++ [{| o_id := id; o_server_id := sid; o_name := ti_Name t;
                o_scope := ti_Scope t; o_impact := ti_Impact t |}] ∧
  ti_Impact t ∈ impacts ∧ id ∉ o_id <$> l ∧
  (sid, ti_Name t) ∉ (λ r, (o_server_id r, o_name r)) <$> l.
Proof.
  unfold insert_tool. rewrite res_bind_Ok. intros ([] & Hi & H1).
  apply res_bind_Ok in H1 as ([] & Hid & H1). apply res_bind_Ok in H1 as ([] & Hn & H1).
  apply res_guard_Ok in Hi, Hid, Hn. bools. by injection H1 as <-.
Qed.

Lemma insert_tool_wf sids id sid t l l' :
  sid ∈ sids → tools_wf sids l → insert_tool id sid t l = Ok l' → tools_wf sids l'.
Proof.
  intros Hs [Hp Hu Hi Hf] (-> & Ht & Hid & Hn)%insert_tool_Ok.
  split; try rewrite fmap_app.
  - apply NoDup_app. split_and!; [done|..].
    + by intros x Hx ->%list_elem_of_singleton.
    + apply NoDup_singleton.
  - apply NoDup_app. split_and!; [done|..].
    + by intros x Hx ->%list_elem_of_singleton.
    + apply NoDup_singleton.
  - by intros r [?| ->%list_elem_of_singleton]%elem_of_app; [apply Hi|].
  - by intros r [?| ->%list_elem_of_singleton]%elem_of_app; [apply Hf|].
Qed.

Lemma insert_tools_wf sids ids sid ts : ∀ n l l',
  sid ∈ sids → tools_wf sids l → insert_tools ids n sid ts l = Ok l' → tools_wf sids l'.
Proof.
  induction ts as [|t ts IH]; intros n l l' Hs Hl; simpl; [by intros [= <-]|].
  destruct (insert_tool _ _ _ _) as [l1|e] eqn:Ht; [|done].
  eauto using insert_tool_wf.
Qed.

(** What the loop leaves: the rows before it, then one row per declaration. *)
Lemma insert_tools_rows ids sid ts : ∀ n l l',
  insert_tools ids n sid ts l = Ok l' →
  ∃ new, l' = l ++ new ∧ Forall (λ r, o_server_id r = sid) new ∧
    (λ r, MkToolInput (o_name r) (o_scope r) (o_impact r)) <$> new = ts.
Proof.
  induction ts as [|t ts IH]; intros n l l'; simpl.
  - intros [= <-]. exists []. by rewrite app_nil_r.
  - destruct (insert_tool _ _ _ _) as [l1|e] eqn:Ht; [|done].
    apply insert_tool_Ok in Ht as (-> & _).
    intros (new & -> & Hs & Hn)%IH. rewrite <-(assoc_L (++)). simpl.
    eexists. split; [done|]. split; [by constructor|].
    rewrite fmap_cons, Hn. by destruct t.
Qed.

Lemma grant_NoDup sid l c : NoDup l → NoDup (grant sid l c).
Proof.
  intros Hl. unfold grant. case_bool_decide as Hc; [done|]. apply NoDup_app.
  split_and!; [done| |apply NoDup_singleton]. by intros x Hx ->%list_elem_of_singleton.
Qed.

Lemma elem_of_grants sid cs : ∀ l g,
  g ∈ foldl (grant sid) l cs ↔ g ∈ l ∨ (g.1 = sid ∧ g.2 ∈ cs).
Proof.
  induction cs as [|c cs IH]; intros l [u x]; simpl.
  - rewrite elem_of_nil. naive_solver.
  - rewrite IH, elem_of_cons. simpl. unfold grant. case_bool_decide as Hc.
    + naive_solver.
    + rewrite elem_of_app, list_elem_of_singleton. naive_solver.
Qed.

Lemma grants_NoDup sid cs : ∀ l, NoDup l → NoDup (foldl (grant sid) l cs).
Proof. induction cs as [|c cs IH]; intros l Hl; simpl; eauto using grant_NoDup. Qed.

(** The row that registration leaves under the name: a new one is proposed
    and enabled, an old one keeps its identity, lifecycle and switch. *)
Definition registered (st : Stmt) (i : ServerInput) (old : option server_row)
    (r : server_row) : Prop :=
  v_name r = si_Name i ∧ v_endpoint r = si_Endpoint i ∧ v_owner r = si_Owner i ∧
  v_updated_at r = now st ∧
  match old with
  | Some o => v_id r = v_id o ∧ v_lifecycle r = v_lifecycle o ∧
              v_enabled r = v_enabled o ∧ v_created_at r = v_created_at o
  | None => v_lifecycle r = LifecycleProposed ∧ v_enabled r = true
  end.

Lemma upsert_server_wf st i tr au d sid d1 :
  registry_wf d → upsert_server st i tr au d = Ok (sid, d1) →
  registry_wf d1 ∧ mcp_tools d1 = mcp_tools d ∧
  server_committees d1 = server_committees d ∧ sid ∈ v_id <$> mcp_servers d1.
Proof.
  intros Hwf. unfold upsert_server. destruct (find_server (si_Name i) d) as [r|] eqn:Hf.
  - intros [= <- <-]. split; [by apply (update_server_wf (si_Name i) _ d)|]. do 2 (split; [done|]).
    rewrite (update_server_ids (si_Name i) _ d) by done.
    apply list_elem_of_fmap_2. by apply find_server_Some in Hf as [? _].
  - rewrite res_bind_Ok. intros ([] & Hid & [= <- <-]). apply res_guard_Ok in Hid. bools.
    apply find_server_None in Hf. destruct Hwf. split_and!; [|done|done|].
    + split; simpl; try done; try rewrite fmap_app.
      * apply NoDup_app. split_and!; [done| |apply NoDup_singleton].
        by intros x Hx ->%list_elem_of_singleton.
      * apply NoDup_app. split_and!; [done| |apply NoDup_singleton].
        by intros x Hx ->%list_elem_of_singleton.
      * intros r [?| ->%list_elem_of_singleton]%elem_of_app; [eauto|]. by left.
      * intros r Hr. apply elem_of_app. left. by apply tools_fkey0.
      * intros g Hg. apply elem_of_app. left. by apply grants_fkey0.
    + simpl. rewrite fmap_app. apply elem_of_app. right. by left.
Qed.

Lemma find_server_snoc r d :
  find_server (v_name r) d = None →
  find_server (v_name r) (set_servers (mcp_servers d ++ [r]) d) = Some r.
Proof.
  unfold find_server. simpl. induction (mcp_servers d) as [|x l IH]; simpl.
  - by rewrite String.eqb_refl.
  - by destruct (String.eqb (v_name x) (v_name r)).
Qed.

Lemma upsert_server_row st i tr au d sid d1 :
  upsert_server st i tr au d = Ok (sid, d1) →
  ∃ r, find_server (si_Name i) d1 = Some r ∧ v_id r = sid ∧
    registered st i (find_server (si_Name i) d) r.
Proof.
  unfold upsert_server. destruct (find_server (si_Name i) d) as [r|] eqn:Hf.
  - intros [= <- <-]. rewrite find_update_server, Hf by done. simpl. rewrite String.eqb_refl.
    eexists. split; [done|]. apply find_server_Some in Hf as [_ Hn]. done.
  - rewrite res_bind_Ok. intros ([] & _ & [= <- <-]).
    match goal with |- context [set_servers (_ ++ [?x]) d] =>
      exists x; split; [by apply (find_server_snoc x) | done] end.
Qed.

Lemma register_tx_Ok st i tr au d d' :
  register_tx st i tr au d = Ok d' →
  ∃ sid d1 tools, upsert_server st i tr au d = Ok (sid, d1) ∧
    insert_tools (gen_uuid st) 1 sid (si_Tools i)
      (filter (λ r, o_server_id r ≠ sid) (mcp_tools d1)) = Ok tools ∧
    d' = set_grants (foldl (grant sid) (filter (λ g, g.1 ≠ sid) (server_committees d1))
           (si_Committees i)) (set_tools tools d1).
Proof.
  unfold register_tx. rewrite res_bind_Ok. intros ([sid d1] & Hu & H1).
  apply res_bind_Ok in H1 as (tools & Ht & [= <-]). exists sid, d1, tools.
  split; [|done]. unfold wrap in Hu.
  by destruct (upsert_server st i tr au d).
Qed.

Lemma register_tx_wf st i tr au d d' :
  registry_wf d → register_tx st i tr au d = Ok d' → registry_wf d'.
Proof.
  intros Hwf (sid & d1 & tools & Hu & Ht & ->)%register_tx_Ok.
  apply upsert_server_wf in Hu as (Hwf1 & _ & _ & Hsid); [|done]. destruct Hwf1.
  apply (insert_tools_wf (v_id <$> mcp_servers d1)) in Ht as Htw; [|exact Hsid|].
  - destruct Htw. split; simpl; try done.
    + by apply grants_NoDup, NoDup_filter.
    + intros g [[_ Hg]%list_elem_of_filter|[-> _]]%elem_of_grants; auto.
  - split.
    + by apply NoDup_fmap_filter.
    + by apply NoDup_fmap_filter.
    + intros r [_ Hr]%list_elem_of_filter. auto.
    + intros r [_ Hr]%list_elem_of_filter. auto.
Qed.

Lemma RegisterServer_wf st i d : registry_wf d → registry_wf (RegisterServer st i d).2.
Proof.
  intros Hwf. unfold RegisterServer. destruct (_ || _); [done|]. cbv zeta.
  destruct (register_tx _ _ _ _ _) eqn:Ht; [|done]. by apply register_tx_wf in Ht.
Qed.

Lemma SetServerLifecycle_wf st n lc d :
  registry_wf d → registry_wf (SetServerLifecycle st n lc d).2.
Proof.
  intros Hwf. unfold SetServerLifecycle. destruct (find_server n d); [|done].
  case_bool_decide; [|done]. by apply update_server_wf.
Qed.

Lemma SetServerEnabled_wf st n b d :
  registry_wf d → registry_wf (SetServerEnabled st n b d).2.
Proof.
  intros Hwf. unfold SetServerEnabled. destruct (find_server n d); [|done].
  by apply update_server_wf.
Qed.

Lemma registry_empty_wf : registry_wf registry_empty.
Proof.
  split; simpl; try apply NoDup_nil_2; by intros ? ?%elem_of_nil.
Qed.

(** Reading the state a registration committed. *)
Lemma register_tx_server st i tr au d d' :
  register_tx st i tr au d = Ok d' →
  ∃ r, find_server (si_Name i) d' = Some r ∧
    registered st i (find_server (si_Name i) d) r ∧
    (∃ new, mcp_tools d' = filter (λ t, o_server_id t ≠ v_id r) (mcp_tools d) ++ new ∧
       Forall (λ t, o_server_id t = v_id r) new ∧
       (λ t, MkToolInput (o_name t) (o_scope t) (o_impact t)) <$> new = si_Tools i) ∧
    ∀ g, g ∈ server_committees d' ↔
      (g ∈ server_committees d ∧ g.1 ≠ v_id r) ∨ (g.1 = v_id r ∧ g.2 ∈ si_Committees i).
Proof.
  intros (sid & d1 & tools & Hu & Ht & ->)%register_tx_Ok.
  pose proof Hu as (r & Hr & Hid & Hreg)%upsert_server_row. subst sid.
  apply upsert_server_frame in Hu as [Htools Hgrants].
  apply insert_tools_rows in Ht as (new & -> & Hnew & Hts). rewrite Htools, Hgrants.
  exists r. split; [done|]. split; [done|]. split; [by exists new|].
  intros g. simpl. rewrite elem_of_grants, list_elem_of_filter. naive_solver.
Qed.

(** A registration, whatever its outcome, keeps the state of a known server. *)
Lemma RegisterServer_row st i d r :
  find_server (si_Name i) d = Some r →
  ∃ r', find_server (si_Name i) (RegisterServer st i d).2 = Some r' ∧
    v_enabled r' = v_enabled r ∧ v_lifecycle r' = v_lifecycle r.
Proof.
  intros Hf. unfold RegisterServer. destruct (_ || _); [by exists r|]. cbv zeta.
  destruct (register_tx _ _ _ _ _) as [d'|e] eqn:Ht; [|by exists r].
  apply register_tx_server in Ht as (r' & Hr' & Hreg & _).
  destruct Hreg as (_ & _ & _ & _ & Hold). rewrite Hf in Hold.
  exists r'. naive_solver.
Qed.

Lemma find_server_app name l d r :
  v_name r ≠ name →
  find_server name (set_servers (l ++ [r]) d) = find_server name (set_servers l d).
Proof.
  intros Hne. unfold find_server. simpl. induction l as [|x l IH]; simpl.
  - by destruct (String.eqb_spec (v_name r) name).
  - by rewrite IH.
Qed.

Lemma RegisterServer_other st i d name :
  name ≠ si_Name i → find_server name (RegisterServer st i d).2 = find_server name d.
Proof.
  intros Hne. unfold RegisterServer. destruct (_ || _); [done|]. cbv zeta.
  destruct (register_tx _ _ _ _ _) as [d'|e] eqn:Ht; [|done].
  apply register_tx_Ok in Ht as (sid & d1 & tools & Hu & _ & ->).
  change (find_server name d1 = find_server name d).
  unfold upsert_server in Hu. destruct (find_server (si_Name i) d) as [r|].
  - injection Hu as _ <-. rewrite find_update_server by done.
    destruct (find_server name d); simpl; [|done].
    by destruct (String.eqb_spec name (si_Name i)).
  - apply res_bind_Ok in Hu as ([] & _ & [= _ <-]). by rewrite find_server_app.
Qed.

Lemma filter_new (sid : uuid) (old new : list tool_row) :
  Forall (λ t, o_server_id t = sid) new →
  filter (λ t, o_server_id t = sid) (filter (λ t, o_server_id t ≠ sid) old ++ new) = new.
Proof.
  intros Hn. rewrite filter_app.
  assert (filter (λ t, o_server_id t = sid) (filter (λ t, o_server_id t ≠ sid) old) = []) as ->.
  { apply filter_nil_iff. intros t [? _]%list_elem_of_filter. done. }
  simpl. induction Hn as [|t new Ht _ IH]; [done|].
  by rewrite filter_cons, decide_True, IH.
Qed.

(** What a registration under another name leaves alone. *)
Lemma RegisterServer_frame st i d name row :
  registry_wf d → name ≠ si_Name i → find_server name d = Some row →
  let d' := (RegisterServer st i d).2 in
  find_server name d' = Some row ∧
  filter (λ t, o_server_id t = v_id row) (mcp_tools d') =
    filter (λ t, o_server_id t = v_id row) (mcp_tools d) ∧
  ∀ c, (v_id row, c) ∈ server_committees d' ↔ (v_id row, c) ∈ server_committees d.
Proof.
  intros Hwf Hne Hrow. pose proof (RegisterServer_wf st i d Hwf) as Hwf'.
  pose proof (RegisterServer_other st i d _ Hne) as Hrow'. rewrite Hrow in Hrow'.
  cbv zeta. split; [done|]. revert Hwf' Hrow'.
  unfold RegisterServer. destruct (_ || _); [done|]. cbv zeta.
  destruct (register_tx _ _ _ _ _) as [d'|e] eqn:Ht; [|done]. simpl. intros Hwf' Hrow'.
  apply register_tx_server in Ht as (r & Hr & _ & (new & Htools & Hnew & _) & Hg').
  assert (v_id row ≠ v_id r) as Hids.
  { apply find_server_Some in Hrow' as [Hin1 Hn1], Hr as [Hin2 Hn2]. intros Heq.
    assert (row = r) as -> by (by eapply (NoDup_fmap_eq v_id); [apply Hwf'|..]). congruence. }
  split.
  - rewrite Htools, filter_app, list_filter_filter_l, (proj2 (filter_nil_iff _ new)), app_nil_r;
      [done| |].
    + intros t Ht Heq. rewrite Forall_forall in Hnew. rewrite (Hnew t Ht) in Heq. done.
    + intros t Heq Hr'. congruence.
  - intros c. rewrite Hg'. simpl. naive_solver.
Qed.

(** *** When a registration succeeds *)

Lemma insert_tools_total ids sid ts : ∀ n l,
  NoDup ((ids <$> seq n (length ts)) ++ (o_id <$> l)) →
  Forall (λ t, ti_Impact t ∈ impacts) ts → NoDup (ti_Name <$> ts) →
  (∀ t, t ∈ ts → (sid, ti_Name t) ∉ (λ r, (o_server_id r, o_name r)) <$> l) →
  ∃ l', insert_tools ids n sid ts l = Ok l'.
Proof.
  induction ts as [|t ts IH]; intros n l Hids Hi Hn Hk; simpl; [by eexists|].
  apply Forall_cons in Hi as [Hi His]. rewrite fmap_cons in Hn. apply NoDup_cons in Hn as [Hn Hns].
  simpl in Hids. apply NoDup_cons in Hids as [Hid Hids].
  rewrite not_elem_of_app in Hid. unfold insert_tool.
  rewrite (bool_decide_true (ti_Impact t ∈ impacts)) by done.
  rewrite (bool_decide_false (ids n ∈ _)) by apply Hid.
  rewrite (bool_decide_false ((sid, ti_Name t) ∈ _)) by (apply Hk; left). cbn.
  apply IH; [|done..|].
  - rewrite fmap_app, list_fmap_singleton, (assoc_L (++)), <-Permutation_cons_append.
    apply NoDup_cons.
    rewrite not_elem_of_app. done.
  - intros t' Ht'. rewrite fmap_app, not_elem_of_app. split; [apply Hk; by right|].
    simpl. rewrite list_elem_of_singleton. intros [= Heq]. apply Hn. rewrite <-Heq.
    by apply list_elem_of_fmap_2.
Qed.

Lemma insert_tools_valid ids sid ts : ∀ n l l',
  insert_tools ids n sid ts l = Ok l' →
  Forall (λ t, ti_Impact t ∈ impacts) ts ∧ NoDup (ti_Name <$> ts) ∧
  ∀ t, t ∈ ts → (sid, ti_Name t) ∉ (λ r, (o_server_id r, o_name r)) <$> l.
Proof.
  induction ts as [|t ts IH]; intros n l l'; simpl.
  - intros _. split; [done|]. split; [constructor|]. by intros t ?%elem_of_nil.
  - destruct (insert_tool _ _ _ _) as [l1|e] eqn:Ht; [|done].
    apply insert_tool_Ok in Ht as (-> & Hi & _ & Hk). intros (His & Hns & Hks)%IH.
    setoid_rewrite fmap_app in Hks. setoid_rewrite not_elem_of_app in Hks.
    split; [by constructor|]. split.
    + apply NoDup_cons. split; [|done]. intros (t' & Heq & Ht')%list_elem_of_fmap.
      destruct (Hks t' Ht') as [_ Hx]. apply Hx. simpl. rewrite <-Heq. left.
    + intros t' [->|Ht']%elem_of_cons; [done|]. by apply Hks.
Qed.

(** What a registration checks, apart from the identifiers it draws. *)
Definition valid_input (i : ServerInput) : Prop :=
  si_Name i ≠ EmptyString ∧ si_Endpoint i ≠ EmptyString ∧
  Forall (λ t, ti_Impact t ∈ impacts) (si_Tools i) ∧ NoDup (ti_Name <$> si_Tools i).

#[export] Instance valid_input_dec i : Decision (valid_input i).
Proof. unfold valid_input. apply _. Defined.

(** The identifiers drawn for a registration are new. *)
Definition fresh_ids (st : Stmt) (i : ServerInput) (d : registry) : Prop :=
  NoDup (gen_uuid st 0 :: (v_id <$> mcp_servers d)) ∧
  NoDup ((gen_uuid st <$> seq 1 (length (si_Tools i))) ++ (o_id <$> mcp_tools d)).

Lemma upsert_server_total st i tr au d :
  fresh_ids st i d → ∃ sid d1, upsert_server st i tr au d = Ok (sid, d1).
Proof.
  intros [Hf _]. apply NoDup_cons in Hf as [Hf _]. unfold upsert_server.
  destruct (find_server _ d); [by eexists _, _|]. simpl.
  rewrite bool_decide_false by done. by eexists _, _.
Qed.

Lemma RegisterServer_ok_iff st i d :
  fresh_ids st i d → is_ok (RegisterServer st i d).1 = true ↔ valid_input i.
Proof.
  intros Hf. unfold RegisterServer, valid_input. rewrite <-!nonempty_true.
  destruct (nonempty (si_Name i)); [|naive_solver].
  destruct (nonempty (si_Endpoint i)); [|naive_solver]. cbn [negb orb]. cbv zeta.
  set (tr := if nonempty (si_Transport i) then _ else _).
  set (au := if nonempty (si_Auth i) then _ else _).
  destruct (register_tx st i tr au d) as [d'|e] eqn:Ht; simpl.
  - apply register_tx_server in Ht as Hs. destruct Hs as (r & Hr & _).
    rewrite (GetServerByName_found _ _ _ Hr). split; [intros _|done].
    apply register_tx_Ok in Ht as (sid & d1 & tools & _ & Hin & _).
    apply insert_tools_valid in Hin as (? & ? & _). done.
  - split; [done|]. intros (_ & _ & Hi & Hn). exfalso.
    destruct (upsert_server_total st i tr au d Hf) as (sid & d1 & Hu).
    pose proof (upsert_server_frame _ _ _ _ _ _ _ Hu) as [Htools _].
    destruct (insert_tools_total (gen_uuid st) sid (si_Tools i) 1
                (filter (λ r, o_server_id r ≠ sid) (mcp_tools d1))) as [l Hl]; [|done|done| |].
    + rewrite Htools. destruct Hf as [_ Hf]. apply NoDup_app in Hf as (H1 & H2 & H3).
      apply NoDup_app. split; [done|]. split; [|by apply NoDup_fmap_filter].
      intros x Hx (r & -> & [_ Hr]%list_elem_of_filter)%list_elem_of_fmap.
      apply (H2 _ Hx). by apply list_elem_of_fmap_2.
    + intros t _ (r & [= Heq _] & [Hr _]%list_elem_of_filter)%list_elem_of_fmap. congruence.
    + unfold register_tx in Ht. rewrite Hu in Ht. cbn in Ht. by rewrite Hl in Ht.
Qed.

(** RegisterServer is all or nothing: an error leaves the registry as it was;
    otherwise the server's row keeps its identity, lifecycle and kill switch when it
    existed (and is proposed when new), its tools and grants are exactly those given, and
    other servers keep theirs. *)
Theorem RegisterServer_replaces st i d :
  let '(r, d') := RegisterServer st i d in
  match r with
  | Err _ => d' = d
  | Ok s =>
      nonempty (si_Name i) = true ∧ nonempty (si_Endpoint i) = true ∧
      ∃ row, find_server (si_Name i) d' = Some row ∧ s = scanServer d' row ∧
        registered st i (find_server (si_Name i) d) row ∧
        (∃ new, mcp_tools d' = filter (λ t, o_server_id t ≠ v_id row) (mcp_tools d) ++ new ∧
           Forall (λ t, o_server_id t = v_id row) new ∧
           (λ t, MkToolInput (o_name t) (o_scope t) (o_impact t)) <$> new = si_Tools i) ∧
        (∀ c, c ∈ Server_Committees s ↔ c ∈ si_Committees i) ∧
        (∀ g, g.1 ≠ v_id row → g ∈ server_committees d' ↔ g ∈ server_committees d)
  end.
Proof.
  unfold RegisterServer. destruct (nonempty (si_Name i)); [|done].
  destruct (nonempty (si_Endpoint i)); [|done]. simpl.
  destruct (register_tx _ _ _ _ _) as [d'|e] eqn:Ht; [|done].
  apply register_tx_server in Ht as (r & Hr & Hreg & Htools & Hg).
  rewrite (GetServerByName_found _ _ _ Hr). do 2 (split; [done|]). exists r.
  do 4 (split; [done|]). split.
  - intros c. change (Server_Committees (scanServer d' r)) with (listServerCommittees (v_id r) d').
    rewrite elem_of_listServerCommittees, Hg. naive_solver.
  - intros g Hne. rewrite Hg. naive_solver.
Qed.

(** ListVisibleTools returns, sorted and without duplicates, exactly the tools of
    approved and enabled servers that are granted to one of the given committees. *)
Theorem ListVisibleTools_exact cs d :
  StronglySorted visible_le (ListVisibleTools cs d) ∧ NoDup (ListVisibleTools cs d) ∧
  ∀ vt, vt ∈ ListVisibleTools cs d ↔
    ∃ s t c, s ∈ mcp_servers d ∧ t ∈ mcp_tools d ∧ o_server_id t = v_id s ∧
      (v_id s, c) ∈ server_committees d ∧ c ∈ cs ∧
      v_lifecycle s = LifecycleApproved ∧ v_enabled s = true ∧
      vt = {| vt_ServerName := v_name s; vt_ServerID := uuid_out (v_id s);
              vt_ToolName := o_name t; vt_Scope := o_scope t; vt_Impact := o_impact t |}.
Proof.
  split_and!.
  - unfold ListVisibleTools. destruct cs; [constructor|]. apply order_by_sorted; apply _.
  - unfold ListVisibleTools. destruct cs; [constructor|].
    rewrite order_by_perm. apply NoDup_remove_dups.
  - intros vt. rewrite elem_of_ListVisibleTools. apply elem_of_visible_join.
Qed.
End ops.
