(* ===== verification/Repository.v ===== *)
(** * The repository as a whole (services/session-memory/store)

    The tables of the component files side by side, every statement of the
    store as one operation on them, and histories of operations. The foreign
    keys between components (roles and sessions to users, approvals to
    sessions) become the arguments the component operations take. What a
    history keeps: the constraints of the tables, and a fact until a statement
    forgets it. *)

From S2P Require Import Prelude GoText Json Pg Memory Sessions Identity Governance Registry.
From Stdlib Require Import ZArith Lia Ascii.
From stdpp Require Import options.

Open Scope Z_scope.
Open Scope list_scope.

Record db := Db {
  d_people : people;
  d_conv : conv;
  d_gov : gov;
  d_registry : registry;
  d_facts : list fact_row;
}.

Definition db_empty : db :=
  {| d_people := people_empty; d_conv := conv_empty; d_gov := gov_empty;
     d_registry := registry_empty; d_facts := [] |}.

Definition with_people (p : people) (d : db) : db :=
  {| d_people := p; d_conv := d_conv d; d_gov := d_gov d; d_registry := d_registry d;
     d_facts := d_facts d |}.
Definition with_conv (c : conv) (d : db) : db :=
  {| d_people := d_people d; d_conv := c; d_gov := d_gov d; d_registry := d_registry d;
     d_facts := d_facts d |}.
Definition with_gov (g : gov) (d : db) : db :=
  {| d_people := d_people d; d_conv := d_conv d; d_gov := g; d_registry := d_registry d;
     d_facts := d_facts d |}.
Definition with_registry (r : registry) (d : db) : db :=
  {| d_people := d_people d; d_conv := d_conv d; d_gov := d_gov d; d_registry := r;
     d_facts := d_facts d |}.
Definition with_facts (f : list fact_row) (d : db) : db :=
  {| d_people := d_people d; d_conv := d_conv d; d_gov := d_gov d;
     d_registry := d_registry d; d_facts := f |}.

(** The rows that foreign keys may name. *)
Definition session_ids (d : db) : list uuid := s_id <$> sessions (d_conv d).

(** The statements that change the tables, with their arguments. *)
Inductive op : Type :=
  | OpUpsertUser (slackID name email : string)
  | OpSetCommitteeRole (userID committee role : string)
  | OpRemoveCommitteeRole (userID committee : string)
  | OpCreateSession (userID channel threadTS recipe : string)
  | OpUpdateSessionStatus (id status : string)
  | OpAddTurn (sessionID role content : string) (tokens : Z)
  | OpUpsertSummary (sessionID summary : string)
  | OpCreateApproval (sessionID tool : string) (args : RawMessage)
  | OpDecideApproval (id status decidedBy : string)
  | OpWriteAudit (i : AuditInput)
  | OpAgeOutAudit (before : Z)
  | OpRegisterServer (i : ServerInput)
  | OpSetServerLifecycle (name lifecycle : string)
  | OpSetServerEnabled (name : string) (enabled : bool)
  | OpWriteFact (i : FactInput)
  | OpForgetFact (id : string)
  | OpForgetFactsByKey (scopeType scopeID key : string)
  | OpDeleteExpiredFacts (before : Z).

Section exec.
Context `{PgText}.
Implicit Types (d : db) (st : Stmt).

Definition exec (st : Stmt) (o : op) (d : db) : db :=
  match o with
  | OpUpsertUser s n e => with_people (UpsertUser st s n e (d_people d)).2 d
  | OpSetCommitteeRole u c r => with_people (SetCommitteeRole st u c r (d_people d)).2 d
  | OpRemoveCommitteeRole u c => with_people (RemoveCommitteeRole u c (d_people d)).2 d
  | OpCreateSession u ch ts rc =>
      with_conv (CreateSession (user_ids (d_people d)) st u ch ts rc (d_conv d)).2 d
  | OpUpdateSessionStatus id s => with_conv (UpdateSessionStatus st id s (d_conv d)).2 d
  | OpAddTurn id r c n => with_conv (AddTurn st id r c n (d_conv d)).2 d
  | OpUpsertSummary id s => with_conv (UpsertSummary st id s (d_conv d)).2 d
  | OpCreateApproval id t a =>
      with_gov (CreateApproval (session_ids d) st id t a (d_gov d)).2 d
  | OpDecideApproval id s b => with_gov (DecideApproval st id s b (d_gov d)).2 d
  | OpWriteAudit i => with_gov (WriteAudit st i (d_gov d)).2 d
  | OpAgeOutAudit b => with_gov (AgeOutAudit b (d_gov d)).2 d
  | OpRegisterServer i => with_registry (RegisterServer st i (d_registry d)).2 d
  | OpSetServerLifecycle n l => with_registry (SetServerLifecycle st n l (d_registry d)).2 d
  | OpSetServerEnabled n b => with_registry (SetServerEnabled st n b (d_registry d)).2 d
  | OpWriteFact i => with_facts (WriteFact st i (d_facts d)).2 d
  | OpForgetFact id => with_facts (ForgetFact id (d_facts d)).2 d
  | OpForgetFactsByKey t i k => with_facts (ForgetFactsByKey t i k (d_facts d)).2 d
  | OpDeleteExpiredFacts b => with_facts (DeleteExpiredFacts b (d_facts d)).2 d
  end.

(** A history: the statements in the order in which they took effect, each
    with the clock and the identifiers it drew. *)
Definition run (h : list (Stmt * op)) (d : db) : db :=
  foldl (λ d so, exec so.1 so.2 d) d h.

(** ** Invariant *)

Record db_wf (d : db) : Prop := {
  wf_people : people_wf (d_people d);
  wf_conv : conv_wf (user_ids (d_people d)) (d_conv d);
  wf_gov : gov_wf (session_ids d) (d_gov d);
  wf_registry : registry_wf (d_registry d);
  wf_facts : facts_wf (d_facts d);
}.

(** Rows are only added to the tables that foreign keys name. *)
Lemma UpsertUser_ids st s n e p : user_ids p ⊆ user_ids (UpsertUser st s n e p).2.
Proof.
  unfold UpsertUser, user_ids. case_match; simpl.
  - by rewrite rename_ids.
  - case_match; simpl; [done|]. rewrite fmap_app. set_solver.
Qed.

Lemma CreateSession_ids us st u ch ts rc c :
  (s_id <$> sessions c) ⊆ (s_id <$> sessions (CreateSession us st u ch ts rc c).2).
Proof.
  unfold CreateSession. case_match; simpl; [|done]. rewrite fmap_app. set_solver.
Qed.

Lemma UpdateSessionStatus_ids st id s c :
  s_id <$> sessions (UpdateSessionStatus st id s c).2 = s_id <$> sessions c.
Proof.
  unfold UpdateSessionStatus. repeat case_match; simpl; try done. apply set_status_ids.
Qed.

Lemma AddTurn_sessions st id r t n c : sessions (AddTurn st id r t n c).2 = sessions c.
Proof. unfold AddTurn. by repeat case_match. Qed.

Lemma UpsertSummary_sessions st id s c : sessions (UpsertSummary st id s c).2 = sessions c.
Proof. unfold UpsertSummary. by repeat case_match. Qed.

Lemma conv_wf_users us us' c : us ⊆ us' → conv_wf us c → conv_wf us' c.
Proof. intros Hs []. split; try done. eauto. Qed.

Lemma gov_wf_sessions ss ss' g : ss ⊆ ss' → gov_wf ss g → gov_wf ss' g.
Proof. intros Hs []. split; try done. eauto. Qed.

Lemma SetCommitteeRole_users st u c r p : users (SetCommitteeRole st u c r p).2 = users p.
Proof. unfold SetCommitteeRole. by repeat case_match. Qed.

Lemma RemoveCommitteeRole_users u c p : users (RemoveCommitteeRole u c p).2 = users p.
Proof. unfold RemoveCommitteeRole. by repeat case_match. Qed.

Lemma with_conv_wf c d :
  session_ids d ⊆ (s_id <$> sessions c) → conv_wf (user_ids (d_people d)) c →
  db_wf d → db_wf (with_conv c d).
Proof. intros Hs Hc []. split; try done. by eapply gov_wf_sessions. Qed.

Lemma with_people_wf p d :
  user_ids (d_people d) ⊆ user_ids p → people_wf p → db_wf d → db_wf (with_people p d).
Proof. intros Hs Hp []. split; try done. by eapply conv_wf_users. Qed.

Lemma with_gov_wf g d : gov_wf (session_ids d) g → db_wf d → db_wf (with_gov g d).
Proof. intros Hg []. by split. Qed.

Lemma with_registry_wf r d : registry_wf r → db_wf d → db_wf (with_registry r d).
Proof. intros Hr []. by split. Qed.

Lemma with_facts_wf f d : facts_wf f → db_wf d → db_wf (with_facts f d).
Proof. intros Hf []. by split. Qed.
End exec.

#[export] Hint Resolve UpsertUser_wf SetCommitteeRole_wf RemoveCommitteeRole_wf
  CreateSession_wf UpdateSessionStatus_wf AddTurn_wf UpsertSummary_wf CreateApproval_wf
  DecideApproval_wf WriteAudit_wf AgeOutAudit_wf RegisterServer_wf SetServerLifecycle_wf
  SetServerEnabled_wf WriteFact_wf ForgetFact_wf ForgetFactsByKey_wf
  DeleteExpiredFacts_wf : bark.

Section theorems.
Context `{PgText}.
Implicit Types (d : db) (st : Stmt).

Lemma exec_wf st o d : db_wf d → db_wf (exec st o d).
Proof.
  intros Hwf. pose proof Hwf as [].
  destruct o; cbn [exec];
    first [ apply with_gov_wf | apply with_registry_wf | apply with_facts_wf
          | apply with_people_wf | apply with_conv_wf ]; auto with bark;
    unfold session_ids, user_ids;
    rewrite ?UpdateSessionStatus_ids, ?AddTurn_sessions, ?UpsertSummary_sessions,
      ?SetCommitteeRole_users, ?RemoveCommitteeRole_users; try done.
  - apply UpsertUser_ids.
  - apply CreateSession_ids.
Qed.

Lemma db_empty_wf : db_wf db_empty.
Proof.
  split; [apply people_empty_wf | apply conv_empty_wf | apply gov_empty_wf
         | apply registry_empty_wf | apply facts_empty_wf].
Qed.

Lemma run_wf h d : db_wf d → db_wf (run h d).
Proof.
  unfold run. revert d. induction h as [|[st o] h IH]; intros d Hd; simpl; [done|].
  by apply IH, exec_wf.
Qed.

(** Every history of store statements, with any clocks and identifiers, failing ones
    included, keeps all the keys, foreign keys, CHECK constraints and orderings of the
    schema. *)
Theorem run_empty_wf h : db_wf (run h db_empty).
Proof. apply run_wf, db_empty_wf. Qed.

(** ** Where approvals come from *)

(** A row that is not pending was last written by a decision. *)
Definition decided_by (h : list (Stmt * op)) (r : approval_row) : Prop :=
  a_status r = "pending"%string ∨
  ∃ st id, (st, OpDecideApproval id (a_status r) (a_decided_by r)) ∈ h ∧
    uuid_in id = Some (a_id r) ∧ a_decided_at r = Some (now st).

Definition approvals_decided (h : list (Stmt * op)) (d : db) : Prop :=
  Forall (decided_by h) (approvals (d_gov d)).

Lemma decided_by_app h k r : decided_by h r → decided_by (h ++ k) r.
Proof.
  intros [?|(st & id & Hin & ?)]; [by left|]. right. exists st, id. split; [|done].
  apply elem_of_app. by left.
Qed.

Lemma decided_by_decision h st id b r u :
  uuid_in id = Some u → a_id r = u →
  ∀ s, decided_by (h ++ [(st, OpDecideApproval id s b)]) (decide_row s b (now st) r).
Proof.
  intros Hid <- s. right. exists st, id. split; [|done].
  apply elem_of_app. right. by left.
Qed.

Lemma exec_decided h st o d :
  approvals_decided h d → approvals_decided (h ++ [(st, o)]) (exec st o d).
Proof.
  unfold approvals_decided. intros Hd.
  assert (Forall (decided_by (h ++ [(st, o)])) (approvals (d_gov d))) as Hd'.
  { eapply Forall_impl; [done|]. intros. by apply decided_by_app. }
  destruct o; simpl; try done.
  - unfold CreateApproval. destruct (insert_approval _ _ _ _ _ _) eqn:Hr; simpl; [|done].
    apply Forall_app. split; [done|]. constructor; [|done]. left.
    by apply insert_approval_Ok in Hr as (_ & _ & ? & _).
  - unfold DecideApproval, uuid_arg. destruct (uuid_in id) as [u|] eqn:Hid; [|done].
    case_match; [|done]. case_bool_decide; [|done]. simpl.
    apply Forall_fmap. eapply Forall_impl; [done|]. intros r Hr. simpl.
    case_decide; [|done]. by eapply decided_by_decision.
  - unfold WriteAudit. by repeat case_match.
Qed.

Lemma run_decided h : approvals_decided h (run h db_empty).
Proof.
  induction h as [|[st o] h IH] using rev_ind; [constructor|].
  unfold run. rewrite foldl_app. simpl. by apply exec_decided.
Qed.

(** In every history from the empty database, an approval that is not pending has
    exactly the status, decider and time of a DecideApproval of the history that named it.
    *)
Theorem approved_only_by_decision h r :
  r ∈ approvals (d_gov (run h db_empty)) → a_status r ≠ "pending"%string →
  ∃ st id, (st, OpDecideApproval id (a_status r) (a_decided_by r)) ∈ h ∧
    uuid_in id = Some (a_id r) ∧ a_decided_at r = Some (now st).
Proof.
  intros Hr Hp. pose proof (run_decided h) as Hd. unfold approvals_decided in Hd.
  rewrite Forall_forall in Hd. destruct (Hd r Hr) as [?|?]; done.
Qed.

(** ** What changes a server's state *)

Lemma find_server_RegisterServer st i (d : registry) name r' :
  find_server name (RegisterServer st i d).2 = Some r' →
  match find_server name d with
  | Some r => v_lifecycle r' = v_lifecycle r ∧ v_enabled r' = v_enabled r
  | None => v_lifecycle r' = LifecycleProposed
  end.
Proof.
  intros Hr'. destruct (decide (name = si_Name i)) as [->|Hne].
  - destruct (find_server (si_Name i) d) as [r|] eqn:Hf.
    + destruct (RegisterServer_row st i d r Hf) as (r2 & H2 & ? & ?). naive_solver.
    + revert Hr'. unfold RegisterServer. destruct (_ || _); [simpl; congruence|]. cbv zeta.
      destruct (register_tx _ _ _ _ _) as [d'|e] eqn:Ht; [|simpl; congruence].
      apply register_tx_server in Ht as (r2 & Hr2 & Hreg & _). simpl.
      destruct Hreg as (_ & _ & _ & _ & Hold). rewrite Hf in Hold. naive_solver.
  - rewrite RegisterServer_other in Hr' by done. by rewrite Hr'.
Qed.

(** A statement other than the two setters leaves lifecycle and switch alone;
    a server that appears is proposed. *)
Lemma exec_server st o d name r' :
  find_server name (d_registry (exec st o d)) = Some r' →
  match find_server name (d_registry d) with
  | Some r =>
      (v_lifecycle r' = v_lifecycle r ∨ o = OpSetServerLifecycle name (v_lifecycle r')) ∧
      (v_enabled r' = v_enabled r ∨ o = OpSetServerEnabled name (v_enabled r'))
  | None => v_lifecycle r' = LifecycleProposed
  end.
Proof.
  destruct o; try (simpl; by intros ->; naive_solver); simpl.
  - intros Hr. apply find_server_RegisterServer in Hr. case_match; naive_solver.
  - unfold SetServerLifecycle. destruct (find_server name0 _) as [r0|] eqn:Hf.
    2: { simpl. intros ->. naive_solver. }
    case_bool_decide; [|simpl; intros ->; naive_solver]. simpl.
    rewrite find_update_server by done.
    destruct (find_server name (d_registry d)) as [r|] eqn:Hn; [|done]. simpl.
    destruct (String.eqb_spec name name0) as [->|]; intros [= <-]; naive_solver.
  - unfold SetServerEnabled. destruct (find_server name0 _) as [r0|] eqn:Hf.
    2: { simpl. intros ->. naive_solver. }
    simpl. rewrite find_update_server by done.
    destruct (find_server name (d_registry d)) as [r|] eqn:Hn; [|done]. simpl.
    destruct (String.eqb_spec name name0) as [->|]; intros [= <-]; naive_solver.
Qed.

(** An approved server was approved by a SetServerLifecycle of the history. *)
Lemma run_approved_server h name r :
  find_server name (d_registry (run h db_empty)) = Some r →
  v_lifecycle r = LifecycleApproved →
  ∃ st, (st, OpSetServerLifecycle name LifecycleApproved) ∈ h.
Proof.
  revert r. induction h as [|[st o] h IH] using rev_ind; intros r; [done|].
  unfold run. rewrite foldl_app. cbn [foldl]. intros Hf Hl.
  apply exec_server in Hf. change (foldl _ db_empty h) with (run h db_empty) in Hf.
  destruct (find_server name (d_registry (run h db_empty))) as [r0|] eqn:Hf0.
  - destruct Hf as [[He|He] _].
    + destruct (IH r0 eq_refl) as [st' Hin]; [congruence|]. exists st'.
      apply elem_of_app. by left.
    + cbn [snd] in He. exists st. apply elem_of_app. right. rewrite He, Hl. by left.
  - rewrite Hf in Hl. done.
Qed.

(** Servers are never removed. *)
Lemma exec_keeps_server st o d name :
  is_Some (find_server name (d_registry d)) →
  is_Some (find_server name (d_registry (exec st o d))).
Proof.
  intros [r Hr]. destruct o; try (by exists r); simpl.
  - destruct (decide (name = si_Name i)) as [->|Hne].
    + destruct (RegisterServer_row st i _ r Hr) as (r2 & -> & _). done.
    + rewrite RegisterServer_other by done. by exists r.
  - unfold SetServerLifecycle. destruct (find_server name0 _); [|by exists r].
    case_bool_decide; [|by exists r]. simpl. rewrite find_update_server, Hr by done. done.
  - unfold SetServerEnabled. destruct (find_server name0 _); [|by exists r].
    simpl. rewrite find_update_server, Hr by done. done.
Qed.

(** The switch stays off until somebody turns it on. *)
Lemma run_disabled_server h d name r :
  find_server name (d_registry d) = Some r → v_enabled r = false →
  Forall (λ so, so.2 ≠ OpSetServerEnabled name true) h →
  ∃ r', find_server name (d_registry (run h d)) = Some r' ∧ v_enabled r' = false.
Proof.
  intros Hr He Hh. revert d r Hr He. induction Hh as [|[st o] h Ho Hh IH]; intros d r Hr He.
  - by exists r.
  - destruct (exec_keeps_server st o d name) as [r1 Hr1]; [by exists r|].
    apply (IH (exec st o d) r1 Hr1). pose proof (exec_server st o d name r1 Hr1) as Hx.
    rewrite Hr in Hx. destruct Hx as [_ [Hx|Hx]]; [congruence|].
    destruct (v_enabled r1); [|done]. by destruct Ho.
Qed.
(** ** What the memory keeps *)

(** The statement deletes this fact. *)
Definition forgets (f : Fact) (o : op) : Prop :=
  match o with
  | OpForgetFact id => uuid_in id = uuid_in (Fact_ID f)
  | OpForgetFactsByKey t s k => t = Fact_ScopeType f ∧ s = Fact_ScopeID f ∧ k = Fact_Key f
  | OpDeleteExpiredFacts b => ∃ e, Fact_ExpiresAt f = Some e ∧ e <= b
  | _ => False
  end.

#[export] Instance forgets_dec f o : Decision (forgets f o).
Proof.
  destruct o; cbn [forgets]; try apply _. destruct (Fact_ExpiresAt f) as [e|]; [|right; naive_solver].
  destruct (decide (e <= before)); [left; by exists e|right; naive_solver].
Defined.

(** A statement keeps a row exactly when it does not forget it, and adds rows
    only under the identifiers that it draws. *)
Lemma exec_fact st o d r :
  r ∈ d_facts (exec st o d) ↔
  (r ∈ d_facts d ∧ ¬ forgets (scanFact r) o) ∨
  ∃ i, o = OpWriteFact i ∧ r = fact_of_input st i ∧ is_ok (WriteFact st i (d_facts d)).1 = true.
Proof.
  destruct o; try (lazymatch goal with |- r ∈ ?x ↔ _ => change x with (d_facts d) end;
    split; [intros Hr; left; by split; [|intros []] | intros [[? _]|(? & ? & _)]; done]);
    cbn [exec d_facts with_facts].
  - rewrite elem_of_WriteFact. cbn [forgets]. split.
    + intros [?|[-> ?]]; [left; by split; [|intros []]|right; by exists i].
    + intros [[? _]|(? & [= <-] & ?)]; [by left|by right].
  - unfold ForgetFact, uuid_arg. cbn [forgets]. unfold scanFact. cbn [Fact_ID]. rewrite uuid_in_out.
    destruct (uuid_in id) as [u|]; cbn [snd]; [|naive_solver].
    pose proof (elem_of_delete_where (λ r, bool_decide (f_id r = u)) (d_facts d) r) as He.
    destruct (delete_where _ _) as [n l]. cbn [snd] in *. rewrite He, bool_decide_eq_false. naive_solver.
  - unfold ForgetFactsByKey. cbn [forgets]. unfold scanFact. cbn [Fact_ScopeType Fact_ScopeID Fact_Key].
    pose proof (elem_of_delete_where
      (λ r, in_scope scopeType scopeID r && String.eqb (f_key r) key) (d_facts d) r) as He.
    destruct (delete_where _ _) as [n l]. cbn [snd] in *.
    rewrite He, <-not_true_iff_false, andb_true_iff, in_scope_true, String.eqb_eq. naive_solver.
  - unfold DeleteExpiredFacts. cbn [forgets]. unfold scanFact. cbn [Fact_ExpiresAt].
    pose proof (elem_of_delete_where (expired before) (d_facts d) r) as He.
    destruct (delete_where _ _) as [n l]. cbn [snd] in *. rewrite He. unfold expired.
    destruct (f_expires_at r) as [e|]; [|naive_solver]. rewrite Z.leb_gt.
    split; [intros [? ?]; left; split; [done|]; intros (? & [= <-] & ?); lia|].
    intros [[? Hn]|(? & ? & _)]; [|done]. split; [done|]. apply Z.nle_gt. intros ?. by apply Hn; exists e.
Qed.

Lemma run_keeps_fact h d r :
  Forall (λ so, ¬ forgets (scanFact r) so.2) h → r ∈ d_facts d → r ∈ d_facts (run h d).
Proof.
  intros Hh. revert d. induction Hh as [|[st o] h Ho _ IH]; intros d Hr; [done|].
  apply IH. apply exec_fact. by left.
Qed.

(** Nothing brings back a fact under an identifier that is not drawn again. *)
Lemma run_no_fact h d f :
  (∀ st i, (st, OpWriteFact i) ∈ h → uuid_out (gen_uuid st 0) ≠ Fact_ID f) →
  (∀ r, r ∈ d_facts d → scanFact r ≠ f) → ∀ r, r ∈ d_facts (run h d) → scanFact r ≠ f.
Proof.
  revert d. induction h as [|[st o] h IH]; intros d Hh Hd; [done|].
  apply (IH (exec st o d)); [intros st' i ?; apply (Hh st' i); by right|].
  intros r [[Hr _]|(i & -> & -> & _)]%exec_fact; [by apply Hd|].
  intros <-. apply (Hh st i); [by left|done].
Qed.

Lemma run_forgets_fact h d f :
  (∀ st i, (st, OpWriteFact i) ∈ h → uuid_out (gen_uuid st 0) ≠ Fact_ID f) →
  Exists (λ so, forgets f so.2) h → ∀ r, r ∈ d_facts (run h d) → scanFact r ≠ f.
Proof.
  intros Hh ([st o] & (h1 & h2 & ->)%list_elem_of_split & Ho)%Exists_exists. cbn [snd] in Ho.
  unfold run. rewrite foldl_app. cbn [foldl fst snd]. apply run_no_fact.
  - intros st' i Hin. apply (Hh st' i). set_solver.
  - intros r [[_ Hn]|(i & -> & -> & _)]%exec_fact <-; [by apply Hn|].
    apply (Hh st i); [set_solver|done].
Qed.

(** C37: A fact that WriteFact stored has its key, value and tags as they were given, and
    after any history of further store statements of which none forgets it (by its id, by
    its key in its scope, or by a retention cutoff at or after its expiry) an unlimited
    search of its scope, with no tags or with one of its tags, that either asks for
    expired facts too or comes before its expiry, finds it; after a history with a
    statement that forgets it, and in which its identifier is not drawn again, no search
    finds it. *)
Theorem WriteFact_SearchFacts st st' i q d f h :
  (WriteFact st i (d_facts d)).1 = Ok f →
  let facts := d_facts (run h (exec st (OpWriteFact i) d)) in
  (Fact_Key f = in_Key i ∧ Fact_Value f = in_Value i ∧ Fact_Tags f = in_Tags i) ∧
  (Forall (λ so, ¬ forgets f so.2) h →
   q_ScopeType q = in_ScopeType i → q_ScopeID q = in_ScopeID i → q_Limit q = 0 →
   (q_IncludeExpired q = false → ∀ e, in_ExpiresAt i = Some e → now st' < e) →
   (q_Tags q = [] ∨ ∃ t, t ∈ q_Tags q ∧ t ∈ in_Tags i) →
   ∃ out, SearchFacts st' q facts = Ok out ∧ f ∈ out) ∧
  (Exists (λ so, forgets f so.2) h →
   (∀ st i, (st, OpWriteFact i) ∈ h → uuid_out (gen_uuid st 0) ≠ Fact_ID f) →
   ∀ q out, SearchFacts st' q facts = Ok out → f ∉ out).
Proof.
  intros Hw facts. destruct (WriteFact st i (d_facts d)) as [w fs] eqn:He. cbn [fst] in Hw. subst w.
  destruct (WriteFact_stores _ _ _ _ _ He) as (Hv & -> & ->).
  split; [do 2 (split; [done|]); rewrite scanFact_tags; apply tagsToArray_encodeTags|]. split.
  - intros Hh Ht Hi Hlim Hexp Htags. apply SearchFacts_finds; [by rewrite Ht|done| |].
    + apply run_keeps_fact; [done|]. apply exec_fact. right. exists i. by rewrite He.
    + by apply fact_of_input_matches.
  - intros Hf Hids q' out Hs Hin. destruct (SearchFacts_stored _ _ _ _ _ Hs Hin) as (r & Hr & Heq).
    symmetry in Heq. by eapply (run_forgets_fact h _ _ Hids Hf r).
Qed.
End theorems.

(** ** The repository as a running store *)

(** The repository with the clock and the identifiers of the statements that
    it has yet to run. *)
Record repo := Repo { r_db : db; r_stmts : nat → Stmt; r_next : nat }.

Definition repo_read {A} (f : db → A) : M repo A := λ r, (f (r_db r), r).

Definition repo_write {A} (f : Stmt → db → A * db) : M repo A := λ r,
  let '(a, d) := f (r_stmts r (r_next r)) (r_db r) in
  (a, {| r_db := d; r_stmts := r_stmts r; r_next := S (r_next r) |}).

(** A query that reads the clock. *)
Definition repo_query {A} (f : Stmt → db → A) : M repo A :=
  repo_write (λ st d, (f st d, d)).

(** ** A concrete history

    One user, one session of theirs, one approved server with a high-impact
    tool, and the decision on an approval of the session. *)

#[local] Existing Instance unary_text.

Definition sample_server (name : string) : ServerInput :=
  {| si_Name := name; si_Owner := "finance"; si_Description := "mail"; si_Endpoint := "http://m/mcp";
     si_Transport := EmptyString; si_Auth := EmptyString;
     si_Tools := [{| ti_Name := "send"; ti_Scope := "mail.send"; ti_Impact := "high" |};
                  {| ti_Name := "list"; ti_Scope := "mail.read"; ti_Impact := "read" |}];
     si_Committees := ["finance"] |}.

Definition sample_history : list (Stmt * op) :=
  [(sample_stmt 1 1, OpUpsertUser "U1" "Ada" "ada@x.org");
   (sample_stmt 2 2, OpCreateSession (strokes 1) "C1" "17.4" "screen");
   (sample_stmt 3 10, OpRegisterServer (sample_server "google"));
   (sample_stmt 4 20, OpSetServerLifecycle "google" LifecycleApproved)].

Definition sample_decision : list (Stmt * op) :=
  [(sample_stmt 5 30, OpCreateApproval (strokes 2) "send" (RawJSON (JObj [])));
   (sample_stmt 6 40, OpDecideApproval (strokes 30) "approved" "U9")].

Definition sample_approval : approval_row :=
  {| a_id := 30; a_session_id := Some 2%N; a_tool := "send"; a_args_redacted := RawJSON (JObj []);
     a_status := "approved"; a_decided_by := "U9"; a_decided_at := Some 6; a_created_at := 5 |}.

Lemma approved_only_by_decision_witness :
  ∃ st id, (st, OpDecideApproval id "approved" "U9") ∈ sample_history ++ sample_decision ∧
    uuid_in id = Some 30%N ∧ Some 6 = Some (now st).
Proof.
  apply (approved_only_by_decision (sample_history ++ sample_decision) sample_approval).
  - vm_compute. left.
  - discriminate.
Defined.

(** Another fact is written and one key forgotten, and the fact is still found. *)
Lemma WriteFact_SearchFacts_witness :
  let h := [(sample_stmt 30 3, OpWriteFact (sample_input "lunch" "ramen"));
            (sample_stmt 40 4, OpForgetFactsByKey ScopeUser "U1" "lunch")] in
  ∃ f out, (WriteFact (sample_stmt 20 2) (sample_input "drink" "tea") []).1 = Ok f ∧
    SearchFacts (sample_stmt 50 9) sample_query
      (d_facts (run h (exec (sample_stmt 20 2) (OpWriteFact (sample_input "drink" "tea")) db_empty))) =
      Ok out ∧ f ∈ out.
Proof.
  intros h. eexists.
  destruct (WriteFact_SearchFacts (sample_stmt 20 2) (sample_stmt 50 9) (sample_input "drink" "tea")
    sample_query db_empty (scanFact (fact_of_input (sample_stmt 20 2) (sample_input "drink" "tea"))) h
    eq_refl) as (_ & Hf & _).
  destruct Hf as (out & ? & ?).
  - repeat constructor; cbn [snd forgets]; [by intros []|]. intros (_ & _ & Hk). vm_compute in Hk. discriminate.
  - reflexivity.
  - reflexivity.
  - reflexivity.
  - intros _ e [= <-]. cbn. lia.
  - right. exists "food"%string. split; vm_compute; left.
  - exists out. by split.
Defined.
