(* ===== verification/Gateway.v ===== *)
(** * The gateway's policy engine (gateway/internal/policy/gateway.go)

    [Call] resolves, authorizes, gates and proxies a tool invocation. The
    store and the downstream caller are interfaces in the source and classes
    here, over states of any type: a store operation may fail or
    show what other clients did in between, so the theorems of this file hold
    for every store and every caller. GatewayStore.v gives the instances. *)

From S2P Require Import Prelude GoText Json Limits Pg Memory Governance Registry.
From Stdlib Require Import ZArith Lia Ascii.
From stdpp Require Import options.

Open Scope Z_scope.
Open Scope list_scope.

(** ** Data *)

Record Identity := MkIdentity {
  Subject : string;
  Committees : list string;
  IsAgent : bool;
}.

Record CallRequest := MkCallRequest {
  req_Identity : Identity;
  req_SessionID : string;
  req_ServerName : string;
  req_ToolName : string;
  req_Args : RawMessage;
}.

Record CallResult := MkCallResult { Output : RawMessage; AuditID : Z }.

Definition ErrUnknownTool : error := ErrNew "gateway: unknown tool".
Definition ErrUnauthorized : error := ErrNew "gateway: caller not authorized for tool".
Definition ErrRateLimited : error := ErrNew "gateway: rate limited".

(** ** Interfaces *)

(** The interface [Store]. *)
Class Store (S : Type) := {
  st_RegisterServer : ServerInput → S → result Server * S;
  st_ListVisibleTools : list string → S → result (list VisibleTool) * S;
  st_ResolveTool : string → string → S → result ToolBinding * S;
  st_CreateApproval : string → string → RawMessage → S → result Approval * S;
  st_ListApprovalsBySession : string → S → result (list Approval) * S;
  st_WriteAudit : AuditInput → S → result AuditEntry * S;
}.

(** The interface [ToolCaller]. *)
Class ToolCaller (D : Type) := {
  tc_Call : Server → Tool → RawMessage → D → result RawMessage * D;
}.

(** The readings of the clock in one [Call]: at the start, in the committee's
    and the global bucket of the limiter, and when the audit row is written. *)
Record Ticks := MkTicks { t_start : Z; t_limit : Z; t_global : Z; t_audit : Z }.

Section gateway.
Context {S D : Type} `{Store S} `{ToolCaller D}.

(** The gateway, the store and the downstream servers it talks to. [w_calls]
    records the calls that left for a server, the oldest first. *)
Record world := World {
  w_store : S;
  w_down : D;
  w_limiter : option Limiter;
  w_calls : list (Server * Tool * RawMessage);
}.

Implicit Types (w : world).

Definition with_store (s : S) w : world :=
  {| w_store := s; w_down := w_down w; w_limiter := w_limiter w; w_calls := w_calls w |}.
Definition with_limiter (l : option Limiter) w : world :=
  {| w_store := w_store w; w_down := w_down w; w_limiter := l; w_calls := w_calls w |}.

(** The options a gateway is built with; the redaction is always RedactArgs. *)
Definition Option : Type := world → world.

Definition WithLimiter (l : Limiter) : Option := with_limiter (Some l).

Definition New (s : S) (c : D) (opts : list Option) : world :=
  foldl (λ g o, o g) {| w_store := s; w_down := c; w_limiter := None; w_calls := [] |} opts.

(** Running a store operation inside the gateway. *)
Definition store_op {A} (f : S → A * S) : M world A := λ w,
  let '(a, s) := f (w_store w) in (a, with_store s w).

(** g.caller.Call *)
Definition downstream (s : Server) (t : Tool) (args : RawMessage) :
    M world (result RawMessage) := λ w,
  let '(r, d) := tc_Call s t args (w_down w) in
  (r, {| w_store := w_store w; w_down := d; w_limiter := w_limiter w;
         w_calls := w_calls w ++ [(s, t, args)] |}).

(** ** Operations *)

Definition Register (i : ServerInput) : M world (result Server) :=
  r ← store_op (st_RegisterServer i);
  match r with
  | Err e => mret (Err e)
  | Ok s =>
      _ ← store_op (st_WriteAudit
            {| ai_Actor := "registry"; ai_Tool := "register:" +:+ si_Name i;
               ai_ArgsRedacted := RawEmpty; ai_Result := "ok"; ai_LatencyMS := 0 |});
      mret (Ok s)
  end.

Definition ListTools (id : Identity) : M world (result (list VisibleTool)) :=
  store_op (st_ListVisibleTools (Committees id)).

Definition rateKey (id : Identity) : string :=
  match Committees id with c :: _ => c | [] => Subject id end.

(** A step of the limiter, when one is configured. *)
Definition on_limiter (f : Limiter → bool * Limiter) : M world bool := λ w,
  match w_limiter w with
  | None => (true, w)
  | Some l => let '(ok, l') := f l in (ok, with_limiter (Some l') w)
  end.

(** g.limiter.Allow *)
Definition limiter_Allow (t : Ticks) (key : string) : M world bool :=
  on_limiter (λ l, Limiter_Allow l (t_limit t) (t_global t) key).

Definition authorized (s : Server) (id : Identity) : bool :=
  if negb (String.eqb (Server_Lifecycle s) LifecycleApproved) || negb (Server_Enabled s)
  then false
  else existsb (λ c, existsb (String.eqb c) (Server_Committees s)) (Committees id).

Definition hasApproval (sessionID tool : string) : M world (result bool) :=
  if String.eqb sessionID EmptyString then mret (Ok false)
  else
    r ← store_op (st_ListApprovalsBySession sessionID);
    mret (match r with
          | Err e => Err (ErrWrap "gateway: list approvals: " e)
          | Ok l => Ok (existsb (λ a, String.eqb (Approval_Tool a) tool &&
                                      String.eqb (Approval_Status a) "approved") l)
          end).

(** int(time.Since(start).Milliseconds()) *)
Definition latency (t : Ticks) : Z := Z.quot (time_Sub (t_audit t) (t_start t)) 1000000.

Definition audit_input (req : CallRequest) (res : string) (t : Ticks) : AuditInput :=
  {| ai_Actor := Subject (req_Identity req);
     ai_Tool := req_ServerName req +:+ "/" +:+ req_ToolName req;
     ai_ArgsRedacted := RedactArgs (req_Args req);
     ai_Result := res; ai_LatencyMS := latency t |}.

Definition audit (req : CallRequest) (res : string) (t : Ticks) : M world Z :=
  r ← store_op (st_WriteAudit (audit_input req res t));
  mret (match r with Ok e => Audit_ID e | Err _ => 0 end).

(** A refusal that is audited first. *)
Definition deny (req : CallRequest) (res : string) (t : Ticks) (e : error) :
    M world (result CallResult) :=
  _ ← audit req res t; mret (Err e).

(** The last part of [Call]: the proxied call and its audit row. *)
Definition proxy_call (t : Ticks) (req : CallRequest) (b : ToolBinding) :
    M world (result CallResult) :=
  out ← downstream (tb_Server b) (tb_Tool b) (req_Args req);
  id ← audit req (match out with Ok _ => "ok" | Err e => "error: " +:+ Error e end) t;
  mret (match out with
        | Ok o => Ok {| Output := o; AuditID := id |}
        | Err e => Err (ErrWrap "gateway: downstream call: " e)
        end).

(** The gate in front of high-impact tools: [None] lets the call through. *)
Definition gate (t : Ticks) (req : CallRequest) (b : ToolBinding) :
    M world (option (result CallResult)) :=
  if String.eqb (Tool_Impact (tb_Tool b)) "high" then
    r ← hasApproval (req_SessionID req) (req_ToolName req);
    match r with
    | Err e => mret (Some (Err e))
    | Ok true => mret None
    | Ok false =>
        ap ← store_op (st_CreateApproval (req_SessionID req) (req_ToolName req)
               (RedactArgs (req_Args req)));
        match ap with
        | Err e => mret (Some (Err (ErrWrap "gateway: create approval: " e)))
        | Ok ap =>
            x ← deny req "gated: awaiting approval" t
                  (ErrApprovalRequired (Approval_ID ap) (req_ToolName req));
            mret (Some x)
        end
    end
  else mret None.

Definition Call (t : Ticks) (req : CallRequest) : M world (result CallResult) :=
  ok ← limiter_Allow t (rateKey (req_Identity req));
  if negb ok then deny req "denied: rate limited" t ErrRateLimited
  else
    r ← store_op (st_ResolveTool (req_ServerName req) (req_ToolName req));
    match r with
    | Err e =>
        if errors_Is e ErrNotFound then deny req "denied: unknown tool" t ErrUnknownTool
        else mret (Err (ErrWrap "gateway: resolve tool: " e))
    | Ok b =>
        if negb (authorized (tb_Server b) (req_Identity req))
        then deny req "denied: unauthorized" t ErrUnauthorized
        else
          g ← gate t req b;
          match g with
          | Some x => mret x
          | None => proxy_call t req b
          end
    end.

(** ** Lemmas

    A computation is [quiet] when no call leaves for a downstream server. *)

Definition quiet {A} (m : M world A) : Prop := ∀ w, w_calls (m w).2 = w_calls w.

Lemma quiet_ret {A} (a : A) : quiet (mret a).
Proof. done. Qed.

Lemma quiet_bind {A B} (m : M world A) (f : A → M world B) :
  quiet m → (∀ a, quiet (f a)) → quiet (m ≫= f).
Proof.
  intros Hm Hf w. unfold mbind, M_bind. destruct (m w) as [a w1] eqn:He.
  rewrite Hf. specialize (Hm w). by rewrite He in Hm.
Qed.

Lemma quiet_store_op {A} (f : S → A * S) : quiet (store_op f).
Proof. intros w. unfold store_op. by destruct (f (w_store w)). Qed.

Lemma quiet_on_limiter f : quiet (on_limiter f).
Proof. intros w. unfold on_limiter. destruct (w_limiter w) as [l|]; [|done]. by destruct (f l). Qed.

Lemma quiet_limiter t k : quiet (limiter_Allow t k).
Proof. apply quiet_on_limiter. Qed.

Lemma quiet_audit req s t : quiet (audit req s t).
Proof. apply quiet_bind; [apply quiet_store_op|]. intros ?. apply quiet_ret. Qed.

Lemma quiet_deny req s t e : quiet (deny req s t e).
Proof. apply quiet_bind; [apply quiet_audit|]. intros ?. apply quiet_ret. Qed.

Lemma quiet_hasApproval sid tool : quiet (hasApproval sid tool).
Proof.
  unfold hasApproval. case_match; [apply quiet_ret|].
  apply quiet_bind; [apply quiet_store_op|]. intros ?. apply quiet_ret.
Qed.

Lemma quiet_gate t req b : quiet (gate t req b).
Proof.
  unfold gate. case_match; [|apply quiet_ret].
  apply quiet_bind; [apply quiet_hasApproval|].
  intros [[]|]; [apply quiet_ret| |apply quiet_ret].
  apply quiet_bind; [apply quiet_store_op|]. intros [ap|]; [|apply quiet_ret].
  apply quiet_bind; [apply quiet_deny|]. intros ?. apply quiet_ret.
Qed.

(** The limiter does not touch the store. *)
Lemma on_limiter_store f w : w_store (on_limiter f w).2 = w_store w.
Proof. unfold on_limiter. destruct (w_limiter w) as [l|]; [|done]. by destruct (f l). Qed.

Lemma limiter_Allow_store t k w : w_store (limiter_Allow t k w).2 = w_store w.
Proof. apply on_limiter_store. Qed.

Lemma store_op_run {A} (f : S → A * S) w :
  store_op f w = ((f (w_store w)).1, with_store (f (w_store w)).2 w).
Proof. unfold store_op. by destruct (f (w_store w)). Qed.

Lemma M_bind_run {A B} (m : M world A) (f : A → M world B) w :
  (m ≫= f) w = f (m w).1 (m w).2.
Proof. unfold mbind, M_bind. by destruct (m w). Qed.

(** What [Call] has established when it proxies. *)
Definition cleared (req : CallRequest) (b : ToolBinding) (s : S) : Prop :=
  ∃ s', st_ResolveTool (req_ServerName req) (req_ToolName req) s = (Ok b, s') ∧
    authorized (tb_Server b) (req_Identity req) = true ∧
    (Tool_Impact (tb_Tool b) = "high"%string →
     req_SessionID req ≠ EmptyString ∧
     ∃ l s'' a, st_ListApprovalsBySession (req_SessionID req) s' = (Ok l, s'') ∧ a ∈ l ∧
       Approval_Tool a = req_ToolName req ∧ Approval_Status a = "approved"%string).

Lemma hasApproval_true sid tool w :
  (hasApproval sid tool w).1 = Ok true →
  sid ≠ EmptyString ∧
  ∃ l s a, st_ListApprovalsBySession sid (w_store w) = (Ok l, s) ∧ a ∈ l ∧
    Approval_Tool a = tool ∧ Approval_Status a = "approved"%string.
Proof.
  unfold hasApproval. destruct (String.eqb_spec sid EmptyString) as [->|Hne]; [done|].
  rewrite M_bind_run, store_op_run. simpl.
  destruct (st_ListApprovalsBySession sid (w_store w)) as [[l|] s] eqn:Hl; simpl; [|done].
  intros [= (a & Ha & Hb)%existsb_elem_of]. split; [done|]. bools. naive_solver.
Qed.

Lemma gate_None t req b w :
  (gate t req b w).1 = None →
  Tool_Impact (tb_Tool b) = "high"%string →
  (hasApproval (req_SessionID req) (req_ToolName req) w).1 = Ok true.
Proof.
  unfold gate. intros Hg Hh. rewrite Hh, String.eqb_refl, M_bind_run in Hg.
  destruct (hasApproval _ _ w) as [[[]|e] w1]; simpl in *; [done| |done].
  rewrite M_bind_run in Hg. destruct (store_op _ w1) as [[ap|e] w2]; simpl in Hg; [|done].
  rewrite M_bind_run in Hg. by destruct (deny _ _ _ _ w2).
Qed.

(** [Call] either proxies a cleared request, or finishes without a call. *)
Lemma Call_cases t req w :
  (∃ b w1, cleared req b (w_store w) ∧ w_calls w1 = w_calls w ∧
     Call t req w = proxy_call t req b w1) ∨
  w_calls (Call t req w).2 = w_calls w ∧ is_ok (Call t req w).1 = false.
Proof.
  unfold Call. rewrite M_bind_run.
  pose proof (quiet_limiter t (rateKey (req_Identity req)) w) as Hq.
  pose proof (limiter_Allow_store t (rateKey (req_Identity req)) w) as Hs.
  destruct (limiter_Allow _ _ w) as [[] w1]; cbn [fst snd negb] in *.
  2: { right. rewrite quiet_deny. split; [done|]. unfold deny. by rewrite M_bind_run. }
  rewrite M_bind_run, store_op_run. cbn [fst snd].
  destruct (st_ResolveTool _ _ (w_store w1)) as [[b|e] s'] eqn:Hr; cbn [fst snd].
  2: { right. destruct (errors_Is e ErrNotFound); [|done].
       rewrite quiet_deny. split; [done|]. unfold deny. by rewrite M_bind_run. }
  destruct (authorized _ _) eqn:Ha; cbn [negb].
  2: { right. rewrite quiet_deny. split; [done|]. unfold deny. by rewrite M_bind_run. }
  rewrite M_bind_run.
  pose proof (quiet_gate t req b (with_store s' w1)) as Hqg.
  pose proof (gate_None t req b (with_store s' w1)) as Hn.
  destruct (gate t req b (with_store s' w1)) as [[x|] w2] eqn:Hg; cbn [fst snd] in *.
  - right. split; [cbn in *; congruence|]. unfold gate in Hg.
    destruct (String.eqb _ _); [|done]. rewrite M_bind_run in Hg.
    destruct (hasApproval _ _ _) as [[[]|e] w3]; cbn [fst snd] in Hg; [done| |by injection Hg as <- _].
    rewrite M_bind_run in Hg.
    destruct (store_op _ w3) as [[ap|e] w4]; cbn [fst snd] in Hg; [|by injection Hg as <- _].
    rewrite M_bind_run in Hg. unfold deny in Hg. rewrite M_bind_run in Hg. simpl in Hg.
    by injection Hg as <- _.
  - left. exists b, w2. split; [|split; [simpl in Hqg; congruence|done]].
    exists s'. rewrite <-Hs. do 2 (split; [done|]).
    intros Hh. exact (hasApproval_true _ _ _ (Hn eq_refl Hh)).
Qed.

(** A result comes from exactly one downstream call. *)
Lemma Call_Ok_calls t req w out :
  (Call t req w).1 = Ok out →
  ∃ b, cleared req b (w_store w) ∧
    (∃ d d', tc_Call (tb_Server b) (tb_Tool b) (req_Args req) d = (Ok (Output out), d')) ∧
    w_calls (Call t req w).2 = w_calls w ++ [(tb_Server b, tb_Tool b, req_Args req)].
Proof.
  destruct (Call_cases t req w) as [(b & w1 & Hc & Hw & ->)|[_ Hf]].
  2: { intros Ho. by rewrite Ho in Hf. }
  unfold proxy_call. rewrite M_bind_run, M_bind_run. unfold downstream.
  destruct (tc_Call _ _ _ (w_down w1)) as [[o|e] d'] eqn:Hd; cbn [fst snd]; [|done].
  intros [= <-]. exists b. split; [done|]. split; [by exists (w_down w1), d'|].
  rewrite quiet_ret, quiet_audit. simpl. by rewrite Hw.
Qed.

(** ** The downstream side

    The servers change only by the calls that are recorded. *)

Definition deliver_all (cs : list (Server * Tool * RawMessage)) (d : D) : D :=
  foldl (λ d c, (tc_Call c.1.1 c.1.2 c.2 d).2) d cs.

Definition records {A} (m : M world A) : Prop := ∀ w, ∃ cs,
  w_calls (m w).2 = w_calls w ++ cs ∧ w_down (m w).2 = deliver_all cs (w_down w).

Lemma records_ret {A} (a : A) : records (mret a).
Proof. intros w. exists []. by rewrite app_nil_r. Qed.

Lemma records_bind {A B} (m : M world A) (f : A → M world B) :
  records m → (∀ a, records (f a)) → records (m ≫= f).
Proof.
  intros Hm Hf w. rewrite M_bind_run. destruct (Hm w) as (c1 & H1 & H2).
  destruct (Hf (m w).1 (m w).2) as (c2 & H3 & H4). exists (c1 ++ c2).
  rewrite H3, H1, H4, H2. unfold deliver_all. rewrite foldl_app, (assoc_L (++)). done.
Qed.

Lemma records_store_op {A} (f : S → A * S) : records (store_op f).
Proof. intros w. exists []. rewrite store_op_run, app_nil_r. done. Qed.

Lemma records_limiter t k : records (limiter_Allow t k).
Proof.
  intros w. exists []. rewrite app_nil_r. unfold limiter_Allow, on_limiter.
  destruct (w_limiter w) as [l|]; [|done]. by destruct (Limiter_Allow _ _ _ _).
Qed.

Lemma records_downstream s tl a : records (downstream s tl a).
Proof.
  intros w. exists [(s, tl, a)]. unfold downstream, deliver_all. simpl.
  by destruct (tc_Call s tl a (w_down w)).
Qed.

Lemma records_Call t req : records (Call t req).
Proof.
  unfold Call, gate, proxy_call, hasApproval, deny, audit.
  repeat first [ apply records_ret | apply records_store_op | apply records_limiter
               | apply records_downstream | apply records_bind; [|intros ?] | case_match ].
Qed.

(** The whole effect of a [Call] outside the store. *)
Lemma Call_effect t req w :
  (w_calls (Call t req w).2 = w_calls w ∧ w_down (Call t req w).2 = w_down w) ∨
  ∃ b, cleared req b (w_store w) ∧
    w_calls (Call t req w).2 = w_calls w ++ [(tb_Server b, tb_Tool b, req_Args req)] ∧
    w_down (Call t req w).2 = (tc_Call (tb_Server b) (tb_Tool b) (req_Args req) (w_down w)).2.
Proof.
  destruct (records_Call t req w) as (cs & Hcs & Hd).
  destruct (Call_cases t req w) as [(b & w1 & Hc & Hw & Heq)|[Hq _]].
  - right. exists b. split; [done|].
    assert (w_calls (Call t req w).2 = w_calls w ++ [(tb_Server b, tb_Tool b, req_Args req)])
      as Hcall.
    { rewrite Heq. unfold proxy_call. rewrite M_bind_run, M_bind_run. unfold downstream.
      destruct (tc_Call _ _ _ (w_down w1)) as [r d]. cbn [fst snd].
      rewrite quiet_ret, quiet_audit. simpl. by rewrite Hw. }
    split; [done|]. rewrite Hcs in Hcall. apply app_inv_head in Hcall as ->. done.
  - left. split; [done|]. rewrite Hq in Hcs. symmetry in Hcs. rewrite <-(app_nil_r (w_calls w)) in Hcs at 2.
    apply app_inv_head in Hcs as ->. done.
Qed.

(** ** Properties *)

(** C1: Whatever the store and the downstream servers answer, Gateway.Call sends a request
    downstream at most once, with the caller's own arguments, and only for a tool that the
    store resolves, on a server the caller is authorized for, and, when the tool's impact
    is high, with an approved approval for this session and tool in the store. *)
Theorem Call_guarded t req w :
  w_calls (Call t req w).2 = w_calls w ∨
  ∃ b, cleared req b (w_store w) ∧
    w_calls (Call t req w).2 = w_calls w ++ [(tb_Server b, tb_Tool b, req_Args req)].
Proof.
  destruct (Call_effect t req w) as [[? _]|(b & Hc & Hcall & _)]; [by left|right]. by exists b.
Qed.

(** The errors that refuse a call come without a downstream call. *)
Theorem Call_refusals_never_run t req w e :
  (Call t req w).1 = Err e →
  e ∈ [ErrUnknownTool; ErrUnauthorized; ErrRateLimited] ∨
    (∃ id tool, e = ErrApprovalRequired id tool) →
  w_calls (Call t req w).2 = w_calls w.
Proof.
  intros He Hcase. destruct (Call_cases t req w) as [(b & w1 & Hc & Hw & Heq)|[? _]]; [|done].
  exfalso. rewrite Heq in He. unfold proxy_call in He. rewrite M_bind_run, M_bind_run in He.
  destruct (downstream _ _ _ w1) as [[o|e1] w2]; [done|]. injection He as <-.
  destruct Hcase as [Hin|(? & ? & ?)]; [|done].
  rewrite !elem_of_cons, elem_of_nil in Hin. naive_solver.
Qed.

(** Without a session no high-impact tool runs. *)
Theorem sessionless_high_never_runs t req w b s :
  st_ResolveTool (req_ServerName req) (req_ToolName req) (w_store w) = (Ok b, s) →
  Tool_Impact (tb_Tool b) = "high"%string → req_SessionID req = EmptyString →
  w_calls (Call t req w).2 = w_calls w.
Proof.
  intros Hr Hh Hs. destruct (Call_cases t req w) as [(b' & w1 & Hc & _ & _)|[? _]]; [|done].
  destruct Hc as (s' & Hr' & _ & Hc). rewrite Hr in Hr'. injection Hr' as <- <-.
  by destruct (Hc Hh) as [? _].
Qed.
End gateway.
Arguments world : clear implicits.
Arguments World {S D} _ _ _ _.
