(* ===== verification/GatewayStore.v ===== *)
(** * The gateway over the repository

    The instance of the gateway's [Store] by the tables of Repository.v, and
    what the gateway then promises about histories of the whole store: which
    tools a member sees and may call, what the kill switch, a proposed server
    and a missing decision stop, and what every invocation leaves in the audit
    log. *)

From S2P Require Import Prelude GoText Json Limits Pg Memory.
From S2P Require Import Sessions Identity Governance Registry Repository Gateway.
From Stdlib Require Import ZArith Lia Ascii.
From stdpp Require Import options.

Open Scope Z_scope.
Open Scope list_scope.

Section repo.
Context `{PgText}.

#[export] Instance repo_Store : Store repo := {
  st_RegisterServer i := repo_write (λ st d,
    let '(r, x) := RegisterServer st i (d_registry d) in (r, with_registry x d));
  st_ListVisibleTools cs := repo_read (λ d, Ok (ListVisibleTools cs (d_registry d)));
  st_ResolveTool s t := repo_read (λ d, ResolveTool s t (d_registry d));
  st_CreateApproval sid tool args := repo_write (λ st d,
    let '(r, x) := CreateApproval (session_ids d) st sid tool args (d_gov d) in
    (r, with_gov x d));
  st_ListApprovalsBySession sid := repo_read (λ d, ListApprovalsBySession sid (d_gov d));
  st_WriteAudit i := repo_write (λ st d,
    let '(r, x) := WriteAudit st i (d_gov d) in (r, with_gov x d));
}.

Context {D : Type} `{ToolCaller D}.
Implicit Types (w : world repo D).

Abbreviation w_db w := (r_db (w_store w)).

(** ** Lemmas *)

Lemma authorized_true s id :
  authorized s id = true ↔
  Server_Lifecycle s = LifecycleApproved ∧ Server_Enabled s = true ∧
  ∃ c, c ∈ Committees id ∧ c ∈ Server_Committees s.
Proof.
  unfold authorized. destruct (String.eqb_spec (Server_Lifecycle s) LifecycleApproved) as [Hl|Hl].
  - destruct (Server_Enabled s); [|naive_solver]. simpl. rewrite existsb_elem_of.
    setoid_rewrite existsb_elem_of. setoid_rewrite String.eqb_eq. naive_solver.
  - simpl. naive_solver.
Qed.

(** An approved approval in a session's list is a row of the table. *)
Lemma listed_approved sid tool g l a :
  ListApprovalsBySession sid g = Ok l → a ∈ l → Approval_Tool a = tool →
  Approval_Status a = "approved"%string →
  ∃ r u, r ∈ approvals g ∧ uuid_in sid = Some u ∧ a_session_id r = Some u ∧ a_tool r = tool ∧
    a_status r = "approved"%string.
Proof.
  unfold ListApprovalsBySession, queryApprovals, uuid_arg. destruct (uuid_in sid) as [u|]; [|done].
  intros [= <-] (r & -> & Hin)%list_elem_of_fmap Ht Hs.
  rewrite elem_of_order_by, list_elem_of_filter in Hin. exists r, u. naive_solver.
Qed.

Lemma cleared_repo req b s :
  cleared req b s →
  ResolveTool (req_ServerName req) (req_ToolName req) (d_registry (r_db s)) = Ok b ∧
  authorized (tb_Server b) (req_Identity req) = true ∧
  (Tool_Impact (tb_Tool b) = "high"%string →
   ∃ r u, r ∈ approvals (d_gov (r_db s)) ∧ uuid_in (req_SessionID req) = Some u ∧
     a_session_id r = Some u ∧ a_tool r = req_ToolName req ∧ a_status r = "approved"%string).
Proof.
  intros (s' & Hr & Ha & Hh). injection Hr as Hr <-. do 2 (split; [done|]).
  intros (_ & l & s'' & a & Hl & Hin & Ht & Hst)%Hh. injection Hl as Hl <-.
  by eapply listed_approved.
Qed.

(** A tool whose server is not both approved and enabled. *)
Lemma shut_server_never_runs t req w r :
  find_server (req_ServerName req) (d_registry (w_db w)) = Some r →
  v_lifecycle r ≠ LifecycleApproved ∨ v_enabled r = false →
  w_calls (Call t req w).2 = w_calls w.
Proof.
  intros Hf Hshut. destruct (Call_cases t req w) as [(b & w1 & Hc & _ & _)|[? _]]; [|done].
  apply cleared_repo in Hc as (Hr & Ha & _). exfalso.
  unfold ResolveTool, GetServerByName, select_server in Hr. rewrite Hf in Hr.
  apply find_tool_Ok in Hr as (Hr & _). rewrite Hr in Ha.
  apply authorized_true in Ha as (Hl & He & _). simpl in *. destruct Hshut; congruence.
Qed.

Lemma find_server_update name f d r :
  (∀ x, v_name (f x) = v_name x) →
  find_server name d = Some r → find_server name (update_server name f d) = Some (f r).
Proof. intros Hf Hr. rewrite find_update_server, Hr by done. simpl. by rewrite String.eqb_refl. Qed.

(** ** Visibility *)

(** C6: A tool is in the list a caller sees exactly when the gateway would authorize that
    caller to call it: ListVisibleTools in SQL and authorized in Go decide the same thing.
    *)
Theorem visible_iff_callable id sn tn w :
  registry_wf (d_registry (w_db w)) →
  (∃ vts vt, (ListTools id w).1 = Ok vts ∧ vt ∈ vts ∧
     vt_ServerName vt = sn ∧ vt_ToolName vt = tn) ↔
  ∃ b, ResolveTool sn tn (d_registry (w_db w)) = Ok b ∧ authorized (tb_Server b) id = true.
Proof.
  intros Hwf. unfold ListTools. rewrite store_op_run. simpl. split.
  - intros (vts & vt & [= <-] & Hvt & <- & <-).
    apply elem_of_ListVisibleTools, elem_of_visible_join in Hvt
      as (s & t & c & Hs & Ht & Hid & Hg & Hc & Hl & He & ->).
    exists {| tb_Server := scanServer (d_registry (w_db w)) s; tb_Tool := scanTool t |}.
    split; [apply ResolveTool_Ok; [done|]; by exists s, t|].
    apply authorized_true. do 2 (split; [done|]). exists c. split; [done|].
    by apply elem_of_listServerCommittees.
  - intros (b & Hr & Ha). apply ResolveTool_Ok in Hr as (s & t & Hs & Ht & Hid & <- & <- & ->);
      [|done].
    apply authorized_true in Ha as (Hl & He & c & Hc & Hg).
    apply elem_of_listServerCommittees in Hg. eexists _, _. split; [done|].
    rewrite elem_of_ListVisibleTools, elem_of_visible_join. split.
    + exists s, t, c. done.
    + done.
Qed.

(** ** What a call needs in the history of the store *)

(** The gateway of [w] once its store holds the tables [d]. *)
Definition at_db (d : db) w : world repo D :=
  with_store {| r_db := d; r_stmts := r_stmts (w_store w); r_next := r_next (w_store w) |} w.

(** An authorized tool's server was approved, an approved approval was decided. *)
Lemma resolved_lifecycle h sn tn b id :
  ResolveTool sn tn (d_registry (run h db_empty)) = Ok b → authorized (tb_Server b) id = true →
  ∃ st, (st, OpSetServerLifecycle sn LifecycleApproved) ∈ h.
Proof.
  unfold ResolveTool, GetServerByName, select_server. intros Hr (Hl & _)%authorized_true.
  destruct (find_server _ _) as [r|] eqn:Hf; [|done].
  apply find_tool_Ok in Hr as (Hr & _). rewrite Hr in Hl. by eapply run_approved_server.
Qed.

Lemma approved_decision h r :
  r ∈ approvals (d_gov (run h db_empty)) → a_status r = "approved"%string →
  ∃ st id, (st, OpDecideApproval id "approved" (a_decided_by r)) ∈ h ∧ uuid_in id = Some (a_id r).
Proof.
  intros Hin Hst. pose proof (run_decided h) as Hd. unfold approvals_decided in Hd.
  rewrite Forall_forall in Hd. destruct (Hd r Hin) as [Hp|(st & id & Hop & Hid & _)].
  - by rewrite Hst in Hp.
  - exists st, id. by rewrite Hst in Hop.
Qed.

(** Over the tables that any history of store statements produces from the empty
    database, a call that leaves the gateway is for a server that a SetServerLifecycle of
    the history approved; if the tool is high-impact, a DecideApproval of the history
    approved an approval for that session and tool. *)
Theorem call_provenance h t req w :
  let w' := at_db (run h db_empty) w in
  w_calls (Call t req w').2 ≠ w_calls w →
  ∃ b, ResolveTool (req_ServerName req) (req_ToolName req) (d_registry (run h db_empty)) = Ok b ∧
    (∃ st, (st, OpSetServerLifecycle (req_ServerName req) LifecycleApproved) ∈ h) ∧
    (Tool_Impact (tb_Tool b) = "high"%string →
     ∃ st id by_ r, (st, OpDecideApproval id "approved" by_) ∈ h ∧
       r ∈ approvals (d_gov (run h db_empty)) ∧ uuid_in id = Some (a_id r) ∧
       a_tool r = req_ToolName req ∧ a_session_id r = uuid_in (req_SessionID req) ∧
       a_decided_by r = by_).
Proof.
  intros w' Hran. destruct (Call_cases t req w') as [(b & w1 & Hc & _)|[? _]]; [|done].
  apply cleared_repo in Hc as (Hr & Ha & Hh). exists b. split; [exact Hr|].
  split; [by eapply resolved_lifecycle|].
  intros (r & u & Hin & Hu & Hs & Ht & Hst)%Hh.
  destruct (approved_decision h r Hin Hst) as (st & id & ? & ?).
  exists st, id, (a_decided_by r), r. by rewrite Hu.
Qed.

(** After SetServerEnabled name false no call to a tool of that server leaves the
    gateway, whatever statements follow, until somebody enables the server again;
    re-registering it does not. *)
Theorem kill_switch st name r h d t req w :
  find_server name (d_registry d) = Some r → req_ServerName req = name →
  Forall (λ so, so.2 ≠ OpSetServerEnabled name true) h →
  let d' := run ((st, OpSetServerEnabled name false) :: h) d in
  w_calls (Call t req (at_db d' w)).2 = w_calls w.
Proof.
  intros Hf Hn Hh d'.
  pose proof (find_server_update name (with_enabled false (now st)) _ r (λ _, eq_refl) Hf) as Hf1.
  destruct (run_disabled_server h (exec st (OpSetServerEnabled name false) d) name
    (with_enabled false (now st) r)) as (r' & Hr' & He); [|done|done|].
  { simpl. unfold SetServerEnabled. by rewrite Hf. }
  etransitivity; [eapply (shut_server_never_runs t req (at_db d' w) r')|done]; [|by right].
  by rewrite Hn.
Qed.

(** ** The audit trail *)

Definition log (w : world repo D) : list audit_row := audit_log (d_gov (w_db w)).

Definition keeps_log {A} (m : M (world repo D) A) : Prop := ∀ w, log (m w).2 = log w.

Lemma keeps_log_ret {A} (a : A) : keeps_log (mret a).
Proof. done. Qed.

Lemma keeps_log_bind {A B} (m : M (world repo D) A) (f : A → M (world repo D) B) :
  keeps_log m → (∀ a, keeps_log (f a)) → keeps_log (m ≫= f).
Proof. intros Hm Hf w. by rewrite M_bind_run, Hf, Hm. Qed.

Lemma keeps_log_read {A} (f : db → A) : keeps_log (store_op (repo_read f)).
Proof. done. Qed.

Lemma keeps_log_hasApproval sid tool : keeps_log (hasApproval sid tool).
Proof.
  unfold hasApproval. case_match; [apply keeps_log_ret|].
  apply keeps_log_bind; [apply keeps_log_read|]. intros ?. apply keeps_log_ret.
Qed.

Lemma keeps_log_CreateApproval sid tool args :
  keeps_log (store_op (st_CreateApproval sid tool args)).
Proof.
  intros w. unfold store_op. simpl. unfold repo_write, CreateApproval.
  by destruct (insert_approval _ _ _ _ _ _).
Qed.

Lemma keeps_log_limiter t k : keeps_log (limiter_Allow t k).
Proof. intros w. unfold log. by rewrite limiter_Allow_store. Qed.

Lemma keeps_log_downstream s tl a : keeps_log (downstream s tl a).
Proof. intros w. unfold downstream. by destruct (tc_Call s tl a (w_down w)). Qed.

(** The row that [audit] writes. *)
Definition audited (req : CallRequest) (res : string) (t : Ticks) (row : audit_row) : Prop :=
  l_actor row = Subject (req_Identity req) ∧
  l_tool row = req_ServerName req +:+ "/" +:+ req_ToolName req ∧
  l_args_redacted row = RedactArgs (req_Args req) ∧
  l_result row = res ∧ l_latency_ms row = latency t.

Lemma defaultJSON_RedactArgs args : defaultJSON (RedactArgs args) = RedactArgs args.
Proof. destruct args as [|x|[]]; try done. cbn [RedactArgs]. by destruct (decodable _). Qed.

(** The row of an entry that the columns can hold; any other entry is lost, for
    [audit] drops the error of the statement. *)
Definition entered (req : CallRequest) (res : string) (t : Ticks) (w w' : world repo D) : Prop :=
  if storable (audit_input req res t)
  then ∃ row, log w' = log w ++ [row] ∧ audited req res t row
  else log w' = log w.

(** The statement writes the row it describes. *)
Lemma WriteAudit_audited st req res t g :
  let g' := (WriteAudit st (audit_input req res t) g).2 in
  if storable (audit_input req res t)
  then ∃ row, audit_log g' = audit_log g ++ [row] ∧ audited req res t row
  else g' = g.
Proof.
  cbv zeta. pose proof (insert_audit_storable st (audit_input req res t) g) as Hi. unfold WriteAudit.
  destruct (storable _).
  - rewrite Hi. eexists. split; [done|]. unfold audited. cbn. by rewrite defaultJSON_RedactArgs.
  - by destruct (insert_audit _ _ _).
Qed.

Lemma audit_logs req res t w : entered req res t w (audit req res t w).2.
Proof.
  unfold audit. rewrite M_bind_run, store_op_run. cbn [fst snd mret M_ret st_WriteAudit repo_Store].
  set (st := r_stmts (w_store w) (r_next (w_store w))).
  pose proof (WriteAudit_audited st req res t (d_gov (w_db w))) as Hw. cbv zeta in Hw.
  unfold entered, log, repo_write. fold st.
  destruct (WriteAudit st (audit_input req res t) (d_gov (w_db w))) as [r g].
  cbn [fst snd w_store with_store r_db with_gov d_gov] in *. destruct (storable _); [done|by rewrite Hw].
Qed.

Lemma deny_logs req res t e w : entered req res t w (deny req res t e w).2.
Proof. unfold deny. rewrite M_bind_run. apply audit_logs. Qed.

Lemma entered_from req res t w0 w w' : log w = log w0 → entered req res t w w' → entered req res t w0 w'.
Proof. unfold entered. by intros ->. Qed.

Lemma deny_result req res t e w : (deny req res t e w).1 = Err e.
Proof. unfold deny. by rewrite M_bind_run. Qed.

(** The result column for each outcome of [Call]. *)
Definition outcome_text (r : result CallResult) : string :=
  match r with
  | Ok _ => "ok"
  | Err (ErrApprovalRequired _ _) => "gated: awaiting approval"
  | Err (ErrWrap _ e) => "error: " +:+ Error e
  | Err e => if decide (e = ErrRateLimited) then "denied: rate limited"
             else if decide (e = ErrUnknownTool) then "denied: unknown tool"
             else "denied: unauthorized"
  end.

(** One entry for this outcome, or an error of the store before any decision. *)
Definition accounted (t : Ticks) (req : CallRequest) (w : world repo D)
    (r : result CallResult) (w' : world repo D) : Prop :=
  entered req (outcome_text r) t w w' ∨
  (log w' = log w ∧ w_calls w' = w_calls w ∧
   ∃ p e, r = Err (ErrWrap p e) ∧
     p ∈ ["gateway: resolve tool: "; "gateway: list approvals: "; "gateway: create approval: "]%string).

Lemma gate_accounted t req b w x w' :
  gate t req b w = (Some x, w') → accounted t req w x w'.
Proof.
  pose proof (keeps_log_hasApproval (req_SessionID req) (req_ToolName req) w) as H1.
  pose proof (quiet_hasApproval (req_SessionID req) (req_ToolName req) w) as Hq1.
  unfold gate. destruct (String.eqb _ _); [|done]. rewrite M_bind_run.
  destruct (hasApproval _ _ w) as [[[]|e] w1] eqn:Hh; cbn [fst snd] in *; [done| |].
  - rewrite M_bind_run.
    pose proof (keeps_log_CreateApproval (req_SessionID req) (req_ToolName req)
      (RedactArgs (req_Args req)) w1) as H2.
    pose proof (quiet_store_op (st_CreateApproval (req_SessionID req) (req_ToolName req)
      (RedactArgs (req_Args req))) w1) as Hq2.
    destruct (store_op _ w1) as [[ap|e] w2]; cbn [fst snd] in *.
    + rewrite M_bind_run, deny_result. intros [= <- <-]. left.
      eapply entered_from; [|apply deny_logs]. congruence.
    + intros [= <- <-]. right. split; [congruence|]. split; [congruence|].
      eexists _, _. split; [done|]. do 2 right. by left.
  - intros [= <- <-]. right. do 2 (split; [done|]).
    unfold hasApproval in Hh. destruct (String.eqb _ _); [done|].
    rewrite M_bind_run in Hh. injection Hh as Hh _.
    destruct (ListApprovalsBySession _ _) as [l|e1]; [done|]. injection Hh as <-.
    eexists _, _. split; [done|]. right. by left.
Qed.

Lemma proxy_call_accounted t req b w :
  accounted t req w (proxy_call t req b w).1 (proxy_call t req b w).2.
Proof.
  left. unfold proxy_call. rewrite !M_bind_run.
  pose proof (keeps_log_downstream (tb_Server b) (tb_Tool b) (req_Args req) w) as Hd.
  destruct (downstream _ _ _ w) as [out w1]. cbn [fst snd] in *.
  eapply entered_from; [done|]. pose proof (audit_logs req
    (match out with Ok _ => "ok"%string | Err e => "error: " +:+ Error e end) t w1). by destruct out.
Qed.

(** Every Call that reaches a decision (run, refused, rate limited, unknown, gated)
    adds exactly one audit row with the caller, server/tool, redacted arguments, latency
    and the text of that outcome, provided that the columns can hold them; the other ends
    are errors of the store before anything ran, and add no row. *)
Theorem Call_audited t req w : accounted t req w (Call t req w).1 (Call t req w).2.
Proof.
  unfold Call. rewrite M_bind_run.
  pose proof (keeps_log_limiter t (rateKey (req_Identity req)) w) as Hl.
  pose proof (quiet_limiter t (rateKey (req_Identity req)) w) as Hq.
  destruct (limiter_Allow _ _ w) as [ok w1]. cbn [fst snd] in *.
  assert (∀ res e, outcome_text (Err e) = res →
    accounted t req w (deny req res t e w1).1 (deny req res t e w1).2) as Hdeny.
  { intros res e He. left. rewrite deny_result, He. eapply entered_from; [done|]. apply deny_logs. }
  destruct ok; cbn [negb]; [|by apply Hdeny].
  rewrite M_bind_run, store_op_run. cbn [fst snd st_ResolveTool repo_Store repo_read].
  change (with_store _ w1) with w1 || replace (with_store (w_store w1) w1) with w1 by by destruct w1.
  destruct (ResolveTool _ _ _) as [b|e].
  2: { destruct (errors_Is e ErrNotFound); [by apply Hdeny|].
       right. do 2 (split; [done|]). eexists _, _. split; [done|]. by left. }
  destruct (authorized _ _); cbn [negb]; [|by apply Hdeny].
  rewrite M_bind_run. pose proof (quiet_gate t req b w1) as Hqg.
  destruct (gate t req b w1) as [[x|] w2] eqn:Hg; cbn [fst snd] in *.
  - apply gate_accounted in Hg. unfold accounted, entered in *.
    cbn. by rewrite <-Hl, <-Hq.
  - assert (log w2 = log w1) as Hlg.
    { unfold gate in Hg. destruct (String.eqb _ _); [|by injection Hg as <-].
      rewrite M_bind_run in Hg.
      pose proof (keeps_log_hasApproval (req_SessionID req) (req_ToolName req) w1) as H1.
      destruct (hasApproval _ _ w1) as [[[]|e] w3]; cbn [fst snd] in *; [by injection Hg as <-| |done].
      rewrite M_bind_run in Hg. destruct (store_op _ w3) as [[ap|e] w4]; cbn [fst snd] in Hg; [|done].
      rewrite M_bind_run in Hg. done. }
    pose proof (proxy_call_accounted t req b w2) as Hp.
    unfold accounted, entered in *. rewrite <-Hl, <-Hlg, <-Hq, <-Hqg. exact Hp.
Qed.

(** ** From the gate to the call *)

Lemma with_store_same (w : world repo D) : with_store (w_store w) w = w.
Proof. by destruct w. Qed.

(** [Call] on a tool it resolves and may use, once the limiter grants it. *)
Lemma Call_admitted t req w b :
  let ask := limiter_Allow t (rateKey (req_Identity req)) w in
  ask.1 = true →
  ResolveTool (req_ServerName req) (req_ToolName req) (d_registry (w_db w)) = Ok b →
  authorized (tb_Server b) (req_Identity req) = true →
  Call t req w =
    (g ← gate t req b; match g with Some x => mret x | None => proxy_call t req b end) ask.2.
Proof.
  cbv zeta. intros Hl Hr Ha. unfold Call. rewrite M_bind_run, Hl. cbn [negb].
  pose proof (limiter_Allow_store t (rateKey (req_Identity req)) w) as Hs.
  rewrite M_bind_run, store_op_run. cbn [fst snd st_ResolveTool repo_Store repo_read].
  rewrite Hs, Hr, Ha. cbn [negb]. f_equal. by rewrite <-Hs, with_store_same.
Qed.

Lemma hasApproval_elem sid tool u w r :
  uuid_in sid = Some u → sid ≠ EmptyString → r ∈ approvals (d_gov (w_db w)) →
  a_session_id r = Some u → a_tool r = tool → a_status r = "approved"%string →
  hasApproval sid tool w = (Ok true, w).
Proof.
  intros Hu Hne Hin Hs Ht Hst. unfold hasApproval.
  destruct (String.eqb_spec sid EmptyString) as [?|_]; [done|].
  rewrite M_bind_run, store_op_run. cbn. unfold ListApprovalsBySession, queryApprovals, uuid_arg. rewrite Hu.
  replace (existsb _ _) with true; [by destruct w|]. symmetry. apply existsb_elem_of.
  exists (scanApproval r). split.
  - apply list_elem_of_fmap_2. by rewrite elem_of_order_by, list_elem_of_filter.
  - simpl. by rewrite Ht, Hst, !String.eqb_refl.
Qed.

Lemma gate_approved t req b w u r :
  uuid_in (req_SessionID req) = Some u → req_SessionID req ≠ EmptyString →
  r ∈ approvals (d_gov (w_db w)) → a_session_id r = Some u → a_tool r = req_ToolName req →
  a_status r = "approved"%string → gate t req b w = (None, w).
Proof.
  intros ??????. unfold gate. case_match; [|done].
  rewrite M_bind_run, (hasApproval_elem _ _ u _ r) by done. done.
Qed.

Lemma CreateApproval_run sid tool args w u :
  uuid_in sid = Some u → sid ≠ EmptyString → u ∈ session_ids (w_db w) →
  text_in tool = true → is_ok (jsonb_arg (defaultJSON args)) = true →
  gen_uuid (r_stmts (w_store w) (r_next (w_store w))) 0 ∉ a_id <$> approvals (d_gov (w_db w)) →
  ∃ r, insert_approval (session_ids (w_db w)) (r_stmts (w_store w) (r_next (w_store w)))
         sid tool args (d_gov (w_db w)) = Ok r ∧ a_session_id r = Some u ∧ a_tool r = tool ∧
       a_status r = "pending"%string.
Proof.
  intros Hu Hne Hs Ht Hj Hf. unfold insert_approval, nullable, uuid_arg, text_arg.
  destruct (jsonb_arg (defaultJSON args)) as [j|]; [|done].
  apply nonempty_true in Hne. rewrite Hne, Hu, Ht, bool_decide_false by exact Hf. cbn.
  rewrite bool_decide_true by done. cbn. eexists. by split.
Qed.

Lemma hasApproval_store sid tool w w' :
  w_store w = w_store w' → (hasApproval sid tool w).1 = (hasApproval sid tool w').1.
Proof.
  intros Hs. unfold hasApproval. case_match; [done|]. rewrite !M_bind_run, !store_op_run. cbn.
  by rewrite Hs.
Qed.

Lemma hasApproval_same sid tool w : (hasApproval sid tool w).2 = w.
Proof.
  unfold hasApproval. case_match; [done|]. rewrite M_bind_run, store_op_run. by destruct w.
Qed.

Lemma audit_frame req res t w :
  let w' := (audit req res t w).2 in
  d_registry (w_db w') = d_registry (w_db w) ∧
  approvals (d_gov (w_db w')) = approvals (d_gov (w_db w)).
Proof.
  unfold audit. rewrite M_bind_run, store_op_run. cbn. unfold repo_write, WriteAudit.
  by destruct (insert_audit _ _ _).
Qed.

(** The first call on a gated tool leaves a pending approval behind. *)
Lemma gate_creates t req b w u :
  Tool_Impact (tb_Tool b) = "high"%string →
  uuid_in (req_SessionID req) = Some u → req_SessionID req ≠ EmptyString →
  u ∈ session_ids (w_db w) →
  text_in (req_ToolName req) = true → is_ok (jsonb_arg (RedactArgs (req_Args req))) = true →
  gen_uuid (r_stmts (w_store w) (r_next (w_store w))) 0 ∉ a_id <$> approvals (d_gov (w_db w)) →
  (hasApproval (req_SessionID req) (req_ToolName req) w).1 = Ok false →
  ∃ r w1, gate t req b w = (Some (Err (ErrApprovalRequired (uuid_out (a_id r)) (req_ToolName req))), w1) ∧
    d_registry (w_db w1) = d_registry (w_db w) ∧
    r ∈ approvals (d_gov (w_db w1)) ∧ a_session_id r = Some u ∧ a_tool r = req_ToolName req ∧
    a_status r = "pending"%string.
Proof.
  intros Hh Hu Hne Hs Htext Hargs Hfresh Hno.
  unfold gate. rewrite Hh, String.eqb_refl, M_bind_run, Hno, hasApproval_same.
  rewrite M_bind_run, store_op_run. cbn [fst snd st_CreateApproval repo_Store].
  unfold repo_write, CreateApproval.
  destruct (CreateApproval_run (req_SessionID req) (req_ToolName req) (RedactArgs (req_Args req)) w u)
    as (r & -> & Hrs & Hrt & Hrp); [done..|by rewrite defaultJSON_RedactArgs|done|].
  cbn [fst snd]. rewrite M_bind_run, deny_result. eexists r, _. split; [reflexivity|].
  unfold deny. rewrite M_bind_run.
  match goal with |- context [audit req ?s t ?v] =>
    pose proof (audit_frame req s t v) as (Hr & Hap);
    change ((mret ?x : M (world repo D) (result CallResult)) ?y) with (x, y) end.
  cbn [fst snd] in *. rewrite Hr, Hap. cbn.
  split; [done|]. split; [|done]. apply elem_of_app. right. by left.
Qed.

(** A decision marks the row it names. *)
Lemma DecideApproval_marks st r status who g :
  r ∈ approvals g → status ∈ approval_statuses →
  decide_row status who (now st) r ∈
    approvals (DecideApproval st (uuid_out (a_id r)) status who g).2.
Proof.
  intros Hr Hs. unfold DecideApproval. rewrite uuid_arg_out.
  destruct (List.find _ _) as [r'|] eqn:Hf.
  - rewrite bool_decide_true by done. cbn. apply list_elem_of_fmap. exists r.
    by rewrite decide_True.
  - apply find_None_elem_of with (x := r) in Hf; [|done].
    by apply bool_decide_eq_false in Hf.
Qed.

(** C4: A first call of a high-impact tool that the limiter admits, by a caller who may
    use the tool, in a session that exists and has no approved approval for it yet, is not
    sent but records a pending approval of that session for the tool and returns its id;
    once that id is decided as approved, repeating the call sends it downstream exactly
    once, if the limiter admits it again. The tool's name and the redacted arguments have
    to be values that PostgreSQL takes, and the new row's identifier a fresh one. The
    limiter is any, or none. *)
Theorem approve_then_call_runs t1 t2 st2 who req w b u :
  ResolveTool (req_ServerName req) (req_ToolName req) (d_registry (w_db w)) = Ok b →
  authorized (tb_Server b) (req_Identity req) = true →
  Tool_Impact (tb_Tool b) = "high"%string →
  uuid_in (req_SessionID req) = Some u → req_SessionID req ≠ EmptyString → u ∈ session_ids (w_db w) →
  text_in (req_ToolName req) = true → is_ok (jsonb_arg (RedactArgs (req_Args req))) = true →
  gen_uuid (r_stmts (w_store w) (r_next (w_store w))) 0 ∉ a_id <$> approvals (d_gov (w_db w)) →
  (hasApproval (req_SessionID req) (req_ToolName req) w).1 = Ok false →
  (limiter_Allow t1 (rateKey (req_Identity req)) w).1 = true →
  let '(r1, w1) := Call t1 req w in
  w_calls w1 = w_calls w ∧
  ∃ aid, r1 = Err (ErrApprovalRequired aid (req_ToolName req)) ∧
    (∃ a, a ∈ approvals (d_gov (w_db w1)) ∧ uuid_out (a_id a) = aid ∧ a_session_id a = Some u ∧
       a_tool a = req_ToolName req ∧ a_status a = "pending"%string) ∧
    let w2 := at_db (exec st2 (OpDecideApproval aid "approved" who) (w_db w1)) w1 in
    (limiter_Allow t2 (rateKey (req_Identity req)) w2).1 = true →
    w_calls (Call t2 req w2).2 = w_calls w ++ [(tb_Server b, tb_Tool b, req_Args req)].
Proof.
  intros Hr Ha Hh Hu Hne Hs Htext Hargs Hfresh Hno Hask.
  rewrite (Call_admitted t1 req w b) by done.
  pose proof (limiter_Allow_store t1 (rateKey (req_Identity req)) w) as Hst.
  pose proof (quiet_limiter t1 (rateKey (req_Identity req)) w) as Hq0.
  set (w0 := (limiter_Allow t1 (rateKey (req_Identity req)) w).2) in *.
  rewrite <-Hst in Hs, Hfresh, Hr. rewrite <-(hasApproval_store _ _ w0 w Hst) in Hno.
  rewrite M_bind_run. pose proof (quiet_gate t1 req b w0) as Hq.
  destruct (gate_creates t1 req b w0 u) as (r & w1 & Hg & Hreg & Hin & Hrs & Hrt & Hp); [done..|].
  rewrite Hg in *. cbn in Hq |- *. split; [congruence|].
  exists (uuid_out (a_id r)). split; [done|]. split; [by exists r|].
  set (w2 := at_db _ w1). intros Hask2.
  assert (Call t2 req w2 = proxy_call t2 req b (limiter_Allow t2 (rateKey (req_Identity req)) w2).2) as ->.
  { rewrite (Call_admitted t2 req w2 b); [|done|cbn; by rewrite Hreg|done].
    pose proof (limiter_Allow_store t2 (rateKey (req_Identity req)) w2) as Hst2.
    rewrite M_bind_run, (gate_approved t2 req b _ u (decide_row "approved" who (now st2) r)); try done.
    rewrite Hst2. apply DecideApproval_marks; [done|]. right. by left. }
  unfold proxy_call. rewrite M_bind_run, M_bind_run. unfold downstream.
  destruct (tc_Call _ _ _ _) as [out d]. cbn [fst snd]. rewrite quiet_ret, quiet_audit.
  cbn [w_calls]. rewrite quiet_limiter. cbn. by rewrite Hq, Hq0.
Qed.
End repo.

(** ** Concrete instances *)

#[local] Existing Instance unary_text.

(** A downstream server that answers every call with null. *)
#[local] Instance null_caller : ToolCaller unit := { tc_Call _ _ _ d := (Ok (RawJSON JNull), d) }.

Definition sample_world (h : list (Stmt * op)) : world repo unit :=
  {| w_store := {| r_db := run h db_empty; r_stmts := λ n, sample_stmt (100 + Z.of_nat n) (100 + 10 * N.of_nat n);
                   r_next := 0 |};
     w_down := tt; w_limiter := None; w_calls := [] |}.

Definition sample_request (server : string) (args : RawMessage) : CallRequest :=
  {| req_Identity := {| Subject := "agent"; Committees := ["finance"]; IsAgent := true |};
     req_SessionID := strokes 2; req_ServerName := server; req_ToolName := "send"; req_Args := args |}.

Definition sample_ticks : Ticks := {| t_start := 0; t_limit := 1; t_global := 1; t_audit := 2000000 |}.

Lemma visible_iff_callable_witness :
  ∃ b, ResolveTool "google" "list" (d_registry (run sample_history db_empty)) = Ok b ∧
    authorized (tb_Server b) {| Subject := "agent"; Committees := ["finance"]; IsAgent := true |} = true.
Proof.
  apply (visible_iff_callable {| Subject := "agent"; Committees := ["finance"]; IsAgent := true |}
    "google" "list" (sample_world sample_history)).
  - apply run_wf, db_empty_wf.
  - eexists _, _. split; [vm_compute; reflexivity|]. split; [left|]. by split.
Defined.

Lemma call_provenance_witness :
  ∃ st id by_ r, (st, OpDecideApproval id "approved" by_) ∈ sample_history ++ sample_decision ∧
    r ∈ approvals (d_gov (run (sample_history ++ sample_decision) db_empty)) ∧
    uuid_in id = Some (a_id r) ∧ a_tool r = "send"%string ∧
    a_session_id r = Some 2%N ∧ a_decided_by r = by_.
Proof.
  destruct (call_provenance (sample_history ++ sample_decision) sample_ticks
    (sample_request "google" (RawJSON (JObj []))) (sample_world [])) as (b & Hb & _ & Hh).
  - vm_compute. discriminate.
  - vm_compute in Hb. injection Hb as <-. exact (Hh eq_refl).
Defined.

Lemma kill_switch_witness :
  w_calls (Call sample_ticks (sample_request "google" (RawJSON (JObj [])))
    (at_db (run ((sample_stmt 50 50, OpSetServerEnabled "google" false) ::
                 [(sample_stmt 51 60, OpRegisterServer (sample_server "google"))])
            (run (sample_history ++ sample_decision) db_empty)) (sample_world []))).2 = [].
Proof.
  eapply (kill_switch (sample_stmt 50 50) "google").
  - vm_compute. reflexivity.
  - reflexivity.
  - by repeat constructor.
Defined.

(** A gateway with a limiter, as main builds one. *)
Definition sample_limited (h : list (Stmt * op)) : world repo unit :=
  with_limiter (Some (NewLimiter 60 60 60 60)) (sample_world h).

Lemma approve_then_call_runs_witness :
  let req := sample_request "google" (RawJSON (JObj [])) in
  let '(r1, w1) := Call sample_ticks req (sample_limited sample_history) in
  w_calls w1 = [] ∧
  ∃ aid, r1 = Err (ErrApprovalRequired aid "send") ∧
    let w2 := at_db (exec (sample_stmt 70 70) (OpDecideApproval aid "approved" "U9")
                       (r_db (w_store w1))) w1 in
    ((limiter_Allow sample_ticks "finance" w2).1 = true →
     length (w_calls (Call sample_ticks req w2).2) = 1%nat).
Proof.
  cbv zeta.
  pose proof (approve_then_call_runs sample_ticks sample_ticks (sample_stmt 70 70) "U9"
    (sample_request "google" (RawJSON (JObj []))) (sample_limited sample_history)) as Hrun.
  destruct (ResolveTool "google" "send" (d_registry (run sample_history db_empty))) as [b|] eqn:Hb;
    [|by vm_compute in Hb].
  specialize (Hrun b 2%N Hb). vm_compute in Hb. injection Hb as <-.
  specialize (Hrun eq_refl eq_refl eq_refl).
  destruct (Call sample_ticks _ _) as [r1 w1]. destruct Hrun as [Hw (aid & Hr & _ & Hc)].
  - discriminate.
  - vm_compute. left.
  - reflexivity.
  - reflexivity.
  - vm_compute. intros Hin. inversion Hin.
  - vm_compute. reflexivity.
  - vm_compute. reflexivity.
  - split; [exact Hw|]. exists aid. split; [exact Hr|]. cbv zeta in Hc |- *.
    intros Hask. by rewrite (Hc Hask).
Defined.

(** And the limiter does grant both: the whole exchange, evaluated. *)
Lemma approve_then_call_limited :
  let req := sample_request "google" (RawJSON (JObj [])) in
  let '(r1, w1) := Call sample_ticks req (sample_limited sample_history) in
  match r1 with
  | Err (ErrApprovalRequired aid _) =>
      let w2 := at_db (exec (sample_stmt 70 70) (OpDecideApproval aid "approved" "U9")
                         (r_db (w_store w1))) w1 in
      length (w_calls (Call sample_ticks req w2).2) = 1%nat
  | _ => False
  end.
Proof. vm_compute. reflexivity. Qed.

(** A NUL character in an argument keeps a call out of the audit log: the tool
    runs, the row is refused by the database, and the error is dropped. *)
Lemma nul_argument_unaudited :
  let args := RawJSON (JObj [("q", JStr (String.String "000" EmptyString))]) in
  let req := {| req_Identity := req_Identity (sample_request "google" args);
                req_SessionID := strokes 2; req_ServerName := "google"; req_ToolName := "list";
                req_Args := args |} in
  let '(r, w) := Call sample_ticks req (sample_world sample_history) in
  is_ok r = true ∧ length (w_calls w) = 1%nat ∧ audit_log (d_gov (r_db (w_store w))) = [].
Proof. vm_compute. done. Qed.

(** An approval is matched by the session and the bare tool name: it also lets
    through a call of the same-named tool of another server, with other
    arguments. *)
Lemma approval_covers_other_server :
  let h := sample_history ++ [(sample_stmt 7 60, OpRegisterServer (sample_server "slack"));
             (sample_stmt 8 70, OpSetServerLifecycle "slack" LifecycleApproved)] ++ sample_decision in
  (Tool_Name ∘ snd ∘ fst <$>
    w_calls (Call sample_ticks (sample_request "slack" (RawJSON (JObj [("to", JStr "all")])))
      (sample_world h)).2) = ["send"%string].
Proof. vm_compute. reflexivity. Qed.
