(* ===== verification/GatewayConcurrent.v ===== *)
(** * Calls in flight (gateway/internal/policy/gateway.go)

    The gateway serves every request in a goroutine of its own and shares the
    database with other services. Here a call is a thread with a program
    counter: it stops before each bucket of the limiter, before every statement
    of the store (the registry lookup is three of them, in no transaction) and
    before the downstream call, and in between other threads and other clients
    of the database move. Run alone, a thread is [Call]. *)

From S2P Require Import Prelude GoText Json Limits Pg Memory.
From S2P Require Import Sessions Identity Governance Registry Repository Gateway GatewayStore.
From Stdlib Require Import ZArith Lia Ascii.
From stdpp Require Import options.

Open Scope Z_scope.
Open Scope list_scope.

(** ** The statements of the registry lookup *)

(** What ResolveTool of a store executes: the row of the server, its tools and
    its committees, each in a statement of its own. *)
Class Lookups (S : Type) `{PgText} `{Store S} := {
  lu_server : string → S → result server_row * S;
  lu_tools : uuid → S → result (list Tool) * S;
  lu_committees : uuid → S → result (list string) * S;
  lu_ResolveTool n tn s :
    st_ResolveTool n tn s =
    match lu_server n s with
    | (Err e, s) => (Err e, s)
    | (Ok r, s) =>
        match lu_tools (v_id r) s with
        | (Err e, s) => (Err e, s)
        | (Ok ts, s) =>
            match lu_committees (v_id r) s with
            | (Err e, s) => (Err e, s)
            | (Ok cs, s) => (find_tool tn (server_of r ts cs), s)
            end
        end
    end;
}.

(** ** A call as a thread *)

(** Where [Call] stands: before a bucket of the limiter, before a statement of
    the store, before the downstream call, before the audit row it returns
    after, at its end. *)
Inductive pc : Type :=
  | PcLimit
  | PcGlobal
  | PcResolve
  | PcTools (r : server_row)
  | PcCommittees (r : server_row) (ts : list Tool)
  | PcGate (b : ToolBinding)
  | PcCreate
  | PcProxy (b : ToolBinding)
  | PcAudit (res : string) (k : Z → result CallResult)
  | PcReturn (r : result CallResult).

Section thread.
Context {S D : Type} `{PgText} `{Store S} `{!Lookups S} `{ToolCaller D} (t : Ticks) (req : CallRequest).
Implicit Types (w : world S D).

Definition refuse (res : string) (e : error) : pc := PcAudit res (λ _, Err e).

Definition after_committee (ok : bool) : pc :=
  if ok then PcGlobal else refuse "denied: rate limited" ErrRateLimited.

Definition after_limit (ok : bool) : pc :=
  if ok then PcResolve else refuse "denied: rate limited" ErrRateLimited.

Definition after_resolve (r : result ToolBinding) : pc :=
  match r with
  | Err e =>
      if errors_Is e ErrNotFound then refuse "denied: unknown tool" ErrUnknownTool
      else PcReturn (Err (ErrWrap "gateway: resolve tool: " e))
  | Ok b =>
      if negb (authorized (tb_Server b) (req_Identity req))
      then refuse "denied: unauthorized" ErrUnauthorized
      else if String.eqb (Tool_Impact (tb_Tool b)) "high" then PcGate b else PcProxy b
  end.

Definition after_server (r : result server_row) : pc :=
  match r with Err e => after_resolve (Err e) | Ok r => PcTools r end.

Definition after_tools (r : server_row) (ts : result (list Tool)) : pc :=
  match ts with Err e => after_resolve (Err e) | Ok ts => PcCommittees r ts end.

Definition after_grants (r : server_row) (ts : list Tool) (cs : result (list string)) : pc :=
  after_resolve (cs ← cs; find_tool (req_ToolName req) (server_of r ts cs)).

Definition after_gate (b : ToolBinding) (r : result bool) : pc :=
  match r with
  | Err e => PcReturn (Err e)
  | Ok true => PcProxy b
  | Ok false => PcCreate
  end.

Definition after_create (r : result Approval) : pc :=
  match r with
  | Err e => PcReturn (Err (ErrWrap "gateway: create approval: " e))
  | Ok ap => refuse "gated: awaiting approval"
               (ErrApprovalRequired (Approval_ID ap) (req_ToolName req))
  end.

Definition after_proxy (out : result RawMessage) : pc :=
  PcAudit (match out with Ok _ => "ok" | Err e => "error: " +:+ Error e end)
    (λ id, match out with
           | Ok o => Ok {| Output := o; AuditID := id |}
           | Err e => Err (ErrWrap "gateway: downstream call: " e)
           end).

(** The next step of the thread. *)
Definition thread_step (p : pc) : M (world S D) pc :=
  match p with
  | PcLimit =>
      ok ← on_limiter (λ l, committee_Allow l (t_limit t) (rateKey (req_Identity req)));
      mret (after_committee ok)
  | PcGlobal => ok ← on_limiter (λ l, global_Allow l (t_global t)); mret (after_limit ok)
  | PcResolve => r ← store_op (lu_server (req_ServerName req)); mret (after_server r)
  | PcTools r => ts ← store_op (lu_tools (v_id r)); mret (after_tools r ts)
  | PcCommittees r ts => cs ← store_op (lu_committees (v_id r)); mret (after_grants r ts cs)
  | PcGate b => r ← hasApproval (req_SessionID req) (req_ToolName req); mret (after_gate b r)
  | PcCreate =>
      r ← store_op (st_CreateApproval (req_SessionID req) (req_ToolName req)
            (RedactArgs (req_Args req)));
      mret (after_create r)
  | PcProxy b => out ← downstream (tb_Server b) (tb_Tool b) (req_Args req); mret (after_proxy out)
  | PcAudit res k => id ← audit req res t; mret (PcReturn (k id))
  | PcReturn r => mret (PcReturn r)
  end.

(** [n] steps of the thread alone; None while it has not returned. *)
Fixpoint alone (n : nat) (p : pc) : M (world S D) (option (result CallResult)) :=
  match p, n with
  | PcReturn r, _ => mret (Some r)
  | _, O => mret None
  | _, Datatypes.S n => p ← thread_step p; alone n p
  end.

Lemma alone_step n p w :
  (∀ r, p ≠ PcReturn r) → alone (Datatypes.S n) p w = alone n (thread_step p w).1 (thread_step p w).2.
Proof.
  intros Hp. destruct p; try (cbn [alone]; by rewrite M_bind_run). by destruct (Hp r).
Qed.

Lemma alone_return n r w : alone n (PcReturn r) w = (Some r, w).
Proof. by destruct n. Qed.

Lemma alone_audit n res k w :
  alone (Datatypes.S n) (PcAudit res k) w =
  (Some (k (audit req res t w).1), (audit req res t w).2).
Proof. rewrite alone_step by done. cbn [thread_step]. rewrite M_bind_run. apply alone_return. Qed.

Lemma alone_refuse n res e w :
  alone (Datatypes.S n) (refuse res e) w =
  (Some (deny req res t e w).1, (deny req res t e w).2).
Proof. unfold refuse. rewrite alone_audit. unfold deny. by rewrite M_bind_run. Qed.

Lemma alone_proxy n b w :
  alone (Datatypes.S (Datatypes.S n)) (PcProxy b) w = (Some (proxy_call t req b w).1, (proxy_call t req b w).2).
Proof.
  rewrite alone_step by done. cbn [thread_step]. unfold proxy_call. rewrite !M_bind_run.
  destruct (downstream _ _ _ w) as [out w1]. cbn [fst snd mret M_ret after_proxy].
  unfold after_proxy. rewrite alone_audit. by destruct out.
Qed.

(** The gate, when the tool is high-impact. *)
Lemma alone_gate n b w :
  Tool_Impact (tb_Tool b) = "high"%string →
  alone (Datatypes.S (Datatypes.S (Datatypes.S n))) (PcGate b) w =
  match (gate t req b w).1 with
  | Some x => (Some x, (gate t req b w).2)
  | None => alone (Datatypes.S (Datatypes.S n)) (PcProxy b) (gate t req b w).2
  end.
Proof.
  intros Hh. rewrite alone_step by done. cbn [thread_step]. unfold gate.
  rewrite Hh, String.eqb_refl, !M_bind_run. destruct (hasApproval _ _ w) as [[[]|e] w1]; [done| |done].
  cbn [fst snd mret M_ret after_gate]. rewrite alone_step by done. cbn [thread_step].
  rewrite !M_bind_run. destruct (store_op _ w1) as [[ap|e] w2]; cbn [fst snd mret M_ret after_create].
  - rewrite alone_refuse, M_bind_run. done.
  - apply alone_return.
Qed.

(** The two steps at the limiter are its Allow. *)
Lemma alone_limit n w :
  alone (Datatypes.S (Datatypes.S (Datatypes.S n))) PcLimit w =
  let '(ok, w) := limiter_Allow t (rateKey (req_Identity req)) w in
  if ok then alone (Datatypes.S n) PcResolve w
  else alone (Datatypes.S n) (refuse "denied: rate limited" ErrRateLimited) w.
Proof.
  rewrite alone_step by done. cbn [thread_step]. rewrite M_bind_run. cbn [mret M_ret fst snd].
  unfold limiter_Allow, Limiter_Allow, on_limiter. destruct (w_limiter w) as [l|] eqn:Hl.
  - destruct (committee_Allow l _ _) as [[] l1]; cbn [fst snd after_committee].
    + rewrite alone_step by done. cbn [thread_step]. rewrite M_bind_run. unfold on_limiter.
      cbn [w_limiter with_limiter mret M_ret fst snd].
      destruct (global_Allow l1 _) as [[] l2]; cbn [fst snd after_limit]; [done|].
      by rewrite !alone_refuse.
    + by rewrite !alone_refuse.
  - cbn [fst snd after_committee]. rewrite alone_step by done. cbn [thread_step].
    rewrite M_bind_run. unfold on_limiter. by rewrite Hl.
Qed.

(** The part of [Call] after the lookup. *)
Definition resume (r : result ToolBinding) : M (world S D) (result CallResult) :=
  match r with
  | Err e =>
      if errors_Is e ErrNotFound then deny req "denied: unknown tool" t ErrUnknownTool
      else mret (Err (ErrWrap "gateway: resolve tool: " e))
  | Ok b =>
      if negb (authorized (tb_Server b) (req_Identity req))
      then deny req "denied: unauthorized" t ErrUnauthorized
      else g ← gate t req b; match g with Some x => mret x | None => proxy_call t req b end
  end.

Lemma alone_resume n r w :
  alone (3 + n) (after_resolve r) w = (Some (resume r w).1, (resume r w).2).
Proof.
  destruct r as [b|e]; cbn [after_resolve resume].
  - destruct (authorized _ _); cbn [negb]; [|apply alone_refuse]. rewrite M_bind_run.
    destruct (String.eqb_spec (Tool_Impact (tb_Tool b)) "high") as [Hh|Hh].
    + rewrite (alone_gate n) by done. destruct (gate t req b w) as [[x|] w3]; [done|].
      apply (alone_proxy n).
    + unfold gate. apply String.eqb_neq in Hh. rewrite Hh. apply (alone_proxy (Datatypes.S n)).
  - destruct (errors_Is e ErrNotFound); [apply alone_refuse|apply alone_return].
Qed.

(** The three steps of the lookup are its ResolveTool. *)
Lemma alone_lookup w :
  let rw := store_op (st_ResolveTool (req_ServerName req) (req_ToolName req)) w in
  alone 6 PcResolve w = (Some (resume rw.1 rw.2).1, (resume rw.1 rw.2).2).
Proof.
  cbv zeta. rewrite (store_op_run (st_ResolveTool _ _)), lu_ResolveTool. cbn [fst snd].
  rewrite alone_step by done. cbn [thread_step]. rewrite M_bind_run, store_op_run.
  cbn [fst snd mret M_ret]. destruct (lu_server _ (w_store w)) as [[r|e] s1]; cbn [fst snd after_server];
    [|apply (alone_resume 2)].
  rewrite alone_step by done. cbn [thread_step]. rewrite M_bind_run, store_op_run.
  cbn [fst snd mret M_ret w_store with_store].
  destruct (lu_tools _ s1) as [[ts|e] s2]; cbn [fst snd after_tools]; [|apply (alone_resume 1)].
  rewrite alone_step by done. cbn [thread_step]. rewrite M_bind_run, store_op_run.
  cbn [fst snd mret M_ret w_store with_store].
  destruct (lu_committees _ s2) as [cs s3]. cbn [fst snd]. unfold after_grants.
  rewrite (alone_resume 0). by destruct cs.
Qed.

(** Run alone, a thread is [Call], and eight steps are enough. *)
Lemma thread_is_Call w :
  alone 8 PcLimit w = (Some (Call t req w).1, (Call t req w).2).
Proof.
  rewrite alone_limit. unfold Call. rewrite M_bind_run.
  destruct (limiter_Allow _ _ w) as [[] w1]; cbn [fst snd negb]; [|apply alone_refuse].
  rewrite M_bind_run. apply alone_lookup.
Qed.

(** Only the step at the downstream call sends one. *)
Lemma thread_step_calls p w :
  w_calls (thread_step p w).2 =
  w_calls w ++ match p with PcProxy b => [(tb_Server b, tb_Tool b, req_Args req)] | _ => [] end.
Proof.
  assert (∀ A (m : M (world S D) A) (f : A → pc), quiet m →
    w_calls ((m ≫= λ a, mret (f a)) w).2 = w_calls w ++ []) as Hq.
  { intros A m f Hm. rewrite M_bind_run, app_nil_r. apply Hm. }
  destruct p; cbn [thread_step]; try apply Hq;
    auto using quiet_on_limiter, quiet_store_op, quiet_hasApproval, quiet_audit.
  - rewrite M_bind_run. unfold downstream. by destruct (tc_Call _ _ _ _).
  - by rewrite app_nil_r.
Qed.

(** A call may still be sent. *)
Definition unsent (p : pc) : bool :=
  match p with PcAudit _ _ | PcReturn _ => false | _ => true end.

Lemma thread_step_unsent p w :
  (match p with PcProxy _ => 1 | _ => 0 end + (if unsent (thread_step p w).1 then 1 else 0) ≤
   if unsent p then 1 else 0)%nat.
Proof.
  destruct p; cbn [thread_step]; rewrite ?M_bind_run; cbn [mret M_ret fst unsent after_proxy];
    try done; by destruct (unsent _); simpl; lia.
Qed.
End thread.

Arguments pc : clear implicits.

(** ** The shared database

    A store that remembers every statement that took effect, in their order;
    [sh_stmts] are the clocks and identifiers of the gateway's own. *)

Record shared := Shared { sh_history : list (Stmt * op); sh_stmts : nat → Stmt; sh_next : nat }.

Section shared.
Context `{PgText}.

Definition sh_db (s : shared) : db := run (sh_history s) db_empty.
Definition sh_stmt (s : shared) : Stmt := sh_stmts s (sh_next s).

Definition perform (o : op) (s : shared) : shared :=
  {| sh_history := sh_history s ++ [(sh_stmt s, o)]; sh_stmts := sh_stmts s;
     sh_next := S (sh_next s) |}.

#[export] Instance shared_Store : Store shared := {
  st_RegisterServer i s :=
    ((RegisterServer (sh_stmt s) i (d_registry (sh_db s))).1, perform (OpRegisterServer i) s);
  st_ListVisibleTools cs s := (Ok (ListVisibleTools cs (d_registry (sh_db s))), s);
  st_ResolveTool n tn s := (ResolveTool n tn (d_registry (sh_db s)), s);
  st_CreateApproval sid tool args s :=
    ((CreateApproval (session_ids (sh_db s)) (sh_stmt s) sid tool args (d_gov (sh_db s))).1,
     perform (OpCreateApproval sid tool args) s);
  st_ListApprovalsBySession sid s := (ListApprovalsBySession sid (d_gov (sh_db s)), s);
  st_WriteAudit i s := ((WriteAudit (sh_stmt s) i (d_gov (sh_db s))).1, perform (OpWriteAudit i) s);
}.

(** The registry as a history leaves it, and the three reads of the lookup. *)
Definition registry_at (h : list (Stmt * op)) : registry := d_registry (run h db_empty).

#[export] Program Instance shared_Lookups : Lookups shared := {
  lu_server n s := (select_server n (registry_at (sh_history s)), s);
  lu_tools id s := (Ok (listTools id (registry_at (sh_history s))), s);
  lu_committees id s := (Ok (listServerCommittees id (registry_at (sh_history s))), s);
}.
Next Obligation.
  intros n tn s. cbn. unfold ResolveTool, GetServerByName, sh_db, registry_at.
  by destruct (select_server _ _).
Qed.

(** An operation is a statement of the repository and takes its effect. *)
Definition as_repo (s : shared) : repo :=
  {| r_db := sh_db s; r_stmts := sh_stmts s; r_next := sh_next s |}.

Lemma sh_db_perform o s : sh_db (perform o s) = exec (sh_stmt s) o (sh_db s).
Proof. unfold sh_db, perform, run. cbn [sh_history]. by rewrite foldl_app. Qed.

Lemma as_repo_perform o s :
  as_repo (perform o s) =
  {| r_db := exec (sh_stmt s) o (sh_db s); r_stmts := sh_stmts s; r_next := S (sh_next s) |}.
Proof. unfold as_repo. by rewrite sh_db_perform. Qed.

(** An operation of [shared_Store] does on the tables what it does there. *)
Definition agrees {A} (f : shared → A * shared) (g : repo → A * repo) : Prop :=
  ∀ s, (f s).1 = (g (as_repo s)).1 ∧ as_repo (f s).2 = (g (as_repo s)).2.

Lemma shared_agrees i cs n tn sid tool args a :
  agrees (st_RegisterServer i) (st_RegisterServer i) ∧
  agrees (st_ListVisibleTools cs) (st_ListVisibleTools cs) ∧
  agrees (st_ResolveTool n tn) (st_ResolveTool n tn) ∧
  agrees (st_CreateApproval sid tool args) (st_CreateApproval sid tool args) ∧
  agrees (st_ListApprovalsBySession sid) (st_ListApprovalsBySession sid) ∧
  agrees (st_WriteAudit a) (st_WriteAudit a).
Proof.
  repeat split; cbn -[as_repo perform]; unfold repo_write; rewrite ?as_repo_perform;
    unfold as_repo, sh_stmt; cbn;
    first [ done | by destruct (RegisterServer _ _ _) | by destruct (WriteAudit _ _ _)
          | by destruct (CreateApproval _ _ _ _ _ _) ].
Qed.

(** ** The system *)

Record flight := Flight { f_ticks : Ticks; f_req : CallRequest; f_pc : pc }.

Context {D : Type} `{ToolCaller D}.

(** The gateway with its calls in flight, in the order in which they came. *)
Record gateway := Gateway { y_world : world shared D; y_flights : list flight }.
Implicit Types (y : gateway).

Inductive event : Type :=
  | Arrive (t : Ticks) (req : CallRequest)   (* a request *)
  | Move (i : nat)                           (* a step of a call in flight *)
  | Other (st : Stmt) (o : op).              (* a statement of another client *)

Definition other (st : Stmt) (o : op) (w : world shared D) : world shared D :=
  with_store {| sh_history := sh_history (w_store w) ++ [(st, o)];
                sh_stmts := sh_stmts (w_store w); sh_next := sh_next (w_store w) |} w.

Definition move (f : flight) (w : world shared D) : flight * world shared D :=
  let '(p, w) := thread_step (f_ticks f) (f_req f) (f_pc f) w in
  ({| f_ticks := f_ticks f; f_req := f_req f; f_pc := p |}, w).

Definition happen y (e : event) : gateway :=
  match e with
  | Arrive t req =>
      {| y_world := y_world y;
         y_flights := y_flights y ++ [{| f_ticks := t; f_req := req; f_pc := PcLimit |}] |}
  | Move i =>
      match y_flights y !! i with
      | None => y
      | Some f => let '(f, w) := move f (y_world y) in
                  {| y_world := w; y_flights := <[i := f]> (y_flights y) |}
      end
  | Other st o => {| y_world := other st o (y_world y); y_flights := y_flights y |}
  end.

Definition happens (es : list event) y : gateway := foldl happen y es.

(** A gateway that has just started over a database with some history. *)
Definition fresh y : Prop := y_flights y = [] ∧ w_calls (y_world y) = [].

Abbreviation history y := (sh_history (w_store (y_world y))).

(** ** What a step does *)

(** The server's row of the request, as the registry had it at some point of a
    history. *)
Definition row_read (h : list (Stmt * op)) (req : CallRequest) (r : server_row) : Prop :=
  ∃ h1, h1 `prefix_of` h ∧ find_server (req_ServerName req) (registry_at h1) = Some r.

(** The row, and then the tools of the server. *)
Definition tools_read (h : list (Stmt * op)) (req : CallRequest) (r : server_row) (ts : list Tool) :
    Prop :=
  ∃ h2, h2 `prefix_of` h ∧ row_read h2 req r ∧ ts = listTools (v_id r) (registry_at h2).

(** The row, then the tools, then the committees: the binding the lookup made of
    them, for a caller whom they authorize. *)
Definition resolved (h : list (Stmt * op)) (req : CallRequest) (b : ToolBinding) : Prop :=
  ∃ h3 r ts, h3 `prefix_of` h ∧ tools_read h3 req r ts ∧
    find_tool (req_ToolName req)
      (server_of r ts (listServerCommittees (v_id r) (registry_at h3))) = Ok b ∧
    authorized (tb_Server b) (req_Identity req) = true.

(** The table holds an approved approval of the session for the tool. *)
Definition approved (h : list (Stmt * op)) (req : CallRequest) : Prop :=
  ∃ r u, r ∈ approvals (d_gov (run h db_empty)) ∧
    uuid_in (req_SessionID req) = Some u ∧ a_session_id r = Some u ∧
    a_tool r = req_ToolName req ∧ a_status r = "approved"%string.

(** The lookup, and after it the approval of a high-impact tool. *)
Definition passed (h : list (Stmt * op)) (req : CallRequest) (b : ToolBinding) : Prop :=
  ∃ h4, h4 `prefix_of` h ∧ resolved h4 req b ∧
    (Tool_Impact (tb_Tool b) = "high"%string → approved h4 req).

Definition flight_ok (h : list (Stmt * op)) (f : flight) : Prop :=
  match f_pc f with
  | PcTools r => row_read h (f_req f) r
  | PcCommittees r ts => tools_read h (f_req f) r ts
  | PcGate b => resolved h (f_req f) b
  | PcProxy b => passed h (f_req f) b
  | _ => True
  end.

Lemma row_read_mono h h' req r : h `prefix_of` h' → row_read h req r → row_read h' req r.
Proof. intros Hp (h1 & ? & ?). exists h1. split; [by etransitivity|done]. Qed.

Lemma tools_read_mono h h' req r ts :
  h `prefix_of` h' → tools_read h req r ts → tools_read h' req r ts.
Proof. intros Hp (h2 & ? & ?). exists h2. split; [by etransitivity|done]. Qed.

Lemma resolved_mono h h' req b : h `prefix_of` h' → resolved h req b → resolved h' req b.
Proof. intros Hp (h3 & r & ts & ? & ?). exists h3, r, ts. split; [by etransitivity|done]. Qed.

Lemma passed_mono h h' req b : h `prefix_of` h' → passed h req b → passed h' req b.
Proof. intros Hp (h4 & ? & ?). exists h4. split; [by etransitivity|done]. Qed.

Lemma flight_ok_mono h h' f : h `prefix_of` h' → flight_ok h f → flight_ok h' f.
Proof.
  unfold flight_ok.
  destruct (f_pc f); eauto using row_read_mono, tools_read_mono, resolved_mono, passed_mono.
Qed.

Abbreviation history_of w := (sh_history (w_store w)).

(** A call writes approvals and audit rows and nothing else. *)
Definition own (so : Stmt * op) : bool :=
  match so.2 with OpCreateApproval _ _ _ | OpWriteAudit _ => true | _ => false end.

Lemma store_op_history {A} (f : shared → A * shared) (w : world shared D) :
  (∀ s, ∃ l, sh_history (f s).2 = sh_history s ++ l ∧ Forall (λ so, own so = true) l) →
  ∃ l, history_of (store_op f w).2 = history_of w ++ l ∧ Forall (λ so, own so = true) l.
Proof. intros Hf. rewrite store_op_run. apply Hf. Qed.

Lemma thread_step_history t req p (w : world shared D) :
  ∃ l, history_of (thread_step t req p w).2 = history_of w ++ l ∧ Forall (λ so, own so = true) l.
Proof.
  assert (∀ w' : world shared D, w_store w' = w_store w →
    ∃ l, history_of w' = history_of w ++ l ∧ Forall (λ so, own so = true) l) as Hsame.
  { intros w' ->. exists []. by rewrite app_nil_r. }
  assert (∀ s : shared, ∃ l, sh_history s = sh_history s ++ l ∧ Forall (λ so, own so = true) l)
    as Hread by (intros s; exists []; by rewrite app_nil_r).
  destruct p; cbn [thread_step]; unfold hasApproval, audit; repeat case_match; rewrite ?M_bind_run;
    cbn [mret M_ret snd]; try (by apply Hsame); try (apply store_op_history; intros s; cbn);
    try apply Hread; try (eexists [_]; split; [done|by repeat constructor]).
  - apply Hsame, on_limiter_store.
  - apply Hsame, on_limiter_store.
  - apply Hsame. unfold downstream. by destruct (tc_Call _ _ _ _).
Qed.

(** A thread's checks hold in the history that it has seen. *)
Lemma thread_step_ok t req p (w : world shared D) :
  flight_ok (history_of w) (Flight t req p) →
  flight_ok (history_of w) (Flight t req (thread_step t req p w).1).
Proof.
  unfold flight_ok. cbn [f_pc f_req].
  destruct p as [| | |r|r ts|b| |b|res k|r]; cbn [thread_step];
    rewrite ?M_bind_run; cbn [mret M_ret fst]; try done.
  - by destruct (on_limiter _ w) as [[] ?].
  - by destruct (on_limiter _ w) as [[] ?].
  - intros _. rewrite store_op_run. cbn [fst lu_server shared_Lookups].
    destruct (select_server _ _) as [r|e] eqn:Hr; cbn [after_server]; [|cbn; by destruct (errors_Is e ErrNotFound)].
    apply select_server_Ok in Hr. by exists (history_of w).
  - intros Hr. rewrite store_op_run. by exists (history_of w).
  - intros Hts. rewrite store_op_run. unfold after_grants. cbn [fst lu_committees shared_Lookups mbind res_bind].
    destruct (find_tool _ _) as [b|e] eqn:Hb; cbn [after_resolve]; [|by destruct (errors_Is e ErrNotFound)].
    destruct (authorized _ _) eqn:Ha; [|done]. cbn [negb].
    assert (resolved (history_of w) req b) as Hres by by exists (history_of w), r, ts.
    destruct (String.eqb_spec (Tool_Impact (tb_Tool b)) "high"); [done|]. by exists (history_of w).
  - intros Hr. destruct (hasApproval _ _ w) as [[[]|e] w1] eqn:Hw; [|done..].
    exists (history_of w). do 2 (split; [done|]). intros _.
    destruct (hasApproval_true (req_SessionID req) (req_ToolName req) w) as
      (_ & l & s & a & Hl & Ha & Ht & Hst); [by rewrite Hw|].
    injection Hl as Hl _.
    destruct (listed_approved _ _ _ _ _ Hl Ha Ht Hst) as (r & u & ?). by exists r, u.
  - by destruct (store_op _ w) as [[] ?].
Qed.

(** ** The system's invariant *)

Definition waits (f : flight) : bool := unsent (f_pc f).

Definition arrives (e : event) : bool := match e with Arrive _ _ => true | _ => false end.

Definition arrivals (es : list event) : nat := length (filter (λ e, arrives e = true) es).

(** Every call that left was sent by a request that had passed the checks, and a
    request that has been sent waits no more. *)
Record sound (es : list event) y : Prop := {
  so_arrived : length (y_flights y) = arrivals es;
  so_flights : ∀ f, f ∈ y_flights y →
    Arrive (f_ticks f) (f_req f) ∈ es ∧ flight_ok (history y) f;
  so_calls : ∀ c, c ∈ w_calls (y_world y) →
    ∃ t req b, Arrive t req ∈ es ∧ c = (tb_Server b, tb_Tool b, req_Args req) ∧
      passed (history y) req b;
  so_once : (length (w_calls (y_world y)) + length (filter (λ f, waits f = true) (y_flights y)) ≤
    length (y_flights y))%nat;
}.

Lemma filter_insert_length {A} (p : A → bool) (l : list A) i a b :
  l !! i = Some a →
  (length (filter (λ x, p x = true) (<[i := b]> l)) + (if p a then 1 else 0) =
   length (filter (λ x, p x = true) l) + (if p b then 1 else 0))%nat.
Proof.
  intros Hi. rewrite <-(take_drop_middle l i a Hi) at 2. rewrite insert_take_drop
    by by eapply lookup_lt_Some.
  rewrite !filter_app, !filter_cons, !length_app.
  destruct (p a), (p b); repeat case_decide; simpl; try done; lia.
Qed.

(** The invariant once more has happened elsewhere. *)
Lemma sound_event es e y : arrives e = false → sound es y → sound (es ++ [e]) y.
Proof.
  intros He [Ha Hf Hc Ho]. split; [| | |done].
  - unfold arrivals. rewrite filter_app, filter_cons, He, app_nil_r. done.
  - intros f (? & ?)%Hf. set_solver.
  - intros c (t & req & b & ? & ?)%Hc. exists t, req, b. set_solver.
Qed.

Lemma sound_arrive es y t req : sound es y → sound (es ++ [Arrive t req]) (happen y (Arrive t req)).
Proof.
  intros [Ha Hf Hc Ho]. split; cbn [happen y_flights y_world].
  - unfold arrivals. rewrite filter_app, !length_app, Ha. done.
  - intros f [Hin| ->%list_elem_of_singleton]%elem_of_app; [|set_solver].
    destruct (Hf f Hin). split; [set_solver|done].
  - intros c (t' & req' & b & ? & ?)%Hc. exists t', req', b. split; [set_solver|done].
  - rewrite filter_app, !length_app. simpl. lia.
Qed.

Lemma sound_other es y st o : sound es y → sound es (happen y (Other st o)).
Proof.
  intros [Ha Hf Hc Ho].
  assert (history y `prefix_of` history (happen y (Other st o))) as Hp by by apply prefix_app_r.
  split; [done| | |done].
  - intros f (? & ?)%Hf. split; [done|by eapply flight_ok_mono].
  - intros c (t & req & b & ? & ? & ?)%Hc. exists t, req, b. do 2 (split; [done|]).
    by eapply passed_mono.
Qed.

Lemma sound_move es y i : sound es y → sound es (happen y (Move i)).
Proof.
  intros HS. pose proof HS as [Ha Hf Hc Ho]. cbn [happen].
  destruct (y_flights y !! i) as [[t req p]|] eqn:Hi; [|done].
  destruct (Hf _ (list_elem_of_lookup_2 _ _ _ Hi)) as [Hin Hok]. unfold move.
  assert (history y `prefix_of` history_of (thread_step t req p (y_world y)).2) as Hp.
  { destruct (thread_step_history t req p (y_world y)) as (l & -> & _). by apply prefix_app_r. }
  pose proof (thread_step_ok t req p (y_world y) Hok) as Hok'.
  pose proof (thread_step_calls t req p (y_world y)) as Hcalls.
  pose proof (thread_step_unsent t req p (y_world y)) as Hw.
  cbn [f_ticks f_req f_pc] in *. destruct (thread_step t req p (y_world y)) as [p' w'].
  cbn [fst snd] in *. split; cbn [y_flights y_world].
  - by rewrite length_insert.
  - intros f [j Hj]%list_elem_of_lookup. destruct (decide (i = j)) as [<-|Hne].
    + rewrite list_lookup_insert_eq in Hj by by eapply lookup_lt_Some.
      injection Hj as <-. split; [done|by eapply flight_ok_mono].
    + rewrite list_lookup_insert_ne in Hj by done.
      destruct (Hf f) as [? ?]; [by eapply list_elem_of_lookup_2|].
      split; [done|by eapply flight_ok_mono].
  - intros c. rewrite Hcalls, elem_of_app. intros [(t' & req' & b & ? & ? & ?)%Hc|Hnew].
    + exists t', req', b. do 2 (split; [done|]). by eapply passed_mono.
    + destruct p; try by apply elem_of_nil in Hnew. apply list_elem_of_singleton in Hnew as ->.
      exists t, req, b. do 2 (split; [done|]). by eapply passed_mono.
  - rewrite Hcalls, length_app, length_insert.
    pose proof (filter_insert_length waits _ i _ (Flight t req p') Hi) as Hlen.
    change (waits (Flight t req p)) with (unsent p) in Hlen.
    change (waits (Flight t req p')) with (unsent p') in Hlen.
    destruct p; cbn [length] in *; lia.
Qed.

Lemma sound_happens es y : fresh y → sound es (happens es y).
Proof.
  intros [Hf Hc]. induction es as [|e es IH] using rev_ind.
  - split; cbn; rewrite ?Hf, ?Hc; try done; by intros ? ?%elem_of_nil.
  - unfold happens. rewrite foldl_app. cbn [foldl]. fold (happens es y).
    destruct e as [t req|i|st o]; [by apply sound_arrive|apply sound_event; [done|]..].
    + by apply sound_move.
    + by apply sound_other.
Qed.

(** What [passed] says of the tables, reading by reading. *)
Lemma passed_readings h req b :
  passed h req b →
  ∃ r h1 h2 h3 h4, h1 `prefix_of` h2 ∧ h2 `prefix_of` h3 ∧ h3 `prefix_of` h4 ∧ h4 `prefix_of` h ∧
    find_server (req_ServerName req) (registry_at h1) = Some r ∧
    v_lifecycle r = LifecycleApproved ∧ v_enabled r = true ∧
    tb_Server b = server_of r (listTools (v_id r) (registry_at h2))
                    (listServerCommittees (v_id r) (registry_at h3)) ∧
    (∃ o, o ∈ mcp_tools (registry_at h2) ∧ o_server_id o = v_id r ∧ o_name o = req_ToolName req ∧
       tb_Tool b = scanTool o) ∧
    (∃ g, g ∈ Committees (req_Identity req) ∧ (v_id r, g) ∈ server_committees (registry_at h3)) ∧
    (Tool_Impact (tb_Tool b) = "high"%string → approved h4 req).
Proof.
  intros (h4 & Hp4 & (h3 & r & ts & Hp3 & (h2 & Hp2 & (h1 & Hp1 & Hr) & ->) & Hb & Ha) & Hh).
  exists r, h1, h2, h3, h4. do 4 (split; [done|]). split; [done|].
  apply find_tool_Ok in Hb as (Hs & Ht & Hn). rewrite Hs in Ha.
  apply authorized_true in Ha as (Hl & He & g & Hg & Hgs).
  do 2 (split; [done|]). split; [done|].
  apply elem_of_listTools in Ht as (o & Ho & Hsid & Heq). apply elem_of_listServerCommittees in Hgs.
  split; [|split; [by exists g|done]]. exists o. rewrite Heq in Hn. done.
Qed.

(** C2: However the steps of the gateway's calls in flight (a bucket of the limiter, a
    statement of the store, the downstream call) and the statements of other clients of
    its database interleave, it sends at most one call downstream per request that
    arrived, and every call it sends belongs to such a request: the row of the named
    server, as read at some point of the history, was enabled and had been approved by a
    SetServerLifecycle; the tool is one that this server had when its tools were read,
    then or later; a committee of the caller had the server when the grants were read,
    then or later still; and if the impact that was read is high, an approval of the
    session for that tool that a DecideApproval had approved was in the table at a later
    point again. These readings need not agree with any one moment. *)
Theorem concurrent_provenance es y :
  fresh y →
  let y' := happens es y in
  (length (w_calls (y_world y')) ≤ arrivals es)%nat ∧
  ∀ c, c ∈ w_calls (y_world y') →
    ∃ t req b r h1 h2 h3 h4, Arrive t req ∈ es ∧ c = (tb_Server b, tb_Tool b, req_Args req) ∧
      h1 `prefix_of` h2 ∧ h2 `prefix_of` h3 ∧ h3 `prefix_of` h4 ∧ h4 `prefix_of` history y' ∧
      find_server (req_ServerName req) (registry_at h1) = Some r ∧
      v_lifecycle r = LifecycleApproved ∧ v_enabled r = true ∧
      (∃ st, (st, OpSetServerLifecycle (req_ServerName req) LifecycleApproved) ∈ h1) ∧
      tb_Server b = server_of r (listTools (v_id r) (registry_at h2))
                      (listServerCommittees (v_id r) (registry_at h3)) ∧
      (∃ o, o ∈ mcp_tools (registry_at h2) ∧ o_server_id o = v_id r ∧ o_name o = req_ToolName req ∧
         tb_Tool b = scanTool o) ∧
      (∃ g, g ∈ Committees (req_Identity req) ∧ (v_id r, g) ∈ server_committees (registry_at h3)) ∧
      (Tool_Impact (tb_Tool b) = "high"%string →
       ∃ a st id, a ∈ approvals (d_gov (run h4 db_empty)) ∧
         a_tool a = req_ToolName req ∧ a_session_id a = uuid_in (req_SessionID req) ∧
         is_Some (a_session_id a) ∧ a_status a = "approved"%string ∧
         uuid_in id = Some (a_id a) ∧
         (st, OpDecideApproval id "approved" (a_decided_by a)) ∈ h4).
Proof.
  intros Hy y'. destruct (sound_happens es y Hy) as [Ha Hf Hc Ho]. fold y' in Ha, Hf, Hc, Ho.
  split; [lia|]. intros c (t & req & b & Hin & -> & Hp)%Hc.
  destruct (passed_readings _ _ _ Hp) as
    (r & h1 & h2 & h3 & h4 & H1 & H2 & H3 & H4 & Hr & Hl & He & Hs & Ht & Hg & Hh).
  exists t, req, b, r, h1, h2, h3, h4. do 9 (split; [done|]).
  split; [by eapply run_approved_server|]. do 3 (split; [done|]).
  intros (a & u & Hin2 & Hu & Hsid & Htool & Hst)%Hh.
  destruct (approved_decision h4 a Hin2 Hst) as (st & id & ? & ?).
  exists a, st, id. rewrite Hu. by repeat split.
Qed.

(** ** Every call ends

    Nothing blocks a call: each of its own steps brings it closer to its end,
    whatever happens in between. *)

Definition steps_left (p : pc) : nat :=
  match p with
  | PcLimit => 8 | PcGlobal => 7 | PcResolve => 6 | PcTools _ => 5 | PcCommittees _ _ => 4
  | PcGate _ => 3 | PcCreate | PcProxy _ => 2 | PcAudit _ _ => 1
  | PcReturn _ => 0
  end.

Lemma after_resolve_left req r : (steps_left (after_resolve req r) ≤ 3)%nat.
Proof. destruct r as [b|e]; cbn [after_resolve]; repeat case_match; simpl; lia. Qed.

Lemma thread_step_left t req p (w : world shared D) :
  (steps_left (thread_step t req p w).1 ≤ pred (steps_left p))%nat.
Proof.
  destruct p; cbn [thread_step]; rewrite ?M_bind_run; cbn [mret M_ret fst]; try done.
  - destruct (on_limiter _ w).1; simpl; lia.
  - destruct (on_limiter _ w).1; simpl; lia.
  - destruct (store_op _ w).1 as [r|e]; cbn [after_server]; [simpl; lia|].
    pose proof (after_resolve_left req (Err e)). simpl in *. lia.
  - apply after_resolve_left.
  - destruct (hasApproval _ _ w).1 as [[]|]; simpl; lia.
  - destruct (store_op _ w).1; simpl; lia.
Qed.

(** The steps of the [i]-th call among the events. *)
Definition own_moves (i : nat) (es : list event) : nat :=
  length (filter (λ e, match e with Move j => i =? j | _ => false end%nat = true) es).

Lemma happen_left i y e f :
  y_flights y !! i = Some f →
  ∃ f', y_flights (happen y e) !! i = Some f' ∧
    (steps_left (f_pc f') ≤ steps_left (f_pc f) - own_moves i [e])%nat.
Proof.
  intros Hi. destruct e as [t req|j|st o]; cbn [happen own_moves].
  - exists f. cbn [y_flights]. rewrite lookup_app_l by by eapply lookup_lt_Some. split; [done|].
    unfold own_moves. simpl. lia.
  - destruct (Nat.eq_dec i j) as [<-|Hne].
    + rewrite Hi. destruct f as [t req p]. unfold move. cbn [f_ticks f_req f_pc].
      pose proof (thread_step_left t req p (y_world y)) as Hl.
      destruct (thread_step t req p (y_world y)) as [p' w']. cbn [fst y_flights] in *.
      exists (Flight t req p'). rewrite list_lookup_insert_eq by by eapply lookup_lt_Some.
      split; [done|]. unfold own_moves. rewrite filter_cons, Nat.eqb_refl. simpl. lia.
    + exists f. unfold own_moves. rewrite filter_cons. apply Nat.eqb_neq in Hne as Hb. rewrite Hb.
      split; [|simpl; lia]. destruct (y_flights y !! j) as [g|]; [|done].
      destruct (move g (y_world y)) as [g' w']. cbn [y_flights]. by rewrite list_lookup_insert_ne.
  - exists f. split; [done|]. unfold own_moves. simpl. lia.
Qed.

(** After eight steps of its own a call has returned. *)
Theorem call_terminates i es y f :
  y_flights y !! i = Some f → (8 ≤ own_moves i es)%nat →
  ∃ f' r, y_flights (happens es y) !! i = Some f' ∧ f_pc f' = PcReturn r.
Proof.
  intros Hi Hes.
  assert (∃ f', y_flights (happens es y) !! i = Some f' ∧
    (steps_left (f_pc f') ≤ steps_left (f_pc f) - own_moves i es)%nat) as (f' & Hf' & Hl).
  { clear Hes. revert y f Hi. induction es as [|e es IH]; intros y f Hi.
    - exists f. split; [done|]. unfold own_moves. simpl. lia.
    - destruct (happen_left i y e f Hi) as (f1 & Hf1 & Hl1).
      destruct (IH _ _ Hf1) as (f' & Hf' & Hl). exists f'. split; [done|].
      unfold own_moves in *. rewrite filter_cons in *. repeat case_decide; simpl in *; lia. }
  assert (steps_left (f_pc f) ≤ 8)%nat by (destruct (f_pc f); simpl; lia).
  exists f'. destruct (f_pc f'); simpl in Hl; try lia. by eexists.
Qed.

(** ** The kill switch under load *)

(** The tool belongs to the server of that name. *)
Definition of_server (name : string) (b : ToolBinding) : bool :=
  String.eqb (Server_Name (tb_Server b)) name.

(** A call that has read the server's row while the server was enabled, and has
    not been refused since. *)
Definition committed (name : string) (f : flight) : bool :=
  match f_pc f with
  | PcTools r | PcCommittees r _ => String.eqb (v_name r) name && v_enabled r
  | PcGate b | PcProxy b => of_server name b
  | _ => false
  end.

Definition sent_to (name : string) (c : Server * Tool * RawMessage) : bool :=
  String.eqb (Server_Name c.1.1) name.

(** The calls to the server that have left or may still leave. *)
Definition exposure (name : string) y : nat :=
  length (filter (λ c, sent_to name c = true) (w_calls (y_world y))) +
  length (filter (λ f, committed name f = true) (y_flights y)).

Definition off (name : string) (h : list (Stmt * op)) : Prop :=
  ∃ r, find_server name (d_registry (run h db_empty)) = Some r ∧ v_enabled r = false.

Definition enables (name : string) (so : Stmt * op) : Prop := so.2 = OpSetServerEnabled name true.

Lemma off_app name h l : off name h → Forall (λ so, ¬ enables name so) l → off name (h ++ l).
Proof.
  intros (r & Hr & He) Hl. unfold off, run. rewrite foldl_app.
  by apply (run_disabled_server l (run h db_empty) name r).
Qed.

Lemma own_not_enables name so : own so = true → ¬ enables name so.
Proof. unfold own, enables. intros Ho He. by rewrite He in Ho. Qed.

(** With the switch off the row that is read is disabled. *)
Lemma off_row name h sn r :
  off name h → find_server sn (registry_at h) = Some r →
  String.eqb (v_name r) name && v_enabled r = false.
Proof.
  intros (r' & Hr' & He) Hr. destruct (String.eqb_spec (v_name r) name) as [Hn|]; [|done].
  apply find_server_Some in Hr as Hv. destruct Hv as [_ Hv]. unfold registry_at in Hr.
  assert (r = r') as -> by congruence. exact He.
Qed.

(** A row that is disabled, or of another server, lets no call for the server
    past the authorization. *)
Lemma after_grants_committed name t req r ts cs :
  committed name (Flight t req (after_grants req r ts cs)) = true →
  String.eqb (v_name r) name && v_enabled r = true.
Proof.
  unfold after_grants, committed. cbn [f_pc].
  destruct (x ← cs; find_tool _ (server_of r ts x)) as [b|e] eqn:Hb; cbn [after_resolve];
    [|by destruct (errors_Is e ErrNotFound)].
  apply res_bind_Ok in Hb as (l & _ & (Hs & _)%find_tool_Ok).
  destruct (authorized _ _) eqn:Ha; [|done]. rewrite Hs in Ha.
  apply authorized_true in Ha as (_ & He & _). cbn in He. rewrite He, andb_true_r.
  destruct (String.eqb (Tool_Impact _) _); cbn [negb]; unfold of_server; by rewrite Hs.
Qed.

Lemma thread_step_committed name t req p (w : world shared D) :
  off name (history_of w) →
  (length (filter (λ c, sent_to name c = true)
     (match p with PcProxy b => [(tb_Server b, tb_Tool b, req_Args req)] | _ => [] end)) +
   (if committed name (Flight t req (thread_step t req p w).1) then 1 else 0) ≤
   if committed name (Flight t req p) then 1 else 0)%nat.
Proof.
  intros Ho.
  destruct p as [| | |r|r ts|b| |b|res k|r]; cbn [thread_step]; rewrite ?M_bind_run;
    cbn [mret M_ret fst after_proxy]; rewrite ?filter_nil; try (simpl; lia).
  - by destruct (on_limiter _ w) as [[] ?].
  - by destruct (on_limiter _ w) as [[] ?].
  - rewrite store_op_run. cbn [fst lu_server shared_Lookups].
    destruct (select_server _ _) as [r|e] eqn:Hr; cbn [after_server after_resolve].
    + apply select_server_Ok in Hr. unfold committed. cbn [f_pc].
      by rewrite (off_row _ _ _ _ Ho Hr).
    + by destruct (errors_Is e ErrNotFound).
  - by rewrite store_op_run.
  - pose proof (after_grants_committed name t req r ts (store_op (lu_committees (v_id r)) w).1) as Hc.
    destruct (committed name (Flight t req (after_grants _ _ _ _))); [|simpl; lia].
    unfold committed. cbn [f_pc]. by rewrite Hc.
  - unfold committed. cbn [f_pc]. destruct (hasApproval _ _ w) as [[[]|e] w1]; simpl; lia.
  - by destruct (store_op _ w) as [[] ?].
  - unfold committed. cbn [f_pc]. rewrite filter_cons.
    change (sent_to name (tb_Server b, _, _)) with (of_server name b).
    destruct (of_server name b); simpl; lia.
Qed.

Lemma exposure_happen name y e :
  off name (history y) →
  (∀ st o, e = Other st o → ¬ enables name (st, o)) →
  off name (history (happen y e)) ∧ (exposure name (happen y e) ≤ exposure name y)%nat.
Proof.
  intros Ho He. unfold exposure. destruct e as [t req|i|st o]; cbn [happen].
  - split; [done|]. cbn [y_world y_flights]. rewrite filter_app, length_app. simpl. lia.
  - destruct (y_flights y !! i) as [[t req p]|] eqn:Hi; [|done]. unfold move. cbn [f_ticks f_req f_pc].
    destruct (thread_step_history t req p (y_world y)) as (l & Hl & Hown).
    pose proof (thread_step_calls t req p (y_world y)) as Hcalls.
    pose proof (thread_step_committed name t req p (y_world y) Ho) as Hc.
    destruct (thread_step t req p (y_world y)) as [p' w']. cbn [fst snd y_world y_flights] in *.
    split.
    + rewrite Hl. apply off_app; [done|]. eapply Forall_impl; [done|]. intros so. apply own_not_enables.
    + rewrite Hcalls, filter_app, length_app.
      pose proof (filter_insert_length (committed name) _ i _ (Flight t req p') Hi). lia.
  - cbn [y_world y_flights other with_store w_calls]. split; [|done]. apply off_app; [done|].
    constructor; [|done]. by apply He.
Qed.

(** C3: After SetServerEnabled name false on a registered server, and as long as no other
    client enables it again, whatever else happens, the calls sent to the server and the
    calls in flight that have read its row while it was enabled and have not been refused
    since are together never more than they were when the switch was thrown: a call that
    reads the row afterwards is never sent, re-registering the server does not help, and
    only calls that had read the row before may still leave. *)
Theorem concurrent_kill_switch name y st r es :
  find_server name (d_registry (sh_db (w_store (y_world y)))) = Some r →
  (∀ st' o, Other st' o ∈ es → o ≠ OpSetServerEnabled name true) →
  (exposure name (happens (Other st (OpSetServerEnabled name false) :: es) y) ≤ exposure name y)%nat.
Proof.
  intros Hr He. unfold happens. cbn [foldl].
  set (y1 := happen y (Other st (OpSetServerEnabled name false))).
  assert (off name (history y1)) as Ho.
  { exists (with_enabled false (now st) r). split; [|done]. unfold y1, run. cbn.
    rewrite foldl_app. cbn [foldl exec fst snd]. unfold SetServerEnabled.
    change (foldl _ db_empty _) with (sh_db (w_store (y_world y))). rewrite Hr. cbn.
    by apply (find_server_update name _ _ r). }
  change (exposure name y) with (exposure name y1). clearbody y1. clear Hr.
  revert y1 Ho. induction es as [|e es IH]; intros y1 Ho; [done|]. cbn [foldl].
  destruct (exposure_happen name y1 e Ho) as [Ho' Hle].
  { intros st' o -> Hen. apply (He st' o); [by left|done]. }
  etransitivity; [apply IH; [|done]|done]. intros st' o ?. apply (He st' o). by right.
Qed.
End shared.

(** ** Two calls and a switch *)

#[local] Existing Instance unary_text.
#[local] Existing Instance null_caller.

Definition sample_gateway : gateway :=
  {| y_world := {| w_store := {| sh_history := sample_history ++ sample_decision;
                                 sh_stmts := λ n, sample_stmt (100 + Z.of_nat n) (100 + 10 * N.of_nat n);
                                 sh_next := 0 |};
                   w_down := tt; w_limiter := None; w_calls := [] |};
     y_flights := [] |}.

Definition sample_send : CallRequest := sample_request "google" (RawJSON (JObj [])).

(** Three requests arrive; the first gets as far as the downstream call, and the
    third has read the row of the server. *)
Definition sample_arrivals : list event :=
  replicate 3 (Arrive sample_ticks sample_send) ++ replicate 6 (Move 0) ++ replicate 3 (Move 2).

(** The switch is thrown, and all three go on to their ends. *)
Definition sample_switch : list event :=
  Other (sample_stmt 50 50) (OpSetServerEnabled "google" false) ::
  [Move 0] ++ replicate 8 (Move 1) ++ replicate 5 (Move 2) ++ [Move 0].

Definition sample_after : gateway := happens (sample_arrivals ++ sample_switch) sample_gateway.

(** The first was past the checks, and the third past its reading of the row:
    both run although the server is off; the second is refused. *)
Lemma switch_race :
  length (w_calls (y_world sample_after)) = 2%nat ∧
  (f_pc <$> y_flights sample_after) !! 1%nat = Some (PcReturn (Err ErrUnauthorized)).
Proof. vm_compute. done. Qed.

Lemma concurrent_provenance_witness :
  ∃ h4 a st id, h4 `prefix_of` sh_history (w_store (y_world sample_after)) ∧
    a_status a = "approved"%string ∧ uuid_in id = Some (a_id a) ∧
    (st, OpDecideApproval id "approved" (a_decided_by a)) ∈ h4.
Proof.
  destruct (concurrent_provenance (sample_arrivals ++ sample_switch) sample_gateway) as [_ Hc];
    [by split|].
  destruct (w_calls (y_world (happens (sample_arrivals ++ sample_switch) sample_gateway)))
    as [|c l] eqn:Hl; [vm_compute in Hl; discriminate|].
  destruct (Hc c) as (t & req & b & r & h1 & h2 & h3 & h4 & _ & Hcb & _ & _ & _ & Hp & _ & _ & _ & _ & _ & _ & _ & Hh);
    [left|].
  vm_compute in Hl. injection Hl as <- _. injection Hcb as _ Htool _.
  destruct Hh as (a & st & id & _ & _ & _ & _ & Hst & Hid & Hop); [by rewrite <-Htool|].
  by exists h4, a, st, id.
Defined.

Lemma concurrent_kill_switch_witness :
  exposure "google" (happens sample_switch (happens sample_arrivals sample_gateway)) = 2%nat ∧
  (exposure "google" (happens sample_switch (happens sample_arrivals sample_gateway)) ≤
   exposure "google" (happens sample_arrivals sample_gateway))%nat.
Proof.
  split; [vm_compute; reflexivity|].
  eapply (concurrent_kill_switch "google" (happens sample_arrivals sample_gateway)).
  - vm_compute. reflexivity.
  - intros st' o Hin. repeat (apply elem_of_cons in Hin as [Hin|Hin]; [discriminate|]).
    by apply elem_of_nil in Hin.
Defined.

(** ** A torn lookup

    The three statements of GetServerByName are no transaction. A call that has
    read the tools of a server sees the old impact; a registration that makes the
    tool high-impact and grants the server to the caller's committee in one
    transaction then commits, and the call reads the new grants. *)

Definition torn_server (impact committee : string) : ServerInput :=
  {| si_Name := "files"; si_Owner := "o"; si_Description := "d"; si_Endpoint := "http://f";
     si_Transport := EmptyString; si_Auth := EmptyString;
     si_Tools := [{| ti_Name := "send"; ti_Scope := "s"; ti_Impact := impact |}];
     si_Committees := [committee] |}.

Definition torn_history : list (Stmt * op) :=
  [(sample_stmt 1 1, OpRegisterServer (torn_server "read" "ops"));
   (sample_stmt 2 10, OpSetServerLifecycle "files" LifecycleApproved)].

Definition torn_gateway : gateway :=
  {| y_world := {| w_store := {| sh_history := torn_history;
                                 sh_stmts := λ n, sample_stmt (100 + Z.of_nat n) (100 + 10 * N.of_nat n);
                                 sh_next := 0 |};
                   w_down := tt; w_limiter := None; w_calls := [] |};
     y_flights := [] |}.

Definition torn_events : list event :=
  Arrive sample_ticks (sample_request "files" (RawJSON (JObj []))) :: replicate 4 (Move 0) ++
  [Other (sample_stmt 3 20) (OpRegisterServer (torn_server "high" "finance"))] ++
  replicate 3 (Move 0).

(** The tool runs without an approval, although at no point of the history was the
    caller authorized for a tool of a lower impact. *)
Lemma torn_lookup :
  let y := happens torn_events torn_gateway in
  let h := sh_history (w_store (y_world y)) in
  let req := sample_request "files" (RawJSON (JObj [])) in
  length (w_calls (y_world y)) = 1%nat ∧
  approvals (d_gov (run h db_empty)) = [] ∧
  forallb (λ n,
    match ResolveTool (req_ServerName req) (req_ToolName req) (registry_at (take n h)) with
    | Ok b => negb (authorized (tb_Server b) (req_Identity req)) ||
              String.eqb (Tool_Impact (tb_Tool b)) "high"
    | Err _ => true
    end) (seq 0 (S (length h))) = true.
Proof. vm_compute. done. Qed.
