(* ===== verification/GatewayAudit.v ===== *)
(** * The audit log of calls in flight (gateway/internal/policy/gateway.go)

    GatewayStore.v says what one [Call] adds to the audit log. Here the calls
    interleave as in GatewayConcurrent.v: whatever the order of their steps, of
    the requests and of the statements of other clients, every audit statement
    of the history belongs to one call that has returned or to another client,
    and every decided call and every call sent downstream has its own. *)

From S2P Require Import Prelude GoText Json Limits Pg Memory.
From S2P Require Import Sessions Identity Governance Registry Repository Gateway GatewayStore.
From S2P Require Import GatewayConcurrent.
From Stdlib Require Import ZArith Lia Ascii.
From stdpp Require Import options.

Open Scope Z_scope.
Open Scope list_scope.

(** ** Outcomes *)

(** The errors of the store that end a call before its decision. *)
Definition store_failures : list string :=
  ["gateway: resolve tool: "; "gateway: list approvals: "; "gateway: create approval: "]%string.

Definition downstream_failure : string := "gateway: downstream call: ".

(** The call came to a decision: it ran, or it was refused. *)
Definition decided (r : result CallResult) : bool :=
  match r with Err (ErrWrap p _) => String.eqb p downstream_failure | _ => true end.

(** The call ran downstream. *)
Definition ran (r : result CallResult) : bool :=
  match r with Ok _ => true | Err (ErrWrap p _) => String.eqb p downstream_failure | _ => false end.

Definition undecided (r : result CallResult) : Prop :=
  ∃ p e, r = Err (ErrWrap p e) ∧ p ∈ store_failures.

(** The audit statements of a history. *)
Definition audit_ops (h : list (Stmt * op)) : list AuditInput :=
  omap (λ so, match so.2 with OpWriteAudit i => Some i | _ => None end) h.

Definition others_audits (es : list event) : list AuditInput :=
  omap (λ e, match e with Other _ (OpWriteAudit i) => Some i | _ => None end) es.

(** The audit statement of a call that has returned. *)
Definition entry (f : flight) : option AuditInput :=
  match f_pc f with
  | PcReturn r =>
      if decided r then Some (audit_input (f_req f) (outcome_text r) (f_ticks f)) else None
  | _ => None
  end.

(** The call has left for its server. *)
Definition gone (f : flight) : bool :=
  match f_pc f with PcAudit _ k => ran (k 0) | PcReturn r => ran r | _ => false end.

Definition gone_args (f : flight) : option RawMessage :=
  if gone f then Some (req_Args (f_req f)) else None.

(** What a call carries to its end: before its audit row the text of its
    outcome, at its end an outcome of one of the kinds. *)
Definition honest (f : flight) : Prop :=
  match f_pc f with
  | PcAudit res k =>
      ∀ id, decided (k id) = true ∧ outcome_text (k id) = res ∧ ran (k id) = ran (k 0)
  | PcReturn r => decided r = true ∨ undecided r
  | _ => True
  end.

Lemma audit_ops_app h l : audit_ops (h ++ l) = audit_ops h ++ audit_ops l.
Proof. apply omap_app. Qed.

Lemma others_audits_app es l : others_audits (es ++ l) = others_audits es ++ others_audits l.
Proof. apply omap_app. Qed.

(** One element of a list changes from nothing to something. *)
Lemma omap_insert {A B} (f : A → option B) (l : list A) i a b :
  l !! i = Some a → f a = None →
  omap f (<[i := b]> l) ≡ₚ omap f l ++ match f b with Some x => [x] | None => [] end.
Proof.
  intros Hi Ha. rewrite <-(take_drop_middle l i a Hi) at 2.
  rewrite insert_take_drop by by eapply lookup_lt_Some.
  rewrite !omap_app. cbn [omap list_omap]. rewrite Ha. destruct (f b) as [x|].
  - rewrite <-(assoc_L (++)). apply Permutation_app_head.
    rewrite <-Permutation_cons_append. done.
  - by rewrite app_nil_r.
Qed.

Lemma omap_insert_same {A B} (f : A → option B) (l : list A) i a b :
  l !! i = Some a → f b = f a → omap f (<[i := b]> l) = omap f l.
Proof.
  intros Hi Ha. rewrite <-(take_drop_middle l i a Hi) at 2.
  rewrite insert_take_drop by by eapply lookup_lt_Some.
  rewrite !omap_app. cbn [omap list_omap]. by rewrite Ha.
Qed.

Section audit.
Context `{PgText} {D : Type} `{ToolCaller D}.
Implicit Types (w : world shared D) (y : gateway (D := D)).

Abbreviation history_of w := (sh_history (w_store w)).
Abbreviation history y := (history_of (y_world y)).

(** ** What a step does *)

(** The step that writes the row writes it, and no other does. *)
Lemma thread_step_audits t req p w :
  audit_ops (history_of (thread_step t req p w).2) =
  audit_ops (history_of w) ++
  match p with PcAudit res _ => [audit_input req res t] | _ => [] end.
Proof.
  destruct p; cbn [thread_step]; rewrite ?M_bind_run, ?app_nil_r; cbn [mret M_ret snd]; try done.
  - unfold on_limiter. destruct (w_limiter w); [|done]. by destruct (committee_Allow _ _ _).
  - unfold on_limiter. destruct (w_limiter w); [|done]. by destruct (global_Allow _ _).
  - unfold hasApproval. case_match; [done|]. by rewrite M_bind_run, store_op_run.
  - rewrite store_op_run. cbn -[audit_ops]. rewrite audit_ops_app. apply app_nil_r.
  - unfold downstream. by destruct (tc_Call _ _ _ _).
  - unfold audit. rewrite M_bind_run, store_op_run. cbn -[audit_ops audit_input].
    by rewrite audit_ops_app.
Qed.

(** Where a step leads: before the call is sent it goes on, is refused, or ends
    in a failure of the store; from there on it keeps its outcome. *)
Definition leads_to (p p' : pc) : Prop :=
  match p with
  | PcProxy _ => ∃ out, p' = after_proxy out
  | PcAudit _ k => ∃ id, p' = PcReturn (k id)
  | PcReturn _ => p' = p
  | _ =>
      match p' with
      | PcAudit res k => ∃ e, p' = refuse (outcome_text (Err e)) e ∧
          decided (Err e) = true ∧ ran (Err e) = false
      | PcReturn r => undecided r
      | _ => True
      end
  end.

Lemma refuse_leads e : decided (Err e) = true → ran (Err e) = false →
  ∃ e', refuse (outcome_text (Err e)) e = refuse (outcome_text (Err e')) e' ∧
    decided (Err e') = true ∧ ran (Err e') = false.
Proof. by exists e. Qed.

Lemma undecided_intro p e : p ∈ store_failures → undecided (Err (ErrWrap p e)).
Proof. by exists p, e. Qed.

(** The end of the lookup, whatever it answers. *)
Lemma after_resolve_leads req r : leads_to PcResolve (after_resolve req r).
Proof.
  cbn [leads_to]. destruct r as [b|e]; cbn [after_resolve].
  - destruct (authorized _ _); [by destruct (String.eqb _ _)|].
    by apply (refuse_leads ErrUnauthorized).
  - destruct (errors_Is e ErrNotFound); [by apply (refuse_leads ErrUnknownTool)|].
    apply undecided_intro. by left.
Qed.

Lemma thread_step_leads t req p w : leads_to p (thread_step t req p w).1.
Proof.
  destruct p as [| | |r|r ts|b| |b|res k|r]; cbn [thread_step]; rewrite ?M_bind_run;
    cbn [mret M_ret fst leads_to]; [..|by eexists|by eexists|done].
  - destruct (on_limiter _ w) as [[] ?]; [done|]. by apply (refuse_leads ErrRateLimited).
  - destruct (on_limiter _ w) as [[] ?]; [done|]. by apply (refuse_leads ErrRateLimited).
  - destruct (store_op _ w) as [[r|e] w1]; [done|]. apply (after_resolve_leads req (Err e)).
  - destruct (store_op _ w) as [[ts|e] w1]; [done|]. apply (after_resolve_leads req (Err e)).
  - apply after_resolve_leads.
  - unfold hasApproval. destruct (String.eqb _ _); [done|].
    rewrite M_bind_run. cbn [mret M_ret fst].
    destruct (store_op _ w) as [[l|e] w1]; cbn [fst after_gate]; [by destruct (existsb _ l)|].
    apply undecided_intro. by right; left.
  - destruct (store_op _ w) as [[ap|e] w1]; cbn [fst after_create].
    + by apply (refuse_leads (ErrApprovalRequired _ _)).
    + apply undecided_intro. by do 2 right; left.
Qed.

(** What a step keeps: honesty, the row its audit step owes, and that it is
    gone from the moment it is sent. *)
Lemma leads_to_honest t req p p' :
  leads_to p p' → honest (Flight t req p) → honest (Flight t req p').
Proof.
  destruct p as [| | |r|r ts|b| |b|res k|r]; cbn [leads_to].
  1-7: destruct p' as [| | |r'|r' ts'|b'| |b'|res k|r'']; try done; [|by right];
    intros (e & [= -> ->] & Hd & _) _ id; done.
  - intros ([o|e] & ->) _; done.
  - intros (id & ->) Hh. left. apply Hh.
  - by intros ->.
Qed.

Lemma leads_to_entry t req p p' :
  leads_to p p' → honest (Flight t req p) →
  entry (Flight t req p') =
  match p with
  | PcAudit res _ => Some (audit_input req res t)
  | PcReturn _ => entry (Flight t req p)
  | _ => None
  end.
Proof.
  destruct p as [| | |r|r ts|b| |b|res k|r]; cbn [leads_to].
  1-7: destruct p' as [| | |r'|r' ts'|b'| |b'|res k|r'']; try done;
    intros (pr & e & -> & Hp) _; unfold entry; cbn [f_pc decided];
    by repeat (apply elem_of_cons in Hp as [->|Hp]; [done|]); apply elem_of_nil in Hp.
  - intros ([o|e] & ->) _; done.
  - intros (id & ->) Hh. unfold entry. cbn [f_pc]. by destruct (Hh id) as (-> & -> & _).
  - by intros ->.
Qed.

Lemma leads_to_gone t req p p' :
  leads_to p p' → honest (Flight t req p) →
  gone (Flight t req p') = gone (Flight t req p) || match p with PcProxy _ => true | _ => false end.
Proof.
  destruct p as [| | |r|r ts|b| |b|res k|r]; cbn [leads_to]; rewrite ?orb_false_r.
  1-7: destruct p' as [| | |r'|r' ts'|b'| |b'|res k|r'']; try done.
  1,3,5,7,9,11,13: by intros (e & [= -> ->] & _ & Hr) _.
  1-7: intros (pr & e & -> & Hp) _;
    by repeat (apply elem_of_cons in Hp as [->|Hp]; [done|]); apply elem_of_nil in Hp.
  - by intros ([o|e] & ->) _.
  - intros (id & ->) Hh. apply Hh.
  - by intros ->.
Qed.

(** ** The invariant *)

(** The books balance: the audit statements and the calls sent, each against
    the calls in flight. *)
Record books (h0 : list (Stmt * op)) (es : list event) y : Prop := {
  bk_honest : ∀ f, f ∈ y_flights y → honest f;
  bk_audits : audit_ops (history y) ≡ₚ
    audit_ops h0 ++ others_audits es ++ omap entry (y_flights y);
  bk_calls : (w_calls (y_world y)).*2 ≡ₚ omap gone_args (y_flights y);
}.

Lemma books_arrive h0 es y t req :
  books h0 es y → books h0 (es ++ [Arrive t req]) (happen y (Arrive t req)).
Proof.
  intros [Hh Ha Hc]. split; cbn [happen y_flights y_world].
  - intros f [?| ->%list_elem_of_singleton]%elem_of_app; [by apply Hh|done].
  - rewrite others_audits_app, omap_app, !app_nil_r. exact Ha.
  - rewrite omap_app, app_nil_r. exact Hc.
Qed.

Lemma books_other h0 es y st o :
  books h0 es y → books h0 (es ++ [Other st o]) (happen y (Other st o)).
Proof.
  intros [Hh Ha Hc]. split; cbn [happen y_flights y_world]; [done| |done].
  cbn -[audit_ops others_audits]. rewrite audit_ops_app, Ha, others_audits_app.
  rewrite <-!(assoc_L (++)). do 2 apply Permutation_app_head. rewrite Permutation_app_comm.
  by destruct o.
Qed.

Lemma books_move h0 es y i :
  books h0 es y → books h0 (es ++ [Move i]) (happen y (Move i)).
Proof.
  intros HB. pose proof HB as [Hh Ha Hc].
  assert (others_audits (es ++ [Move i]) = others_audits es) as Hes.
  { by rewrite others_audits_app, app_nil_r. }
  cbn [happen]. destruct (y_flights y !! i) as [[t req p]|] eqn:Hi; [|split; by rewrite ?Hes].
  pose proof (Hh _ (list_elem_of_lookup_2 _ _ _ Hi)) as Hf. unfold move. cbn [f_ticks f_req f_pc].
  pose proof (thread_step_audits t req p (y_world y)) as Haud.
  pose proof (thread_step_leads t req p (y_world y)) as Hl.
  pose proof (leads_to_honest t req _ _ Hl Hf) as Hf'.
  pose proof (leads_to_gone t req _ _ Hl Hf) as Hg.
  pose proof (leads_to_entry t req _ _ Hl Hf) as He.
  pose proof (thread_step_calls t req p (y_world y)) as Hcalls.
  destruct (thread_step t req p (y_world y)) as [p' w']. cbn [fst snd] in *.
  split; cbn [y_flights y_world].
  - intros f [j Hj]%list_elem_of_lookup. destruct (decide (i = j)) as [<-|Hne].
    + rewrite list_lookup_insert_eq in Hj by by eapply lookup_lt_Some. by injection Hj as <-.
    + rewrite list_lookup_insert_ne in Hj by done. eapply Hh. by eapply list_elem_of_lookup_2.
  - rewrite Haud, Ha, Hes, <-!(assoc_L (++)). do 2 apply Permutation_app_head.
    destruct p; first
      [ rewrite (omap_insert_same entry _ _ _ _ Hi He), app_nil_r; done
      | rewrite (omap_insert entry _ _ _ _ Hi eq_refl), He; done ].
  - rewrite Hcalls, fmap_app, Hc.
    destruct p; first
      [ rewrite orb_false_r in Hg; rewrite (omap_insert_same gone_args _ _ _ _ Hi), app_nil_r;
        [done|unfold gone_args; by rewrite Hg]
      | rewrite (omap_insert gone_args _ _ _ _ Hi eq_refl); unfold gone_args at 3; by rewrite Hg ].
Qed.

Lemma books_happens es y : fresh y → books (history y) es (happens es y).
Proof.
  intros [Hf Hc]. induction es as [|e es IH] using rev_ind.
  - cbn. split; rewrite ?Hf, ?Hc; try done; [by intros ? ?%elem_of_nil|].
    cbn -[audit_ops]. by rewrite app_nil_r.
  - unfold happens in *. rewrite foldl_app. cbn [foldl].
    destruct e as [t req|i|st o]; eauto using books_arrive, books_move, books_other.
Qed.

(** ** The rows *)

Lemma elem_of_audit_ops i h : i ∈ audit_ops h → ∃ st h1, h1 ++ [(st, OpWriteAudit i)] `prefix_of` h.
Proof.
  intros ([st o] & Hin & Ho)%list_elem_of_omap. destruct o; simplify_eq/=.
  apply list_elem_of_split in Hin as (h1 & h2 & ->). exists st, h1.
  exists h2. by rewrite <-(assoc_L (++)).
Qed.

(** An audit statement whose values the columns take leaves its row. *)
Lemma run_audited h st req res t :
  storable (audit_input req res t) = true →
  ∃ row, row ∈ audit_log (d_gov (run (h ++ [(st, OpWriteAudit (audit_input req res t))]) db_empty)) ∧
    audited req res t row.
Proof.
  intros Hi. unfold run. rewrite foldl_app. cbn [foldl exec fst snd with_gov d_gov].
  set (g := d_gov _). pose proof (WriteAudit_audited st req res t g) as Hw. cbv zeta in Hw.
  rewrite Hi in Hw. destruct (WriteAudit _ _ g) as [x g']. destruct Hw as (row & Hrow & ?).
  exists row. split; [|done]. cbn [snd d_gov with_gov] in *. rewrite Hrow. apply elem_of_app. right. by left.
Qed.

(** C5: However the gateway's calls in flight and the statements of other clients
    interleave, the audit statements of the history are, up to order, those it had before,
    those of the other clients and exactly one for each call that has returned with a
    decision, with its caller, server/tool, redacted arguments, latency and the text of
    its outcome; the calls sent downstream are, up to order, one for each call that ran;
    and a call that returned without a decision failed in the store. The statement leaves
    its row in the audit log when PostgreSQL takes its values: texts and JSON without NUL
    characters and whatever else its types ask for, and a latency in the range of integer.
    Otherwise the row is lost, for the gateway drops the error. *)
Theorem concurrent_audited es y :
  fresh y →
  let y' := happens es y in
  audit_ops (history y') ≡ₚ
    audit_ops (history y) ++ others_audits es ++ omap entry (y_flights y') ∧
  (w_calls (y_world y')).*2 ≡ₚ omap gone_args (y_flights y') ∧
  ∀ t req r, Flight t req (PcReturn r) ∈ y_flights y' →
    let i := audit_input req (outcome_text r) t in
    undecided r ∨
    (i ∈ audit_ops (history y') ∧
     (storable i = true →
      ∃ h1 row, h1 `prefix_of` history y' ∧ row ∈ audit_log (d_gov (run h1 db_empty)) ∧
        audited req (outcome_text r) t row)).
Proof.
  intros Hy y'. destruct (books_happens es y Hy) as [Hh Ha Hc]. fold y' in Hh, Ha, Hc.
  do 2 (split; [done|]). intros t req r Hin i.
  destruct (Hh _ Hin) as [Hd|Hu]; [right|by left].
  assert (i ∈ audit_ops (history y')) as Hi.
  { rewrite Ha, !elem_of_app. do 2 right. apply list_elem_of_omap.
    eexists. split; [exact Hin|]. unfold entry. cbn [f_pc f_req f_ticks]. by rewrite Hd. }
  split; [done|]. intros Hs. destruct (elem_of_audit_ops _ _ Hi) as (st & h1 & Hp).
  destruct (run_audited h1 st req (outcome_text r) t Hs) as (row & ? & ?).
  by exists (h1 ++ [(st, OpWriteAudit i)]), row.
Qed.
End audit.

(** ** Two calls and a switch *)

#[local] Existing Instance unary_text.
#[local] Existing Instance null_caller.

(** The calls that were sent and the call that was refused have each their own. *)
Lemma switch_race_audited :
  ai_Result <$> audit_ops (sh_history (w_store (y_world sample_after))) =
    ["denied: unauthorized"; "ok"; "ok"]%string.
Proof. vm_compute. reflexivity. Qed.

Lemma concurrent_audited_witness :
  omap gone_args (y_flights sample_after) = [RawJSON (JObj []); RawJSON (JObj [])] ∧
  (∃ h1 row, h1 `prefix_of` sh_history (w_store (y_world sample_after)) ∧
    row ∈ audit_log (d_gov (run h1 db_empty)) ∧
    audited sample_send "denied: unauthorized" sample_ticks row).
Proof.
  destruct (concurrent_audited (sample_arrivals ++ sample_switch) sample_gateway)
    as (_ & _ & Hr); [by split|]. split; [vm_compute; reflexivity|].
  destruct (Hr sample_ticks sample_send (Err ErrUnauthorized)) as [(p & e & He & _)|[_ Hrow]].
  - apply list_elem_of_lookup. exists 1%nat. vm_compute. reflexivity.
  - discriminate.
  - apply Hrow. vm_compute. reflexivity.
Defined.
