(* ===== verification/GatewayLoad.v ===== *)
(** * The gateway's limiter under load

    What the limiter of limits.go does in a [Call] of gateway.go, and how many
    calls a gateway whose calls are in flight at the same time lets out in a
    stretch of time. *)

From S2P Require Import Prelude GoText Float64 Json Limits LimitsTime Pg Memory.
From S2P Require Import Sessions Identity Governance Registry Repository Gateway GatewayStore.
From S2P Require Import GatewayConcurrent.
From Stdlib Require Import ZArith Lia Ascii.
From stdpp Require Import options.

Open Scope Z_scope.
Open Scope list_scope.

(** ** The limiter in a call

    Only the steps at its buckets change it, and a refused call goes no further. *)

Section limiter.
Context {S T : Type} `{Store S} `{TC : ToolCaller T}.
Implicit Types (w : world S T).

Definition keeps_limiter {A} (m : M (world S T) A) : Prop := ∀ w, w_limiter (m w).2 = w_limiter w.

Lemma keeps_ret {A} (a : A) : keeps_limiter (mret a).
Proof. by intros w. Qed.

Lemma keeps_bind {A B} (m : M (world S T) A) (f : A → M (world S T) B) :
  keeps_limiter m → (∀ a, keeps_limiter (f a)) → keeps_limiter (m ≫= f).
Proof. intros Hm Hf w. by rewrite M_bind_run, Hf, Hm. Qed.

Lemma keeps_store_op {A} (f : S → A * S) : keeps_limiter (store_op f).
Proof. intros w. by rewrite store_op_run. Qed.

Lemma keeps_downstream s tl a : keeps_limiter (downstream s tl a).
Proof. intros w. unfold downstream. by destruct (tc_Call _ _ _ _). Qed.

(** Only the step at the global bucket touches it. *)
Lemma committee_after r0 gs now key w :
  global_after r0 gs (w_limiter w) →
  global_after r0 gs (w_limiter (on_limiter (λ l, committee_Allow l now key) w).2).
Proof.
  intros (lim & Hl & Hg). unfold on_limiter. rewrite Hl.
  pose proof (committee_Allow_global lim now key) as Hc.
  destruct (committee_Allow lim now key) as [ok lim']. exists lim'. split; [done|].
  cbn [snd] in Hc. by rewrite Hc.
Qed.

Lemma global_Allow_after r0 gs now w :
  global_after r0 gs (w_limiter w) →
  let gs1 := [(now, "_global"%string)] in
  let ow := on_limiter (λ l, global_Allow l now) w in
  global_after r0 (gs ++ gs1) (w_limiter ow.2) ∧
  (if ow.1 then 1 else 0) <= grants "_global" gs1 (after_calls gs r0).
Proof.
  intros (lim & Hl & Hg). cbv zeta. unfold on_limiter. rewrite Hl.
  destruct (global_Allow_global r0 gs lim now Hg) as [Hg' Hle].
  destruct (global_Allow lim now) as [ok lim']. split; [by exists lim'|done].
Qed.

End limiter.

(** ** Calls in flight *)

Section load.
Context `{PgText} {D : Type} `{ToolCaller D}.
Implicit Types (y : gateway (D := D)) (f : flight) (w : world shared D).

(** The call has taken its token and may still be sent. *)
Definition holds_token f : bool :=
  match f_pc f with
  | PcResolve | PcTools _ | PcCommittees _ _ | PcGate _ | PcCreate | PcProxy _ => true
  | _ => false
  end.

(** The call has yet to ask the global bucket. *)
Definition at_limit f : bool := match f_pc f with PcLimit | PcGlobal => true | _ => false end.

(** The calls that have left or may leave without asking the limiter again. *)
Definition load y : Z :=
  Z.of_nat (length (w_calls (y_world y)) + length (filter (λ f, holds_token f = true) (y_flights y))).

Definition waiting y : nat := length (filter (λ f, at_limit f = true) (y_flights y)).

Abbreviation one b := (if b then 1 else 0).

Lemma thread_step_keeps t req p :
  at_limit (Flight t req p) = false → keeps_limiter (T := D) (thread_step t req p).
Proof.
  intros Hp. destruct p; try done; cbn [thread_step]; unfold hasApproval, audit;
    repeat first [ done | apply keeps_ret | apply keeps_store_op | apply keeps_downstream
                 | apply keeps_bind; [|intros ?] | case_match ].
Qed.

Lemma after_resolve_not_limit t req r : at_limit (Flight t req (after_resolve req r)) = false.
Proof. destruct r as [b|e]; cbn [after_resolve]; by repeat case_match. Qed.

(** A call that is still to ask after a step was before the committee's bucket. *)
Lemma thread_step_not_limit t req p w :
  p ≠ PcLimit → at_limit (Flight t req (thread_step t req p w).1) = false.
Proof.
  intros Hp. destruct p; cbn [thread_step]; rewrite ?M_bind_run; cbn [mret M_ret fst]; try done.
  - by destruct (on_limiter _ w).1.
  - destruct (store_op _ w).1 as [r|e]; [done|]. apply (after_resolve_not_limit t req (Err e)).
  - apply after_resolve_not_limit.
  - by destruct (hasApproval _ _ w).1 as [[]|].
  - by destruct (store_op _ w).1.
Qed.

(** Whether a step asks the global bucket. *)
Definition asks (p : pc) : bool := match p with PcGlobal => true | _ => false end.

(** A step of a call: only the one at the global bucket can add to the load, and
    it takes the call off those that have yet to ask. *)
Lemma thread_step_token r0 gs t req p w :
  global_after r0 gs (w_limiter w) →
  let w' := (thread_step t req p w).2 in
  let f := Flight t req p in let f' := Flight t req (thread_step t req p w).1 in
  let gs1 := if asks p then [(t_global t, "_global"%string)] else [] in
  global_after r0 (gs ++ gs1) (w_limiter w') ∧
  Z.of_nat (length (w_calls w')) + one (holds_token f') <=
    Z.of_nat (length (w_calls w)) + one (holds_token f) + grants "_global" gs1 (after_calls gs r0) ∧
  one (at_limit f') + one (asks p) <= one (at_limit f).
Proof.
  intros Hg. cbv zeta. pose proof (thread_step_calls t req p w) as Hc.
  assert (p = PcLimit ∨ p = PcGlobal ∨ at_limit (Flight t req p) = false) as [->|[->|Hp]]
    by (destruct p; auto); rewrite ?Hc, ?app_nil_r.
  - cbn [thread_step asks]. rewrite M_bind_run. cbn [mret M_ret fst snd].
    split; [by apply committee_after|]. destruct (on_limiter _ w).1; simpl; lia.
  - cbn [thread_step asks]. rewrite M_bind_run. cbn [mret M_ret fst snd].
    destruct (global_Allow_after r0 gs (t_global t) w Hg) as [Hg' Hle]. split; [done|].
    destruct (on_limiter _ w).1; simpl in *; lia.
  - assert (asks p = false) as -> by by destruct p. rewrite app_nil_r, thread_step_keeps by done.
    split; [done|]. pose proof (thread_step_unsent t req p w) as Hu.
    pose proof (thread_step_not_limit t req p w) as Hl. rewrite Hl, Hp by by intros ->.
    assert (∀ q, at_limit (Flight t req q) = false → holds_token (Flight t req q) = unsent q) as Hh
      by by intros [].
    rewrite (Hh p Hp), (Hh _ (Hl ltac:(by intros ->))). rewrite length_app. cbn [grants].
    destruct p, (unsent _); simpl in *; lia.
Qed.

(** ** A window *)

Section window.
Context (r0 : RateLimiter) (gs : list (Z * string)) (t0 span : Z).

Definition in_window (now : Z) : Prop := t0 <= now <= t0 + span.

(** The calls that have yet to ask the limiter do so in the window. *)
Definition asks_in_window y : Prop :=
  ∀ f, f ∈ y_flights y → at_limit f = true → in_window (t_global (f_ticks f)).

Definition load_inv (y0 : gateway (D := D)) (n : nat) y : Prop :=
  asks_in_window y ∧ ∃ gs2, Forall (λ '(now, _), in_window now) gs2 ∧
    (length gs2 + waiting y ≤ n)%nat ∧ global_after r0 (gs ++ gs2) (w_limiter (y_world y)) ∧
    load y <= load y0 + grants "_global" gs2 (after_calls gs r0).

Lemma load_arrive y0 n y t req :
  in_window (t_global t) → load_inv y0 n y → load_inv y0 (n + 1) (happen y (Arrive t req)).
Proof.
  intros Ht [Hask (gs2 & Hw & Hlen & Hg & Hle)]. split.
  - intros f. cbn [happen y_flights]. intros [?| ->%list_elem_of_singleton]%elem_of_app; [by apply Hask|done].
  - exists gs2. split; [done|]. cbn [happen y_world]. unfold waiting, load in *.
    cbn [happen y_flights y_world]. rewrite !filter_app, !length_app. split; [simpl; lia|].
    split; [done|]. simpl. lia.
Qed.

Lemma load_other y0 n y st o : load_inv y0 n y → load_inv y0 n (happen y (Other st o)).
Proof. done. Qed.

Lemma load_move y0 n y i : load_inv y0 n y → load_inv y0 n (happen y (Move i)).
Proof.
  intros [Hask (gs2 & Hw & Hlen & Hg & Hle)]. cbn [happen].
  destruct (y_flights y !! i) as [[t req p]|] eqn:Hi; [|by split; [|exists gs2]].
  unfold move. cbn [f_ticks f_req f_pc].
  destruct (thread_step_token r0 (gs ++ gs2) t req p (y_world y) Hg) as (Hg1 & Hle1 & Hl).
  set (gs1 := if asks p then _ else _) in *.
  assert (Forall (λ '(now, _), in_window now) gs1 ∧ length gs1 = if asks p then 1%nat else 0%nat)
    as [Hgs1 Hlen1].
  { subst gs1. destruct p; try done. split; [|done]. constructor; [|constructor].
    by apply (Hask _ (list_elem_of_lookup_2 _ _ _ Hi)). }
  destruct (thread_step t req p (y_world y)) as [p' w']. cbn [fst snd] in *.
  pose proof (filter_insert_length holds_token _ i _ (Flight t req p') Hi) as Hh.
  pose proof (filter_insert_length at_limit _ i _ (Flight t req p') Hi) as Ha.
  split.
  - intros f. cbn [y_flights]. intros [j Hj]%list_elem_of_lookup Hf.
    destruct (decide (i = j)) as [<-|Hne].
    + rewrite list_lookup_insert_eq in Hj by by eapply lookup_lt_Some. injection Hj as <-.
      apply (Hask (Flight t req p)); [by eapply list_elem_of_lookup_2|]. rewrite Hf in Hl.
      by destruct (at_limit (Flight t req p)), (asks p); simpl in Hl; try lia.
    + rewrite list_lookup_insert_ne in Hj by done. apply Hask; [by eapply list_elem_of_lookup_2|done].
  - exists (gs2 ++ gs1). rewrite (assoc_L (++)), Forall_app, grants_app, <-after_calls_app, length_app.
    unfold load, waiting in *. cbn [y_flights y_world]. split; [done|split; [|split; [done|]]].
    + rewrite Hlen1. destruct (at_limit (Flight t req p)), (at_limit (Flight t req p')), (asks p);
        simpl in *; lia.
    + destruct (holds_token (Flight t req p)), (holds_token (Flight t req p')); simpl in *; lia.
Qed.

Lemma load_happens y0 n y es :
  (∀ t req, Arrive t req ∈ es → in_window (t_global t)) → load_inv y0 n y →
  load_inv y0 (n + arrivals es) (happens es y).
Proof.
  revert n y. induction es as [|e es IH]; intros n y Ht Hy; [by rewrite Nat.add_0_r|].
  assert (arrivals (e :: es) = (if arrives e then 1 else 0) + arrivals es)%nat as ->
    by (unfold arrivals; rewrite filter_cons; by destruct (arrives e)).
  rewrite Nat.add_assoc. apply IH; [intros t req ?; apply (Ht t req); by right|].
  destruct e as [t req|i|st o]; cbn [arrives]; rewrite ?Nat.add_0_r.
  - apply load_arrive; [|done]. apply (Ht t req). by left.
  - by apply load_move.
  - by apply load_other.
Qed.
End window.

(** The instants at which the global bucket was asked are those of calls that
    are past it. *)
Definition asked_by y (now : Z) : Prop :=
  ∃ f, f ∈ y_flights y ∧ at_limit f = false ∧ t_global (f_ticks f) = now.

Lemma asked_happen r0 gs y e :
  Forall (λ '(now, _), asked_by y now) gs → global_after r0 gs (w_limiter (y_world y)) →
  ∃ gs', Forall (λ '(now, _), asked_by (happen y e) now) gs' ∧
    global_after r0 gs' (w_limiter (y_world (happen y e))).
Proof.
  intros Ha Hg. destruct e as [t req|i|st o]; cbn [happen]; [|destruct (y_flights y !! i) as [[t req p]|] eqn:Hi|].
  - exists gs. split; [|done]. eapply Forall_impl; [done|]. intros [now k] (f & Hf & ?). exists f.
    split; [by apply elem_of_app; left|done].
  - unfold move. cbn [f_ticks f_req f_pc].
    destruct (thread_step_token r0 gs t req p (y_world y) Hg) as (Hg1 & _ & Hl).
    destruct (thread_step t req p (y_world y)) as [p' w']. cbn [fst snd] in *.
    eexists. split; [|exact Hg1]. apply Forall_app. split.
    + eapply Forall_impl; [done|]. intros [now k] (f & [j Hj]%list_elem_of_lookup & Hf & Hnow).
      destruct (decide (i = j)) as [<-|Hne].
      * rewrite Hi in Hj. injection Hj as <-. exists (Flight t req p').
        split; [|split; [by destruct (at_limit (Flight t req p')), (asks p); rewrite Hf in Hl; try lia|done]].
        eapply list_elem_of_lookup_2, list_lookup_insert_eq, lookup_lt_Some, Hi.
      * exists f. split; [|done]. apply (list_elem_of_lookup_2 _ j). cbn [y_flights]. by rewrite list_lookup_insert_ne.
    + destruct (asks p) eqn:Hp; constructor; [|constructor]. exists (Flight t req p').
      split; [|split; [by destruct p, (at_limit (Flight t req p'))|done]].
      eapply list_elem_of_lookup_2, list_lookup_insert_eq, lookup_lt_Some, Hi.
  - by exists gs.
  - by exists gs.
Qed.

Lemma asked_happens r0 y es :
  global_after r0 [] (w_limiter (y_world y)) →
  ∃ gs, Forall (λ '(now, _), asked_by (happens es y) now) gs ∧
    global_after r0 gs (w_limiter (y_world (happens es y))).
Proof.
  intros Hg. induction es as [|e es IH] using rev_ind; [by exists []|].
  destruct IH as (gs & Ha & Hg'). unfold happens. rewrite foldl_app. by eapply asked_happen.
Qed.

(** The calls that have asked did so by [t0]. *)
Definition asked_before y (t0 : Z) : Prop :=
  ∀ f, f ∈ y_flights y → at_limit f = false → t_global (f_ticks f) <= t0.

(** Both are decided by a look at the calls. *)
Lemma asked_before_dec y t0 :
  forallb (λ f, at_limit f || (t_global (f_ticks f) <=? t0)) (y_flights y) = true → asked_before y t0.
Proof.
  intros Hb f Hf Hl. rewrite forallb_forall in Hb. specialize (Hb f). rewrite <-list_elem_of_In, Hl in Hb.
  apply Z.leb_le. by apply Hb.
Qed.

Lemma asks_in_window_dec t0 span y :
  forallb (λ f, negb (at_limit f) ||
    ((t0 <=? t_global (f_ticks f)) && (t_global (f_ticks f) <=? t0 + span))) (y_flights y) = true →
  asks_in_window t0 span y.
Proof.
  intros Hb f Hf Hl. rewrite forallb_forall in Hb. specialize (Hb f). rewrite <-list_elem_of_In, Hl in Hb.
  specialize (Hb Hf). unfold in_window. cbn [negb orb] in Hb. bools. lia.
Qed.

(** In any window the load grows by less than the burst, one, and what the time of
    the window earns. *)
Lemma load_rate perMin b before within t0 span y0 :
  let r0 := NewRateLimiter perMin b in let y := happens before y0 in
  global_after r0 [] (w_limiter (y_world y0)) →
  asked_before y t0 → asks_in_window t0 span y →
  (∀ t req, Arrive t req ∈ within → in_window t0 span (t_global t)) →
  1 <= perMin <= int64_max → 0 <= span →
  Z.of_nat (waiting y + arrivals within) * Z.max 1 b <= 2 ^ 48 → perMin * span <= 60000000000 * 2 ^ 45 →
  (load (happens within y) - load y) * 60000000000 < (Z.max 1 b + 1) * 60000000000 + perMin * span.
Proof.
  intros r0 y Hg0 Hbefore Hask Hes Hper Hspan Hn Hps.
  destruct (asked_happens r0 y0 before Hg0) as (gs & Hgs & Hg). fold y in Hgs, Hg.
  assert (Forall (λ '(now, _), now <= t0) gs) as Hgs0.
  { eapply Forall_impl; [done|]. intros [now k] (f & Hf & Hl & <-). by apply Hbefore. }
  assert (load_inv r0 gs t0 span y (waiting y) y) as Hinv.
  { split; [done|]. exists []. rewrite app_nil_r. split; [done|]. split; [done|]. split; [done|]. simpl. lia. }
  destruct (load_happens _ _ _ _ _ _ _ _ Hes Hinv) as [_ (gs2 & Hw & Hlen & _ & Hle)].
  destruct (new_seen perMin b gs t0 Hper Hgs0) as [Hr Hs].
  pose proof (seen_window perMin (Z.max 1 b) _ "_global" gs2 t0 span Hper ltac:(lia) Hspan Hr Hs Hw) as Hb.
  specialize (Hb ltac:(nia) Hps). fold r0 in Hb. nia.
Qed.
End load.
