(* ===== verification/RegistrySpec.v ===== *)
(** * The registry as a map of servers

    What the registry promises, without its tables: a finite map from a
    server's name to what it offers and to whom. The three tables of Registry.v
    refine it: every statement of the store acts on the map as [perform] says,
    whatever the history, and the gateway's two questions, may this caller
    call this tool and what may this caller see, have the map's answers. *)

From S2P Require Import Prelude GoText Json Limits Pg Memory.
From S2P Require Import Sessions Identity Governance Registry Repository Gateway GatewayStore.
From Stdlib Require Import ZArith Lia Ascii.
From stdpp Require Import options.

Open Scope Z_scope.
Open Scope list_scope.

(** ** The specification *)

Record server_spec := ServerSpec {
  sp_endpoint : string;
  sp_lifecycle : string;
  sp_enabled : bool;
  sp_tools : gmap string (string * string);     (* by name: scope and impact *)
  sp_committees : gset string;
}.

Abbreviation platform := (gmap string server_spec).

Definition tool_map (l : list ToolInput) : gmap string (string * string) :=
  list_to_map ((λ t, (ti_Name t, (ti_Scope t, ti_Impact t))) <$> l).

(** A declaration replaces what a server offers; who may use it at all is the
    maintainers' decision and stays. *)
Definition declare (i : ServerInput) (old : option server_spec) : server_spec :=
  {| sp_endpoint := si_Endpoint i;
     sp_lifecycle := from_option sp_lifecycle LifecycleProposed old;
     sp_enabled := from_option sp_enabled true old;
     sp_tools := tool_map (si_Tools i);
     sp_committees := list_to_set (si_Committees i) |}.

Definition put_lifecycle (lc : string) (s : server_spec) : server_spec :=
  ServerSpec (sp_endpoint s) lc (sp_enabled s) (sp_tools s) (sp_committees s).
Definition put_enabled (b : bool) (s : server_spec) : server_spec :=
  ServerSpec (sp_endpoint s) (sp_lifecycle s) b (sp_tools s) (sp_committees s).

Definition perform (o : op) (p : platform) : platform :=
  match o with
  | OpRegisterServer i =>
      if decide (valid_input i) then <[si_Name i := declare i (p !! si_Name i)]> p else p
  | OpSetServerLifecycle name lc =>
      if decide (lc ∈ lifecycles) then alter (put_lifecycle lc) name p else p
  | OpSetServerEnabled name b => alter (put_enabled b) name p
  | _ => p
  end.

Definition performs (h : list (Stmt * op)) (p : platform) : platform :=
  foldl (λ p so, perform so.2 p) p h.

(** A server that is approved and enabled serves the committees it is granted to. *)
Definition serves_committees (s : server_spec) (cs : list string) : bool :=
  String.eqb (sp_lifecycle s) LifecycleApproved && sp_enabled s &&
  existsb (λ c, bool_decide (c ∈ sp_committees s)) cs.

(** The scope and the impact of a tool that a member of the committees may call. *)
Definition may_call (cs : list string) (sn tn : string) (p : platform) : option (string * string) :=
  s ← p !! sn;
  if serves_committees s cs then sp_tools s !! tn else None.

(** ** The abstraction *)

Definition row_tool (t : tool_row) : ToolInput :=
  {| ti_Name := o_name t; ti_Scope := o_scope t; ti_Impact := o_impact t |}.

Definition own_tools (r : server_row) (d : registry) : list tool_row :=
  filter (λ t, o_server_id t = v_id r) (mcp_tools d).

Definition spec_of (d : registry) (r : server_row) : server_spec :=
  {| sp_endpoint := v_endpoint r; sp_lifecycle := v_lifecycle r; sp_enabled := v_enabled r;
     sp_tools := tool_map (row_tool <$> own_tools r d);
     sp_committees := list_to_set (snd <$> filter (λ g, g.1 = v_id r) (server_committees d)) |}.

Definition platform_of (d : registry) : platform :=
  list_to_map ((λ r, (v_name r, spec_of d r)) <$> mcp_servers d).

(** ** Lemmas *)

Lemma lookup_platform_of d n : platform_of d !! n = spec_of d <$> find_server n d.
Proof.
  unfold platform_of, find_server. induction (mcp_servers d) as [|r l IH]; [by apply lookup_empty|].
  cbn [fmap list_fmap list_to_map foldr List.find].
  destruct (String.eqb_spec (v_name r) n) as [<-|Hne].
  - by rewrite lookup_insert_eq.
  - by rewrite lookup_insert_ne.
Qed.

Lemma elem_of_own_committees d r c :
  c ∈ sp_committees (spec_of d r) ↔ (v_id r, c) ∈ server_committees d.
Proof.
  unfold spec_of. simpl. rewrite elem_of_list_to_set, list_elem_of_fmap. split.
  - intros ([u x] & -> & [Hu Hin]%list_elem_of_filter). simpl in *. by subst.
  - intros Hin. exists (v_id r, c). split; [done|]. by apply list_elem_of_filter.
Qed.

Lemma spec_of_ext d d' r r' :
  v_endpoint r' = v_endpoint r → v_lifecycle r' = v_lifecycle r → v_enabled r' = v_enabled r →
  own_tools r' d' = own_tools r d →
  (∀ c, (v_id r', c) ∈ server_committees d' ↔ (v_id r, c) ∈ server_committees d) →
  spec_of d' r' = spec_of d r.
Proof.
  intros He Hl Hb Ht Hc.
  assert (sp_committees (spec_of d' r') = sp_committees (spec_of d r)) as Hs.
  { apply set_eq. intros c. by rewrite !elem_of_own_committees. }
  unfold spec_of in *. cbn [sp_committees] in Hs. by rewrite He, Hl, Hb, Ht, Hs.
Qed.

Section refinement.
Context `{PgText}.
Implicit Types (d : registry).

(** The keys of a server's tools. *)
Lemma lookup_own_tools d r tn :
  sp_tools (spec_of d r) !! tn =
  (λ t, (o_scope t, o_impact t)) <$> List.find (λ t, String.eqb (o_name t) tn) (own_tools r d).
Proof.
  simpl. unfold tool_map. rewrite <-list_fmap_compose.
  induction (own_tools r d) as [|t l IH]; [by apply lookup_empty|].
  cbn [fmap list_fmap list_to_map foldr List.find compose row_tool ti_Name ti_Scope ti_Impact].
  destruct (String.eqb_spec (o_name t) tn) as [<-|Hne].
  - by rewrite lookup_insert_eq.
  - by rewrite lookup_insert_ne.
Qed.

(** *** The statements *)

Lemma platform_RegisterServer st i d :
  registry_wf d → fresh_ids st i d →
  platform_of (RegisterServer st i d).2 = perform (OpRegisterServer i) (platform_of d).
Proof.
  intros Hwf Hf. pose proof (RegisterServer_ok_iff st i d Hf) as Hok.
  simpl. destruct (decide (valid_input i)) as [Hv|Hv].
  2: { destruct (RegisterServer st i d) as [[s|e] d'] eqn:Hr; [naive_solver|].
       simpl. revert Hr. unfold RegisterServer. destruct (_ || _); [by intros [= _ <-]|]. cbv zeta.
       destruct (register_tx _ _ _ _ _) as [d1|e1] eqn:Ht; [|by intros [= _ <-]].
       apply register_tx_server in Ht as (r & Hr & _). by rewrite (GetServerByName_found _ _ _ Hr). }
  apply Hok in Hv. clear Hok. apply map_eq. intros n. rewrite lookup_platform_of.
  destruct (decide (n = si_Name i)) as [->|Hne].
  - rewrite lookup_insert_eq, lookup_platform_of. revert Hv. unfold RegisterServer.
    destruct (_ || _); [done|]. cbv zeta.
    destruct (register_tx _ _ _ _ _) as [d1|e1] eqn:Ht; [|done]. intros _. simpl.
    apply register_tx_server in Ht as (r & Hr & Hreg & (new & Htools & Hnew & Hts) & Hg).
    rewrite Hr. simpl. f_equal. destruct Hreg as (_ & He & _ & _ & Hold).
    assert (sp_committees (spec_of d1 r) = list_to_set (si_Committees i)) as Hs.
    { apply set_eq. intros c. rewrite elem_of_own_committees, Hg, elem_of_list_to_set. naive_solver. }
    assert (row_tool <$> own_tools r d1 = si_Tools i) as Ho.
    { unfold own_tools. rewrite Htools, filter_new by done. exact Hts. }
    unfold declare, spec_of in *. cbn [sp_committees] in Hs. rewrite Ho, He, Hs.
    destruct (find_server (si_Name i) d); simpl; f_equal; naive_solver.
  - rewrite lookup_insert_ne, lookup_platform_of by done.
    destruct (find_server n d) as [row|] eqn:Hrow.
    + destruct (RegisterServer_frame st i d n row Hwf Hne Hrow) as (-> & Ht & Hc).
      simpl. f_equal. by apply spec_of_ext.
    + by rewrite RegisterServer_other, Hrow.
Qed.

(** An update of one row that keeps its name and its identity. *)
Lemma platform_update name f (g : server_spec → server_spec) d :
  (∀ r, v_name (f r) = v_name r) → (∀ r, v_id (f r) = v_id r) →
  (∀ d r, spec_of d (f r) = g (spec_of d r)) →
  platform_of (update_server name f d) = alter g name (platform_of d).
Proof.
  intros Hn Hid Hs. apply map_eq. intros n.
  assert (∀ r, spec_of (update_server name f d) r = spec_of d r) as Hd by done.
  rewrite lookup_platform_of, find_update_server by done.
  destruct (decide (n = name)) as [->|Hne].
  - rewrite lookup_alter_eq, lookup_platform_of, String.eqb_refl.
    destruct (find_server name d) as [r|]; simpl; [|done]. by rewrite Hd, Hs.
  - rewrite lookup_alter_ne, lookup_platform_of by done.
    destruct (find_server n d) as [r|]; simpl; [|done].
    by destruct (String.eqb_spec n name).
Qed.

Lemma platform_absent name g d :
  find_server name d = None → platform_of d = alter g name (platform_of d).
Proof.
  intros Hf. symmetry. apply map_eq. intros n. destruct (decide (n = name)) as [->|Hne].
  - rewrite lookup_alter_eq, lookup_platform_of, Hf. done.
  - by rewrite lookup_alter_ne.
Qed.

Lemma platform_SetServerLifecycle st name lc d :
  platform_of (SetServerLifecycle st name lc d).2 =
  perform (OpSetServerLifecycle name lc) (platform_of d).
Proof.
  unfold SetServerLifecycle. simpl. destruct (find_server name d) as [r|] eqn:Hf.
  - destruct (decide (lc ∈ lifecycles)).
    + rewrite bool_decide_true by done. by apply platform_update.
    + by rewrite bool_decide_false.
  - destruct (decide _); [|done]. by apply platform_absent.
Qed.

Lemma platform_SetServerEnabled st name b d :
  platform_of (SetServerEnabled st name b d).2 =
  perform (OpSetServerEnabled name b) (platform_of d).
Proof.
  unfold SetServerEnabled. simpl. destruct (find_server name d) as [r|] eqn:Hf.
  - by apply platform_update.
  - by apply platform_absent.
Qed.

(** *** The questions *)

Lemma serves_committees_true s cs :
  serves_committees s cs = true ↔
  sp_lifecycle s = LifecycleApproved ∧ sp_enabled s = true ∧ ∃ c, c ∈ cs ∧ c ∈ sp_committees s.
Proof.
  unfold serves_committees. rewrite !andb_true_iff, String.eqb_eq, existsb_elem_of.
  setoid_rewrite bool_decide_eq_true. naive_solver.
Qed.

(** A permission of the map, in the rows. *)
Lemma may_call_Some cs sn tn d sc im :
  registry_wf d →
  may_call cs sn tn (platform_of d) = Some (sc, im) ↔
  ∃ s t c, s ∈ mcp_servers d ∧ t ∈ mcp_tools d ∧ o_server_id t = v_id s ∧ v_name s = sn ∧
    o_name t = tn ∧ o_scope t = sc ∧ o_impact t = im ∧ (v_id s, c) ∈ server_committees d ∧ c ∈ cs ∧
    v_lifecycle s = LifecycleApproved ∧ v_enabled s = true.
Proof.
  intros Hwf. unfold may_call. rewrite lookup_platform_of. split.
  - destruct (find_server sn d) as [s|] eqn:Hf; [|done]. cbn [fmap option_fmap option_map mbind option_bind].
    destruct (serves_committees _ cs) eqn:Hs; [|done].
    apply serves_committees_true in Hs as (Hl & He & c & Hc & Hg%elem_of_own_committees).
    rewrite lookup_own_tools. apply find_server_Some in Hf as [Hin Hn].
    destruct (List.find _ _) as [t|] eqn:Ht; [|done]. intros [= <- <-].
    apply find_Some_elem_of in Ht as [[Hid Ht]%list_elem_of_filter Htn%String.eqb_eq].
    by exists s, t, c.
  - intros (s & t & c & Hs & Ht & Hid & <- & <- & <- & <- & Hg & Hc & Hl & He).
    rewrite (find_server_elem d s Hwf Hs). cbn [fmap option_fmap option_map mbind option_bind].
    assert (serves_committees (spec_of d s) cs = true) as ->.
    { apply serves_committees_true. do 2 (split; [done|]). exists c. split; [done|].
      by apply elem_of_own_committees. }
    rewrite lookup_own_tools.
    destruct (List.find (λ t0, String.eqb (o_name t0) (o_name t)) (own_tools s d)) as [t'|] eqn:Hf.
    + apply find_Some_elem_of in Hf as [[Hid' Ht']%list_elem_of_filter Hn%String.eqb_eq].
      assert (t' = t) as ->; [|done].
      apply (NoDup_fmap_eq (λ r, (o_server_id r, o_name r)) (mcp_tools d));
        [apply Hwf|done|done|congruence].
    + apply find_None_elem_of with (x := t) in Hf; [by rewrite String.eqb_refl in Hf|].
      by apply list_elem_of_filter.
Qed.

(** The gateway's answer to a caller: the scope and impact of a tool that it
    resolves and authorizes. *)
Definition answer (id : Identity) (sn tn : string) (d : registry) : option (string * string) :=
  match ResolveTool sn tn d with
  | Ok b => if authorized (tb_Server b) id
            then Some (Tool_Scope (tb_Tool b), Tool_Impact (tb_Tool b)) else None
  | Err _ => None
  end.

Lemma answer_may_call id sn tn d :
  registry_wf d → answer id sn tn d = may_call (Committees id) sn tn (platform_of d).
Proof.
  intros Hwf. apply option_eq. intros [sc im]. rewrite may_call_Some by done.
  unfold answer. split.
  - destruct (ResolveTool sn tn d) as [b|e] eqn:Hr; [|done].
    apply ResolveTool_Ok in Hr as (s & t & Hs & Ht & Hid & Hsn & Htn & ->); [|done].
    destruct (authorized _ id) eqn:Ha; [|done]. intros [= <- <-].
    apply authorized_true in Ha as (Hl & He & c & Hc & Hg%elem_of_listServerCommittees).
    by exists s, t, c.
  - intros (s & t & c & Hs & Ht & Hid & Hsn & Htn & <- & <- & Hg & Hc & Hl & He).
    assert (ResolveTool sn tn d =
      Ok {| tb_Server := scanServer d s; tb_Tool := scanTool t |}) as ->
      by (apply ResolveTool_Ok; [done|]; by exists s, t).
    assert (authorized (scanServer d s) id = true) as Ha; [|simpl; by rewrite Ha].
    apply authorized_true. do 2 (split; [done|]). exists c. split; [done|].
    by apply elem_of_listServerCommittees.
Qed.

(** What a member of the committees is shown. *)
Definition shown (cs : list string) (sn tn sc im : string) (d : registry) : Prop :=
  ∃ vt, vt ∈ ListVisibleTools cs d ∧ vt_ServerName vt = sn ∧ vt_ToolName vt = tn ∧
    vt_Scope vt = sc ∧ vt_Impact vt = im.

Lemma shown_may_call cs sn tn sc im d :
  registry_wf d → shown cs sn tn sc im d ↔ may_call cs sn tn (platform_of d) = Some (sc, im).
Proof.
  intros Hwf. rewrite may_call_Some by done. unfold shown.
  setoid_rewrite elem_of_ListVisibleTools. setoid_rewrite elem_of_visible_join. split.
  - intros (vt & (s & t & c & Hs & Ht & Hid & Hg & Hc & Hl & He & ->) & <- & <- & <- & <-).
    by exists s, t, c.
  - intros (s & t & c & Hs & Ht & Hid & <- & <- & <- & <- & Hg & Hc & Hl & He).
    eexists. split; [by exists s, t, c|]. done.
Qed.

(** *** Histories *)

(** The identifiers that registrations draw in a history are new ones. *)
Fixpoint fresh_history (h : list (Stmt * op)) (d : db) : Prop :=
  match h with
  | [] => True
  | (st, o) :: h =>
      match o with OpRegisterServer i => fresh_ids st i (d_registry d) | _ => True end ∧
      fresh_history h (exec st o d)
  end.

Lemma platform_exec st o (x : db) :
  registry_wf (d_registry x) →
  match o with OpRegisterServer i => fresh_ids st i (d_registry x) | _ => True end →
  platform_of (d_registry (exec st o x)) = perform o (platform_of (d_registry x)).
Proof.
  intros Hwf Hf. destruct o; try reflexivity; simpl d_registry.
  - by apply platform_RegisterServer.
  - apply platform_SetServerLifecycle.
  - apply platform_SetServerEnabled.
Qed.

Lemma platform_run h : ∀ x : db,
  db_wf x → fresh_history h x →
  platform_of (d_registry (run h x)) = performs h (platform_of (d_registry x)).
Proof.
  induction h as [|[st o] h IH]; intros x Hwf; [done|]. intros [Hf Hh].
  change (run ((st, o) :: h) x) with (run h (exec st o x)).
  rewrite IH by (auto using exec_wf). cbn [performs foldl snd].
  by rewrite platform_exec by (done || apply Hwf).
Qed.

(** C10: The registry's three tables and the gateway's checks over them refine a map from
    server names to endpoint, lifecycle, switch, tools and committees: after every history
    of statements whose registrations draw new identifiers the tables abstract to the map
    that the same statements produce, and ResolveTool with authorized, and
    ListVisibleTools, answer exactly what that map permits. *)
Theorem registry_refines h :
  fresh_history h db_empty →
  let d := d_registry (run h db_empty) in
  let p := performs h ∅ in
  platform_of d = p ∧
  (∀ id sn tn, answer id sn tn d = may_call (Committees id) sn tn p) ∧
  (∀ cs sn tn sc im, shown cs sn tn sc im d ↔ may_call cs sn tn p = Some (sc, im)).
Proof.
  intros Hh d p.
  assert (platform_of d = p) as Hp by exact (platform_run h db_empty db_empty_wf Hh).
  assert (registry_wf d) as Hwf by apply (run_wf h db_empty db_empty_wf).
  rewrite <-Hp. split; [done|]. split; intros; [by apply answer_may_call|by apply shown_may_call].
Qed.
End refinement.

(** ** A history *)

#[local] Existing Instance unary_text.

Lemma registry_refines_witness :
  may_call ["finance"%string] "google" "send" (performs sample_history ∅) =
    Some ("mail.send", "high")%string ∧
  answer {| Subject := "agent"; Committees := ["finance"]; IsAgent := true |}%string "google" "send"
    (d_registry (run sample_history db_empty)) =
  may_call ["finance"%string] "google" "send" (performs sample_history ∅).
Proof.
  split; [vm_compute; reflexivity|].
  apply (registry_refines sample_history). simpl. split_and!; try done.
  split; apply (bool_decide_unpack _); vm_compute; exact I.
Defined.
