(* ===== verification/Http.v ===== *)
(** * The HTTP layer the services share

    Requests and responses as the handlers see them: net/http's ServeMux with
    method and wildcard patterns, the decoding of a JSON body into a struct,
    and the [writeJSON] helper that every service repeats. *)

From S2P Require Import Prelude GoText Float64 Json.
From Stdlib Require Import ZArith Lia Ascii.
From stdpp Require Import options.

Open Scope Z_scope.
Open Scope list_scope.

(** ** Requests and responses *)

(** [header] maps names, in lower case, to values; [path] are the segments of the
    URL path; [body] is the first JSON value of the body, or what is there
    instead of one. *)
Record Request := MkRequest {
  method : string;
  path : list string;
  query : gmap string string;
  header : gmap string string;
  cookies : gmap string string;
  body : RawMessage;
}.

Definition Header_Get (r : Request) (k : string) : string := default EmptyString (header r !! ToLower k).

Record Response := MkResponse { code : Z; payload : RawMessage }.

Definition StatusOK : Z := 200.
Definition StatusAccepted : Z := 202.
Definition StatusBadRequest : Z := 400.
Definition StatusUnauthorized : Z := 401.
Definition StatusForbidden : Z := 403.
Definition StatusNotFound : Z := 404.
Definition StatusConflict : Z := 409.
Definition StatusInternalServerError : Z := 500.
Definition StatusBadGateway : Z := 502.
Definition StatusServiceUnavailable : Z := 503.

Definition writeJSON (c : Z) (v : json) : Response := {| code := c; payload := RawJSON v |}.

(** map[string]string with one entry, the usual body of an answer *)
Definition obj1 (k v : string) : json := JObj [(k, JStr v)].

(** A number of an answer. *)
Definition JInt (z : Z) : json := JNum (f64_of_Z z).

(** ** Routing *)

Inductive seg : Type := Lit (s : string) | Var (name : string).

(** The path values of a match. *)
Fixpoint match_path (p : list seg) (segs : list string) : option (gmap string string) :=
  match p, segs with
  | [], [] => Some ∅
  | Lit s :: p, x :: segs => if String.eqb s x then match_path p segs else None
  | Var n :: p, x :: segs =>
      if nonempty x then (λ m, <[n := x]> m) <$> match_path p segs else None
  | _, _ => None
  end.

(** A GET pattern also matches HEAD; a pattern without a method matches all. *)
Definition match_method (pattern m : string) : bool :=
  negb (nonempty pattern) || String.eqb pattern m || (String.eqb pattern "GET" && String.eqb m "HEAD").

Record route (H : Type) := Route { r_method : string; r_path : list seg; r_handler : H }.
Arguments Route {H} _ _ _.
Arguments r_method {H} _.
Arguments r_path {H} _.
Arguments r_handler {H} _.

(** What the mux selects for a request. *)
Inductive dispatched (H : Type) : Type :=
  | Handled (h : H) (vars : gmap string string)
  | NotFound
  | MethodNotAllowed.
Arguments Handled {H} _ _.
Arguments NotFound {H}.
Arguments MethodNotAllowed {H}.

Fixpoint ServeMux {H} (routes : list (route H)) (m : string) (p : list string) :
    dispatched H :=
  match routes with
  | [] => NotFound
  | r :: routes =>
      match match_path (r_path r) p with
      | Some vars =>
          if match_method (r_method r) m then Handled (r_handler r) vars
          else match ServeMux routes m p with NotFound => MethodNotAllowed | d => d end
      | None => ServeMux routes m p
      end
  end.

(** http.Error *)
Definition http_Error (text : string) (c : Z) : Response :=
  {| code := c; payload := RawText (text +:+ NL) |}.

Definition not_found : Response := http_Error "404 page not found" StatusNotFound.
Definition method_not_allowed : Response := http_Error "Method Not Allowed" 405.

(** ** Decoding into a struct

    A key matches a field name without regard to case, the last one wins, and
    null leaves the field as it is; a value of another type is an error. *)

Definition conv_string (j : json) : option string :=
  match j with JStr s => Some s | _ => None end.
Definition conv_bool (j : json) : option bool :=
  match j with JBool b => Some b | _ => None end.

(** An integer field takes an integer literal in the range of int. *)
Definition conv_int (j : json) : option Z :=
  match j with
  | JNum f => z ← f64_to_Z f; if in_int64 z then Some z else None
  | _ => None
  end.

Definition decode_step {A} (conv : json → option A) (name : string)
    (acc : option A) (kv : string * json) : option A :=
  if String.eqb (ToLower kv.1) (ToLower name) then
    match kv.2 with
    | JNull => acc
    | v => match acc with Some _ => conv v | None => None end
    end
  else acc.

Definition decode_field {A} (conv : json → option A) (zero : A) (name : string)
    (fs : list (string * json)) : option A :=
  foldl (decode_step conv name) (Some zero) fs.

(** A field of type json.RawMessage takes any value, null included. *)
Definition decode_raw (name : string) (fs : list (string * json)) : RawMessage :=
  foldl (λ acc kv, if String.eqb (ToLower kv.1) (ToLower name) then RawJSON kv.2 else acc)
    RawEmpty fs.

(** [json.NewDecoder(r.Body).Decode(&v)] for a struct [v]. *)
Definition decode_body {A} (fields : list (string * json) → option A) (b : RawMessage) :
    option A :=
  match b with
  | RawJSON (JObj fs) => fields fs
  | RawJSON JNull => fields []
  | _ => None
  end.

(** ** The service bearer

    The middleware [auth] of the gateway and of the runtime service. *)
Definition bearer_ok (token : string) (r : Request) : bool :=
  nonempty token && String.eqb (Header_Get r "Authorization") ("Bearer " +:+ token).

Definition unauthorized : Response := writeJSON StatusUnauthorized (obj1 "error" "unauthorized").

(** ** Lemmas *)

Lemma bearer_ok_true token r :
  bearer_ok token r = true ↔
  token ≠ EmptyString ∧ Header_Get r "Authorization" = "Bearer " +:+ token.
Proof.
  unfold bearer_ok. by rewrite andb_true_iff, nonempty_true, String.eqb_eq.
Qed.

(** A field that no key names is zero. *)
Lemma decode_field_absent {A} conv (zero : A) name fs :
  (∀ kv, kv ∈ fs → ToLower kv.1 ≠ ToLower name) →
  decode_field conv zero name fs = Some zero.
Proof.
  unfold decode_field. induction fs as [|kv fs IH]; [done|]. intros Hn. simpl.
  unfold decode_step at 2.
  destruct (String.eqb_spec (ToLower kv.1) (ToLower name)) as [He|_].
  - by destruct (Hn kv (list_elem_of_here _ _)).
  - apply IH. intros kv' Hin. apply Hn. by right.
Qed.

(** The last key that names a field decides it. *)
Lemma decode_field_last {A} conv (zero : A) name fs v a :
  (∀ kv, kv ∈ fs → ToLower kv.1 ≠ ToLower name) → conv v = Some a → v ≠ JNull →
  decode_field conv zero name (fs ++ [(name, v)]) = Some a.
Proof.
  intros Hn Hc Hv. unfold decode_field. rewrite foldl_app.
  change (foldl _ (Some zero) fs) with (decode_field conv zero name fs).
  rewrite decode_field_absent by done. simpl. unfold decode_step. simpl.
  rewrite String.eqb_refl. by destruct v.
Qed.

Lemma match_path_lit s p vars : match_path [Lit s] p = Some vars → p = [s].
Proof.
  destruct p as [|x l]; [done|]. simpl. destruct (String.eqb_spec s x) as [->|]; [|done].
  by destruct l.
Qed.

Lemma match_method_POST m : match_method "POST" m = true → m = "POST"%string.
Proof.
  unfold match_method. change (negb (nonempty "POST") || String.eqb "POST" m ||
    (false && String.eqb m "HEAD") = true → m = "POST"%string).
  cbn [nonempty negb orb andb]. rewrite orb_false_r. by intros ->%String.eqb_eq.
Qed.

(** The handler that runs is one of the table, at a path of its pattern. *)
Lemma ServeMux_route {H} (rs : list (route H)) m p h vars :
  ServeMux rs m p = Handled h vars →
  ∃ r, r ∈ rs ∧ r_handler r = h ∧ match_path (r_path r) p = Some vars ∧
    match_method (r_method r) m = true.
Proof.
  revert h vars. induction rs as [|r rs IH]; intros h vars; simpl; [done|].
  assert (ServeMux rs m p = Handled h vars →
    ∃ r', r' ∈ r :: rs ∧ r_handler r' = h ∧ match_path (r_path r') p = Some vars ∧
      match_method (r_method r') m = true) as Hrec.
  { intros (r' & Hr' & ?)%IH. exists r'. split; [by right|done]. }
  destruct (match_path (r_path r) p) as [v|] eqn:Hp; [destruct (match_method _ _) eqn:Hm|].
  - intros [= <- <-]. exists r. split; [by left|done].
  - destruct (ServeMux rs m p) eqn:Hs; [|done..]. intros [= <- <-]. by apply Hrec.
  - intros Hs. by apply Hrec.
Qed.
