(* ===== verification/GatewayServer.v ===== *)
(** * The gateway's HTTP service (gateway/internal/server/server.go)

    Identity from the headers of the authenticating front, the bearer, the
    routes, and the translation of [Call]'s outcomes into answers. *)

From S2P Require Import Prelude GoText Float64 Json Limits Pg.
From S2P Require Import Memory Governance Registry Http Gateway.
From Stdlib Require Import ZArith Lia Ascii.
From stdpp Require Import options.

Open Scope Z_scope.
Open Scope list_scope.

(** ** Identity *)

Definition committees_of (raw : string) : list string :=
  if nonempty raw
  then filter (λ c, nonempty c = true) (TrimSpace <$> Split ","%char raw)
  else [].

Definition HeaderIdentity (r : Request) : result Identity :=
  let subject := Header_Get r "X-ScottyLabs-Subject" in
  if negb (nonempty subject) then Err (ErrNew "no subject")
  else Ok {| Subject := subject;
             Committees := committees_of (Header_Get r "X-ScottyLabs-Committees");
             IsAgent := String.eqb (Header_Get r "X-ScottyLabs-Agent") "true" |}.

(** ** Bodies *)

Record callBody := MkCallBody {
  cb_SessionID : string;
  cb_Server : string;
  cb_Tool : string;
  cb_Args : RawMessage;
}.

Definition decode_callBody (fs : list (string * json)) : option callBody :=
  sid ← decode_field conv_string EmptyString "session_id" fs;
  srv ← decode_field conv_string EmptyString "server" fs;
  tool ← decode_field conv_string EmptyString "tool" fs;
  Some {| cb_SessionID := sid; cb_Server := srv; cb_Tool := tool; cb_Args := decode_raw "args" fs |}.

Definition json_VisibleTool (t : VisibleTool) : json :=
  JObj [("server_name", JStr (vt_ServerName t)); ("server_id", JStr (vt_ServerID t));
        ("tool_name", JStr (vt_ToolName t)); ("scope", JStr (vt_Scope t));
        ("impact", JStr (vt_Impact t))]%string.

(** A result that is not JSON cannot be encoded; nothing follows the header. *)
Definition call_answer (res : CallResult) : Response :=
  match Output res with
  | RawEmpty => writeJSON StatusOK (JObj [("audit_id", JInt (AuditID res)); ("output", JNull)]%string)
  | RawJSON j => writeJSON StatusOK (JObj [("audit_id", JInt (AuditID res)); ("output", j)]%string)
  | RawText _ => {| code := StatusOK; payload := RawEmpty |}
  end.

Definition error_answer (e : error) : Response :=
  if errors_Is e ErrUnknownTool then writeJSON StatusNotFound (obj1 "error" "unknown tool")
  else if errors_Is e ErrUnauthorized then writeJSON StatusForbidden (obj1 "error" "unauthorized")
  else match errors_As_approval e with
       | Some (id, tool) =>
           writeJSON StatusAccepted
             (JObj [("approval_id", JStr id); ("status", JStr "approval_required");
                    ("tool", JStr tool)]%string)
       | None => writeJSON StatusBadGateway (obj1 "error" "call failed")
       end.

(** ** The server *)

Definition IdentityResolver : Type := Request → result Identity.

Record GwServer := MkGwServer { srv_token : string; srv_resolve : IdentityResolver }.

(** Without a resolver the identity is the one in the headers. *)
Definition New (token : string) (resolve : option IdentityResolver) : GwServer :=
  {| srv_token := token; srv_resolve := default HeaderIdentity resolve |}.

Section server.
Context {S D : Type} `{Store S} `{ToolCaller D} (s : GwServer).
Implicit Types (w : world S D).

(** ** Handlers *)

Definition handleTools (r : Request) : M (world S D) Response :=
  match srv_resolve s r with
  | Err _ => mret (writeJSON StatusUnauthorized (obj1 "error" "no identity"))
  | Ok id =>
      tools ← ListTools id;
      mret (match tools with
            | Err _ => writeJSON StatusInternalServerError (obj1 "error" "list failed")
            | Ok l => writeJSON StatusOK (JObj [("tools"%string, JArr (json_VisibleTool <$> l))])
            end)
  end.

Definition handleCall (t : Ticks) (r : Request) : M (world S D) Response :=
  match srv_resolve s r with
  | Err _ => mret (writeJSON StatusUnauthorized (obj1 "error" "no identity"))
  | Ok id =>
      match decode_body decode_callBody (body r) with
      | None => mret (writeJSON StatusBadRequest (obj1 "error" "bad request"))
      | Some b =>
          res ← Call t {| req_Identity := id; req_SessionID := cb_SessionID b;
                          req_ServerName := cb_Server b; req_ToolName := cb_Tool b;
                          req_Args := cb_Args b |};
          mret (match res with Ok out => call_answer out | Err e => error_answer e end)
      end
  end.

Definition auth (next : Request → M (world S D) Response) (r : Request) :
    M (world S D) Response :=
  if bearer_ok (srv_token s) r then next r else mret unauthorized.

Definition routes (t : Ticks) :
    list (route (Request → M (world S D) Response)) :=
  [ Route "GET" [Lit "healthz"] (λ _, mret (writeJSON StatusOK (obj1 "status" "ok")));
    Route "GET" [Lit "tools"] (auth handleTools);
    Route "POST" [Lit "call"] (auth (handleCall t)) ].

Definition Handler (t : Ticks) (r : Request) : M (world S D) Response :=
  match ServeMux (routes t) (method r) (path r) with
  | Handled h _ => h r
  | NotFound => mret not_found
  | MethodNotAllowed => mret method_not_allowed
  end.

(** ** Properties *)

(** Without the bearer token no route changes anything. *)
Theorem unauthenticated_inert t r w :
  bearer_ok (srv_token s) r = false → (Handler t r w).2 = w.
Proof.
  intros Hb. unfold Handler.
  assert (∀ next, auth next r = mret unauthorized) as Ha
    by (intros; unfold auth; by rewrite Hb).
  destruct (ServeMux _ _ _) as [h vars| |] eqn:Hd; [|done..].
  apply ServeMux_route in Hd as (rt & Hin & <- & _). unfold routes in Hin.
  rewrite !elem_of_cons, elem_of_nil in Hin. destruct Hin as [->|[->|[->|[]]]]; simpl.
  - done.
  - by rewrite Ha.
  - by rewrite Ha.
Qed.

(** What a decoded request asks the gateway for. *)
Definition call_request (id : Identity) (b : callBody) : CallRequest :=
  {| req_Identity := id; req_SessionID := cb_SessionID b; req_ServerName := cb_Server b;
     req_ToolName := cb_Tool b; req_Args := cb_Args b |}.

(** The answer to a decoded, authenticated call. *)
Lemma handleCall_run t r id b w :
  srv_resolve s r = Ok id → decode_body decode_callBody (body r) = Some b →
  handleCall t r w =
    (match (Call t (call_request id b) w).1 with Ok out => call_answer out | Err e => error_answer e end,
     (Call t (call_request id b) w).2).
Proof. intros Hid Hb. unfold handleCall. by rewrite Hid, Hb, M_bind_run. Qed.

Lemma call_answer_code out : code (call_answer out) = StatusOK.
Proof. unfold call_answer. by destruct (Output out). Qed.

(** An error that is answered as a refusal. *)
Definition refusal (e : error) : bool :=
  errors_Is e ErrUnknownTool || errors_Is e ErrUnauthorized ||
  bool_decide (is_Some (errors_As_approval e)).

Definition refusal_codes : list Z := [StatusAccepted; StatusForbidden; StatusNotFound].

Lemma error_answer_code e :
  code (error_answer e) ∈ (if refusal e then refusal_codes else [StatusBadGateway]).
Proof.
  unfold error_answer, refusal, refusal_codes. destruct (errors_Is e ErrUnknownTool); [set_solver|].
  destruct (errors_Is e ErrUnauthorized); [set_solver|].
  destruct (errors_As_approval e) as [[id tool]|]; [rewrite bool_decide_eq_true_2 by by eexists|];
    set_solver.
Qed.

(** A call that left and came back without a result: the error is the one that
    the server's caller gave. *)
Lemma Call_Err_calls t req w e :
  (Call t req w).1 = Err e →
  w_calls (Call t req w).2 = w_calls w ∨
  ∃ b d e' d', cleared req b (w_store w) ∧
    tc_Call (tb_Server b) (tb_Tool b) (req_Args req) d = (Err e', d') ∧
    e = ErrWrap "gateway: downstream call: " e' ∧
    w_calls (Call t req w).2 = w_calls w ++ [(tb_Server b, tb_Tool b, req_Args req)].
Proof.
  destruct (Call_cases t req w) as [(b & w1 & Hc & Hw & ->)|[? _]]; [|by left].
  unfold proxy_call. rewrite M_bind_run, M_bind_run. unfold downstream.
  destruct (tc_Call _ _ _ (w_down w1)) as [[o|e'] d'] eqn:Hd; cbn [fst snd]; [done|].
  intros [= <-]. right. exists b, (w_down w1), e', d'. do 3 (split; [done|]).
  rewrite quiet_ret, quiet_audit. simpl. by rewrite Hw.
Qed.

Lemma refusal_wrapped p e :
  refusal (ErrWrap p e) = refusal e.
Proof.
  assert (∀ x, errors_Is (ErrWrap p e) (ErrNew x) = errors_Is e (ErrNew x)) as He.
  { intros x. cbn [errors_Is]. by rewrite bool_decide_false. }
  unfold refusal, ErrUnknownTool, ErrUnauthorized. by rewrite !He.
Qed.

(** The handler behind the bearer. *)
Lemma handleCall_status t r w :
  let '(resp, w') := handleCall t r w in
  (code resp = StatusUnauthorized ∧ w' = w ∧ is_ok (srv_resolve s r) = false) ∨
  (code resp = StatusBadRequest ∧ w' = w ∧ is_ok (srv_resolve s r) = true ∧
     decode_body decode_callBody (body r) = None) ∨
  ∃ id b, srv_resolve s r = Ok id ∧ decode_body decode_callBody (body r) = Some b ∧
    let sent tb := cleared (call_request id b) tb (w_store w) ∧
      w_calls w' = w_calls w ++ [(tb_Server tb, tb_Tool tb, cb_Args b)] in
    (code resp = StatusOK ∧ ∃ tb, sent tb) ∨
    (code resp ∈ refusal_codes ∧
     (w_calls w' = w_calls w ∨
      ∃ tb d e d', sent tb ∧ tc_Call (tb_Server tb) (tb_Tool tb) (cb_Args b) d = (Err e, d') ∧
        refusal e = true)) ∨
    (code resp = StatusBadGateway ∧ (w_calls w' = w_calls w ∨ ∃ tb, sent tb)).
Proof.
  destruct (srv_resolve s r) as [id|e] eqn:Hid; [|unfold handleCall; rewrite Hid; by left].
  destruct (decode_body decode_callBody (body r)) as [b|] eqn:Hb;
    [|unfold handleCall; rewrite Hid, Hb; by right; left].
  rewrite (handleCall_run t r id b w Hid Hb). do 2 right. exists id, b. do 2 (split; [done|]).
  destruct (Call t (call_request id b) w).1 as [out|e] eqn:Hc.
  - left. split; [apply call_answer_code|].
    destruct (Call_Ok_calls t _ w out Hc) as (tb & Hcl & _ & Hw). by exists tb.
  - right. pose proof (error_answer_code e) as Hcode.
    apply Call_Err_calls in Hc as [Hw|(tb & d & e' & d' & Hcl & Hd & -> & Hw)].
    + destruct (refusal e); [left|right]; (split; [set_solver|by left]).
    + rewrite refusal_wrapped in Hcode. destruct (refusal e') eqn:Hr; [left|right];
        (split; [set_solver|right]); [by exists tb, d, e', d'|by exists tb].
Qed.

(** C40: POST /call answers 401 exactly when the service's bearer is missing or wrong or
    the request has no identity, and otherwise 400 for a body that does not decode, and
    then changes nothing; in all other cases 200 means that the cleared call of the body
    was sent exactly once, 202, 403 and 404 that no call was sent, unless the downstream
    caller itself returned such an error, and every other failure is a 502 after at most
    that one call. *)
Theorem call_route_status t qs hs cs bd w :
  let r := {| method := "POST"; path := ["call"%string]; query := qs; header := hs; cookies := cs;
              body := bd |} in
  let '(resp, w') := Handler t r w in
  (code resp = StatusUnauthorized ∧ w' = w ∧
     (bearer_ok (srv_token s) r = false ∨ is_ok (srv_resolve s r) = false)) ∨
  bearer_ok (srv_token s) r = true ∧
  ((code resp = StatusBadRequest ∧ w' = w ∧ is_ok (srv_resolve s r) = true ∧
      decode_body decode_callBody bd = None) ∨
   ∃ id b, srv_resolve s r = Ok id ∧ decode_body decode_callBody bd = Some b ∧
     let sent tb := cleared (call_request id b) tb (w_store w) ∧
       w_calls w' = w_calls w ++ [(tb_Server tb, tb_Tool tb, cb_Args b)] in
     (code resp = StatusOK ∧ ∃ tb, sent tb) ∨
     (code resp ∈ refusal_codes ∧
      (w_calls w' = w_calls w ∨
       ∃ tb d e d', sent tb ∧ tc_Call (tb_Server tb) (tb_Tool tb) (cb_Args b) d = (Err e, d') ∧
         refusal e = true)) ∨
     (code resp = StatusBadGateway ∧ (w_calls w' = w_calls w ∨ ∃ tb, sent tb))).
Proof.
  intros r. assert (Handler t r = auth (handleCall t) r) as -> by reflexivity. unfold auth.
  destruct (bearer_ok (srv_token s) r); [|by left; auto].
  pose proof (handleCall_status t r w) as Hs. destruct (handleCall t r w) as [resp w'].
  destruct Hs as [(? & ? & ?)|Hs]; [left; by auto|right; split; [done|]]. exact Hs.
Qed.
End server.
