(* ===== verification/Path.v ===== *)
(** * Slash-separated paths (path/filepath on Unix)

    [Clean] and [Join] as the services use them, and the one fact the recipe
    loader needs: joining a directory with plain segments stays below it. *)

From S2P Require Import Prelude GoText.
From Stdlib Require Import ZArith Lia Ascii.
From stdpp Require Import options.

Open Scope list_scope.

Definition SEP : ascii := "/"%char.

(** One segment of the path against the segments kept so far, last first. *)
Definition path_step (rooted : bool) (acc : list string) (s : string) : list string :=
  if String.eqb s EmptyString || String.eqb s "." then acc
  else if String.eqb s ".." then
    match acc with
    | x :: rest => if String.eqb x ".." then ".."%string :: acc else rest
    | [] => if rooted then [] else [".."%string]
    end
  else s :: acc.

Definition rooted (p : string) : bool := is_prefix "/" p.

Definition clean_segs (p : string) : list string :=
  reverse (foldl (path_step (rooted p)) [] (Split SEP p)).

(** The path with the given segments. *)
Definition render (root : bool) (segs : list string) : string :=
  if root then "/" +:+ Join "/" segs
  else match segs with [] => "." | _ => Join "/" segs end.

Definition Clean (p : string) : string := render (rooted p) (clean_segs p).

Definition path_Join (elems : list string) : string :=
  match filter (λ e, nonempty e = true) elems with
  | [] => EmptyString
  | l => Clean (Join "/" l)
  end.

(** A segment that [Clean] keeps as it is. *)
Definition plain (s : string) : Prop :=
  s ≠ EmptyString ∧ s ≠ "."%string ∧ s ≠ ".."%string ∧
  string_forall (λ d, negb (Ascii.eqb d SEP)) s = true.

(** The paths below a directory: its own segments, then plain ones. *)
Definition below (dir p : string) : Prop :=
  ∃ segs, segs ≠ [] ∧ Forall plain segs ∧ p = render (rooted dir) (clean_segs dir ++ segs).

(** ** Lemmas *)

Lemma path_step_plain b acc s : plain s → path_step b acc s = s :: acc.
Proof.
  intros (H1 & H2 & H3 & _). unfold path_step. apply String.eqb_neq in H1, H2, H3.
  by rewrite H1, H2, H3.
Qed.

Lemma foldl_plain b segs : ∀ acc,
  Forall plain segs → foldl (path_step b) acc segs = reverse segs ++ acc.
Proof.
  induction segs as [|s segs IH]; intros acc Hs; [done|].
  apply Forall_cons in Hs as [Hp Hs]. simpl.
  rewrite path_step_plain, IH by done. rewrite reverse_cons, <-(assoc_L (++)). done.
Qed.

(** With a root there is nothing left to climb over. *)
Lemma path_step_rooted acc s :
  Forall plain acc → string_forall (λ d, negb (Ascii.eqb d SEP)) s = true →
  Forall plain (path_step true acc s).
Proof.
  intros Ha Hs. unfold path_step.
  destruct (String.eqb_spec s EmptyString); [done|].
  destruct (String.eqb_spec s "."); [done|]. simpl.
  destruct (String.eqb_spec s "..") as [->|].
  - destruct Ha as [|x acc Hx Ha]; [constructor|].
    destruct (String.eqb_spec x "..") as [->|]; [|done]. by destruct Hx as (_ & _ & ? & _).
  - constructor; [done|]. done.
Qed.

Lemma foldl_rooted segs : ∀ acc,
  Forall plain acc →
  Forall (λ s, string_forall (λ d, negb (Ascii.eqb d SEP)) s = true) segs →
  Forall plain (foldl (path_step true) acc segs).
Proof.
  induction segs as [|s segs IH]; intros acc Ha Hs; [done|].
  apply Forall_cons in Hs as [H1 Hs]. simpl. apply IH; [|done]. by apply path_step_rooted.
Qed.

Lemma clean_segs_rooted p : rooted p = true → Forall plain (clean_segs p).
Proof.
  intros Hr. unfold clean_segs. rewrite Hr. apply Forall_reverse, foldl_rooted; [constructor|].
  apply Forall_forall. intros s Hs. by apply Split_no_sep in Hs.
Qed.

Lemma plain_no_sep segs :
  Forall plain segs → Forall (λ s, string_forall (λ d, negb (Ascii.eqb d SEP)) s = true) segs.
Proof. intros H. eapply Forall_impl; [done|]. by intros s (_ & _ & _ & ?). Qed.

Lemma rooted_append d x : d ≠ EmptyString → rooted (d +:+ x) = rooted d.
Proof. by destruct d as [|c d]. Qed.

(** Joining a directory with a relative path of plain segments. *)
Lemma path_Join_below dir x segs :
  segs ≠ [] → Forall plain segs → Split SEP x = segs → x ≠ EmptyString →
  below dir (path_Join [dir; x]).
Proof.
  intros Hne Hp Hx Hxne. exists segs. do 2 (split; [done|]).
  unfold path_Join. rewrite filter_cons, filter_cons, filter_nil.
  apply nonempty_true in Hxne. rewrite (decide_True (P:=nonempty x = true)) by done.
  case_decide as Hd; simpl.
  - apply nonempty_true in Hd. unfold Join. simpl. unfold Clean, clean_segs.
    rewrite rooted_append by done. f_equal.
    change (String "/" x) with (String SEP x).
    rewrite Split_app, Hx, foldl_app, foldl_plain by done.
    rewrite reverse_app, reverse_involutive. done.
  - assert (dir = EmptyString) as -> by (destruct dir; done).
    unfold Clean, clean_segs. simpl.
    assert (rooted x = false) as ->.
    { destruct (rooted x) eqn:Hr; [|done]. apply prefix_true in Hr as [t ->].
      rewrite <-Hx in Hp. simpl in Hp. apply Forall_cons in Hp as [Hp _]. by destruct Hp. }
    rewrite Hx, foldl_plain by done. by rewrite app_nil_r, reverse_involutive.
Qed.
