(* ===== verification/FileTree.v ===== *)
(** * Files and directory walks (os, path/filepath)

    Directory trees as [filepath.WalkDir] sees them, the walk itself with its
    callback's three outcomes, and the path functions the walkers use. The
    lemma [WalkDir_visitor] says what a walk that collects files computes. *)

From S2P Require Import Prelude GoText Path.
From Stdlib Require Import ZArith Lia Ascii.
From stdpp Require Import options.

Open Scope Z_scope.
Open Scope list_scope.

(** ** Trees *)

(** A file has the outcome of [Info().Size()] and of [os.ReadFile]; a
    directory has the error of [os.ReadDir], if any, and the entries it
    returned, which ReadDir sorts by name. *)
Inductive node : Type :=
  | File (size : result Z) (content : result string)
  | Dir (failed : option error) (entries : list (string * node)).

(** What is at a path. *)
Abbreviation FS := (string → option node).

Definition ErrNotExist : error := ErrNew "no such file or directory".
Definition ErrIsDirectory : error := ErrNew "is a directory".

Definition os_IsNotExist (e : error) : bool := errors_Is e ErrNotExist.

Definition os_ReadFile (fs : FS) (path : string) : result string :=
  match fs path with
  | Some (File _ c) => c
  | Some (Dir _ _) => Err (ErrWrap ("read " +:+ path +:+ ": ") ErrIsDirectory)
  | None => Err (ErrWrap ("open " +:+ path +:+ ": ") ErrNotExist)
  end.

(** ** Path functions *)

(** [FileInfo.Name] of the root of a walk: the last element. *)
Definition basename (p : string) : string :=
  match list.last (filter (λ e, nonempty e = true) (Split SEP p)) with
  | Some s => s
  | None => if nonempty p then "/" else EmptyString
  end.

(** [filepath.Ext] of a name without slashes. *)
Definition Ext (name : string) : string :=
  match Split "."%char name with
  | [] | [_] => EmptyString
  | l => "." +:+ default EmptyString (list.last l)
  end.

(** What is left of two lists after their longest common prefix. *)
Fixpoint strip_common (a b : list string) : list string * list string :=
  match a, b with
  | x :: a', y :: b' => if String.eqb x y then strip_common a' b' else (a, b)
  | _, _ => (a, b)
  end.

(** [rel, _ := filepath.Rel(base, targ)]: empty when there is an error. *)
Definition Rel (base targ : string) : string :=
  if negb (Bool.eqb (rooted base) (rooted targ)) then EmptyString
  else
    let '(b, t) := strip_common (clean_segs base) (clean_segs targ) in
    match b with
    | x :: _ => if String.eqb x ".." then EmptyString
                else Join "/" (((λ _, ".."%string) <$> b) ++ t)
    | [] => match t with [] => "." | _ => Join "/" t end
    end.

(** ** The walk *)

(** What the callback answers: nil, [fs.SkipDir] or another error. *)
Inductive walk : Type := Continue | SkipDir | Failed (e : error).

(** The callback's [fs.DirEntry]. *)
Abbreviation DirEntry := (string * node)%type.

Section walk.
Context {A : Type}.
Implicit Types (a : A) (n : node).

(** A callback: the path, the entry (nil when the root has none) and the error
    that stopped the reading of it, if any. *)
Abbreviation WalkFn := (string → option DirEntry → option error → M A walk).

Variable fn : WalkFn.

Fixpoint walkDir (path name : string) (n : node) (a : A) : walk * A :=
  let '(r, a1) := fn path (Some (name, n)) None a in
  match n, r with
  | File _ _, _ | _, Failed _ => (r, a1)
  | Dir _ _, SkipDir => (Continue, a1)
  | Dir failed es, Continue =>
      let '(r2, a2) := match failed with
                       | Some e => fn path (Some (name, n)) (Some e) a1
                       | None => (Continue, a1)
                       end in
      match r2 with
      | Failed _ => (r2, a2)
      | SkipDir => (Continue, a2)
      | Continue =>
          (fix entries (es : list (string * node)) (a : A) : walk * A :=
             match es with
             | [] => (Continue, a)
             | (nm, x) :: es =>
                 let '(r, a) := walkDir (path_Join [path; nm]) nm x a in
                 match r with
                 | Continue => entries es a
                 | SkipDir => (Continue, a)          (* break *)
                 | Failed _ => (r, a)
                 end
             end) es a2
      end
  end.

Definition WalkDir (fs : FS) (root : string) (a : A) : option error * A :=
  let '(r, a) := match fs root with
                 | None => fn root None (Some (ErrWrap ("lstat " +:+ root +:+ ": ") ErrNotExist)) a
                 | Some n => walkDir root (basename root) n a
                 end in
  (match r with Failed e => Some e | _ => None end, a).
End walk.

(** ** Walks that visit files *)

(** A file met by a walk: its path, its name and its size. *)
Record found := Found { f_path : string; f_name : string; f_size : result Z }.

(** The callbacks of this program go into the directories that [enter] admits,
    update their state at each file and answer an error with [onerr]. *)
Record visitor {A} (fn : string → option DirEntry → option error → M A walk)
    (enter : string → bool) (visit : found → A → A) (onerr : error → walk) : Prop := {
  visitor_error : ∀ p d e a, fn p d (Some e) a = (onerr e, a);
  visitor_file : ∀ p nm s c a,
    fn p (Some (nm, File s c)) None a = (Continue, visit (Found p nm s) a);
  visitor_dir : ∀ p nm f es a,
    fn p (Some (nm, Dir f es)) None a = (if enter nm then Continue else SkipDir, a);
}.

(** The callback of LoadDir and of slvalidate's findFiles: collect the files to
    keep; a directory that does not exist is not an error. *)
Definition collect (keep : string → bool) (path : string) (d : option DirEntry)
    (err : option error) : M (list string) walk := λ paths,
  match err with
  | Some e => (if os_IsNotExist e then SkipDir else Failed e, paths)
  | None =>
      match d with
      | Some (name, File _ _) => (Continue, if keep name then paths ++ [path] else paths)
      | _ => (Continue, paths)
      end
  end.

Section visits.
Variables (enter : string → bool) (onerr : error → walk).

Definition joined (path : string) (e : string * node) : string := path_Join [path; e.1].

(** The files below a node, in the order of the walk. A directory that cannot
    be read and whose error is skipped has none. *)
Fixpoint listing (path name : string) (n : node) : list found :=
  match n with
  | File s _ => [Found path name s]
  | Dir failed es =>
      if enter name then
        match onerr <$> failed with
        | None | Some Continue =>
            (fix entries (es : list (string * node)) : list found :=
               match es with
               | [] => []
               | (nm, x) :: es => listing (path_Join [path; nm]) nm x ++ entries es
               end) es
        | Some _ => []
        end
      else []
  end.

(** Every directory the walk enters can be read, or its error is skipped. *)
Fixpoint readable (name : string) (n : node) : bool :=
  match n with
  | File _ _ => true
  | Dir failed es =>
      if enter name then
        match onerr <$> failed with
        | Some (Failed _) => false
        | Some SkipDir => true
        | None | Some Continue =>
            (fix entries (es : list (string * node)) : bool :=
               match es with
               | [] => true
               | (nm, x) :: es => readable nm x && entries es
               end) es
        end
      else true
  end.

Definition visit_all {A} (visit : found → A → A) (l : list found) (a : A) : A :=
  foldl (λ a f, visit f a) a l.

Lemma visit_all_app {A} (visit : found → A → A) l k a :
  visit_all visit (l ++ k) a = visit_all visit k (visit_all visit l a).
Proof. apply foldl_app. Qed.

End visits.

(** Induction over a tree, with the hypothesis for every entry. *)
Lemma node_induction (P : node → Prop) :
  (∀ s c, P (File s c)) → (∀ f es, Forall (λ e, P e.2) es → P (Dir f es)) → ∀ n, P n.
Proof.
  intros Hf Hd. fix IH 1. intros [s c|f es]; [apply Hf|]. apply Hd.
  induction es as [|[nm x] es IHes]; constructor; [apply IH|done].
Qed.

(** A walk visits the files of [listing] in order, or fails. *)
Lemma walkDir_visitor {A} fn enter (visit : found → A → A) onerr n :
  visitor fn enter visit onerr → ∀ path name a,
  if readable enter onerr name n
  then walkDir fn path name n a = (Continue, visit_all visit (listing enter onerr path name n) a)
  else ∃ e, (walkDir fn path name n a).1 = Failed e.
Proof.
  intros Hv. induction n as [s c|f es IH] using node_induction; intros path name a.
  - simpl. by rewrite (visitor_file _ _ _ _ Hv).
  - simpl. rewrite (visitor_dir _ _ _ _ Hv). destruct (enter name); [|done].
    assert (∀ a, let '(r, a1) := match f with
        | Some e => fn path (Some (name, Dir f es)) (Some e) a
        | None => (Continue, a) end in
        a1 = a ∧ r = default Continue (onerr <$> f)) as Hread.
    { intros b. destruct f; [|done]. by rewrite (visitor_error _ _ _ _ Hv). }
    specialize (Hread a). destruct (match f with Some _ => _ | None => _ end) as [r a1].
    destruct Hread as [-> ->].
    assert (∀ r : walk, r = Continue → default Continue (onerr <$> f) = r →
      onerr <$> f = None ∨ onerr <$> f = Some Continue) as Hcont.
    { intros r -> Hr. destruct f; simpl in *; [right; by rewrite Hr|by left]. }
    destruct (default Continue (onerr <$> f)) as [| |e] eqn:Hr.
    + assert (∀ {B} (x y z : B), match onerr <$> f with
        | None | Some Continue => x | Some (Failed _) => y | _ => z end = x) as Hm.
      { intros B x y z. by destruct (Hcont _ eq_refl eq_refl) as [-> | ->]. }
      assert (∀ {B} (x y : B), match onerr <$> f with
        | None | Some Continue => x | Some _ => y end = x) as Hm2.
      { intros B x y. by destruct (Hcont _ eq_refl eq_refl) as [-> | ->]. }
      rewrite Hm, Hm2. clear Hm Hm2 Hr Hcont. revert a.
      induction IH as [|[nm x] es Hx _ IHes]; intros a; [done|].
      specialize (Hx (path_Join [path; nm]) nm a). simpl in Hx |- *.
      destruct (readable enter onerr nm x); simpl.
      * rewrite Hx, visit_all_app. apply IHes.
      * destruct Hx as [e He]. destruct (walkDir _ _ _ x a) as [r' a']. simpl in He. subst r'.
        by exists e.
    + destruct f; simpl in *; [|done]. by rewrite Hr.
    + destruct f; simpl in *; [|done]. rewrite Hr. by exists e.
Qed.

Lemma WalkDir_visitor {A} fs fn enter (visit : found → A → A) onerr root n a :
  visitor fn enter visit onerr → fs root = Some n →
  readable enter onerr (basename root) n = true →
  WalkDir fn fs root a = (None, visit_all visit (listing enter onerr root (basename root) n) a).
Proof.
  intros Hv Hn Hr. unfold WalkDir. rewrite Hn.
  pose proof (walkDir_visitor fn enter visit onerr n Hv root (basename root) a) as Hw.
  rewrite Hr in Hw. by rewrite Hw.
Qed.

(** A walk that ends without an error. *)
Lemma WalkDir_success {A} fs fn enter (visit : found → A → A) onerr root a a' :
  visitor fn enter visit onerr → WalkDir fn fs root a = (None, a') →
  match fs root with
  | None => a' = a
  | Some n => readable enter onerr (basename root) n = true ∧
              a' = visit_all visit (listing enter onerr root (basename root) n) a
  end.
Proof.
  intros Hv. unfold WalkDir. destruct (fs root) as [n|].
  - pose proof (walkDir_visitor fn enter visit onerr n Hv root (basename root) a) as Hw.
    destruct (readable _ _ _ n).
    + rewrite Hw. by intros [= <-].
    + destruct Hw as [e He]. destruct (walkDir _ _ _ n a) as [r b]. simpl in He. by subst r.
  - rewrite (visitor_error _ _ _ _ Hv). by destruct (onerr _); intros [= <-].
Qed.

(** A walk that collects the paths of the files it keeps. *)
Lemma visit_all_collect {B} (f : found → option B) l (acc : list B) :
  visit_all (λ x acc, match f x with Some p => acc ++ [p] | None => acc end) l acc
  = acc ++ omap f l.
Proof.
  revert acc. induction l as [|x l IH]; intros acc; simpl; [by rewrite app_nil_r|].
  rewrite IH. destruct (f x); simpl; [by rewrite <-(assoc_L (++))|done].
Qed.

Definition skip_missing (e : error) : walk := if os_IsNotExist e then SkipDir else Failed e.

Lemma collect_visitor keep :
  visitor (collect keep) (λ _, true)
    (λ f acc, match (if keep (f_name f) then Some (f_path f) else None) with
              | Some p => acc ++ [p] | None => acc end) skip_missing.
Proof. constructor; [done| |done]. intros p nm s c a. simpl. by destruct (keep nm). Qed.

(** The paths below a root whose files are kept, in the order of the walk. *)
Definition kept_paths (keep : string → bool) (root : string) (n : node) : list string :=
  f_path <$> filter (λ f, keep (f_name f) = true)
               (listing (λ _, true) skip_missing root (basename root) n).

Lemma omap_filter {A B} (p : A → bool) (f : A → B) (l : list A) :
  omap (λ x, if p x then Some (f x) else None) l = f <$> filter (λ x, p x = true) l.
Proof.
  induction l as [|x l IH]; simpl; [done|]. rewrite filter_cons. destruct (p x).
  - rewrite decide_True by done. simpl. f_equal. exact IH.
  - rewrite decide_False by done. exact IH.
Qed.

Lemma WalkDir_collect fs keep root paths :
  WalkDir (collect keep) fs root [] = (None, paths) →
  paths = default [] (kept_paths keep root <$> fs root).
Proof.
  intros Hw%(WalkDir_success _ _ _ _ _ _ _ _ (collect_visitor keep)).
  destruct (fs root) as [n|]; simpl; [|done]. destruct Hw as [_ ->].
  rewrite (visit_all_collect (λ f, if keep (f_name f) then Some (f_path f) else None)).
  apply omap_filter.
Qed.
