(* ===== verification/Regexp.v ===== *)
(** * Regular expressions (regexp)

    The expressions the programs compile with [regexp.MustCompile]: their
    meaning as a relation, a matcher by derivatives, and the search for a
    match anywhere in a text, which is what [re.Match] decides. *)

From S2P Require Import Prelude GoText.
From Stdlib Require Import ZArith Lia Ascii.
From stdpp Require Import options.

Open Scope list_scope.

Inductive regexp : Type :=
  | Void                                  (* no text *)
  | Eps                                   (* the empty text *)
  | Cls (p : ascii → bool)                (* one byte of a class *)
  | Seq (r s : regexp)
  | Alt (r s : regexp)
  | Star (r : regexp).

(** ** The constructions of the pattern language *)

(** Literal text. *)
Fixpoint lit (s : string) : regexp :=
  match s with
  | EmptyString => Eps
  | String c EmptyString => Cls (Ascii.eqb c)
  | String c s => Seq (Cls (Ascii.eqb c)) (lit s)
  end.

(** [r{n}] *)
Fixpoint times (n : nat) (r : regexp) : regexp :=
  match n with O => Eps | S n => Seq r (times n r) end.

(** [r{n,}] *)
Definition at_least (n : nat) (r : regexp) : regexp := Seq (times n r) (Star r).

(** [(?:a|b|...)?] *)
Definition optional (l : list string) : regexp := foldr (λ s r, Alt (lit s) r) Eps l.

(** A sequence. *)
Definition seq (l : list regexp) : regexp := foldr Seq Eps l.

(** [\s] *)
Definition class_s (c : ascii) : bool := in_range 9 10 c || in_range 12 13 c || in_range 32 32 c.
Definition class_digit (c : ascii) : bool := in_range 48 57 c.          (* [0-9] *)
Definition class_hex (c : ascii) : bool := in_range 48 57 c || in_range 97 102 c.
Definition class_upper (c : ascii) : bool := in_range 65 90 c || in_range 48 57 c.
Definition class_alnum (c : ascii) : bool :=
  in_range 48 57 c || in_range 65 90 c || in_range 97 122 c.
Definition class_word (c : ascii) : bool := class_alnum c || Ascii.eqb c "_"%char.

(** ** Meaning *)

Inductive matches : regexp → string → Prop :=
  | m_eps : matches Eps EmptyString
  | m_cls p c : p c = true → matches (Cls p) (String c EmptyString)
  | m_seq r s a b : matches r a → matches s b → matches (Seq r s) (a +:+ b)
  | m_alt_l r s a : matches r a → matches (Alt r s) a
  | m_alt_r r s a : matches s a → matches (Alt r s) a
  | m_star_nil r : matches (Star r) EmptyString
  | m_star r a b : matches r a → matches (Star r) b → matches (Star r) (a +:+ b).

(** ** The matcher *)

Fixpoint nullable (r : regexp) : bool :=
  match r with
  | Void | Cls _ => false
  | Eps | Star _ => true
  | Seq r s => nullable r && nullable s
  | Alt r s => nullable r || nullable s
  end.

(** Constructors that drop what is void, so that derivatives stay small. *)
Definition mk_seq (r s : regexp) : regexp :=
  match r with Void => Void | Eps => s | _ => match s with Void => Void | _ => Seq r s end end.
Definition mk_alt (r s : regexp) : regexp :=
  match r, s with Void, _ => s | _, Void => r | _, _ => Alt r s end.

Fixpoint deriv (c : ascii) (r : regexp) : regexp :=
  match r with
  | Void | Eps => Void
  | Cls p => if p c then Eps else Void
  | Seq r s =>
      if nullable r then mk_alt (mk_seq (deriv c r) s) (deriv c s) else mk_seq (deriv c r) s
  | Alt r s => mk_alt (deriv c r) (deriv c s)
  | Star r => mk_seq (deriv c r) (Star r)
  end.

(** Does some prefix of the text match? *)
Fixpoint match_prefix (r : regexp) (s : string) : bool :=
  nullable r ||
  match r, s with
  | Void, _ | _, EmptyString => false
  | _, String c s => match_prefix (deriv c r) s
  end.

(** [re.Match]: does some part of the text match? *)
Fixpoint re_Match (r : regexp) (s : string) : bool :=
  match_prefix r s || match s with EmptyString => false | String _ s => re_Match r s end.

(** ** Correctness *)

Lemma nullable_matches r : nullable r = true ↔ matches r EmptyString.
Proof.
  split.
  - induction r as [| |p|r IHr s IHs|r IHr s IHs|r IH]; simpl; try done.
    + constructor.
    + intros [? ?]%andb_prop. apply (m_seq r s EmptyString EmptyString); auto.
    + intros [?|?]%orb_prop; [apply m_alt_l|apply m_alt_r]; auto.
    + constructor.
  - remember EmptyString as e eqn:He. intros H. revert He.
    induction H as [|p c Hp|r s a b _ IHa _ IHb|r s a _ IH|r s a _ IH|r|r a b _ _ _ _];
      intros He; simpl; try done.
    + destruct a; [|done]. simpl in He. by rewrite IHa, IHb.
    + by rewrite IH.
    + rewrite IH by done. apply orb_true_r.
Qed.

Lemma Void_matches s : ¬ matches Void s.
Proof. intros H. inversion H. Qed.

Lemma Eps_matches s : matches Eps s ↔ s = EmptyString.
Proof. split; [by inversion 1|intros ->; constructor]. Qed.

Lemma Seq_matches r s t : matches (Seq r s) t ↔ ∃ a b, t = a +:+ b ∧ matches r a ∧ matches s b.
Proof. split; [inversion 1; naive_solver|intros (a & b & -> & ? & ?); by constructor]. Qed.

Lemma Alt_matches r s t : matches (Alt r s) t ↔ matches r t ∨ matches s t.
Proof.
  split; [inversion 1; naive_solver|intros [?|?]; [by apply m_alt_l|by apply m_alt_r]].
Qed.

Lemma mk_seq_matches r s t : matches (mk_seq r s) t ↔ matches (Seq r s) t.
Proof.
  assert (matches (Seq r Void) t ↔ False) as Hv.
  { rewrite Seq_matches. split; [|done]. intros (? & ? & _ & _ & []%Void_matches). }
  destruct r; simpl; try (destruct s; [|done..]; rewrite Hv; split; [apply Void_matches|done]).
  - rewrite Seq_matches. split; [by intros ?%Void_matches|].
    intros (? & ? & _ & []%Void_matches & _).
  - rewrite Seq_matches. split.
    + intros ?. exists EmptyString, t. split_and!; [done|constructor|done].
    + by intros (a & b & -> & ->%Eps_matches & ?).
Qed.

Lemma mk_alt_matches r s t : matches (mk_alt r s) t ↔ matches (Alt r s) t.
Proof.
  pose proof (Void_matches t) as Hv. rewrite Alt_matches.
  destruct r; simpl; try (destruct s; simpl); rewrite ?Alt_matches; naive_solver.
Qed.

(** A match of a star that is not empty begins with a part that is not. *)
Lemma Star_cons c r t :
  matches (Star r) (String c t) →
  ∃ a b, t = a +:+ b ∧ matches r (String c a) ∧ matches (Star r) b.
Proof.
  remember (Star r) as q eqn:Hq. remember (String c t) as u eqn:Hu. intros H.
  revert Hq Hu. induction H as [| | | | | |q a b Ha _ Hb IH]; intros Hq Hu; try done.
  injection Hq as ->. destruct a as [|d a]; simpl in Hu.
  - by apply IH.
  - injection Hu as -> <-. by exists a, b.
Qed.

Lemma deriv_matches c r : ∀ t, matches (deriv c r) t ↔ matches r (String c t).
Proof.
  induction r as [| |p|r IHr s IHs|r IHr s IHs|r IH]; intros t; simpl.
  - split; intros []%Void_matches.
  - split; [intros []%Void_matches|by inversion 1].
  - destruct (p c) eqn:Hp; [rewrite Eps_matches|]; split.
    + intros ->. by constructor.
    + by inversion 1.
    + intros []%Void_matches.
    + inversion 1; congruence.
  - assert (matches (mk_seq (deriv c r) s) t ↔
      ∃ a b, t = a +:+ b ∧ matches r (String c a) ∧ matches s b) as Hseq.
    { rewrite mk_seq_matches, Seq_matches. by setoid_rewrite IHr. }
    assert (matches (Seq r s) (String c t) ↔
      (∃ a b, t = a +:+ b ∧ matches r (String c a) ∧ matches s b) ∨
      (matches r EmptyString ∧ matches s (String c t))) as Hcons.
    { rewrite Seq_matches. split.
      - intros ([|d a] & b & Ht & Ha & Hb); simpl in Ht; [subst b; by right|].
        injection Ht as -> ->. left. by exists a, b.
      - intros [(a & b & -> & Ha & Hb)|[Ha Hb]].
        + by exists (String c a), b.
        + by exists EmptyString, (String c t). }
    rewrite Hcons, <-nullable_matches. destruct (nullable r).
    + rewrite mk_alt_matches, Alt_matches, Hseq, IHs. naive_solver.
    + rewrite Hseq. naive_solver.
  - by rewrite mk_alt_matches, !Alt_matches, IHr, IHs.
  - rewrite mk_seq_matches, Seq_matches. setoid_rewrite IH. split.
    + intros (a & b & -> & Ha & Hb). by apply (m_star r (String c a) b).
    + intros (a & b & -> & Ha & Hb)%Star_cons. by exists a, b.
Qed.

Lemma match_prefix_true s : ∀ r, match_prefix r s = true ↔ ∃ a b, s = a +:+ b ∧ matches r a.
Proof.
  assert (∀ r s, nullable r = true → ∃ a b, s = a +:+ b ∧ matches r a) as Hnull.
  { intros r t Hr%nullable_matches. by exists EmptyString, t. }
  induction s as [|c s IH]; intros r.
  - assert (match_prefix r EmptyString = nullable r) as -> by (by destruct r; simpl; rewrite ?orb_false_r).
    split; [apply Hnull|]. intros ([|] & b & Hs & Ha); [|done]. by apply nullable_matches.
  - destruct (nullable r) eqn:Hr.
    { split; [auto|]. intros _. simpl. by rewrite Hr. }
    assert (match_prefix r (String c s) = match_prefix (deriv c r) s) as ->.
    { simpl. rewrite Hr. simpl. destruct r; try done. by destruct s. }
    rewrite IH. setoid_rewrite deriv_matches. split.
    + intros (a & b & -> & Ha). by exists (String c a), b.
    + intros ([|d a] & b & Hs & Ha); simpl in Hs.
      * apply nullable_matches in Ha. congruence.
      * injection Hs as -> ->. by exists a, b.
Qed.

(** [re.Match] holds exactly when the text has a part that matches. *)
Lemma re_Match_true r s : re_Match r s = true ↔ ∃ a b c, s = a +:+ (b +:+ c) ∧ matches r b.
Proof.
  induction s as [|d s IH]; cbn [re_Match]; rewrite orb_true_iff, match_prefix_true.
  - split; [intros [(b & c & Hs & Hb)|]; [|done]; by exists EmptyString, b, c|].
    intros ([|] & b & c & Hs & Hb); [|done]. left. by exists b, c.
  - rewrite IH. split.
    + intros [(b & c & Hs & Hb)|(a & b & c & -> & Hb)].
      * by exists EmptyString, b, c.
      * by exists (String d a), b, c.
    + intros ([|e a] & b & c & Hs & Hb); simpl in Hs.
      * left. by exists b, c.
      * right. injection Hs as -> ->. by exists a, b, c.
Qed.
