(* ===== verification/Checklist.v ===== *)
(** * slvalidate (infra/validate)

    The checks a change to the repository must pass: manifests and recipes
    against their schemas, and the security checklist over manifests and all
    committed files. The YAML and JSON Schema libraries are parameters, and so
    is the order in which Go ranges over the map of secret patterns. The last
    theorem joins the checklist, the registry sync and the gateway. *)

From S2P Require Import Prelude GoText Json Limits Pg Memory.
From S2P Require Import Sessions Identity Governance Registry Repository Gateway GatewayStore.
From S2P Require Import Path FileTree Regexp Manifest.
From Stdlib Require Import ZArith Lia Ascii.
From stdpp Require Import options.

Open Scope Z_scope.
Open Scope list_scope.

(** ** Finding files (validate.go) *)

Section files.
Variable fs : FS.

Definition findFiles (dir : string) (keep : string → bool) : result (list string) :=
  match WalkDir (collect keep) fs dir [] with
  | (Some e, _) => Err e
  | (None, out) => Ok (order_by String.le out)
  end.

Definition findManifests (root : string) : result (list string) :=
  findFiles (path_Join [root; "mcp-servers"%string]) is_manifest.

Definition is_recipe (name : string) : bool :=
  String.eqb (Ext name) ".yaml" || String.eqb (Ext name) ".yml".

Definition findRecipes (root : string) : result (list string) :=
  findFiles (path_Join [root; "recipes"%string]) is_recipe.
End files.

(** ** Schemas *)

Section schemas.
Context {Schema Value Instance_ : Type}.
Variables (fs : FS)
  (compile : string → result Schema)           (* jsonschema: parse and compile *)
  (yaml_any : string → result Value)           (* yaml.Unmarshal into any *)
  (marshal : Value → result string)            (* json.Marshal *)
  (UnmarshalJSON : string → result Instance_)  (* jsonschema.UnmarshalJSON *)
  (Validate : Schema → Instance_ → option error).

Definition loadSchema (path : string) : result Schema :=
  match os_ReadFile fs path with
  | Err e => Err (Errorf_w "read schema %s: " [Fs path] e)
  | Ok raw => compile raw
  end.

Definition validateFile (schema : Schema) (path : string) : option error :=
  match os_ReadFile fs path with
  | Err e => Some (Errorf_w "read %s: " [Fs path] e)
  | Ok raw =>
      match yaml_any raw with
      | Err e => Some (Errorf_w "parse YAML %s: " [Fs path] e)
      | Ok parsed =>
          match marshal parsed with
          | Err e => Some (Errorf_w "normalize %s: " [Fs path] e)
          | Ok jb =>
              match UnmarshalJSON jb with
              | Err e => Some (Errorf_w "decode %s: " [Fs path] e)
              | Ok inst => Validate schema inst
              end
          end
      end
  end.

Definition validateAll (schema : Schema) (files : list string) : list error :=
  omap (λ f, ErrWrap (f +:+ ":" +:+ NL) <$> validateFile schema f) files.

(** The error is the command's; what it prints is left out. *)
Definition checkKind (root label schemaPath : string) (find : string → result (list string)) :
    result unit :=
  schema ← loadSchema schemaPath;
  files ← find root;
  match files with
  | [] => Ok ()
  | _ =>
      match validateAll schema files with
      | [] => Ok ()
      | problems =>
          Err (Errorf "%d of %d %s file(s) invalid"
                 [Fd (Z.of_nat (length problems)); Fd (Z.of_nat (length files)); Fs label])
      end
  end.

Definition checkManifests (root : string) : result unit :=
  checkKind root "manifest" (path_Join [root; "mcp-servers"; "manifest.schema.json"]%string)
    (findManifests fs).

Definition checkRecipes (root : string) : result unit :=
  checkKind root "recipe" (path_Join [root; "recipes"; "recipe.schema.json"]%string)
    (findRecipes fs).
End schemas.

(** ** The security checklist (checklist.go) *)

Definition irreversibleHints : list string :=
  ["send"; "delete"; "remove"; "submit"; "book"; "pay"; "transfer"; "purchase"; "destroy";
   "withdraw"]%string.

Definition looksIrreversible (name : string) : bool :=
  existsb (Contains (ToLower name)) irreversibleHints.

Definition secretPatterns : list (string * regexp) :=
  [("OpenRouter API key", seq [lit "sk-or-v1-"; at_least 48 (Cls class_hex)]);
   ("Slack bot token",
      seq [lit "xoxb-"; at_least 8 (Cls class_digit); lit "-"; at_least 8 (Cls class_digit);
           lit "-"; at_least 20 (Cls class_alnum)]);
   ("GitHub PAT",
      seq [lit "gh"; Cls (λ c, existsb (Ascii.eqb c) ["p"; "o"; "u"; "s"; "r"]%char); lit "_";
           at_least 36 (Cls class_alnum)]);
   ("GitHub fine-grained", seq [lit "github_pat_"; at_least 60 (Cls class_word)]);
   ("AWS access key", seq [lit "AKIA"; times 16 (Cls class_upper)]);
   ("private key",
      seq [lit "-----BEGIN "; optional ["RSA "; "EC "; "OPENSSH "; "PGP "];
           lit "PRIVATE KEY-----"]);
   ("Google SA private id",
      seq [lit (QUOTE +:+ "private_key_id" +:+ QUOTE); Star (Cls class_s); lit ":";
           Star (Cls class_s); lit QUOTE; times 40 (Cls class_hex); lit QUOTE])]%string.

Record clManifest := MkClManifest { cl_Name : string; cl_Tools : list ManifestTool }.

(** What one tool of a manifest adds to the problems. *)
Definition tool_problems (m : clManifest) (t : ManifestTool) : list string :=
  (if negb (nonempty (mt_Scope t))
   then [Sprintf "%s: tool %q has no scope (fail closed)" [Fs (cl_Name m); Fs (mt_Name t)]]
   else []) ++
  (if negb (String.eqb (mt_Impact t) "read") && negb (String.eqb (mt_Impact t) "write") &&
      negb (String.eqb (mt_Impact t) "high")
   then [Sprintf "%s: tool %q has invalid impact %q"
           [Fs (cl_Name m); Fs (mt_Name t); Fs (mt_Impact t)]]
   else []) ++
  (if looksIrreversible (mt_Name t) && negb (String.eqb (mt_Impact t) "high")
   then [Sprintf "%s: irreversible-looking tool %q is impact:%s — must be high (gated)"
           [Fs (cl_Name m); Fs (mt_Name t); Fs (mt_Impact t)]]
   else []).

Section checklist.
Variables (fs : FS) (yaml : string → result clManifest).

(** The order in which [range secretPatterns] meets the patterns at a path. *)
Variable ranged : string → list (string * regexp).

Definition skipped_dir (name : string) : bool :=
  existsb (String.eqb name) [".git"; "node_modules"; "vendor"; "out"; "bin"]%string.

(** Names and sizes that are not scanned. *)
Definition skipped_file (name : string) (size : result Z) : bool :=
  HasSuffix name ".example" || HasSuffix name ".sum" ||
  match size with Ok n => Z.shiftl 2 20 <? n | Err _ => true end.

Definition leak (root path label : string) : string :=
  Sprintf "COMMITTED SECRET: %s in %s" [Fs label; Fs (Rel root path)].

(** The secrets in one file. *)
Definition leaks (root path : string) : list string :=
  match os_ReadFile fs path with
  | Err _ => []
  | Ok content =>
      omap (λ lr, if re_Match lr.2 content then Some (leak root path lr.1) else None) (ranged path)
  end.

(** The callback of scanSecrets. *)
Definition scan (root path : string) (d : option DirEntry) (err : option error) :
    M (list string) walk := λ problems,
  match err with
  | Some e => (Failed e, problems)
  | None =>
      match d with
      | Some (name, Dir _ _) => (if skipped_dir name then SkipDir else Continue, problems)
      | Some (name, File size _) =>
          if skipped_file name size then (Continue, problems)
          else (Continue, problems ++ leaks root path)
      | None => (Continue, problems)
      end
  end.

Definition scanSecrets (root : string) : result (list string) :=
  match WalkDir (scan root) fs root [] with
  | (Some e, _) => Err e
  | (None, problems) => Ok problems
  end.

(** The loop over the manifests. *)
Fixpoint check_manifests (paths problems : list string) : result (list string) :=
  match paths with
  | [] => Ok problems
  | path :: paths =>
      raw ← os_ReadFile fs path;
      match yaml raw with
      | Err e => Err (Errorf_w "checklist: parse %s: " [Fs path] e)
      | Ok m => check_manifests paths (problems ++ (cl_Tools m ≫= tool_problems m))
      end
  end.

Definition RunChecklist (root : string) : result (list string) :=
  manifests ← findManifests fs root;
  problems ← check_manifests manifests [];
  secrets ← scanSecrets root;
  Ok (problems ++ secrets).

Definition checkSecurity (root : string) : result unit :=
  problems ← RunChecklist root;
  match problems with
  | [] => Ok ()
  | _ => Err (Errorf "security checklist: %d problem(s)" [Fd (Z.of_nat (length problems))])
  end.
End checklist.

(** ** The command (main.go) *)

Section command.
Variables (checkManifests checkRecipes checkSecurity : string → result unit).

Definition run (args : list string) : result unit :=
  match args with
  | [] => Err (ErrNew "missing command")
  | kind :: rest =>
      let root := match rest with r :: _ => r | [] => "."%string end in
      if String.eqb kind "manifests" then checkManifests root
      else if String.eqb kind "recipes" then checkRecipes root
      else if String.eqb kind "all" then _ ← checkManifests root; checkRecipes root
      else if String.eqb kind "checklist" then checkSecurity root
      else if existsb (String.eqb kind) ["-h"; "--help"; "help"]%string then Ok ()
      else Err (Errorf "unknown command %q" [Fs kind])
  end.
End command.

(** ** Lemmas *)

(** What the checklist asks of a tool. *)
Definition sound_tool (t : ManifestTool) : Prop :=
  mt_Scope t ≠ EmptyString ∧ mt_Impact t ∈ impacts ∧
  (looksIrreversible (mt_Name t) = true → mt_Impact t = "high"%string).

Lemma app_nil_iff {A} (l k : list A) : l ++ k = [] ↔ l = [] ∧ k = [].
Proof. split; [apply app_eq_nil|by intros [-> ->]]. Qed.

Lemma tool_problems_nil m t : tool_problems m t = [] ↔ sound_tool t.
Proof.
  unfold tool_problems, sound_tool. rewrite !app_nil_iff.
  assert (mt_Impact t ∈ impacts ↔
    negb (String.eqb (mt_Impact t) "read") && negb (String.eqb (mt_Impact t) "write") &&
    negb (String.eqb (mt_Impact t) "high") = false) as ->.
  { unfold impacts. rewrite !elem_of_cons, elem_of_nil.
    destruct (String.eqb_spec (mt_Impact t) "read"), (String.eqb_spec (mt_Impact t) "write"),
      (String.eqb_spec (mt_Impact t) "high"); naive_solver. }
  destruct (nonempty (mt_Scope t)) eqn:Hs; [apply nonempty_true in Hs|apply nonempty_false in Hs];
    simpl; [|naive_solver].
  destruct (_ && negb (String.eqb (mt_Impact t) "high")) eqn:Hi; [naive_solver|].
  destruct (looksIrreversible (mt_Name t)); simpl; [|naive_solver].
  destruct (String.eqb_spec (mt_Impact t) "high"); naive_solver.
Qed.

Lemma bind_nil_iff {A B} (f : A → list B) l : l ≫= f = [] ↔ Forall (λ x, f x = []) l.
Proof.
  induction l as [|x l IH]; [by split|]. cbn [mbind list_bind].
  rewrite app_nil_iff, Forall_cons. by rewrite <-IH.
Qed.

Section lemmas.
Context (fs : FS) (yaml : string → result clManifest) (ranged : string → list (string * regexp)).

(** The manifests a path leads to. *)
Definition manifest_at (path : string) (m : clManifest) : Prop :=
  ∃ raw, os_ReadFile fs path = Ok raw ∧ yaml raw = Ok m.

Lemma manifest_at_unique path m m' : manifest_at path m → manifest_at path m' → m = m'.
Proof. intros (raw & Hr & Hy) (raw' & Hr' & Hy'). congruence. Qed.

Lemma check_manifests_Ok paths : ∀ problems ps,
  check_manifests fs yaml paths problems = Ok ps →
  (∀ p, p ∈ paths → ∃ m, manifest_at p m) ∧
  (ps = [] ↔ problems = [] ∧
     ∀ p m, p ∈ paths → manifest_at p m → Forall sound_tool (cl_Tools m)).
Proof.
  induction paths as [|path paths IH]; intros problems ps; simpl.
  - intros [= <-]. split; [by intros p ?%elem_of_nil|].
    split; [intros ->|by intros [-> _]]. split; [done|]. by intros p m ?%elem_of_nil.
  - intros (raw & Hraw & H)%res_bind_Ok. destruct (yaml raw) as [m|e] eqn:Hm; [|done].
    apply IH in H as [Hall Hnil]. assert (manifest_at path m) as Hat by (by exists raw).
    split; [intros p [->|Hp]%elem_of_cons; eauto|].
    rewrite Hnil, app_nil_iff, bind_nil_iff.
    setoid_rewrite tool_problems_nil. split.
    + intros [[-> Hs] Hrest]. split; [done|]. intros p m' [->|Hp]%elem_of_cons Hm'; [|eauto].
      by rewrite <-(manifest_at_unique _ _ _ Hat Hm').
    + intros [-> Hs]. split.
      * split; [done|]. eapply Hs; [left|done].
      * intros p m' Hp. apply Hs. by right.
Qed.

Lemma scan_visitor root :
  visitor (scan fs ranged root) (λ nm, negb (skipped_dir nm))
    (λ f acc, acc ++ (if skipped_file (f_name f) (f_size f) then [] else leaks fs ranged root (f_path f)))
    Failed.
Proof.
  constructor; [done| |]; intros; simpl.
  - destruct (skipped_file _ _); by rewrite ?app_nil_r.
  - by destruct (skipped_dir nm).
Qed.

(** The files that are scanned. *)
Definition scanned (root : string) (f : found) : Prop :=
  ∃ n, fs root = Some n ∧ skipped_file (f_name f) (f_size f) = false ∧
    f ∈ listing (λ nm, negb (skipped_dir nm)) Failed root (basename root) n.

Lemma visit_all_nil {B} (g : found → list B) l acc :
  visit_all (λ f acc, acc ++ g f) l acc = [] ↔ acc = [] ∧ ∀ f, f ∈ l → g f = [].
Proof.
  revert acc. induction l as [|x l IH]; intros acc; simpl.
  - split; [intros ->|by intros [-> _]]. split; [done|]. by intros f ?%elem_of_nil.
  - rewrite IH, app_nil_iff. setoid_rewrite elem_of_cons. naive_solver.
Qed.

(** No part of the text is a credential. *)
Definition no_secret (content : string) : Prop :=
  ∀ label r, (label, r) ∈ secretPatterns →
  ¬ ∃ a b c, content = a +:+ (b +:+ c) ∧ matches r b.

Lemma omap_nil_iff {A B} (f : A → option B) (l : list A) :
  omap f l = [] ↔ ∀ x, x ∈ l → f x = None.
Proof.
  split.
  - intros Ho x Hx. destruct (f x) as [y|] eqn:Hf; [|done].
    assert (y ∈ omap f l) as Hy by (apply list_elem_of_omap; eauto). rewrite Ho in Hy.
    by apply elem_of_nil in Hy.
  - intros Hn. destruct (omap f l) as [|y k] eqn:Ho; [done|].
    assert (y ∈ omap f l) as (x & Hx & Hf)%list_elem_of_omap by (rewrite Ho; left).
    by rewrite (Hn x Hx) in Hf.
Qed.

Lemma leaks_nil root path :
  ranged path ≡ₚ secretPatterns →
  leaks fs ranged root path = [] ↔ ∀ content, os_ReadFile fs path = Ok content → no_secret content.
Proof.
  intros Hr. unfold leaks. destruct (os_ReadFile fs path) as [content|e]; [|by split].
  rewrite omap_nil_iff. split.
  - intros Hn c [= <-] label r Hin Hm. rewrite <-Hr in Hin. specialize (Hn _ Hin). simpl in Hn.
    apply re_Match_true in Hm. by rewrite Hm in Hn.
  - intros Hn [label r] Hin. rewrite Hr in Hin. specialize (Hn _ eq_refl _ _ Hin). simpl.
    destruct (re_Match r content) eqn:Hm; [|done]. by apply re_Match_true in Hm.
Qed.

Lemma scanSecrets_Ok root ps :
  (∀ p, ranged p ≡ₚ secretPatterns) → scanSecrets fs ranged root = Ok ps →
  ps = [] ↔ ∀ f content, scanned root f → os_ReadFile fs (f_path f) = Ok content → no_secret content.
Proof.
  intros Hr. unfold scanSecrets.
  destruct (WalkDir _ _ _ _) as [[e|] problems] eqn:Hw; [done|]. intros [= <-].
  apply (WalkDir_success _ _ _ _ _ _ _ _ (scan_visitor root)) in Hw. unfold scanned.
  destruct (fs root) as [n|]; [destruct Hw as [_ ->]|].
  2: { rewrite Hw. split; [|done]. by intros _ f content (n & ? & _). }
  rewrite visit_all_nil. split.
  - intros [_ Hn] f content (n' & [= <-] & Hs & Hf). specialize (Hn f Hf). rewrite Hs in Hn.
    exact (proj1 (leaks_nil root (f_path f) (Hr _)) Hn content).
  - intros Hn. split; [done|]. intros f Hf. destruct (skipped_file _ _) eqn:Hs; [done|].
    apply leaks_nil; [done|]. intros content. apply Hn. by exists n.
Qed.

(** The paths of the manifests of a checkout. *)
Definition manifest_paths (root : string) : list string :=
  default [] (kept_paths is_manifest (serversDir root) <$> fs (serversDir root)).

Lemma findManifests_Ok root paths :
  findManifests fs root = Ok paths → paths ≡ₚ manifest_paths root.
Proof.
  unfold findManifests, findFiles. change (path_Join _) with (serversDir root).
  destruct (WalkDir _ _ _ _) as [[e|] l] eqn:Hw; [done|]. intros [= <-].
  apply WalkDir_collect in Hw as ->. apply order_by_perm.
Qed.

Lemma RunChecklist_Ok root ps :
  RunChecklist fs yaml ranged root = Ok ps →
  ∃ paths problems secrets, findManifests fs root = Ok paths ∧
    check_manifests fs yaml paths [] = Ok problems ∧
    scanSecrets fs ranged root = Ok secrets ∧ ps = problems ++ secrets.
Proof.
  unfold RunChecklist. intros (paths & Hp & H)%res_bind_Ok.
  apply res_bind_Ok in H as (problems & Hc & H). apply res_bind_Ok in H as (secrets & Hs & [= <-]).
  by exists paths, problems, secrets.
Qed.

(** A clean run: what holds of the manifests. *)
Lemma RunChecklist_clean root p m :
  RunChecklist fs yaml ranged root = Ok [] → p ∈ manifest_paths root → manifest_at p m →
  Forall sound_tool (cl_Tools m).
Proof.
  intros (paths & problems & secrets & Hp & Hc & _ & Hn)%RunChecklist_Ok Hin Hm.
  symmetry in Hn. apply app_nil_iff in Hn as [-> _].
  apply check_manifests_Ok in Hc as [_ [Hs _]]. destruct (Hs eq_refl) as [_ Hall].
  apply (Hall p m); [|done]. by rewrite (findManifests_Ok root paths Hp).
Qed.

(** C31: The checklist that completes reports no problem exactly when every tool of every
    manifest has a scope, a valid impact and, with an irreversible-looking name, the
    impact high, and no readable scanned file has a part that matches a credential
    pattern. *)
Theorem RunChecklist_exact root ps :
  (∀ p, ranged p ≡ₚ secretPatterns) → RunChecklist fs yaml ranged root = Ok ps →
  ps = [] ↔
  (∀ p, p ∈ manifest_paths root → ∃ m, manifest_at p m ∧ Forall sound_tool (cl_Tools m)) ∧
  (∀ f content, scanned root f → os_ReadFile fs (f_path f) = Ok content → no_secret content).
Proof.
  intros Hr (paths & problems & secrets & Hp & Hc & Hs & ->)%RunChecklist_Ok.
  apply findManifests_Ok in Hp. apply scanSecrets_Ok in Hs; [|done].
  apply check_manifests_Ok in Hc as [Hex Hnil].
  rewrite app_nil_iff, Hnil, Hs. setoid_rewrite Hp in Hex. setoid_rewrite Hp.
  split.
  - intros [[_ Hall] Hsec]. split; [|done]. intros p Hin. destruct (Hex p Hin) as [m Hm].
    exists m. eauto.
  - intros [Hall Hsec]. split; [split; [done|]|done]. intros p m Hin Hm.
    destruct (Hall p Hin) as (m' & Hm' & Hsnd).
    by rewrite (manifest_at_unique _ _ _ Hm Hm').
Qed.
End lemmas.

(** ** The checklist, the sync and the gate together *)

Section deployment.
Context `{PgText} {D : Type} `{ToolCaller D}.
Context (fs : FS) (yaml_manifest : string → result manifestFile)
  (yaml_checklist : string → result clManifest) (ranged : string → list (string * regexp)).

(** Both programs decode the same tools from one document. *)
Definition decoders_agree : Prop := ∀ raw m c,
  yaml_manifest raw = Ok m → yaml_checklist raw = Ok c → cl_Tools c = mf_Tools m.

Lemma LoadDir_elem root servers i :
  LoadDir yaml_manifest fs root = Ok servers → i ∈ servers →
  ∃ p raw m, p ∈ manifest_paths fs root ∧ os_ReadFile fs p = Ok raw ∧
    yaml_manifest raw = Ok m ∧ validate m p = Ok i.
Proof.
  unfold LoadDir. destruct (WalkDir _ _ _ _) as [[e|] paths] eqn:Hw; [done|].
  apply WalkDir_collect in Hw. intros Hl Hi. apply res_map_Ok in Hl.
  apply list_elem_of_lookup in Hi as [n Hi]. destruct (Forall2_lookup_r _ _ _ _ _ Hl Hi) as (p & Hp & Hload).
  exists p. unfold Load in Hload. destruct (os_ReadFile fs p) as [raw|e]; [|done].
  destruct (yaml_manifest raw) as [m|e] eqn:Hm; [|done]. exists raw, m.
  split; [|done]. unfold manifest_paths. rewrite <-Hw. by eapply list_elem_of_lookup_2.
Qed.

Lemma clean_inputs root servers i t :
  decoders_agree → RunChecklist fs yaml_checklist ranged root = Ok [] →
  LoadDir yaml_manifest fs root = Ok servers → i ∈ servers → t ∈ si_Tools i →
  looksIrreversible (ti_Name t) = true → ti_Impact t = "high"%string.
Proof.
  intros Hagree Hclean Hl Hi Ht Hirr.
  destruct (LoadDir_elem root servers i Hl Hi) as (p & raw & m & Hp & Hraw & Hm & Hv).
  apply validate_Ok in Hv as (_ & _ & _ & _ & ->). simpl in Ht.
  apply list_elem_of_fmap in Ht as (mt & -> & Hmt). simpl in *.
  pose proof Hclean as (paths & problems & secrets & Hpaths & Hc & _)%RunChecklist_Ok.
  apply check_manifests_Ok in Hc as [Hex _]. apply findManifests_Ok in Hpaths.
  destruct (Hex p) as (c & raw' & Hraw' & Hc); [by rewrite Hpaths|].
  assert (raw' = raw) as -> by congruence.
  pose proof (RunChecklist_clean _ _ _ root p c Hclean Hp) as Hs.
  rewrite (Hagree raw m c Hm Hc), Forall_forall in Hs.
  apply (Hs (ex_intro _ raw (conj Hraw Hc)) mt Hmt). done.
Qed.

Lemma last_named_elem name servers i :
  i ∈ servers → si_Name i = name →
  ∃ j, last_named name servers = Some j ∧ j ∈ servers ∧ si_Name j = name.
Proof.
  intros Hi Hn. unfold last_named. destruct (List.find _ _) as [j|] eqn:Hf.
  - apply find_Some_elem_of in Hf as [Hj ?%String.eqb_eq]. exists j.
    split; [done|]. by rewrite elem_of_reverse in Hj.
  - apply find_None_elem_of with (x := i) in Hf; [|by rewrite elem_of_reverse].
    unfold named in Hf. apply String.eqb_neq in Hf. congruence.
Qed.

(** A tool that the registry serves is declared. *)
Lemma serves_declared (d : registry) i b tn :
  registry_wf d → serves d i → ResolveTool (si_Name i) tn d = Ok b →
  ∃ t, t ∈ si_Tools i ∧ ti_Name t = tn ∧ ti_Impact t = Tool_Impact (tb_Tool b).
Proof.
  intros Hwf (row & Hrow & Hts & _) (s & t & Hs & Ht & Hid & Hsn & Htn & ->)%ResolveTool_Ok; [|done].
  assert (row = s) as ->.
  { apply find_server_Some in Hrow as [Hin Hn].
    eapply (NoDup_fmap_eq v_name); [apply Hwf|done|done|congruence]. }
  exists {| ti_Name := o_name t; ti_Scope := o_scope t; ti_Impact := o_impact t |}.
  split; [|done]. rewrite <-Hts. apply list_elem_of_fmap. exists t. split; [done|].
  by apply list_elem_of_filter.
Qed.

(** A request that the gateway clears, after a clean checklist, a sync of the
    checkout and a history that does not register the server again. *)
Lemma clean_checkout_cleared root (w w' : world repo D) servers i h req b :
  decoders_agree → RunChecklist fs yaml_checklist ranged root = Ok [] →
  registry_wf (registry_of w) →
  LoadDir yaml_manifest fs root = Ok servers → i ∈ servers →
  syncRegistry yaml_manifest fs root w = (Ok (), w') →
  Forall (λ so, ¬ reregisters (si_Name i) so.2) h →
  req_ServerName req = si_Name i → looksIrreversible (req_ToolName req) = true →
  let w2 := at_db (Repository.run h (r_db (w_store w'))) w' in
  cleared req b (w_store w2) →
  ∃ r u, r ∈ approvals (d_gov (r_db (w_store w2))) ∧ uuid_in (req_SessionID req) = Some u ∧
    a_session_id r = Some u ∧ a_tool r = req_ToolName req ∧ a_status r = "approved"%string.
Proof.
  intros Hagree Hclean Hwf Hl Hi Hsync Hh Hname Hirr w2 Hc.
  unfold syncRegistry in Hsync. rewrite Hl in Hsync.
  apply register_all_registry in Hsync as (Hwf' & _ & Hserve & _ & _); [|done].
  destruct (last_named_elem (si_Name i) servers i Hi eq_refl) as (j & Hj & Hjin & Hjn).
  specialize (Hserve (si_Name i)). rewrite Hj in Hserve. rewrite <-Hjn in Hh.
  pose proof (run_serves h (r_db (w_store w')) j Hwf' Hserve Hh) as Hs2.
  pose proof (run_registry_wf h _ Hwf') as Hwf2.
  apply cleared_repo in Hc as (Hr & _ & Hhigh). rewrite Hname, <-Hjn in Hr.
  destruct (serves_declared _ j b _ Hwf2 Hs2 Hr) as (tl & Htl & Htn & Hti).
  apply Hhigh. rewrite <-Hti. rewrite <-Htn in Hirr. by eapply clean_inputs.
Qed.

(** C7: If the security checklist of a checkout is clean and the gateway's sync registered
    the checkout, then, after any further store statements that do not re-register the
    server, a call of one of its tools with an irreversible-looking name leaves the
    gateway only with an approved approval for this session and tool. *)
Theorem clean_checkout_gated root (w w' : world repo D) servers i h t req :
  decoders_agree → RunChecklist fs yaml_checklist ranged root = Ok [] →
  registry_wf (registry_of w) →
  LoadDir yaml_manifest fs root = Ok servers → i ∈ servers →
  syncRegistry yaml_manifest fs root w = (Ok (), w') →
  Forall (λ so, ¬ reregisters (si_Name i) so.2) h →
  req_ServerName req = si_Name i → looksIrreversible (req_ToolName req) = true →
  let w2 := at_db (Repository.run h (r_db (w_store w'))) w' in
  w_calls (Call t req w2).2 ≠ w_calls w2 →
  ∃ r u, r ∈ approvals (d_gov (r_db (w_store w2))) ∧ uuid_in (req_SessionID req) = Some u ∧
    a_session_id r = Some u ∧ a_tool r = req_ToolName req ∧ a_status r = "approved"%string.
Proof.
  intros Hagree Hclean Hwf Hl Hi Hsync Hh Hname Hirr w2 Hcall.
  destruct (Call_cases t req w2) as [(b & w3 & Hc & _)|[? _]]; [|done].
  by eapply clean_checkout_cleared.
Qed.
End deployment.

(** ** A checkout *)

#[local] Existing Instance unary_text.
#[local] Existing Instance null_caller.

Definition sample_cl : string → result clManifest :=
  sample_yaml {| cl_Name := "mail"; cl_Tools := sample_tools |}.

Definition sample_ranged : string → list (string * regexp) := λ _, secretPatterns.

(** The checklist sees a key in a file, and the VCS directory is left out. *)
Lemma checklist_finds_key :
  RunChecklist (sample_fs ("OPENROUTER_API_KEY=sk-or-v1-" +:+ String.concat "" (replicate 52 "a"%string)))
    sample_cl sample_ranged "repo" =
  Ok ["COMMITTED SECRET: OpenRouter API key in app.conf"%string].
Proof. vm_compute. reflexivity. Qed.

Lemma RunChecklist_exact_witness :
  let fs := sample_fs "PORT=80" in
  (∀ p, p ∈ manifest_paths fs "repo" →
     ∃ m, manifest_at fs sample_cl p m ∧ Forall sound_tool (cl_Tools m)) ∧
  (∀ f content, scanned fs "repo" f → os_ReadFile fs (f_path f) = Ok content → no_secret content).
Proof.
  apply (RunChecklist_exact (sample_fs "PORT=80") sample_cl sample_ranged "repo" []).
  - reflexivity.
  - vm_compute. reflexivity.
  - reflexivity.
Defined.

(** The agent's session, the promotion of the server, and a decision. *)
Definition sample_use : list (Stmt * op) :=
  sample_history ++ [(sample_stmt 9 60, OpSetServerLifecycle "mail" LifecycleApproved)] ++
  sample_decision.

Lemma clean_checkout_gated_witness :
  let w2 := at_db (Repository.run sample_use (r_db (w_store sample_sync.2))) sample_sync.2 in
  ∃ r u, r ∈ approvals (d_gov (r_db (w_store w2))) ∧ uuid_in (strokes 2) = Some u ∧
    a_session_id r = Some u ∧ a_tool r = "send"%string ∧ a_status r = "approved"%string.
Proof.
  apply (clean_checkout_gated (sample_fs "PORT=80") (sample_yaml sample_manifest) sample_cl
           sample_ranged "repo" (sample_world []) sample_sync.2
           [{| si_Name := "mail"; si_Owner := "ops"; si_Description := "mail";
               si_Endpoint := "http://m/mcp"; si_Transport := EmptyString; si_Auth := EmptyString;
               si_Tools := tool_input <$> sample_tools; si_Committees := ["finance"%string] |}]
           {| si_Name := "mail"; si_Owner := "ops"; si_Description := "mail";
              si_Endpoint := "http://m/mcp"; si_Transport := EmptyString; si_Auth := EmptyString;
              si_Tools := tool_input <$> sample_tools; si_Committees := ["finance"%string] |}
           sample_use sample_ticks (sample_request "mail" (RawJSON (JObj [])))).
  - intros raw m c. unfold sample_cl, sample_yaml. destruct (String.eqb raw _); [|discriminate].
    intros [= <-] [= <-]. reflexivity.
  - vm_compute. reflexivity.
  - apply registry_empty_wf.
  - vm_compute. reflexivity.
  - left.
  - vm_compute. reflexivity.
  - repeat constructor; simpl; discriminate || (intros []).
  - reflexivity.
  - reflexivity.
  - vm_compute. discriminate.
Defined.
