(* ===== verification/Workspace.v ===== *)
(** * The Google Workspace server (mcp-servers/google-workspace)

    The domain's validation, the service over the interface [Google], the
    concrete client over Google's API, which is a parameter, and the tools. The
    properties: what an email looks like on the wire, and which tool sends one. *)

From S2P Require Import Prelude GoText Json Limits Pg Memory.
From S2P Require Import Sessions Identity Governance Registry Repository Gateway GatewayStore.
From S2P Require Import Path FileTree Regexp Manifest Checklist.
From Stdlib Require Import ZArith Lia Ascii.
From stdpp Require Import options.

Open Scope Z_scope.
Open Scope list_scope.

(** ** Data (domain/models.go) *)

Record SheetData := MkSheetData {
  sh_SpreadsheetID : string;
  sh_Range : string;
  sh_Rows : list (list string);
}.

Record CalendarEvent := MkCalendarEvent {
  ev_ID : string;
  ev_Summary : string;
  ev_Description : string;
  ev_Location : string;
  ev_Start : string;
  ev_End : string;
  ev_Attendees : list string;
}.

Record EmailDraft := MkEmailDraft {
  em_To : list string;
  em_Cc : list string;
  em_Subject : string;
  em_Body : string;
}.

Record DriveFile := MkDriveFile {
  df_ID : string;
  df_Name : string;
  df_MimeType : string;
  df_ModifiedTime : string;
}.

Definition nonEmpty (values : list string) : list string :=
  filter (λ v, nonempty (TrimSpace v) = true) values.

Definition ValidateEmailDraft (d : EmailDraft) : option error :=
  match nonEmpty (em_To d) with
  | [] => Some (ErrNew "email must have at least one recipient")
  | _ => if nonempty (TrimSpace (em_Subject d)) then None
         else Some (ErrNew "email must have a subject")
  end.

Definition ValidateEvent (e : CalendarEvent) : option error :=
  if negb (nonempty (TrimSpace (ev_Summary e))) then Some (ErrNew "event must have a summary")
  else if negb (nonempty (TrimSpace (ev_Start e))) || negb (nonempty (TrimSpace (ev_End e)))
  then Some (ErrNew "event must have start and end times (RFC3339)")
  else None.

(** ** The service (service/workspace.go) *)

(** The interface [Google]. *)
Class Google (G : Type) := {
  g_ReadSheet : string → string → G → result SheetData * G;
  g_ListEvents : string → string → string → Z → G → result (list CalendarEvent) * G;
  g_CreateEvent : string → CalendarEvent → G → result CalendarEvent * G;
  g_CreateDraft : EmailDraft → G → result string * G;
  g_SendEmail : EmailDraft → G → result string * G;
  g_ListDriveFiles : string → Z → G → result (list DriveFile) * G;
}.

Section service.
Context {G : Type} `{Google G}.

Definition ReadSheet (spreadsheetID rng : string) : M G (result SheetData) :=
  if nonempty spreadsheetID then g_ReadSheet spreadsheetID rng
  else mret (Err (ErrNew "spreadsheet_id is required")).

Definition ListEvents (calendarID timeMin timeMax : string) (max : Z) :
    M G (result (list CalendarEvent)) :=
  g_ListEvents (if nonempty calendarID then calendarID else "primary") timeMin timeMax max.

Definition CreateEvent (calendarID : string) (e : CalendarEvent) : M G (result CalendarEvent) :=
  match ValidateEvent e with
  | Some err => mret (Err err)
  | None => g_CreateEvent (if nonempty calendarID then calendarID else "primary") e
  end.

Definition DraftEmail (d : EmailDraft) : M G (result string) :=
  match ValidateEmailDraft d with
  | Some err => mret (Err err)
  | None => g_CreateDraft d
  end.

Definition SendEmail (d : EmailDraft) : M G (result string) :=
  match ValidateEmailDraft d with
  | Some err => mret (Err err)
  | None => g_SendEmail d
  end.

Definition ListDriveFiles (query : string) (max : Z) : M G (result (list DriveFile)) :=
  g_ListDriveFiles query max.
End service.

(** ** The message on the wire (clients/google.go) *)

(** base64.RawURLEncoding *)
Definition b64_digit (n : Z) : ascii :=
  ascii_of_nat (Z.to_nat
    (if n <? 26 then 65 + n else if n <? 52 then 71 + n else if n <? 62 then n - 4
     else if n =? 62 then 45 else 95)).

Definition byte (c : ascii) : Z := Z.of_nat (nat_of_ascii c).

Fixpoint b64_encode (s : string) : string :=
  match s with
  | EmptyString => EmptyString
  | String a EmptyString =>
      let n := byte a * 65536 in
      String (b64_digit (n / 262144)) (String (b64_digit ((n / 4096) `mod` 64)) EmptyString)
  | String a (String b EmptyString) =>
      let n := byte a * 65536 + byte b * 256 in
      String (b64_digit (n / 262144)) (String (b64_digit ((n / 4096) `mod` 64))
        (String (b64_digit ((n / 64) `mod` 64)) EmptyString))
  | String a (String b (String c r)) =>
      let n := byte a * 65536 + byte b * 256 + byte c in
      String (b64_digit (n / 262144)) (String (b64_digit ((n / 4096) `mod` 64))
        (String (b64_digit ((n / 64) `mod` 64)) (String (b64_digit (n `mod` 64)) (b64_encode r))))
  end.

(** The header lines and the text that is encoded. *)
Definition rfc822 (d : EmailDraft) : string :=
  Sprintf ("To: %s" +:+ CRLF) [Fs (Join ", " (em_To d))] +:+
  ((match em_Cc d with
    | [] => EmptyString
    | cc => Sprintf ("Cc: %s" +:+ CRLF) [Fs (Join ", " cc)]
    end) +:+
  (Sprintf ("Subject: %s" +:+ CRLF) [Fs (em_Subject d)] +:+
  (("MIME-Version: 1.0" +:+ CRLF) +:+
  (("Content-Type: text/plain; charset=" +:+ QUOTE +:+ "UTF-8" +:+ QUOTE +:+ CRLF +:+ CRLF) +:+
   em_Body d)))).

Definition encodeMessage (d : EmailDraft) : string := b64_encode (rfc822 d).

(** ** The client over Google's API *)

Record EventDateTime := MkEventDateTime { dt_DateTime : string; dt_Date : string }.

(** [calendar.Event], as far as it is read and written. *)
Record ApiEvent := MkApiEvent {
  ae_Id : string;
  ae_Summary : string;
  ae_Description : string;
  ae_Location : string;
  ae_Start : option EventDateTime;
  ae_End : option EventDateTime;
  ae_Attendees : list string;       (* the addresses *)
}.

(** The calls of the Google client libraries; a list call takes the options
    that are set. *)
Class GoogleAPI (A : Type) := {
  Cell : Type;
  Sprint : Cell → string;                                    (* fmt's %v *)
  Values_Get : string → string → A → result (string * list (list Cell)) * A;
  Events_List : string → option string → option string → option Z → A → result (list ApiEvent) * A;
  Events_Insert : string → ApiEvent → A → result ApiEvent * A;
  Drafts_Create : string → A → result string * A;
  Messages_Send : string → A → result string * A;
  Files_List : option string → option Z → A → result (list DriveFile) * A;
}.

Definition eventTime (t : option EventDateTime) : string :=
  match t with
  | None => EmptyString
  | Some t => if nonempty (dt_DateTime t) then dt_DateTime t else dt_Date t
  end.

Definition toDomainEvent (e : ApiEvent) : CalendarEvent :=
  {| ev_ID := ae_Id e; ev_Summary := ae_Summary e; ev_Description := ae_Description e;
     ev_Location := ae_Location e; ev_Start := eventTime (ae_Start e);
     ev_End := eventTime (ae_End e); ev_Attendees := ae_Attendees e |}.

(** An argument that is set when it is not empty, or when it is positive. *)
Definition set_string (s : string) : option string := if nonempty s then Some s else None.
Definition set_max (n : Z) : option Z := if 0 <? n then Some n else None.

Section client.
Context {A : Type} `{GoogleAPI A}.

(** The delegated account: Google behind the API, and the raw messages that
    were handed to it for sending, the oldest first. *)
Record account := Account { ac_api : A; ac_sent : list string }.

Definition api_op {B} (f : A → B * A) : M account B := λ a,
  let '(b, x) := f (ac_api a) in (b, {| ac_api := x; ac_sent := ac_sent a |}).

Definition client_ReadSheet (spreadsheetID rng : string) : M account (result SheetData) :=
  r ← api_op (Values_Get spreadsheetID rng);
  mret (match r with
        | Err e => Err (ErrWrap "clients: read sheet: " e)
        | Ok (range, rows) =>
            Ok {| sh_SpreadsheetID := spreadsheetID; sh_Range := range;
                  sh_Rows := List.map (List.map Sprint) rows |}
        end).

Definition client_ListEvents (calendarID timeMin timeMax : string) (max : Z) :
    M account (result (list CalendarEvent)) :=
  r ← api_op (Events_List calendarID (set_string timeMin) (set_string timeMax) (set_max max));
  mret (match r with
        | Err e => Err (ErrWrap "clients: list events: " e)
        | Ok items => Ok (toDomainEvent <$> items)
        end).

Definition api_event (e : CalendarEvent) : ApiEvent :=
  {| ae_Id := EmptyString; ae_Summary := ev_Summary e; ae_Description := ev_Description e;
     ae_Location := ev_Location e;
     ae_Start := Some {| dt_DateTime := ev_Start e; dt_Date := EmptyString |};
     ae_End := Some {| dt_DateTime := ev_End e; dt_Date := EmptyString |};
     ae_Attendees := ev_Attendees e |}.

Definition client_CreateEvent (calendarID : string) (e : CalendarEvent) :
    M account (result CalendarEvent) :=
  r ← api_op (Events_Insert calendarID (api_event e));
  mret (match r with
        | Err e => Err (ErrWrap "clients: create event: " e)
        | Ok created => Ok (toDomainEvent created)
        end).

Definition client_CreateDraft (d : EmailDraft) : M account (result string) :=
  r ← api_op (Drafts_Create (encodeMessage d));
  mret (match r with Err e => Err (ErrWrap "clients: create draft: " e) | Ok id => Ok id end).

Definition client_SendEmail (d : EmailDraft) : M account (result string) := λ a,
  let '(r, x) := Messages_Send (encodeMessage d) (ac_api a) in
  (match r with Err e => Err (ErrWrap "clients: send email: " e) | Ok id => Ok id end,
   {| ac_api := x; ac_sent := ac_sent a ++ [encodeMessage d] |}).

Definition client_ListDriveFiles (query : string) (max : Z) :
    M account (result (list DriveFile)) :=
  r ← api_op (Files_List (set_string query) (set_max max));
  mret (match r with Err e => Err (ErrWrap "clients: list drive files: " e) | Ok l => Ok l end).

#[export] Instance client_Google : Google account := {
  g_ReadSheet := client_ReadSheet;
  g_ListEvents := client_ListEvents;
  g_CreateEvent := client_CreateEvent;
  g_CreateDraft := client_CreateDraft;
  g_SendEmail := client_SendEmail;
  g_ListDriveFiles := client_ListDriveFiles;
}.
End client.
Arguments account A : clear implicits.

(** ** The tools (tools/tools.go) *)

Record sheetsReadInput := MkSheetsReadInput { sr_SpreadsheetID : string; sr_Range : string }.
Record calendarListInput := MkCalendarListInput {
  cli_CalendarID : string; cli_TimeMin : string; cli_TimeMax : string; cli_Max : Z }.
Record calendarCreateInput := MkCalendarCreateInput {
  cci_CalendarID : string; cci_Summary : string; cci_Description : string;
  cci_Location : string; cci_Start : string; cci_End : string; cci_Attendees : list string }.
Record emailInput := MkEmailInput {
  ei_To : list string; ei_Cc : list string; ei_Subject : string; ei_Body : string }.
Record driveReadInput := MkDriveReadInput { dri_Query : string; dri_Max : Z }.

Inductive ToolOutput : Type :=
  | OutSheet (s : SheetData)
  | OutEvents (l : list CalendarEvent)
  | OutEvent (e : CalendarEvent)
  | OutID (id : string)
  | OutFiles (l : list DriveFile).

(** What the MCP library does around a handler: decoding the arguments into the
    input type, and encoding the outcome. *)
Record McpSDK := MkMcpSDK {
  decode_sheetsRead : RawMessage → result sheetsReadInput;
  decode_calendarList : RawMessage → result calendarListInput;
  decode_calendarCreate : RawMessage → result calendarCreateInput;
  decode_email : RawMessage → result emailInput;
  decode_driveRead : RawMessage → result driveReadInput;
  encode_outcome : result ToolOutput → result RawMessage;
}.

Definition draft_of (i : emailInput) : EmailDraft :=
  {| em_To := ei_To i; em_Cc := ei_Cc i; em_Subject := ei_Subject i; em_Body := ei_Body i |}.

Section tools.
Context {G : Type} `{Google G} (sdk : McpSDK).

(** A handler behind the decoding of its input. *)
Definition with_input {I} (i : result I) (f : I → M G (result ToolOutput)) :
    M G (result ToolOutput) :=
  match i with Err e => mret (Err e) | Ok i => f i end.

(** [Register]: the tools by name. *)
Definition registered_tools : list (string * (RawMessage → M G (result ToolOutput))) :=
  [("sheets_read", λ args, with_input (decode_sheetsRead sdk args) (λ i,
      r ← ReadSheet (sr_SpreadsheetID i) (sr_Range i); mret (OutSheet <$> r)));
   ("calendar_list", λ args, with_input (decode_calendarList sdk args) (λ i,
      r ← ListEvents (cli_CalendarID i) (cli_TimeMin i) (cli_TimeMax i) (cli_Max i);
      mret (OutEvents <$> r)));
   ("calendar_create_event", λ args, with_input (decode_calendarCreate sdk args) (λ i,
      r ← CreateEvent (cci_CalendarID i)
            {| ev_ID := EmptyString; ev_Summary := cci_Summary i;
               ev_Description := cci_Description i; ev_Location := cci_Location i;
               ev_Start := cci_Start i; ev_End := cci_End i; ev_Attendees := cci_Attendees i |};
      mret (OutEvent <$> r)));
   ("gmail_draft", λ args, with_input (decode_email sdk args) (λ i,
      r ← DraftEmail (draft_of i); mret (OutID <$> r)));
   ("gmail_send", λ args, with_input (decode_email sdk args) (λ i,
      r ← SendEmail (draft_of i); mret (OutID <$> r)));
   ("drive_read", λ args, with_input (decode_driveRead sdk args) (λ i,
      r ← ListDriveFiles (dri_Query i) (dri_Max i); mret (OutFiles <$> r)))]%string.

(** A tools/call request. *)
Definition call_tool (name : string) (args : RawMessage) : M G (result RawMessage) :=
  match List.find (λ t, String.eqb t.1 name) registered_tools with
  | Some (_, handler) => r ← handler args; mret (encode_outcome sdk r)
  | None => mret (Err (Errorf "unknown tool %q" [Fs name]))
  end.
End tools.

(** ** Lemmas on the message *)

Definition b64_value (c : ascii) : option Z :=
  let n := byte c in
  if (65 <=? n) && (n <=? 90) then Some (n - 65)
  else if (97 <=? n) && (n <=? 122) then Some (n - 71)
  else if (48 <=? n) && (n <=? 57) then Some (n + 4)
  else if n =? 45 then Some 62
  else if n =? 95 then Some 63 else None.

Definition of_byte (n : Z) : ascii := ascii_of_nat (Z.to_nat n).

(** What a reader of base64url without padding decodes. *)
Fixpoint b64_decode (s : string) : option string :=
  match s with
  | EmptyString => Some EmptyString
  | String a (String b EmptyString) =>
      x ← b64_value a; y ← b64_value b;
      Some (String (of_byte ((x * 64 + y) / 16)) EmptyString)
  | String a (String b (String c EmptyString)) =>
      x ← b64_value a; y ← b64_value b; z ← b64_value c;
      let n := (x * 64 + y) * 64 + z in
      Some (String (of_byte (n / 1024)) (String (of_byte ((n / 4) `mod` 256)) EmptyString))
  | String a (String b (String c (String d r))) =>
      x ← b64_value a; y ← b64_value b; z ← b64_value c; w ← b64_value d;
      t ← b64_decode r;
      let n := ((x * 64 + y) * 64 + z) * 64 + w in
      Some (String (of_byte (n / 65536)) (String (of_byte ((n / 256) `mod` 256))
        (String (of_byte (n `mod` 256)) t)))
  | String _ EmptyString => None
  end.

Lemma b64_value_digit n : 0 <= n < 64 → b64_value (b64_digit n) = Some n.
Proof.
  intros Hn.
  assert (forallb (λ k, bool_decide (b64_value (b64_digit (Z.of_nat k)) = Some (Z.of_nat k)))
            (List.seq 0 64) = true) as Hall by (vm_compute; reflexivity).
  rewrite forallb_forall in Hall. specialize (Hall (Z.to_nat n)).
  rewrite Z2Nat.id, bool_decide_eq_true in Hall by lia.
  apply Hall, in_seq. lia.
Qed.

Lemma byte_range c : 0 <= byte c < 256.
Proof. unfold byte. pose proof (nat_ascii_bounded c). lia. Qed.

Lemma of_byte_byte c n : n = byte c → of_byte n = c.
Proof. intros ->. unfold of_byte, byte. rewrite Nat2Z.id. apply ascii_nat_embedding. Qed.

(** Induction three bytes at a time. *)
Lemma string_ind3 (P : string → Prop) :
  P EmptyString → (∀ a, P (String a EmptyString)) →
  (∀ a b, P (String a (String b EmptyString))) →
  (∀ a b c s, P s → P (String a (String b (String c s)))) → ∀ s, P s.
Proof.
  intros H0 H1 H2 H3. fix IH 1. intros [|a [|b [|c s]]]; [done..|]. apply H3, IH.
Qed.

(** Two, three and four digits put together again. *)
Lemma digits2 n : n / 262144 * 64 + ((n / 4096) `mod` 64) = n / 4096.
Proof.
  replace (n / 262144) with (n / 4096 / 64) by (by rewrite Z.div_div).
  rewrite Z.mul_comm. symmetry. by apply Z.div_mod.
Qed.

Lemma digits3 n : n / 4096 * 64 + ((n / 64) `mod` 64) = n / 64.
Proof.
  replace (n / 4096) with (n / 64 / 64) by (by rewrite Z.div_div).
  rewrite Z.mul_comm. symmetry. by apply Z.div_mod.
Qed.

Lemma digits4 n : n / 64 * 64 + n `mod` 64 = n.
Proof. rewrite Z.mul_comm. symmetry. by apply Z.div_mod. Qed.

Lemma first_digit a b c :
  0 <= a < 256 → 0 <= b < 256 → 0 <= c < 256 → 0 <= (a * 65536 + b * 256 + c) / 262144 < 64.
Proof.
  intros. split; [apply Z.div_pos; lia|apply Z.div_lt_upper_bound; lia].
Qed.

Lemma byte1 a b c : 0 <= b < 256 → 0 <= c < 256 → (a * 65536 + b * 256 + c) / 65536 = a.
Proof. intros. symmetry. apply (Z.div_unique _ _ _ (b * 256 + c)); lia. Qed.

Lemma byte2 a b c :
  0 <= b < 256 → 0 <= c < 256 → ((a * 65536 + b * 256 + c) / 256) `mod` 256 = b.
Proof.
  intros. replace ((a * 65536 + b * 256 + c) / 256) with (a * 256 + b).
  - symmetry. apply (Z.mod_unique _ _ a); lia.
  - apply (Z.div_unique _ _ _ c); lia.
Qed.

Lemma byte3 a b c : 0 <= c < 256 → (a * 65536 + b * 256 + c) `mod` 256 = c.
Proof. intros. symmetry. apply (Z.mod_unique _ _ (a * 256 + b)); lia. Qed.

Lemma b64_roundtrip s : b64_decode (b64_encode s) = Some s.
Proof.
  assert (∀ m, 0 <= m `mod` 64 < 64) as Hm by (intros; by apply Z.mod_pos_bound).
  induction s as [|a|a b|a b c s IH] using string_ind3; cbn [b64_encode b64_decode]; [done|..].
  - pose proof (byte_range a) as Ha. pose proof (byte1 (byte a) 0 0) as H1.
    pose proof (first_digit (byte a) 0 0 Ha) as Hf. rewrite !Z.add_0_r in H1, Hf.
    rewrite !b64_value_digit by (apply Hm || (apply Hf; lia)). cbn [mbind option_bind].
    rewrite digits2, Z.div_div by done. rewrite (of_byte_byte a); [done|]. apply H1; lia.
  - pose proof (byte_range a) as Ha. pose proof (byte_range b) as Hb.
    pose proof (byte1 (byte a) (byte b) 0 Hb) as H1. pose proof (byte2 (byte a) (byte b) 0 Hb) as H2.
    pose proof (first_digit (byte a) (byte b) 0 Ha Hb) as Hf. rewrite !Z.add_0_r in H1, H2, Hf.
    rewrite !b64_value_digit by (apply Hm || (apply Hf; lia)). cbn [mbind option_bind].
    rewrite digits2, digits3, !Z.div_div by done.
    rewrite (of_byte_byte a), (of_byte_byte b); [done|apply H2; lia|apply H1; lia].
  - pose proof (byte_range a) as Ha. pose proof (byte_range b) as Hb. pose proof (byte_range c) as Hc.
    rewrite !b64_value_digit by (apply Hm || by apply first_digit).
    cbn [mbind option_bind]. rewrite IH. cbn [mbind option_bind].
    rewrite digits2, digits3, digits4.
    rewrite (of_byte_byte a), (of_byte_byte b), (of_byte_byte c); [done|..].
    + by apply byte3.
    + by apply byte2.
    + by apply byte1.
Qed.

(** ** Reading a message *)

Definition CR : ascii := ascii_of_nat 13.
Definition LF : ascii := ascii_of_nat 10.

(** Where a reader sees the end of a line: what follows a line end that stands
    at the front of a text. Every reader of a mail takes CR LF for one, and
    nothing that begins with another character; some take a line feed or a
    carriage return alone, and some do not. *)
Record line_reader := LineReader {
  eol : string → option string;
  eol_crlf : ∀ r, eol (CRLF +:+ r) = Some r;
  eol_text : ∀ c r, c ≠ CR → c ≠ LF → eol (String c r) = None;
}.

(** The header lines up to the first empty one, and the rest; [line] is what
    has been read of the current line. Every step takes a character, so the
    length of the text is fuel enough. *)
Fixpoint read_headers (lr : line_reader) (n : nat) (line s : string) : list string * string :=
  match n, s with
  | O, _ => ([line], s)
  | _, EmptyString => ([line], EmptyString)
  | S n, String c s' =>
      match eol lr s with
      | Some r => if String.eqb line EmptyString then ([], r)
                  else let '(h, b) := read_headers lr n EmptyString r in (line :: h, b)
      | None => read_headers lr n (line +:+ String c EmptyString) s'
      end
  end.

(** What a mail server reads from the raw form of a message. *)
Definition read_message (lr : line_reader) (raw : string) : option (list string * string) :=
  (λ s, read_headers lr (String.length s) EmptyString s) <$> b64_decode raw.

Definition no_break (s : string) : Prop :=
  string_forall (λ c, negb (Ascii.eqb c CR) && negb (Ascii.eqb c LF)) s = true.

(** The header fields of a draft. *)
Definition headers (d : EmailDraft) : list string :=
  ["To: " +:+ Join ", " (em_To d)]%string ++
  match em_Cc d with [] => [] | cc => ["Cc: " +:+ Join ", " cc]%string end ++
  ["Subject: " +:+ em_Subject d; "MIME-Version: 1.0";
   "Content-Type: text/plain; charset=" +:+ QUOTE +:+ "UTF-8" +:+ QUOTE]%string.

Definition lines (ls : list string) (body : string) : string :=
  foldr (λ l r, l +:+ (CRLF +:+ r)) (CRLF +:+ body) ls.

Lemma rfc822_lines d : rfc822 d = lines (headers d) (em_Body d).
Proof.
  unfold rfc822, headers. destruct (em_Cc d) as [|c cc]; cbn; by rewrite <-!append_assoc.
Qed.

Lemma no_break_append s t : no_break (s +:+ t) ↔ no_break s ∧ no_break t.
Proof. unfold no_break. rewrite string_forall_append. by rewrite andb_true_iff. Qed.

Lemma read_line lr l : ∀ n line r,
  no_break l → line +:+ l ≠ EmptyString →
  read_headers lr (String.length l + S n) line (l +:+ (CRLF +:+ r)) =
  let '(h, b) := read_headers lr n EmptyString r in ((line +:+ l) :: h, b).
Proof.
  induction l as [|c l IH]; intros n line r Hl Hne.
  - rewrite append_nil_r in *. change (EmptyString +:+ ?x) with x.
    pose proof (eol_crlf lr r) as He. change (CRLF +:+ r) with (String CR (String LF r)) in *.
    cbn [String.length Nat.add read_headers]. rewrite He.
    by destruct (String.eqb_spec line EmptyString).
  - unfold no_break in Hl. cbn [string_forall] in Hl. apply andb_prop in Hl as [[Hc Hf]%andb_prop Hl].
    apply negb_true_iff, Ascii.eqb_neq in Hc, Hf.
    cbn [String.append String.length Nat.add read_headers]. rewrite eol_text by done.
    rewrite IH by (by rewrite <-?append_assoc). by rewrite <-append_assoc.
Qed.

Lemma read_lines lr ls body n :
  Forall (λ l, no_break l ∧ l ≠ EmptyString) ls → (String.length (lines ls body) ≤ n)%nat →
  read_headers lr n EmptyString (lines ls body) = (ls, body).
Proof.
  intros Hls. revert n. induction Hls as [|l ls [Hl Hne] _ IH]; intros n Hn.
  - destruct n as [|n]; [cbn in Hn; lia|]. pose proof (eol_crlf lr body) as He.
    cbn [lines foldr]. change (CRLF +:+ body) with (String CR (String LF body)) in *.
    cbn [read_headers]. by rewrite He.
  - cbn [lines foldr] in *. fold (lines ls body) in *.
    rewrite !length_append in Hn. change (String.length CRLF) with 2%nat in Hn.
    replace n with (String.length l + S (n - String.length l - 1))%nat by lia.
    rewrite read_line by done. rewrite IH by lia. done.
Qed.

Lemma no_break_Join sep l : no_break sep → Forall no_break l → no_break (Join sep l).
Proof.
  intros Hs Hl. unfold Join. induction Hl as [|x l Hx Hl IH]; [done|]. destruct l as [|y l]; [done|].
  cbn [String.concat] in *. by rewrite !no_break_append.
Qed.

(** The addresses and the subject stay on their lines. *)
Definition single_line (d : EmailDraft) : Prop :=
  Forall no_break (em_To d) ∧ Forall no_break (em_Cc d) ∧ no_break (em_Subject d).

Lemma headers_single d : single_line d → Forall (λ l, no_break l ∧ l ≠ EmptyString) (headers d).
Proof.
  intros (Hto & Hcc & Hs). unfold headers. repeat apply Forall_app_2.
  - constructor; [|done]. split; [|done]. apply no_break_append. split; [done|]. by apply no_break_Join.
  - destruct (em_Cc d) as [|c cc]; [done|]. constructor; [|done]. split; [|done].
    apply (proj2 (no_break_append _ _)). split; [done|]. apply no_break_Join; done.
  - by repeat constructor.
Qed.

(** C38: When the recipients and the subject of a draft have neither a carriage return nor
    a line feed, every reader of the message that the server hands to Gmail that ends a
    header line at CR LF, whether or not it also ends one at a bare line feed or a bare
    carriage return, decodes exactly the header fields of the draft, in order, and its
    body, whatever bytes the body has. *)
Theorem message_roundtrip lr d :
  single_line d → read_message lr (encodeMessage d) = Some (headers d, em_Body d).
Proof.
  intros Hd. unfold read_message, encodeMessage. rewrite b64_roundtrip, rfc822_lines.
  cbn [fmap option_fmap option_map]. f_equal. apply read_lines; [by apply headers_single|done].
Qed.

(** The readers that take CR LF alone, and those that take a line feed as well. *)
Definition crlf_end (s : string) : option string :=
  match s with
  | String c (String d r) => if Ascii.eqb c CR && Ascii.eqb d LF then Some r else None
  | _ => None
  end.

Definition lf_end (s : string) : option string :=
  match s with
  | String c r => if Ascii.eqb c LF then Some r else crlf_end s
  | _ => None
  end.

#[program] Definition strict_reader : line_reader := {| eol := crlf_end |}.
Next Obligation. done. Qed.
Next Obligation.
  intros c [|d r] Hc _; [done|]. cbn. by apply Ascii.eqb_neq in Hc as ->.
Qed.

#[program] Definition lenient_reader : line_reader := {| eol := lf_end |}.
Next Obligation. done. Qed.
Next Obligation.
  intros c r Hc Hl. cbn [lf_end]. apply Ascii.eqb_neq in Hl as ->.
  destruct r as [|d r]; [done|]. cbn. by apply Ascii.eqb_neq in Hc as ->.
Qed.

(** A line break in the subject begins another header field: the validation
    does not look for one. *)
Lemma subject_injects lr d s h :
  em_Subject d = s +:+ (CRLF +:+ h) → Forall no_break (em_To d) → em_Cc d = [] →
  no_break s → no_break h → h ≠ EmptyString →
  ∃ hs, read_message lr (encodeMessage d) = Some (hs, em_Body d) ∧ h ∈ hs.
Proof.
  intros Hs Hto Hcc Hns Hnh Hne.
  set (hs := ["To: " +:+ Join ", " (em_To d); "Subject: " +:+ s; h; "MIME-Version: 1.0";
    "Content-Type: text/plain; charset=" +:+ QUOTE +:+ "UTF-8" +:+ QUOTE]%string).
  exists hs. split; [|unfold hs; set_solver].
  assert (rfc822 d = lines hs (em_Body d)) as Hl.
  { rewrite rfc822_lines. unfold headers, hs. rewrite Hcc, Hs. cbn. by rewrite <-!append_assoc. }
  unfold read_message, encodeMessage. rewrite b64_roundtrip, Hl.
  cbn [fmap option_fmap option_map]. f_equal. apply read_lines; [|done]. unfold hs.
  repeat constructor; try done. apply (proj2 (no_break_append _ _)). split; [done|].
  by apply no_break_Join.
Qed.

(** ** Which tool sends *)

Section sending.
Context {A : Type} `{GoogleAPI A} (sdk : McpSDK).

(** An operation that hands nothing to Google for sending. *)
Definition sends_nothing {B} (m : M (account A) B) : Prop := ∀ a, ac_sent (m a).2 = ac_sent a.

Lemma sends_nothing_ret {B} (b : B) : sends_nothing (mret b).
Proof. by intros a. Qed.

Lemma sends_nothing_bind {B C} (m : M (account A) B) (f : B → M (account A) C) :
  sends_nothing m → (∀ b, sends_nothing (f b)) → sends_nothing (m ≫= f).
Proof. intros Hm Hf a. by rewrite M_bind_step, Hf, Hm. Qed.

Lemma sends_nothing_api {B} (f : A → B * A) : sends_nothing (api_op f).
Proof. intros a. unfold api_op. by destruct (f (ac_api a)). Qed.

Hint Resolve sends_nothing_ret sends_nothing_api : bark.

(** The outcome of a tool call for the messages sent. *)
Lemma call_tool_sends name args (a : account A) :
  ac_sent (call_tool sdk name args a).2 = ac_sent a ∨
  (name = "gmail_send"%string ∧ ∃ i, decode_email sdk args = Ok i ∧
     ValidateEmailDraft (draft_of i) = None ∧
     ac_sent (call_tool sdk name args a).2 = ac_sent a ++ [encodeMessage (draft_of i)]).
Proof.
  unfold call_tool. destruct (List.find _ (registered_tools sdk)) as [[nm handler]|] eqn:Hf; [|by left].
  apply find_Some_elem_of in Hf as [Hin Hn%String.eqb_eq]. simpl in Hn. subst nm.
  unfold registered_tools in Hin. rewrite !elem_of_cons, elem_of_nil in Hin.
  destruct Hin as [Hin|[Hin|[Hin|[Hin|[Hin|[Hin|[]]]]]]]; injection Hin as -> ->;
    rewrite M_bind_step; cbn [snd mret M_ret].
  5: { unfold with_input. destruct (decode_email sdk args) as [i|e]; [|by left].
       rewrite M_bind_step. unfold SendEmail.
       destruct (ValidateEmailDraft (draft_of i)) eqn:Hv; [by left|right]. split; [done|].
       exists i. split; [done|]. split; [done|]. cbn. unfold client_SendEmail.
       by destruct (Messages_Send _ _). }
  all: left; match goal with |- ac_sent (?m _).2 = _ => enough (sends_nothing m) as Hsn by apply Hsn end;
    unfold with_input; case_match; [|by auto with bark];
    apply sends_nothing_bind; [|by auto with bark];
    unfold ReadSheet, ListEvents, CreateEvent, DraftEmail, ListDriveFiles;
    repeat case_match; try (by auto with bark);
    apply sends_nothing_bind; auto with bark.
Qed.
End sending.

(** ** The server behind the gateway *)

Section deployed.
Context `{PgText} {A : Type} `{GoogleAPI A} (sdk : McpSDK).

(** The servers of the deployment: this one at its endpoint, and others that
    have no access to the account. *)
Variables (endpoint : string) (others : Server → Tool → RawMessage → result RawMessage).

#[local] Instance workspace_Caller : ToolCaller (account A) := {
  tc_Call s t args a :=
    if String.eqb (Server_Endpoint s) endpoint then call_tool sdk (Tool_Name t) args a
    else (others s t args, a);
}.

(** The tool of a binding has the name that was asked for, and its server is the
    registered one. *)
Lemma ResolveTool_names sn tn d b :
  ResolveTool sn tn d = Ok b →
  Tool_Name (tb_Tool b) = tn ∧
  ∃ r, r ∈ mcp_servers d ∧ v_name r = sn ∧ v_endpoint r = Server_Endpoint (tb_Server b).
Proof.
  unfold ResolveTool, GetServerByName.
  intros (s & (r & Hr%select_server_Ok & [= <-])%res_bind_Ok & (Hs & _ & Hn)%find_tool_Ok)%res_bind_Ok.
  split; [done|]. apply find_server_Some in Hr as [Hin Hname]. exists r. by rewrite Hs.
Qed.

(** C8: If the checklist of a checkout is clean and the gateway's sync registered its
    servers, then, after any further store statements that do not re-register the
    Workspace server, and as long as no other registered name has this server's endpoint,
    every call through the gateway, of whatever server, hands Google a message for sending
    at most once, and only for the tool gmail_send, with a draft that passed the
    validation, and with an approval for that session and tool that the store holds as
    approved. The servers at other endpoints have no access to the account. *)
Theorem no_email_without_approval fs yaml_manifest yaml_checklist ranged root
    (w w' : world repo (account A)) servers i h t req :
  decoders_agree yaml_manifest yaml_checklist →
  RunChecklist fs yaml_checklist ranged root = Ok [] →
  registry_wf (registry_of w) →
  LoadDir yaml_manifest fs root = Ok servers → i ∈ servers →
  syncRegistry yaml_manifest fs root w = (Ok (), w') →
  Forall (λ so, ¬ reregisters (si_Name i) so.2) h →
  let w2 := at_db (Repository.run h (r_db (w_store w'))) w' in
  (∀ r, r ∈ mcp_servers (registry_of w2) → v_endpoint r = endpoint → v_name r = si_Name i) →
  let sent w := ac_sent (w_down w) in
  sent (Call t req w2).2 = sent w2 ∨
  ((∃ d, ValidateEmailDraft d = None ∧ sent (Call t req w2).2 = sent w2 ++ [encodeMessage d]) ∧
   req_ToolName req = "gmail_send"%string ∧
   ∃ r u, r ∈ approvals (d_gov (r_db (w_store w2))) ∧ uuid_in (req_SessionID req) = Some u ∧
     a_session_id r = Some u ∧ a_tool r = req_ToolName req ∧ a_status r = "approved"%string).
Proof.
  intros Hagree Hclean Hwf Hl Hi Hsync Hh w2 Honly sent.
  destruct (Call_effect t req w2) as [[_ Hd]|(b & Hc & _ & Hd)]; [left; unfold sent; by rewrite Hd|].
  assert (Tool_Name (tb_Tool b) = req_ToolName req ∧ ∃ r, r ∈ mcp_servers (registry_of w2) ∧
    v_name r = req_ServerName req ∧ v_endpoint r = Server_Endpoint (tb_Server b))
    as (Htn & r & Hin & Hrn & Hre).
  { destruct Hc as (s' & Hr & _). injection Hr as Hr _. by apply ResolveTool_names. }
  unfold sent. rewrite Hd. cbn [tc_Call workspace_Caller].
  destruct (String.eqb_spec (Server_Endpoint (tb_Server b)) endpoint) as [He|_]; [|by left]. rewrite Htn.
  destruct (call_tool_sends sdk (req_ToolName req) (req_Args req) (w_down w2))
    as [?|(Hg & em & _ & Hv & Hs)]; [by left|right].
  split; [by exists (draft_of em)|]. split; [done|].
  assert (req_ServerName req = si_Name i) as Hname.
  { rewrite <-Hrn. apply Honly; [done|]. by rewrite Hre. }
  eapply clean_checkout_cleared; try done. by rewrite Hg.
Qed.
End deployed.

(** ** The server's manifest, and a deployment *)

(** mcp-servers/google-workspace/manifest.yaml. *)
Definition workspace_manifest : manifestFile :=
  {| mf_Name := "google.workspace"; mf_Owner := "platform-team";
     mf_Description :=
       "Google Workspace capability for the ScottyLabs agent: read Sheets, list and create " +:+
       "Calendar events, draft and send Gmail, and read Drive metadata, acting as the agent's " +:+
       "scottylabs.org account via a scoped service account with domain-wide delegation." +:+ NL;
     mf_Endpoint := "http://google-workspace.railway.internal:8080/mcp";
     mf_Transport := "streamable-http"; mf_Auth := "bearer";
     mf_Tools :=
       [{| mt_Name := "sheets_read"; mt_Scope := "google.sheets.read"; mt_Impact := "read" |};
        {| mt_Name := "calendar_list"; mt_Scope := "google.calendar.read"; mt_Impact := "read" |};
        {| mt_Name := "calendar_create_event"; mt_Scope := "google.calendar.write";
           mt_Impact := "write" |};
        {| mt_Name := "gmail_draft"; mt_Scope := "google.gmail.draft"; mt_Impact := "write" |};
        {| mt_Name := "gmail_send"; mt_Scope := "google.gmail.send"; mt_Impact := "high" |};
        {| mt_Name := "drive_read"; mt_Scope := "google.drive.read"; mt_Impact := "read" |}];
     mf_AllowedCommittees := ["finance"; "events"; "design"; "leadership"];
     mf_Lifecycle := "proposed" |}%string.

(** The manifest declares the tools that the server registers, and passes the
    checklist. *)
Lemma manifest_matches {G} `{Google G} sdk :
  mt_Name <$> mf_Tools workspace_manifest = fst <$> registered_tools (G:=G) sdk ∧
  Forall sound_tool (mf_Tools workspace_manifest).
Proof.
  split; [done|]. repeat constructor; simpl; try done; try (by intros [=]);
    rewrite ?elem_of_cons; naive_solver.
Qed.

#[local] Existing Instance unary_text.

#[local] Instance null_api : GoogleAPI unit := {
  Cell := string;
  Sprint := id;
  Values_Get _ r a := (Ok (r, []), a);
  Events_List _ _ _ _ a := (Ok [], a);
  Events_Insert _ e a := (Ok e, a);
  Drafts_Create _ a := (Ok "draft-1"%string, a);
  Messages_Send _ a := (Ok "message-1"%string, a);
  Files_List _ _ a := (Ok [], a);
}.

Definition sample_email : emailInput :=
  {| ei_To := ["ada@x.org"]; ei_Cc := []; ei_Subject := "Receipt"; ei_Body := "Thanks!" |}%string.

Definition sample_mcp : McpSDK :=
  {| decode_sheetsRead _ := Err (ErrNew "arguments");
     decode_calendarList _ := Err (ErrNew "arguments");
     decode_calendarCreate _ := Err (ErrNew "arguments");
     decode_email _ := Ok sample_email;
     decode_driveRead _ := Err (ErrNew "arguments");
     encode_outcome r := match r with Ok _ => Ok (RawJSON JNull) | Err e => Err e end |}.

Lemma message_roundtrip_witness :
  read_message lenient_reader (encodeMessage (draft_of sample_email)) =
  Some (headers (draft_of sample_email), "Thanks!"%string).
Proof. apply message_roundtrip. repeat split; repeat constructor. Defined.

(** A subject that smuggles a recipient in passes the validation: every reader
    finds it after CR LF, and one that takes a line feed for a line end finds it
    after that. *)
Lemma bcc_smuggled lr :
  let d := {| em_To := ["ada@x.org"]; em_Cc := [];
              em_Subject := "Hi" +:+ CRLF +:+ "Bcc: eve@y.org"; em_Body := "Hello" |}%string in
  ValidateEmailDraft d = None ∧
  ∃ hs, read_message lr (encodeMessage d) = Some (hs, "Hello"%string) ∧ "Bcc: eve@y.org"%string ∈ hs.
Proof.
  intros d. split; [reflexivity|].
  apply (subject_injects lr d "Hi" "Bcc: eve@y.org"); try done. by repeat constructor.
Qed.

Lemma bcc_smuggled_lf :
  let d := {| em_To := ["ada@x.org"]; em_Cc := [];
              em_Subject := "Hi" +:+ NL +:+ "Bcc: eve@y.org"; em_Body := "Hello" |}%string in
  ValidateEmailDraft d = None ∧
  (bool_decide ("Bcc: eve@y.org"%string ∈ default [] (fst <$> read_message lenient_reader (encodeMessage d))) = true ∧
   bool_decide ("Bcc: eve@y.org"%string ∈ default [] (fst <$> read_message strict_reader (encodeMessage d))) = false).
Proof. vm_compute. done. Qed.

Definition sample_account : world repo (account unit) :=
  {| w_store := w_store (sample_world []); w_down := {| ac_api := tt; ac_sent := [] |};
     w_limiter := None; w_calls := [] |}.

Definition sample_others : Server → Tool → RawMessage → result RawMessage :=
  λ _ _ _, Err (ErrNew "no such host").

#[local] Instance sample_Caller : ToolCaller (account unit) :=
  workspace_Caller sample_mcp (mf_Endpoint workspace_manifest) sample_others.

Definition sample_deployment : result unit * world repo (account unit) :=
  syncRegistry (sample_yaml workspace_manifest) (sample_fs "PORT=80") "repo" sample_account.

Definition sample_promotion : list (Stmt * op) :=
  sample_history ++
  [(sample_stmt 9 60, OpSetServerLifecycle "google.workspace" LifecycleApproved);
   (sample_stmt 10 70, OpCreateApproval (strokes 2) "gmail_send" (RawJSON (JObj [])));
   (sample_stmt 11 80, OpDecideApproval (strokes 70) "approved" "U9")].

Definition sample_send : CallRequest :=
  {| req_Identity := {| Subject := "agent"; Committees := ["finance"]; IsAgent := true |};
     req_SessionID := strokes 2; req_ServerName := "google.workspace";
     req_ToolName := "gmail_send"; req_Args := RawJSON (JObj []) |}%string.

Definition sample_input : ServerInput :=
  {| si_Name := mf_Name workspace_manifest; si_Owner := mf_Owner workspace_manifest;
     si_Description := mf_Description workspace_manifest;
     si_Endpoint := mf_Endpoint workspace_manifest;
     si_Transport := mf_Transport workspace_manifest; si_Auth := mf_Auth workspace_manifest;
     si_Tools := tool_input <$> mf_Tools workspace_manifest;
     si_Committees := mf_AllowedCommittees workspace_manifest |}.

(** A look at the rows decides which names have an endpoint. *)
Lemma only_name_dec endpoint name (l : list server_row) :
  forallb (λ r, negb (String.eqb (v_endpoint r) endpoint) || String.eqb (v_name r) name) l = true →
  ∀ r, r ∈ l → v_endpoint r = endpoint → v_name r = name.
Proof.
  rewrite forallb_forall. intros Hl r Hr He. apply list_elem_of_In, Hl in Hr.
  rewrite He, String.eqb_refl in Hr. by apply String.eqb_eq in Hr.
Qed.

Lemma no_email_without_approval_witness :
  let w2 := at_db (Repository.run sample_promotion (r_db (w_store sample_deployment.2)))
              sample_deployment.2 in
  ac_sent (w_down (Call sample_ticks sample_send w2).2) = [encodeMessage (draft_of sample_email)] ∧
  ∃ r u, r ∈ approvals (d_gov (r_db (w_store w2))) ∧ uuid_in (strokes 2) = Some u ∧
    a_session_id r = Some u ∧ a_tool r = "gmail_send"%string ∧ a_status r = "approved"%string.
Proof.
  split; [vm_compute; reflexivity|].
  destruct (no_email_without_approval sample_mcp (mf_Endpoint workspace_manifest) sample_others
    (sample_fs "PORT=80") (sample_yaml workspace_manifest)
    (sample_yaml {| cl_Name := "google.workspace"; cl_Tools := mf_Tools workspace_manifest |})
    sample_ranged "repo" sample_account sample_deployment.2 [sample_input] sample_input
    sample_promotion sample_ticks sample_send) as [Hn|(_ & _ & Hr)].
  - intros raw m c. unfold sample_yaml. destruct (String.eqb raw _); [|discriminate].
    intros [= <-] [= <-]. reflexivity.
  - vm_compute. reflexivity.
  - apply registry_empty_wf.
  - vm_compute. reflexivity.
  - left.
  - vm_compute. reflexivity.
  - repeat constructor; simpl; discriminate || (intros []).
  - apply (only_name_dec (mf_Endpoint workspace_manifest) "google.workspace"). vm_compute. reflexivity.
  - vm_compute in Hn. discriminate.
  - exact Hr.
Defined.
