(* ===== verification/Recipe.v ===== *)
(** * Recipes, models and task specifications (runtime/)

    config.go, recipe.go, model.go, the part of runtime.go that resolves a
    task to a [RunSpec], goose.go's environment, and the arguments of the
    command cmd/runtime. Reading files and parsing YAML are parameters. *)

From S2P Require Import Prelude GoText Path.
From Stdlib Require Import ZArith Lia Ascii.
From stdpp Require Import options.

Open Scope list_scope.

(** ** Configuration *)

Record Config := MkConfig {
  Provider : string;
  Model : string;
  EscalationModel : string;
  OpenRouterAPIKey : string;
  GatewayURL : string;
  GatewayToken : string;
  RecipesDir : string;
  GooseHintsPath : string;
}.

Definition LoadConfig (Getenv : string → string) : Config :=
  {| Provider := firstNonEmpty [Getenv "GOOSE_PROVIDER"; "openrouter"]%string;
     Model := firstNonEmpty [Getenv "GOOSE_MODEL"; "anthropic/claude-sonnet-4.6"]%string;
     EscalationModel :=
       firstNonEmpty [Getenv "GOOSE_ESCALATION_MODEL"; "anthropic/claude-opus-4.8"]%string;
     OpenRouterAPIKey := Getenv "OPENROUTER_API_KEY";
     GatewayURL := Getenv "GATEWAY_MCP_URL";
     GatewayToken := Getenv "GATEWAY_SERVICE_TOKEN";
     RecipesDir := firstNonEmpty [Getenv "RECIPES_DIR"; "recipes"]%string;
     GooseHintsPath := Getenv "GOOSEHINTS_PATH" |}.

Record ModelConfig := MkModelConfig { Default : string; Escalation : string }.

Definition Models (c : Config) : ModelConfig :=
  {| Default := Model c; Escalation := EscalationModel c |}.

Definition Select (m : ModelConfig) (recipeModel : string) (hard : bool) : string :=
  if nonempty recipeModel then recipeModel
  else if hard && nonempty (Escalation m) then Escalation m
  else Default m.

(** ** Recipes *)

Record RecipeParam := MkRecipeParam {
  rp_Key : string; rp_Description : string; rp_Required : bool }.

Record RecipeExtension := MkRecipeExtension { rx_Gateway : string }.

Record RecipeResponse := MkRecipeResponse { rr_RequireHumanApprovalFor : list string }.

(** Without the field [Version], which is of type any and never read. *)
Record Recipe := MkRecipe {
  rc_Title : string;
  rc_Description : string;
  rc_Owner : string;
  rc_Model : string;
  rc_Parameters : list RecipeParam;
  rc_Extensions : list RecipeExtension;
  rc_Instructions : string;
  rc_Response : RecipeResponse;
}.

(** The files: which paths exist, what reading one yields, and the YAML
    parser's reading of the bytes. *)
Record Files := MkFiles {
  Stat : string → bool;
  ReadFile : string → result string;
  Unmarshal : string → result Recipe;
}.

Definition LoadRecipe (fs : Files) (path : string) : result Recipe :=
  match ReadFile fs path with
  | Err e => Err (Errorf_w "runtime: read recipe %s: " [Fs path] e)
  | Ok raw =>
      match Unmarshal fs raw with
      | Err e => Err (Errorf_w "runtime: parse recipe %s: " [Fs path] e)
      | Ok r =>
          if negb (nonempty (rc_Title r)) || negb (nonempty (rc_Instructions r)) ||
             negb (nonempty (rc_Owner r))
          then Err (Errorf "runtime: recipe %s missing title, owner, or instructions" [Fs path])
          else Ok r
      end
  end.

Definition exts : list string := [".yaml"; ".yml"]%string.

Definition clean_id (id : string) : string := TrimPrefix (Clean ("/" +:+ id)) "/".

Definition valid_id (id : string) : bool :=
  nonempty (clean_id id) && negb (Contains (clean_id id) "..").

(** The paths that are probed, in order. *)
Definition candidates (recipesDir id : string) : list string :=
  (λ ext, path_Join [recipesDir; clean_id id +:+ ext]) <$> exts.

Definition LoadRecipeByID (fs : Files) (recipesDir id : string) : result Recipe :=
  if valid_id id then
    match List.find (Stat fs) (candidates recipesDir id) with
    | Some path => LoadRecipe fs path
    | None => Err (Errorf "runtime: recipe %q not found under %s" [Fs id; Fs recipesDir])
    end
  else Err (Errorf "runtime: invalid recipe id %q" [Fs id]).

(** ** Tasks *)

Record TaskRequest := MkTaskRequest {
  RecipeID : string;
  InlineGoal : string;
  Params : gmap string string;
  tr_Identity : string;
  Committee : string;
  HardTask : bool;
}.

Record RunSpec := MkRunSpec {
  Goal : string;
  Instructions : string;
  rs_Model : string;
  rs_Identity : string;
  rs_Committee : string;
  rs_Params : gmap string string;
}.

Record Runtime := MkRuntime { rt_models : ModelConfig; rt_recipesDir : string }.

Definition Option : Type := Runtime → Runtime.

Definition WithModels (m : ModelConfig) : Option := λ r,
  {| rt_models := m; rt_recipesDir := rt_recipesDir r |}.

Definition WithRecipesDir (dir : string) : Option := λ r,
  {| rt_models := rt_models r; rt_recipesDir := dir |}.

(** The engine is not part of the record; see [Engine] of Task.v. *)
Definition New (opts : list Option) : Runtime :=
  foldl (λ r o, o r)
    {| rt_models := {| Default := EmptyString; Escalation := EmptyString |};
       rt_recipesDir := "recipes" |} opts.

Definition buildSpec (fs : Files) (r : Runtime) (req : TaskRequest) : result RunSpec :=
  let spec goal instructions model :=
    {| Goal := goal; Instructions := instructions;
       rs_Model := Select (rt_models r) model (HardTask req);
       rs_Identity := tr_Identity req; rs_Committee := Committee req;
       rs_Params := Params req |} in
  if nonempty (RecipeID req) then
    rec ← LoadRecipeByID fs (rt_recipesDir r) (RecipeID req);
    Ok (spec (rc_Title rec) (rc_Instructions rec) (rc_Model rec))
  else if nonempty (InlineGoal req) then Ok (spec (InlineGoal req) EmptyString EmptyString)
  else Err (ErrNew "runtime: task needs a recipe_id or inline_goal").

(** ** Goose *)

Definition gooseEnv (cfg : Config) (spec : RunSpec) : list string :=
  ["GOOSE_PROVIDER=" +:+ Provider cfg; "GOOSE_MODEL=" +:+ rs_Model spec] ++
  (if nonempty (OpenRouterAPIKey cfg) then ["OPENROUTER_API_KEY=" +:+ OpenRouterAPIKey cfg] else []) ++
  (if nonempty (GatewayURL cfg) then ["SCOTTYLABS_GATEWAY_URL=" +:+ GatewayURL cfg] else []) ++
  (if nonempty (GatewayToken cfg) then ["SCOTTYLABS_GATEWAY_TOKEN=" +:+ GatewayToken cfg] else []).

Definition goose_prompt (spec : RunSpec) : string :=
  if nonempty (Instructions spec) then Instructions spec else Goal spec.

(** ** The command line (cmd/runtime)

    Indexing past the arguments is a panic. *)

Inductive parsed : Type :=
  | Parsed (req : TaskRequest)
  | ParseError (e : error)
  | Panic.

Definition with_goal (g : string) (r : TaskRequest) : TaskRequest :=
  {| RecipeID := RecipeID r; InlineGoal := g; Params := Params r;
     tr_Identity := tr_Identity r; Committee := Committee r; HardTask := HardTask r |}.
Definition with_committee (c : string) (r : TaskRequest) : TaskRequest :=
  {| RecipeID := RecipeID r; InlineGoal := InlineGoal r; Params := Params r;
     tr_Identity := tr_Identity r; Committee := c; HardTask := HardTask r |}.
Definition with_identity (i : string) (r : TaskRequest) : TaskRequest :=
  {| RecipeID := RecipeID r; InlineGoal := InlineGoal r; Params := Params r;
     tr_Identity := i; Committee := Committee r; HardTask := HardTask r |}.
Definition with_hard (r : TaskRequest) : TaskRequest :=
  {| RecipeID := RecipeID r; InlineGoal := InlineGoal r; Params := Params r;
     tr_Identity := tr_Identity r; Committee := Committee r; HardTask := true |}.
Definition with_param (k v : string) (r : TaskRequest) : TaskRequest :=
  {| RecipeID := RecipeID r; InlineGoal := InlineGoal r; Params := <[k := v]> (Params r);
     tr_Identity := tr_Identity r; Committee := Committee r; HardTask := HardTask r |}.
Definition with_recipe (id : string) (r : TaskRequest) : TaskRequest :=
  {| RecipeID := id; InlineGoal := InlineGoal r; Params := Params r;
     tr_Identity := tr_Identity r; Committee := Committee r; HardTask := HardTask r |}.

Fixpoint parse_loop (args : list string) (r : TaskRequest) : parsed :=
  match args with
  | [] =>
      if negb (nonempty (RecipeID r)) && negb (nonempty (InlineGoal r))
      then ParseError (ErrNew "provide a recipe id or --goal") else Parsed r
  | a :: args =>
      if String.eqb a "--goal" then
        match args with
        | [] => ParseError (ErrNew "--goal needs a value")
        | v :: args => parse_loop args (with_goal v r)
        end
      else if String.eqb a "--committee" then
        match args with [] => Panic | v :: args => parse_loop args (with_committee v r) end
      else if String.eqb a "--identity" then
        match args with [] => Panic | v :: args => parse_loop args (with_identity v r) end
      else if String.eqb a "--hard" then parse_loop args (with_hard r)
      else match Cut "=" a with
           | Some (k, v) => parse_loop args (with_param k v r)
           | None => parse_loop args (with_recipe a r)
           end
  end.

Definition parseArgs (args : list string) : parsed :=
  parse_loop args {| RecipeID := EmptyString; InlineGoal := EmptyString; Params := ∅;
                     tr_Identity := "cli"; Committee := EmptyString; HardTask := false |}.

(** ** Lemmas *)

Lemma clean_id_segs id :
  clean_id id = Join "/" (clean_segs ("/" +:+ id)) ∧ Forall plain (clean_segs ("/" +:+ id)).
Proof.
  split; [|by apply clean_segs_rooted]. unfold clean_id, Clean. simpl. apply (TrimPrefix_append "/").
Qed.

(** An extension goes to the last segment. *)
Lemma Join_ext segs ext :
  segs ≠ [] → Join "/" segs +:+ ext =
    Join "/" (take (pred (length segs)) segs ++ [default EmptyString (List.last (Some <$> segs) None) +:+ ext]).
Proof.
  unfold Join. induction segs as [|s segs IH]; [done|]. intros _. simpl.
  destruct segs as [|t segs]; [done|].
  specialize (IH ltac:(done)). simpl in *. rewrite <-append_assoc.
  destruct segs as [|u segs]; simpl in *; [done|]. by rewrite <-IH.
Qed.

Lemma plain_ext s ext :
  plain s → ext ∈ exts → plain (s +:+ ext).
Proof.
  intros (Hne & _ & _ & Hs) He. destruct s as [|c s]; [done|]. simpl.
  split; [done|]. unfold exts in He. rewrite !elem_of_cons, elem_of_nil in He.
  split; [intros [= -> Hx]; destruct s; naive_solver|].
  split; [intros [= -> Hx]; destruct s as [|d [|e s]]; naive_solver|].
  simpl. simpl in Hs. apply andb_true_iff in Hs as [-> Hs]. simpl.
  rewrite string_forall_append, Hs. naive_solver.
Qed.

Lemma last_plain segs :
  segs ≠ [] → Forall plain segs →
  plain (default EmptyString (List.last (Some <$> segs) None)).
Proof.
  induction segs as [|s segs IH]; [done|]. intros _ [Hs Hl]%Forall_cons.
  destruct segs as [|t segs]; [done|]. apply IH; done.
Qed.

Lemma candidates_below dir id p :
  valid_id id = true → p ∈ candidates dir id → below dir p.
Proof.
  unfold valid_id, candidates. intros [Hne _]%andb_true_iff.
  intros (ext & -> & He)%list_elem_of_fmap.
  destruct (clean_id_segs id) as [Hc Hp]. rewrite Hc in Hne |- *.
  set (segs := clean_segs _) in *. apply nonempty_true in Hne.
  assert (segs ≠ []) as Hs by (by intros ->).
  rewrite Join_ext by done. set (l := take _ _ ++ _).
  assert (Forall plain l) as Hl.
  { subst l. apply Forall_app. split; [by apply Forall_take|].
    constructor; [|done]. apply plain_ext; [by apply last_plain|done]. }
  assert (l ≠ []) as Hlne by (subst l; by destruct (take _ _)).
  assert (Split SEP (Join "/" l) = l) as Hsp
    by (apply (Split_Join SEP); [done|by apply plain_no_sep]).
  apply (path_Join_below dir _ l); try done.
  intros Hj. rewrite Hj in Hsp. simpl in Hsp. rewrite <-Hsp in Hl.
  apply Forall_cons in Hl as [(? & _) _]. done.
Qed.

Lemma find_ext {A} (p q : A → bool) l :
  (∀ x, x ∈ l → p x = q x) → List.find p l = List.find q l.
Proof.
  induction l as [|x l IH]; [done|]. intros Hpq. simpl.
  rewrite (Hpq x) by left. destruct (q x); [done|]. apply IH. intros y Hy. apply Hpq. by right.
Qed.

(** ** Properties *)

(** C32: Loading a recipe by id reads nothing outside the recipes directory: two file
    systems that agree below it give the same answer for every id, however many ../ it
    has. *)
Theorem LoadRecipeByID_confined fs1 fs2 dir id :
  (∀ p, below dir p → Stat fs1 p = Stat fs2 p ∧ ReadFile fs1 p = ReadFile fs2 p) →
  (∀ raw, Unmarshal fs1 raw = Unmarshal fs2 raw) →
  LoadRecipeByID fs1 dir id = LoadRecipeByID fs2 dir id.
Proof.
  intros Hfs Hy. unfold LoadRecipeByID. destruct (valid_id id) eqn:Hv; [|done].
  rewrite (find_ext (Stat fs1) (Stat fs2))
    by (intros p Hp; by apply Hfs, (candidates_below dir id)).
  destruct (List.find (Stat fs2) _) as [p|] eqn:Hf; [|done].
  apply find_Some_elem_of in Hf as [Hp _]. unfold LoadRecipe.
  destruct (Hfs p (candidates_below _ _ _ Hv Hp)) as [_ ->].
  destruct (ReadFile fs2 p); [|done]. by rewrite Hy.
Qed.

(** A recipe task runs the recipe's own instructions with the model the recipe names,
    if any; an inline task runs its goal with the escalation model when it is hard and one
    is configured; identity, committee and parameters are those of the request. *)
Theorem buildSpec_model fs r req spec :
  buildSpec fs r req = Ok spec →
  rs_Identity spec = tr_Identity req ∧ rs_Committee spec = Committee req ∧
  rs_Params spec = Params req ∧
  (RecipeID req ≠ EmptyString →
   ∃ rec, LoadRecipeByID fs (rt_recipesDir r) (RecipeID req) = Ok rec ∧
     Goal spec = rc_Title rec ∧ Instructions spec = rc_Instructions rec ∧
     goose_prompt spec = rc_Instructions rec ∧
     (rc_Model rec ≠ EmptyString → rs_Model spec = rc_Model rec)) ∧
  (RecipeID req = EmptyString →
   InlineGoal req ≠ EmptyString ∧ goose_prompt spec = InlineGoal req ∧
   rs_Model spec =
     if HardTask req && nonempty (Escalation (rt_models r))
     then Escalation (rt_models r) else Default (rt_models r)).
Proof.
  unfold buildSpec. destruct (nonempty (RecipeID req)) eqn:Hid.
  - rewrite res_bind_Ok. intros (rec & Hrec & [= <-]). apply nonempty_true in Hid.
    do 3 (split; [done|]). split; [|done]. intros _. exists rec.
    assert (rc_Instructions rec ≠ EmptyString) as Hi.
    { unfold LoadRecipeByID, LoadRecipe in Hrec. repeat (case_match; try done).
      simplify_eq. bools. by apply nonempty_true. }
    do 3 (split; [done|]). split.
    + unfold goose_prompt. simpl. by apply nonempty_true in Hi as ->.
    + intros Hm. simpl. unfold Select. by apply nonempty_true in Hm as ->.
  - destruct (nonempty (InlineGoal req)) eqn:Hg; [|done]. intros [= <-].
    apply nonempty_false in Hid. do 3 (split; [done|]). split; [done|]. intros _.
    split; [by apply nonempty_true|]. done.
Qed.

(** A flag without its value: --goal is an error, --committee a panic. *)
Theorem parseArgs_trailing_flag args r :
  parse_loop ["--goal"%string] r = ParseError (ErrNew "--goal needs a value") ∧
  parse_loop ["--committee"%string] r = Panic ∧ parse_loop ["--identity"%string] r = Panic ∧
  (parse_loop args r = Panic →
   ∃ l f, args = l ++ [f] ∧ (f = "--committee"%string ∨ f = "--identity"%string)).
Proof.
  do 3 (split; [done|]). revert r.
  remember (length args) as n eqn:Hn. revert args Hn.
  induction (lt_wf n) as [n _ IH]. intros args -> r. destruct args as [|a args]; simpl.
  { by case_match. }
  assert (∀ args' r', (∃ pre, a :: args = pre ++ args' ∧ pre ≠ []) → parse_loop args' r' = Panic →
    ∃ l f, a :: args = l ++ [f] ∧ (f = "--committee"%string ∨ f = "--identity"%string)) as Hrec.
  { intros args' r' (pre & Heq & Hpre) Hp.
    destruct (IH (length args')) with (args := args') (r := r') as (l & f & -> & Hf); [|done..|].
    - rewrite Heq, length_app. destruct pre; [done|]. simpl. lia.
    - exists (pre ++ l), f. by rewrite <-(assoc_L (++)). }
  repeat case_match; bools; subst; try done.
  all: try (intros Hp; eapply Hrec; [|exact Hp]; eexists [_; _]; done).
  all: try (intros Hp; eapply Hrec; [|exact Hp]; eexists [_]; done).
  - intros _. exists [], "--committee"%string. auto.
  - intros _. exists [], "--identity"%string. auto.
Qed.

(** ** Concrete instances *)

Definition sample_recipe : Recipe :=
  {| rc_Title := "Screen"; rc_Description := EmptyString; rc_Owner := "finance"; rc_Model := "m2";
     rc_Parameters := []; rc_Extensions := []; rc_Instructions := "do it";
     rc_Response := {| rr_RequireHumanApprovalFor := [] |} |}.

(** The files for which [there] holds, all of them the sample recipe. *)
Definition sample_files (there : string → bool) : Files :=
  {| Stat := there; ReadFile := λ p, if there p then Ok "yaml"%string else Err (ErrNew "ENOENT");
     Unmarshal := λ _, Ok sample_recipe |}.

Lemma LoadRecipeByID_confined_witness :
  LoadRecipeByID (sample_files (λ _, true)) "recipes" "../../etc/passwd" =
    LoadRecipeByID (sample_files (λ p, HasPrefix p "recipes/")) "recipes" "../../etc/passwd" ∧
  LoadRecipeByID (sample_files (λ _, true)) "recipes" "../../etc/passwd" = Ok sample_recipe.
Proof.
  split; [|reflexivity]. apply LoadRecipeByID_confined; [|done].
  intros p (segs & Hne & _ & ->). destruct segs as [|s segs]; [done|].
  by destruct segs.
Defined.

Definition sample_task (id goal : string) : TaskRequest :=
  {| RecipeID := id; InlineGoal := goal; Params := ∅; tr_Identity := "U1"; Committee := "finance";
     HardTask := true |}.

Lemma buildSpec_model_witness :
  ∃ spec, buildSpec (sample_files (λ _, true))
      {| rt_models := {| Default := "m1"; Escalation := "m9" |}; rt_recipesDir := "recipes" |}
      (sample_task EmptyString "say hi") = Ok spec ∧
    goose_prompt spec = "say hi"%string ∧ rs_Model spec = "m9"%string.
Proof.
  eexists. split; [reflexivity|].
  edestruct (buildSpec_model (sample_files (λ _, true))
    {| rt_models := {| Default := "m1"; Escalation := "m9" |}; rt_recipesDir := "recipes" |}
    (sample_task EmptyString "say hi")) as (_ & _ & _ & _ & Hgoal); [reflexivity|].
  destruct (Hgoal eq_refl) as (_ & Hp & Hm). split; [exact Hp|exact Hm].
Defined.
