(* ===== verification/Task.v ===== *)
(** * A running task (runtime/agentruntime.go, runtime.go, goose.go)

    The goroutine [run], its two channels and the callers around it, as a
    transition system. A choice says which party moves next; every
    interleaving of the engine, the consumer of events, the callers of
    ResolveApproval and a cancellation is a sequence of choices. *)

From S2P Require Import Prelude GoText Recipe.
From Stdlib Require Import ZArith Lia Ascii.
From stdpp Require Import options.

Open Scope nat_scope.
Open Scope list_scope.

(** ** Data *)

Inductive EventKind : Type :=
  | KindStatus | KindToolCall | KindApprovalRequired | KindOutput | KindError | KindDone.

#[export] Instance EventKind_eq_dec : EqDecision EventKind.
Proof. solve_decision. Defined.

Record Event := MkEvent {
  Kind : EventKind;
  Text : string;
  ev_Tool : string;
  ApprovalID : string;
}.

#[export] Instance Event_eq_dec : EqDecision Event.
Proof. solve_decision. Defined.

Record Result := MkResult { r_Output : string; r_AuditRef : string }.

Record decision := Decision_ { approvalID : string; granted : bool; decidedBy : string }.

Definition event (k : EventKind) (text : string) : Event :=
  {| Kind := k; Text := text; ev_Tool := EmptyString; ApprovalID := EmptyString |}.
Definition approval_event (tool id : string) : Event :=
  {| Kind := KindApprovalRequired; Text := EmptyString; ev_Tool := tool; ApprovalID := id |}.

(** ** Engines

    The interface [Engine]: what the engine does next, and how it goes on. A
    hook call hands control to the runtime until the hook returns. *)

Inductive action (E : Type) : Type :=
  | ARet (r : Result) (err : option error)
  | AEmit (e : Event) (k : E)
  | AApprove (tool id : string) (k : result bool → E)
  | ATau (k : E).
Arguments ARet {E} _ _.
Arguments AEmit {E} _ _.
Arguments AApprove {E} _ _ _.
Arguments ATau {E} _.

Class Engine (E : Type) := { next : E → action E }.

(** ** The task *)

(** Where the goroutine [run] stands. *)
Inductive pc (E : Type) : Type :=
  | PRun (e : E)
  | PWait (tool id : string) (k : result bool → E)   (* in the loop of Approve *)
  | PFinal (e : Event)                               (* sending the last but one event *)
  | PDone                                            (* sending KindDone *)
  | PCloseEvents
  | PCloseDone
  | PExit.
Arguments PRun {E} _.
Arguments PWait {E} _ _ _.
Arguments PFinal {E} _.
Arguments PDone {E}.
Arguments PCloseEvents {E}.
Arguments PCloseDone {E}.
Arguments PExit {E}.

Definition events_cap : nat := 32.

(** The fields after [ctx_done] record the history; the code does not read them. *)
Record Task (E : Type) := MkTask {
  t_pc : pc E;
  t_events : list Event;
  t_closed : bool;
  t_decisions : option decision;
  t_done : bool;
  t_result : Result * option error;
  ctx_done : bool;
  h_sent : list Event;
  h_received : list Event;
  h_delivered : list decision;
  h_answers : list (string * string * bool);
}.
Arguments MkTask {E} _ _ _ _ _ _ _ _ _ _ _.
Arguments t_pc {E} _.
Arguments t_events {E} _.
Arguments t_closed {E} _.
Arguments t_decisions {E} _.
Arguments t_done {E} _.
Arguments t_result {E} _.
Arguments ctx_done {E} _.
Arguments h_sent {E} _.
Arguments h_received {E} _.
Arguments h_delivered {E} _.
Arguments h_answers {E} _.

Definition ErrCanceled : error := ErrNew "context canceled".

Section task.
Context {E : Type} `{Engine E}.
Implicit Types (t : Task E).

Definition set_pc (p : pc E) t : Task E :=
  {| t_pc := p; t_events := t_events t; t_closed := t_closed t; t_decisions := t_decisions t;
     t_done := t_done t; t_result := t_result t; ctx_done := ctx_done t; h_sent := h_sent t;
     h_received := h_received t; h_delivered := h_delivered t; h_answers := h_answers t |}.

(** [t.events <- e]: only when there is room. *)
Definition send (e : Event) (p : pc E) t : option (Task E) :=
  if decide (length (t_events t) < events_cap) then
    Some {| t_pc := p; t_events := t_events t ++ [e]; t_closed := t_closed t;
            t_decisions := t_decisions t; t_done := t_done t; t_result := t_result t;
            ctx_done := ctx_done t; h_sent := h_sent t ++ [e]; h_received := h_received t;
            h_delivered := h_delivered t; h_answers := h_answers t |}
  else None.

(** [d := <-t.decisions] in the loop of Approve *)
Definition take_decision (tool id : string) (k : result bool → E) (d : decision) t : Task E :=
  let stale := nonempty (approvalID d) && negb (String.eqb (approvalID d) id) in
  {| t_pc := if stale then PWait tool id k else PRun (k (Ok (granted d)));
     t_events := t_events t; t_closed := t_closed t; t_decisions := None; t_done := t_done t;
     t_result := t_result t; ctx_done := ctx_done t; h_sent := h_sent t;
     h_received := h_received t; h_delivered := h_delivered t;
     h_answers := if stale then h_answers t else h_answers t ++ [(tool, id, granted d)] |}.

(** The result is stored and the closing events are due. *)
Definition finish (r : Result) (err : option error) t : Task E :=
  {| t_pc := PFinal (match err with
                     | Some e => event KindError (Error e)
                     | None => event KindOutput (r_Output r) end);
     t_events := t_events t; t_closed := t_closed t; t_decisions := t_decisions t;
     t_done := t_done t; t_result := (r, err); ctx_done := ctx_done t; h_sent := h_sent t;
     h_received := h_received t; h_delivered := h_delivered t; h_answers := h_answers t |}.

Definition close_events t : Task E :=
  {| t_pc := PCloseDone; t_events := t_events t; t_closed := true; t_decisions := t_decisions t;
     t_done := t_done t; t_result := t_result t; ctx_done := ctx_done t; h_sent := h_sent t;
     h_received := h_received t; h_delivered := h_delivered t; h_answers := h_answers t |}.

Definition close_done t : Task E :=
  {| t_pc := PExit; t_events := t_events t; t_closed := t_closed t; t_decisions := t_decisions t;
     t_done := true; t_result := t_result t; ctx_done := ctx_done t; h_sent := h_sent t;
     h_received := h_received t; h_delivered := h_delivered t; h_answers := h_answers t |}.

(** The goroutine's next step on its channels; None when it is blocked. *)
Definition run_step t : option (Task E) :=
  match t_pc t with
  | PRun e =>
      match next e with
      | ATau k => Some (set_pc (PRun k) t)
      | AEmit ev k => send ev (PRun k) t
      | AApprove tool id k => send (approval_event tool id) (PWait tool id k) t
      | ARet r err => Some (finish r err t)
      end
  | PWait tool id k =>
      match t_decisions t with Some d => Some (take_decision tool id k d t) | None => None end
  | PFinal e => send e PDone t
  | PDone => send (event KindDone EmptyString) PCloseEvents t
  | PCloseEvents => Some (close_events t)
  | PCloseDone => Some (close_done t)
  | PExit => None
  end.

(** The branch [<-ctx.Done()] of the select the goroutine stands at. *)
Definition ctx_step t : option (Task E) :=
  if ctx_done t then
    match t_pc t with
    | PRun e =>
        match next e with
        | AEmit _ k => Some (set_pc (PRun k) t)
        | AApprove _ _ k => Some (set_pc (PRun (k (Err ErrCanceled))) t)
        | _ => None
        end
    | PWait _ _ k => Some (set_pc (PRun (k (Err ErrCanceled))) t)
    | _ => None
    end
  else None.

(** ResolveApproval: the send branch (the channel holds one decision). *)
Definition deliver (d : decision) t : option (Task E) :=
  match t_decisions t with
  | Some _ => None
  | None =>
      Some {| t_pc := t_pc t; t_events := t_events t; t_closed := t_closed t;
              t_decisions := Some d; t_done := t_done t; t_result := t_result t;
              ctx_done := ctx_done t; h_sent := h_sent t; h_received := h_received t;
              h_delivered := h_delivered t ++ [d]; h_answers := h_answers t |}
  end.

(** ResolveApproval: what may be selected. Both branches can be ready. *)
Inductive resolve_result : Type :=
  | Delivered (t : Task E)
  | Finished
  | Blocked.

Definition ResolveApproval (prefer_done : bool) (d : decision) t : resolve_result :=
  if t_done t && prefer_done then Finished
  else match deliver d t with
       | Some t' => Delivered t'
       | None => if t_done t then Finished else Blocked
       end.

(** A receive from Events(). *)
Definition receive t : option (Event * Task E) :=
  match t_events t with
  | [] => None
  | e :: q =>
      Some (e, {| t_pc := t_pc t; t_events := q; t_closed := t_closed t;
                  t_decisions := t_decisions t; t_done := t_done t; t_result := t_result t;
                  ctx_done := ctx_done t; h_sent := h_sent t;
                  h_received := h_received t ++ [e]; h_delivered := h_delivered t;
                  h_answers := h_answers t |})
  end.

Definition cancel t : Task E :=
  {| t_pc := t_pc t; t_events := t_events t; t_closed := t_closed t; t_decisions := t_decisions t;
     t_done := t_done t; t_result := t_result t; ctx_done := true; h_sent := h_sent t;
     h_received := h_received t; h_delivered := h_delivered t; h_answers := h_answers t |}.

Inductive choice : Type :=
  | CRun | CCtx | CDeliver (d : decision) | CReceive | CCancel.

Definition step (c : choice) t : option (Task E) :=
  match c with
  | CRun => run_step t
  | CCtx => ctx_step t
  | CDeliver d => deliver d t
  | CReceive => snd <$> receive t
  | CCancel => Some (cancel t)
  end.

Definition steps t t' : Prop := ∃ c, step c t = Some t'.

(** A schedule; a choice that is not enabled is skipped. *)
Definition sched (cs : list choice) t : Task E :=
  foldl (λ t c, default t (step c t)) t cs.

Definition SubmitTask (e : E) : Task E :=
  {| t_pc := PRun e; t_events := []; t_closed := false; t_decisions := None; t_done := false;
     t_result := ({| r_Output := EmptyString; r_AuditRef := EmptyString |}, None);
     ctx_done := false; h_sent := []; h_received := []; h_delivered := []; h_answers := [] |}.

(** ** Invariant *)

(** The decision an answer of Approve goes back to. *)
Definition answered_by (ds : list decision) (a : string * string * bool) : Prop :=
  ∃ d, d ∈ ds ∧ granted d = a.2 ∧ (approvalID d = a.1.2 ∨ approvalID d = EmptyString).

Definition closing (r : Result * option error) : Event :=
  match r.2 with
  | Some e => event KindError (Error e)
  | None => event KindOutput (r_Output r.1)
  end.

(** What has been sent and closed at each point of [run]. *)
Definition phase t : Prop :=
  match t_pc t with
  | PRun _ | PWait _ _ _ => t_closed t = false ∧ t_done t = false
  | PFinal e => t_closed t = false ∧ t_done t = false ∧ e = closing (t_result t)
  | PDone =>
      t_closed t = false ∧ t_done t = false ∧ ∃ l, h_sent t = l ++ [closing (t_result t)]
  | p =>
      t_closed t = (match p with PCloseEvents => false | _ => true end) ∧
      t_done t = (match p with PExit => true | _ => false end) ∧
      ∃ l, h_sent t = l ++ [closing (t_result t); event KindDone EmptyString]
  end.

(** The last event with an approval is the one being waited for. *)
Record Inv t : Prop := {
  inv_fifo : h_sent t = h_received t ++ t_events t;
  inv_cap : length (t_events t) ≤ events_cap;
  inv_answers : Forall (answered_by (h_delivered t)) (h_answers t);
  inv_buffer : ∀ d, t_decisions t = Some d → d ∈ h_delivered t;
  inv_count : length (h_answers t) + (if t_decisions t then 1 else 0) ≤ length (h_delivered t);
  inv_phase : phase t;
}.

(** ** Lemmas *)

Lemma SubmitTask_Inv e : Inv (SubmitTask e).
Proof. split; try done; simpl; unfold events_cap; lia. Qed.

Lemma answered_by_app ds ds' a : answered_by ds a → answered_by (ds ++ ds') a.
Proof. intros (d & Hd & ?). exists d. split; [|done]. apply elem_of_app. by left. Qed.

Lemma send_Some e p t t' :
  send e p t = Some t' →
  t_pc t' = p ∧ length (t_events t) < events_cap ∧ t_events t' = t_events t ++ [e] ∧
  h_sent t' = h_sent t ++ [e] ∧ t_closed t' = t_closed t ∧ t_decisions t' = t_decisions t ∧
  t_done t' = t_done t ∧ t_result t' = t_result t ∧ h_received t' = h_received t ∧
  h_delivered t' = h_delivered t ∧ h_answers t' = h_answers t.
Proof. unfold send. case_decide; [|done]. by intros [= <-]. Qed.

Lemma send_Inv e p t t' :
  Inv t → send e p t = Some t' → phase t' → Inv t'.
Proof.
  intros [] (_ & Hlt & He & Hs & _ & Hd & _ & _ & Hr & Hdel & Ha)%send_Some Hp.
  split; rewrite ?He, ?Hs, ?Hd, ?Hr, ?Hdel, ?Ha; try done.
  - by rewrite inv_fifo0, <-(assoc_L (++)).
  - rewrite length_app. simpl. lia.
Qed.

(** A step that only moves the goroutine. *)
Lemma set_pc_Inv p t : Inv t → phase (set_pc p t) → Inv (set_pc p t).
Proof. intros [] Hp. by split. Qed.

Lemma take_decision_Inv tool id k d t :
  Inv t → t_pc t = PWait tool id k → t_decisions t = Some d → Inv (take_decision tool id k d t).
Proof.
  intros [] Hpc Hd. unfold take_decision.
  pose proof (inv_buffer0 d Hd) as Hin. rewrite Hd in inv_count0.
  destruct (nonempty (approvalID d) && negb (String.eqb (approvalID d) id)) eqn:Hst;
    split; simpl; try done; try lia.
  - unfold phase in *. rewrite Hpc in inv_phase0. done.
  - apply Forall_app. split; [done|]. constructor; [|done]. exists d.
    split; [done|]. split; [done|]. simpl.
    apply andb_false_iff in Hst as [Hst|Hst].
    + right. by apply nonempty_false.
    + left. apply negb_false_iff in Hst. by apply String.eqb_eq.
  - rewrite length_app. simpl. lia.
  - unfold phase in *. by rewrite Hpc in inv_phase0.
Qed.

Lemma run_step_Inv t t' : Inv t → run_step t = Some t' → Inv t'.
Proof.
  intros HI. pose proof (inv_phase _ HI) as Hp. unfold run_step. unfold phase in Hp.
  destruct (t_pc t) as [e|tool id k|e| | | |] eqn:Hpc; rewrite ?Hpc in Hp.
  - destruct (next e) as [r err|ev k|tool id k|k].
    + intros [= <-]. destruct HI. split; try done. unfold phase. simpl. naive_solver.
    + intros Hs. apply (send_Inv _ _ _ _ HI Hs). apply send_Some in Hs as (Hpc' & ? & ? & ? & Hc & ? & Hdn & _).
      unfold phase. by rewrite Hpc', Hc, Hdn.
    + intros Hs. apply (send_Inv _ _ _ _ HI Hs). apply send_Some in Hs as (Hpc' & ? & ? & ? & Hc & ? & Hdn & _).
      unfold phase. by rewrite Hpc', Hc, Hdn.
    + intros [= <-]. by apply set_pc_Inv.
  - destruct (t_decisions t) as [d|] eqn:Hd; [|done]. intros [= <-]. by apply take_decision_Inv.
  - intros Hs. apply (send_Inv _ _ _ _ HI Hs).
    apply send_Some in Hs as (Hpc' & ? & ? & Hsent & Hc & ? & Hdn & Hres & _).
    unfold phase. rewrite Hpc', Hc, Hdn, Hres, Hsent. destruct Hp as (? & ? & ->).
    do 2 (split; [done|]). by eexists.
  - intros Hs. apply (send_Inv _ _ _ _ HI Hs).
    apply send_Some in Hs as (Hpc' & ? & ? & Hsent & Hc & ? & Hdn & Hres & _).
    unfold phase. rewrite Hpc', Hc, Hdn, Hres, Hsent. destruct Hp as (? & ? & l & ->).
    do 2 (split; [done|]). exists l. by rewrite <-(assoc_L (++)).
  - intros [= <-]. destruct HI. split; try done. unfold phase. simpl. naive_solver.
  - intros [= <-]. destruct HI. split; try done. unfold phase. simpl. naive_solver.
  - done.
Qed.

Lemma ctx_step_Inv t t' : Inv t → ctx_step t = Some t' → Inv t'.
Proof.
  intros HI. pose proof (inv_phase _ HI) as Hp. unfold ctx_step. destruct (ctx_done t); [|done].
  unfold phase in Hp. destruct (t_pc t) as [e|tool id k|e| | | |] eqn:Hpc; try done.
  - destruct (next e); try done; intros [= <-]; by apply set_pc_Inv.
  - intros [= <-]. by apply set_pc_Inv.
Qed.

Lemma deliver_Inv d t t' : Inv t → deliver d t = Some t' → Inv t'.
Proof.
  intros []. unfold deliver. destruct (t_decisions t) as [?|] eqn:Hd; [done|]. intros [= <-].
  split; simpl; try done.
  - eapply Forall_impl; [done|]. intros. by apply answered_by_app.
  - intros d' [= <-]. apply elem_of_app. right. by left.
  - rewrite length_app. simpl. lia.
Qed.

Lemma receive_Inv e t t' : Inv t → receive t = Some (e, t') → Inv t'.
Proof.
  intros []. unfold receive. destruct (t_events t) as [|e' q] eqn:He; [done|].
  intros [= <- <-]. split; simpl; try done.
  - by rewrite inv_fifo0, <-(assoc_L (++)).
  - simpl in inv_cap0. lia.
Qed.

(** The goroutine itself delivers no decision. *)
Lemma run_step_delivered t t' : run_step t = Some t' → h_delivered t' = h_delivered t.
Proof.
  unfold run_step. intros Hs. destruct (t_pc t) as [e|tool aid k|e| | | |];
    [destruct (next e)|destruct (t_decisions t)|..];
    first [ done | by injection Hs as <-
          | by apply send_Some in Hs as (_ & _ & _ & _ & _ & _ & _ & _ & _ & ? & _) ].
Qed.

Lemma steps_Inv t t' : Inv t → steps t t' → Inv t'.
Proof.
  intros HI [[] Hs]; simpl in Hs.
  - by eapply run_step_Inv.
  - by eapply ctx_step_Inv.
  - by eapply deliver_Inv.
  - destruct (receive t) as [[e t1]|] eqn:Hr; [|done]. injection Hs as <-. by eapply receive_Inv.
  - injection Hs as <-. by destruct HI.
Qed.

Lemma reachable_Inv e t : rtc steps (SubmitTask e) t → Inv t.
Proof. apply rtc_invariant; [apply steps_Inv|apply SubmitTask_Inv]. Qed.

(** ** Properties *)

(** Under every interleaving of the engine, the consumer, cancellation and
    ResolveApproval, the engine gets no more answers than there were decisions, and a
    positive answer for an approval comes from a granting decision with that approval id
    or with none. *)
Theorem approvals_answered e t :
  rtc steps (SubmitTask e) t →
  length (h_answers t) ≤ length (h_delivered t) ∧
  ∀ tool id, (tool, id, true) ∈ h_answers t →
    ∃ d, d ∈ h_delivered t ∧ granted d = true ∧ (approvalID d = id ∨ approvalID d = EmptyString).
Proof.
  intros Hr. apply reachable_Inv in Hr as []. split; [lia|].
  intros tool id Ha. rewrite Forall_forall in inv_answers0.
  destruct (inv_answers0 _ Ha) as (d & ? & ? & ?). by exists d.
Qed.

(** C16: Under every interleaving the consumer receives the events in the order in which
    they were sent and none is lost, at most 32 wait in the channel, and when the task is
    done the stream is closed and ends with the closing event of its result and then
    KindDone. *)
Theorem events_stream e t :
  rtc steps (SubmitTask e) t →
  h_received t ++ t_events t = h_sent t ∧ length (t_events t) ≤ events_cap ∧
  (t_done t = true → t_closed t = true ∧
     ∃ l, h_sent t = l ++ [closing (t_result t); event KindDone EmptyString]).
Proof.
  intros Hr. apply reachable_Inv in Hr as []. split; [done|]. split; [done|].
  intros Hd. unfold phase in inv_phase0. rewrite Hd in inv_phase0.
  destruct (t_pc t); destruct inv_phase0 as (? & ? & ?) || destruct inv_phase0 as (? & ?); done.
Qed.

(** C17: A task whose goroutine has not ended can always move: the goroutine has a step,
    or the consumer has an event to receive, or the task waits for a decision and its
    one-place channel has room for it. *)
Theorem no_deadlock t :
  t_pc t ≠ PExit →
  is_Some (run_step t) ∨ is_Some (receive t) ∨
  (∃ tool id k, t_pc t = PWait tool id k) ∧ t_decisions t = None ∧ ∀ d, is_Some (deliver d t).
Proof.
  intros Hne.
  assert (∀ ev p, is_Some (send ev p t) ∨ is_Some (receive t)) as Hsend.
  { intros ev p. unfold send, receive, events_cap.
    destruct (t_events t) as [|x q]; [left; simpl|right]; by eauto. }
  unfold run_step. destruct (t_pc t) as [s|tool id k|ev| | | |] eqn:Hpc; try by eauto.
  - destruct (next s) as [r err|ev k|tool id k|k]; try by eauto.
    + destruct (Hsend ev (PRun k)); auto.
    + destruct (Hsend (approval_event tool id) (PWait tool id k)); auto.
  - destruct (t_decisions t) as [d|] eqn:Hd; [by eauto|]. right. right.
    split; [by exists tool, id, k|]. split; [done|]. intros d. unfold deliver. rewrite Hd. by eauto.
  - destruct (Hsend ev PDone); auto.
  - destruct (Hsend (event KindDone EmptyString) PCloseEvents); auto.
Qed.

(** The consumer takes what is queued. *)
Definition drained t : Task E :=
  {| t_pc := t_pc t; t_events := []; t_closed := t_closed t; t_decisions := t_decisions t;
     t_done := t_done t; t_result := t_result t; ctx_done := ctx_done t; h_sent := h_sent t;
     h_received := h_received t ++ t_events t; h_delivered := h_delivered t;
     h_answers := h_answers t |}.

Lemma sched_app cs cs' t : sched (cs ++ cs') t = sched cs' (sched cs t).
Proof. apply foldl_app. Qed.

Lemma sched_cons c cs t t' : step c t = Some t' → sched (c :: cs) t = sched cs t'.
Proof. intros Hs. unfold sched. simpl. by rewrite Hs. Qed.

Lemma sched_drain t : sched (replicate (length (t_events t)) CReceive) t = drained t.
Proof.
  destruct t as [p q c d dn r cx hs hr hd ha]. unfold drained. simpl. revert hr.
  induction q as [|ev q IH]; intros hr; simpl.
  - by rewrite app_nil_r.
  - rewrite IH. by rewrite <-(assoc_L (++)).
Qed.

(** C18: Once the engine has returned, the task's own goroutine and its consumer alone
    bring it to its end: the result is published, the stream is closed and everything that
    was sent has been received. *)
Theorem engine_return_finishes e0 t e r err :
  rtc steps (SubmitTask e0) t → t_pc t = PRun e → next e = ARet r err →
  ∃ cs, Forall (λ c, c = CRun ∨ c = CReceive) cs ∧
    let t' := sched cs t in
    t_done t' = true ∧ t_closed t' = true ∧ t_result t' = (r, err) ∧
    h_received t' = h_sent t ++ [closing (r, err); event KindDone EmptyString].
Proof.
  intros Hr Hpc Hn. apply reachable_Inv in Hr as [].
  exists (replicate (length (t_events t)) CReceive ++
          [CRun; CRun; CRun; CRun; CRun; CReceive; CReceive]). split.
  - apply Forall_app. split; [apply Forall_replicate; by right|]. 
    repeat (apply Forall_cons; split; [by auto|]). done.
  - rewrite sched_app, sched_drain. unfold drained. rewrite <-inv_fifo0. cbv zeta.
    destruct t as [p q c d dn res cx hs hr hd ha]. cbn [t_pc t_events t_closed t_decisions
      t_done t_result ctx_done h_sent h_received h_delivered h_answers] in *. subst p.
    erewrite sched_cons by (cbn; unfold run_step; cbn; by rewrite Hn).
    do 6 (erewrite sched_cons by reflexivity). cbn. by rewrite <-(assoc_L (++)).
Qed.
End task.

Lemma sched_reachable `{Engine E} cs (t : Task E) : rtc steps t (sched cs t).
Proof.
  revert t. induction cs as [|c cs IH]; intros t; [done|]. unfold sched. cbn [foldl].
  destruct (step c t) as [t'|] eqn:Hs; [|apply IH].
  eapply rtc_l; [by exists c|]. apply IH.
Qed.

(** ** A concrete engine: it asks once and returns *)

Inductive asking := Ask | Answered (ok : bool).

#[local] Instance asking_Engine : Engine asking := {
  next e := match e with
            | Ask => AApprove "send" "a1" (λ r, Answered (match r with Ok b => b | Err _ => false end))
            | Answered ok => ARet {| r_Output := if ok then "sent" else "not sent";
                                     r_AuditRef := EmptyString |} None
            end;
}.

Definition sample_decision : decision :=
  {| approvalID := "a1"; granted := true; decidedBy := "U9" |}.

Definition sample_answered : Task asking :=
  sched [CRun; CDeliver sample_decision; CReceive; CRun] (SubmitTask Ask).

Lemma approvals_answered_witness :
  h_answers sample_answered = [("send", "a1", true)]%string ∧
  ∃ d, d ∈ h_delivered sample_answered ∧ granted d = true ∧
    (approvalID d = "a1"%string ∨ approvalID d = EmptyString).
Proof.
  split; [reflexivity|]. eapply (approvals_answered Ask); [apply sched_reachable|].
  vm_compute. left.
Defined.

Lemma events_stream_witness :
  let t := sched [CRun; CRun; CRun; CReceive; CRun] sample_answered in
  t_done t = false ∧ h_received t ++ t_events t = h_sent t ∧ length (h_sent t) = 3.
Proof.
  cbv zeta. split; [reflexivity|]. split; [|reflexivity].
  apply (events_stream Ask). etransitivity; apply sched_reachable.
Defined.

Lemma no_deadlock_witness :
  let t := sched [CRun; CReceive] (SubmitTask Ask) in
  run_step t = None ∧ receive t = None ∧ ∀ d, is_Some (deliver d t).
Proof.
  cbv zeta. split; [reflexivity|]. split; [reflexivity|].
  destruct (no_deadlock (sched [CRun; CReceive] (SubmitTask Ask))) as [[? ?]|[[? ?]|(_ & _ & Hd)]];
    [discriminate..|exact Hd].
Defined.

Lemma engine_return_finishes_witness :
  ∃ cs, let t := sched cs sample_answered in
    t_done t = true ∧ t_closed t = true ∧
    h_received t = [approval_event "send" "a1"; event KindOutput "sent"; event KindDone EmptyString].
Proof.
  destruct (engine_return_finishes Ask sample_answered (Answered true)
    {| r_Output := "sent"; r_AuditRef := EmptyString |} None) as (cs & _ & Hd & Hc & _ & Hr).
  - apply sched_reachable.
  - reflexivity.
  - reflexivity.
  - exists cs. split; [exact Hd|]. split; [exact Hc|]. exact Hr.
Defined.
