(* ===== verification/TaskSpec.v ===== *)
(** * A task as a conversation

    What a task promises, without its channels and goroutines: the engine
    speaks and asks, each question gets the next answer, and the engine goes on
    until it returns. The task of Task.v refines it: whatever the interleaving,
    an uncancelled task that is done has held the conversation of its answers,
    and every conversation that ends is held by some run. *)

From S2P Require Import Prelude GoText Recipe Task.
From Stdlib Require Import ZArith Lia Ascii.
From stdpp Require Import options.

Open Scope nat_scope.
Open Scope list_scope.

(** ** The specification *)

Inductive position (E : Type) : Type :=
  | At (e : E)
  | Asks (tool id : string) (k : result bool → E)
  | Returned (r : Result) (err : option error).
Arguments At {E} _.
Arguments Asks {E} _ _ _.
Arguments Returned {E} _ _.

(** Where the engine is, what it said, the questions answered so far and the
    answers to come. *)
Record talk (E : Type) := Talk {
  k_at : position E;
  k_said : list Event;
  k_answered : list (string * string * bool);
  k_answers : list bool;
}.
Arguments Talk {E} _ _ _ _.
Arguments k_at {E} _.
Arguments k_said {E} _.
Arguments k_answered {E} _.
Arguments k_answers {E} _.

Section spec.
Context {E : Type} `{Engine E}.
Implicit Types (t : Task E) (k : talk E).

Definition say (ev : Event) (p : position E) k : talk E :=
  {| k_at := p; k_said := k_said k ++ [ev]; k_answered := k_answered k; k_answers := k_answers k |}.

Definition go (p : position E) k : talk E :=
  {| k_at := p; k_said := k_said k; k_answered := k_answered k; k_answers := k_answers k |}.

(** One step; a question without an answer and the end stay. *)
Definition talk_step k : talk E :=
  match k_at k with
  | At e =>
      match next e with
      | ATau e => go (At e) k
      | AEmit ev e => say ev (At e) k
      | AApprove tool id f => say (approval_event tool id) (Asks tool id f) k
      | ARet r err => go (Returned r err) k
      end
  | Asks tool id f =>
      match k_answers k with
      | [] => k
      | b :: bs => {| k_at := At (f (Ok b)); k_said := k_said k;
                      k_answered := k_answered k ++ [(tool, id, b)]; k_answers := bs |}
      end
  | Returned _ _ => k
  end.

(** [n] steps of the engine [e] with these answers. *)
Definition converse (n : nat) (answers : list bool) (e : E) : talk E :=
  Nat.iter n talk_step {| k_at := At e; k_said := []; k_answered := []; k_answers := answers |}.

Lemma converse_S n answers e : converse (S n) answers e = talk_step (converse n answers e).
Proof. done. Qed.

(** ** A task holds a conversation *)

Definition bits t : list bool := snd <$> h_answers t.

(** The position of a task, and what its goroutine has sent after the engine
    returned. *)
Definition position_of t : position E :=
  match t_pc t with
  | PRun e => At e
  | PWait tool id f => Asks tool id f
  | _ => Returned (t_result t).1 (t_result t).2
  end.

Definition epilogue t : list Event :=
  match t_pc t with
  | PRun _ | PWait _ _ _ | PFinal _ => []
  | PDone => [closing (t_result t)]
  | _ => [closing (t_result t); event KindDone EmptyString]
  end.

(** The task is [n] steps into the conversation of its answers, whatever
    answers are to come. *)
Definition holds_talk (e : E) t : Prop :=
  ∃ n said, h_sent t = said ++ epilogue t ∧
    (∀ e', t_pc t = PFinal e' → e' = closing (t_result t)) ∧
    ∀ more, converse n (bits t ++ more) e =
      {| k_at := position_of t; k_said := said; k_answered := h_answers t; k_answers := more |}.

Lemma SubmitTask_talk e : holds_talk e (SubmitTask e).
Proof. by exists 0, []. Qed.

(** The goroutine moves on without a step of the engine. *)
Lemma holds_talk_same e t t' :
  holds_talk e t → position_of t' = position_of t → h_answers t' = h_answers t →
  (∀ said, h_sent t = said ++ epilogue t → h_sent t' = said ++ epilogue t') →
  (∀ e', t_pc t' = PFinal e' → e' = closing (t_result t')) → holds_talk e t'.
Proof.
  intros (n & said & Hs & Hf & Hn) Hp Ha Hsent Hf'. exists n, said.
  split; [by apply Hsent|]. split; [done|]. unfold bits. by rewrite Ha, Hp.
Qed.

(** The engine takes a step, with the answer [b] if it had asked. *)
Lemma holds_talk_next e t t' b :
  holds_talk e t → h_answers t' = h_answers t ++ b → epilogue t = [] → epilogue t' = [] →
  (∀ e', t_pc t' = PFinal e' → e' = closing (t_result t')) →
  (∀ more, talk_step {| k_at := position_of t; k_said := h_sent t; k_answered := h_answers t;
                        k_answers := (snd <$> b) ++ more |} =
     {| k_at := position_of t'; k_said := h_sent t'; k_answered := h_answers t';
        k_answers := more |}) →
  holds_talk e t'.
Proof.
  intros (n & said & Hs & _ & Hn) Ha He He' Hf' Hstep. rewrite He, app_nil_r in Hs. subst said.
  exists (S n), (h_sent t'). rewrite He', app_nil_r. split; [done|]. split; [done|].
  intros more. rewrite converse_S. unfold bits. rewrite Ha, fmap_app, <-(assoc_L (++)).
  by rewrite Hn, Hstep, Ha.
Qed.

(** Evaluates what the conversation sees of a task. *)
Ltac talk_eval :=
  unfold epilogue, talk_step, position_of, go, say;
  cbn [t_pc t_result h_sent h_answers k_at k_said k_answered k_answers fmap list_fmap app].

Lemma take_decision_talk e t tool id f d :
  holds_talk e t → t_pc t = PWait tool id f → holds_talk e (take_decision tool id f d t).
Proof.
  intros HT Hpc. unfold take_decision. destruct (_ && _).
  - apply (holds_talk_same e t); talk_eval; rewrite ?Hpc; naive_solver.
  - apply (holds_talk_next e t _ [(tool, id, granted d)] HT); talk_eval; rewrite ?Hpc; done.
Qed.

Lemma run_step_talk e t t' : holds_talk e t → run_step t = Some t' → holds_talk e t'.
Proof.
  intros HT. pose proof HT as (_ & _ & _ & Hf & _). unfold run_step, send.
  destruct (t_pc t) as [s|tool id f|ev| | | |] eqn:Hpc;
    [destruct (next s) eqn:Hn|destruct (t_decisions t) as [d|]|..].
  all: try case_decide; intros Hs; try discriminate Hs; injection Hs as <-.
  all: try (apply (holds_talk_next e t _ [] HT); talk_eval; rewrite ?Hpc, ?app_nil_r, ?Hn; naive_solver).
  - by apply take_decision_talk.
  - apply (holds_talk_same e t); talk_eval; rewrite ?Hpc; try done. intros said ->.
    by rewrite (Hf ev), app_nil_r.
  - apply (holds_talk_same e t); talk_eval; rewrite ?Hpc; try done. intros said ->.
    by rewrite <-(assoc_L (++)).
  - apply (holds_talk_same e t); talk_eval; rewrite ?Hpc; done.
  - apply (holds_talk_same e t); talk_eval; rewrite ?Hpc; done.
Qed.

(** Until it is cancelled. *)
Lemma steps_talk e t t' :
  (ctx_done t = false → holds_talk e t) → steps t t' → ctx_done t' = false → holds_talk e t'.
Proof.
  intros HT [c Hs] Hc. destruct c; cbn [step] in Hs.
  - assert (ctx_done t = false) as Ht.
    { rewrite <-Hc. unfold run_step, send in Hs. by repeat case_match; simplify_eq/=. }
    eapply run_step_talk; [by apply HT|done].
  - unfold ctx_step in Hs. destruct (ctx_done t) eqn:Ht; [|done].
    repeat case_match; simplify_eq/=; congruence.
  - unfold deliver in Hs. case_match; [done|]. injection Hs as <-. specialize (HT Hc).
    pose proof HT as (_ & _ & _ & Hf & _). by apply (holds_talk_same e t).
  - unfold receive in Hs. case_match; [done|]. injection Hs as <-. specialize (HT Hc).
    pose proof HT as (_ & _ & _ & Hf & _). by apply (holds_talk_same e t).
  - by injection Hs as <-.
Qed.

Lemma reachable_talk e t :
  rtc steps (SubmitTask e) t → ctx_done t = false → holds_talk e t.
Proof.
  apply (rtc_invariant steps (λ t, ctx_done t = false → holds_talk e t)).
  - intros u u' HT Hs. by apply (steps_talk e u).
  - intros _. apply SubmitTask_talk.
Qed.

(** ** Every conversation is held *)

(** The decision with which a caller gives an answer. *)
Definition answer_of (id : string) (b : bool) : decision :=
  {| approvalID := id; granted := b; decidedBy := EmptyString |}.

Definition pc_of (p : position E) : pc E :=
  match p with
  | At e => PRun e
  | Asks tool id f => PWait tool id f
  | Returned r err => PFinal (closing (r, err))
  end.

(** A task that has just reached a point of its conversation, with a consumer
    that has taken every event and nobody who decided ahead. *)
Record level t k : Prop := {
  lv_pc : t_pc t = pc_of (k_at k);
  lv_events : t_events t = [];
  lv_decisions : t_decisions t = None;
  lv_ctx : ctx_done t = false;
  lv_sent : h_sent t = k_said k;
  lv_received : h_received t = k_said k;
  lv_answers : h_answers t = k_answered k;
  lv_result : ∀ r err, k_at k = Returned r err → t_result t = (r, err);
}.

(** The moves that follow one step of the conversation. *)
Definition moves k : list choice :=
  match k_at k with
  | At e => match next e with AEmit _ _ | AApprove _ _ _ => [CRun; CReceive] | _ => [CRun] end
  | Asks _ id _ => match k_answers k with b :: _ => [CDeliver (answer_of id b); CRun] | [] => [] end
  | Returned _ _ => []
  end.

Lemma level_step t k : level t k → level (sched (moves k) t) (talk_step k).
Proof.
  intros [Hpc Hev Hd Hc Hs Hr Ha Hres]. destruct t as [p q c d dn r cx hs hr hd ha].
  destruct k as [pos said ans bs].
  cbn [t_pc t_events t_decisions ctx_done h_sent h_received h_answers t_result k_at k_said
       k_answered] in *. subst. unfold moves, talk_step. cbn [k_at k_answers].
  destruct pos as [e|tool id f|r' err]; [destruct (next e) eqn:Hn|destruct bs as [|b bs]|].
  all: try (unfold sched, step, run_step; cbn; rewrite ?Hn; cbn; split; naive_solver).
  unfold sched, step, run_step, take_decision. cbn. rewrite String.eqb_refl, andb_false_r. by split.
Qed.

(** The schedule of [n] steps. *)
Lemma level_converse n answers e :
  ∃ t, rtc steps (SubmitTask e) t ∧ level t (converse n answers e).
Proof.
  induction n as [|n (t & Hr & Hl)].
  - exists (SubmitTask e). split; [done|]. by split.
  - exists (sched (moves (converse n answers e)) t). split; [|by apply level_step].
    etransitivity; [done|apply sched_reachable].
Qed.

Lemma level_ends t k r err :
  level t k → k_at k = Returned r err →
  let t' := sched [CRun; CRun; CRun; CRun; CReceive; CReceive] t in
  ctx_done t' = false ∧ t_done t' = true ∧ t_events t' = [] ∧ t_result t' = (r, err) ∧
  h_answers t' = k_answered k ∧
  h_received t' = k_said k ++ [closing (r, err); event KindDone EmptyString].
Proof.
  intros [Hpc Hev Hd Hc Hs Hr Ha Hres] Hk. specialize (Hres r err Hk). rewrite Hk in Hpc.
  destruct t as [p q c d dn res cx hs hr hd ha].
  cbn [t_pc t_events t_decisions ctx_done h_sent h_received h_answers t_result] in *. subst.
  do 6 (erewrite sched_cons by reflexivity). cbn. by rewrite <-(assoc_L (++)).
Qed.

(** A task that is done has held the whole conversation. *)
Lemma done_talk e t :
  rtc steps (SubmitTask e) t → ctx_done t = false → t_done t = true →
  ∃ n said, h_sent t = said ++ [closing (t_result t); event KindDone EmptyString] ∧
    converse n (bits t) e =
      {| k_at := Returned (t_result t).1 (t_result t).2; k_said := said;
         k_answered := h_answers t; k_answers := [] |}.
Proof.
  intros Hr Hc Hd. destruct (reachable_talk e t Hr Hc) as (n & said & Hs & _ & Hn).
  exists n, said. specialize (Hn []). rewrite app_nil_r in Hn. rewrite Hn.
  apply reachable_Inv, inv_phase in Hr as Hp. unfold phase in Hp. rewrite Hd in Hp.
  unfold position_of, epilogue in *.
  by destruct (t_pc t); destruct Hp as (_ & Hp & _) || destruct Hp as (_ & Hp).
Qed.

(** C19: A task refines the bare conversation of its engine: the results, answers and
    event streams with which an uncancelled task can end, over all interleavings of
    goroutine, consumer and callers, are exactly those of the engine run alone that gets
    these answers to its questions in order, followed by the closing events. *)
Theorem task_is_conversation e r err said ans :
  (∃ t, rtc steps (SubmitTask e) t ∧ ctx_done t = false ∧ t_done t = true ∧ t_events t = [] ∧
     t_result t = (r, err) ∧ h_answers t = ans ∧
     h_received t = said ++ [closing (r, err); event KindDone EmptyString]) ↔
  ∃ n, converse n (snd <$> ans) e =
    {| k_at := Returned r err; k_said := said; k_answered := ans; k_answers := [] |}.
Proof.
  split.
  - intros (t & Hr & Hc & Hd & Hev & Hres & <- & Hrec).
    destruct (done_talk e t Hr Hc Hd) as (n & said' & Hs & Hn). exists n.
    apply reachable_Inv, inv_fifo in Hr. rewrite Hev, app_nil_r, Hrec, Hs, Hres in Hr.
    apply app_inv_tail in Hr as ->. unfold bits in Hn. by rewrite Hn, Hres.
  - intros [n Hn]. destruct (level_converse n (snd <$> ans) e) as (t & Hr & Hl). rewrite Hn in Hl.
    exists (sched [CRun; CRun; CRun; CRun; CReceive; CReceive] t). split.
    { etransitivity; [done|apply sched_reachable]. }
    by apply (level_ends t _ r err Hl).
Qed.

Lemma converse_done n m answers e r err :
  k_at (converse n answers e) = Returned r err → n ≤ m →
  converse m answers e = converse n answers e.
Proof.
  intros Hn. induction 1 as [|m _ IH]; [done|]. rewrite converse_S, IH.
  unfold talk_step. by rewrite Hn.
Qed.

(** So the answers alone decide what a task says and how it ends. *)
Lemma same_answers_same_run e t t' :
  rtc steps (SubmitTask e) t → rtc steps (SubmitTask e) t' →
  ctx_done t = false → ctx_done t' = false → t_done t = true → t_done t' = true →
  bits t = bits t' → h_sent t = h_sent t' ∧ t_result t = t_result t' ∧ h_answers t = h_answers t'.
Proof.
  intros Hr Hr' Hc Hc' Hd Hd' Hb.
  destruct (done_talk e t Hr Hc Hd) as (n & said & Hs & Hn).
  destruct (done_talk e t' Hr' Hc' Hd') as (n' & said' & Hs' & Hn').
  rewrite <-Hb in Hn'. rewrite Hs, Hs'.
  destruct (t_result t) as [r err], (t_result t') as [r' err']. cbn [fst snd] in *.
  assert (converse n (bits t) e = converse n' (bits t) e) as Heq.
  { destruct (Nat.le_ge_cases n n').
    - symmetry. eapply converse_done; [by rewrite Hn|done].
    - eapply converse_done; [by rewrite Hn'|done]. }
  rewrite Hn, Hn' in Heq. by simplify_eq.
Qed.
End spec.

(** ** A conversation *)

#[local] Existing Instance asking_Engine.

(** The engine that asks once, refused. *)
Lemma refused_conversation :
  ∃ n, converse n [false] Ask =
    {| k_at := Returned {| r_Output := "not sent"; r_AuditRef := EmptyString |} None;
       k_said := [approval_event "send" "a1"]; k_answered := [("send", "a1", false)]%string;
       k_answers := [] |}.
Proof. by exists 3. Qed.
