(* ===== verification/RuntimeServer.v ===== *)
(** * The runtime service (runtime/internal/server/server.go)

    The manager of running tasks, the goroutine that drains each task's
    events into a snapshot, and the HTTP handlers. Every access to a task's
    snapshot is under its mutex, so each locked region is one step; between
    two of them the other goroutines may run. *)

From S2P Require Import Prelude GoText Float64 Json Http Recipe Task.
From Stdlib Require Import ZArith Lia Ascii.
From stdpp Require Import options.

Open Scope nat_scope.
Open Scope list_scope.

(** ** Data *)

Record pendingApproval := MkPending { pa_Tool : string; pa_ApprovalID : string }.

(** [ts_hand] is the event the drain goroutine has received and not yet
    recorded, [ts_drained] that it has recorded the result, and
    [ts_resolving] the number of approve handlers between ResolveApproval and
    their update of the snapshot. *)
Record taskState (E : Type) := MkTaskState {
  ts_task : Task E;
  ts_events : list Event;
  ts_pending : option pendingApproval;
  ts_status : string;
  ts_result : Result;
  ts_errMsg : string;
  ts_hand : option Event;
  ts_drained : bool;
  ts_resolving : nat;
}.
Arguments MkTaskState {E} _ _ _ _ _ _ _ _ _.
Arguments ts_task {E} _.
Arguments ts_events {E} _.
Arguments ts_pending {E} _.
Arguments ts_status {E} _.
Arguments ts_result {E} _.
Arguments ts_errMsg {E} _.
Arguments ts_hand {E} _.
Arguments ts_drained {E} _.
Arguments ts_resolving {E} _.

Record snapshot := MkSnapshot {
  sn_Status : string;
  sn_Events : list Event;
  sn_Pending : option pendingApproval;
  sn_Result : option Result;
  sn_Error : string;
}.

Definition no_result : Result := {| r_Output := EmptyString; r_AuditRef := EmptyString |}.

(** An id is eight random bytes in hexadecimal. *)
Fixpoint newID (b : list ascii) : string :=
  match b with
  | [] => EmptyString
  | c :: b => String (hex_digit (nat_of_ascii c / 16))
                (String (hex_digit (nat_of_ascii c mod 16)) (newID b))
  end.

Section server.
Context {E : Type} `{Engine E}.
Implicit Types (ts : taskState E).

(** ** The drain goroutine *)

Definition with_task (t : Task E) ts : taskState E :=
  {| ts_task := t; ts_events := ts_events ts; ts_pending := ts_pending ts;
     ts_status := ts_status ts; ts_result := ts_result ts; ts_errMsg := ts_errMsg ts;
     ts_hand := ts_hand ts; ts_drained := ts_drained ts; ts_resolving := ts_resolving ts |}.

(** [for e := range ts.task.Events()]: the receive *)
Definition drain_receive ts : option (taskState E) :=
  match ts_hand ts with
  | Some _ => None
  | None =>
      if ts_drained ts then None
      else match receive (ts_task ts) with
      | None => None
      | Some (e, t) =>
          Some {| ts_task := t; ts_events := ts_events ts; ts_pending := ts_pending ts;
                  ts_status := ts_status ts; ts_result := ts_result ts;
                  ts_errMsg := ts_errMsg ts; ts_hand := Some e; ts_drained := ts_drained ts;
                  ts_resolving := ts_resolving ts |}
      end
  end.

(** ... and its body *)
Definition record_event (e : Event) ts : taskState E :=
  let gated := bool_decide (Kind e = KindApprovalRequired) in
  let failed := bool_decide (Kind e = KindError) in
  {| ts_task := ts_task ts; ts_events := ts_events ts ++ [e];
     ts_pending := if gated then Some {| pa_Tool := ev_Tool e; pa_ApprovalID := ApprovalID e |}
                   else ts_pending ts;
     ts_status := if gated then "awaiting_approval"%string else ts_status ts;
     ts_result := ts_result ts;
     ts_errMsg := if failed then Text e else ts_errMsg ts;
     ts_hand := None; ts_drained := ts_drained ts; ts_resolving := ts_resolving ts |}.

Definition drain_record ts : option (taskState E) :=
  match ts_hand ts with Some e => Some (record_event e ts) | None => None end.

(** The stream is closed and the task's result is available. *)
Definition drain_finish ts : option (taskState E) :=
  let t := ts_task ts in
  match ts_hand ts, t_events t with
  | None, [] =>
      if t_closed t && t_done t && negb (ts_drained ts) then
        let '(res, err) := t_result t in
        Some {| ts_task := t; ts_events := ts_events ts; ts_pending := None;
                ts_status := match err with Some _ => "error" | None => "done" end;
                ts_result := res;
                ts_errMsg := match err with
                             | Some e => if nonempty (ts_errMsg ts) then ts_errMsg ts else Error e
                             | None => ts_errMsg ts end;
                ts_hand := None; ts_drained := true; ts_resolving := ts_resolving ts |}
      else None
  | _, _ => None
  end.

(** ** The approve handler after ResolveApproval *)

Definition mark_resolved ts : taskState E :=
  let waiting := String.eqb (ts_status ts) "awaiting_approval" in
  {| ts_task := ts_task ts; ts_events := ts_events ts;
     ts_pending := if waiting then None else ts_pending ts;
     ts_status := if waiting then "running"%string else ts_status ts;
     ts_result := ts_result ts; ts_errMsg := ts_errMsg ts; ts_hand := ts_hand ts;
     ts_drained := ts_drained ts; ts_resolving := pred (ts_resolving ts) |}.

Definition begin_resolve (t : Task E) ts : taskState E :=
  {| ts_task := t; ts_events := ts_events ts; ts_pending := ts_pending ts;
     ts_status := ts_status ts; ts_result := ts_result ts; ts_errMsg := ts_errMsg ts;
     ts_hand := ts_hand ts; ts_drained := ts_drained ts; ts_resolving := S (ts_resolving ts) |}.

(** ** Interleavings *)

Inductive move : Type :=
  | MRun                      (* the task's own goroutine *)
  | MReceive | MRecord | MFinish
  | MResolve (d : decision)   (* an approve handler delivers *)
  | MMark.                    (* ... and updates the snapshot *)

Definition ts_step (m : move) ts : option (taskState E) :=
  match m with
  | MRun => (λ t, with_task t ts) <$> run_step (ts_task ts)
  | MReceive => drain_receive ts
  | MRecord => drain_record ts
  | MFinish => drain_finish ts
  | MResolve d => (λ t, begin_resolve t ts) <$> deliver d (ts_task ts)
  | MMark => if decide (0 < ts_resolving ts) then Some (mark_resolved ts) else None
  end.

Definition ts_steps ts ts' : Prop := ∃ m, ts_step m ts = Some ts'.

Definition ts_run (ms : list move) ts : taskState E :=
  foldl (λ ts m, default ts (ts_step m ts)) ts ms.

Definition new_task (e : E) : taskState E :=
  {| ts_task := SubmitTask e; ts_events := []; ts_pending := None; ts_status := "running";
     ts_result := no_result; ts_errMsg := EmptyString; ts_hand := None; ts_drained := false;
     ts_resolving := 0 |}.

Definition take_snapshot ts : snapshot :=
  {| sn_Status := ts_status ts; sn_Events := ts_events ts; sn_Pending := ts_pending ts;
     sn_Result := if String.eqb (ts_status ts) "done" then Some (ts_result ts) else None;
     sn_Error := ts_errMsg ts |}.

(** ** Invariant *)

Definition hand_list ts : list Event := from_option (λ e, [e]) [] (ts_hand ts).

Record ts_inv ts : Prop := {
  ti_task : Inv (ts_task ts);
  ti_events : ts_events ts ++ hand_list ts = h_received (ts_task ts);
  ti_pending : is_Some (ts_pending ts) ↔ ts_status ts = "awaiting_approval"%string;
  ti_live : ts_drained ts = false →
    ts_status ts = "running"%string ∨ ts_status ts = "awaiting_approval"%string;
  ti_drained : ts_drained ts = true →
    t_done (ts_task ts) = true ∧ t_closed (ts_task ts) = true ∧ t_events (ts_task ts) = [] ∧
    ts_hand ts = None ∧ ts_result ts = (t_result (ts_task ts)).1 ∧
    ts_status ts = match (t_result (ts_task ts)).2 with
                   | Some _ => "error"%string | None => "done"%string end;
}.

(** ** Lemmas *)

Lemma new_task_inv e : ts_inv (new_task e).
Proof.
  split; simpl.
  - apply SubmitTask_Inv.
  - done.
  - split; [by intros [? ?]|done].
  - intros _. by left.
  - done.
Qed.

(** Once the task has exited its goroutine does nothing any more. *)
Lemma run_step_exited t t' :
  Inv t → t_done t = true → run_step t = Some t' → False.
Proof.
  intros [] Hd. unfold phase in inv_phase. rewrite Hd in inv_phase. unfold run_step.
  destruct (t_pc t); destruct inv_phase as (? & ? & ?) || destruct inv_phase as (? & ?); done.
Qed.

Lemma run_step_received t t' : run_step t = Some t' → h_received t' = h_received t.
Proof.
  unfold run_step, send. destruct (t_pc t); repeat (case_match; try done); intros; by simplify_eq/=.
Qed.

Lemma drain_receive_inv ts ts' : ts_inv ts → drain_receive ts = Some ts' → ts_inv ts'.
Proof.
  intros []. unfold drain_receive. destruct (ts_hand ts) eqn:Hh; [done|].
  destruct (ts_drained ts) eqn:Hd; [done|].
  destruct (receive (ts_task ts)) as [[e t]|] eqn:Hr; [|done]. intros [= <-].
  split; simpl; try done.
  - by eapply receive_Inv.
  - unfold receive in Hr. destruct (t_events (ts_task ts)); [done|].
    injection Hr as <- <-. simpl. rewrite <-ti_events0. unfold hand_list. rewrite Hh. simpl.
    by rewrite app_nil_r.
Qed.

Lemma record_event_inv e ts : ts_inv ts → ts_hand ts = Some e → ts_inv (record_event e ts).
Proof.
  intros [] Hh. split; simpl; try done.
  - rewrite <-ti_events0. unfold hand_list. rewrite Hh. simpl. by rewrite app_nil_r.
  - case_bool_decide; [|done]. split; [done|]. by eexists.
  - intros Hd. case_bool_decide; [by right|]. auto.
  - intros Hd. destruct (ti_drained0 Hd) as (_ & _ & _ & ? & _). congruence.
Qed.

Lemma drain_finish_inv ts ts' : ts_inv ts → drain_finish ts = Some ts' → ts_inv ts'.
Proof.
  intros []. unfold drain_finish. destruct (ts_hand ts) eqn:Hh; [done|].
  destruct (t_events (ts_task ts)) eqn:He; [|done].
  destruct (_ && _) eqn:Hc; [|done]. bools.
  destruct (t_result (ts_task ts)) as [res err] eqn:Hres. intros [= <-].
  split; simpl; try done.
  - rewrite <-ti_events0. unfold hand_list. by rewrite Hh.
  - split; [by intros [? ?]|]. by destruct err.
  - intros _. rewrite Hres. done.
Qed.

Lemma mark_resolved_inv ts : ts_inv ts → ts_inv (mark_resolved ts).
Proof.
  intros []. split; simpl; try done.
  - destruct (String.eqb_spec (ts_status ts) "awaiting_approval") as [Hs|Hs]; [|done].
    split; [by intros [? ?]|done].
  - intros Hd. destruct (String.eqb_spec (ts_status ts) "awaiting_approval"); [by left|]. auto.
  - intros Hd. destruct (ti_drained0 Hd) as (? & ? & ? & ? & ? & Hs).
    repeat (split; [done|]). rewrite Hs. by destruct (t_result (ts_task ts)).2.
Qed.

Lemma begin_resolve_inv d ts t :
  ts_inv ts → deliver d (ts_task ts) = Some t → ts_inv (begin_resolve t ts).
Proof.
  intros [] Hd. pose proof (deliver_Inv d _ _ ti_task0 Hd) as HI.
  unfold deliver in Hd. destruct (t_decisions (ts_task ts)); [done|]. injection Hd as <-.
  by split.
Qed.

Lemma ts_steps_inv ts ts' : ts_inv ts → ts_steps ts ts' → ts_inv ts'.
Proof.
  intros HI [m Hm]. destruct m as [| | | |d|]; simpl in Hm.
  - destruct (run_step (ts_task ts)) as [t|] eqn:Hr; [|done]. injection Hm as <-.
    pose proof HI as []. split; simpl; try done.
    + by eapply run_step_Inv.
    + unfold hand_list in *. simpl. by rewrite (run_step_received _ _ Hr).
    + intros Hd. destruct (ti_drained0 Hd) as (Hdone & _).
      exfalso. by eapply run_step_exited.
  - by eapply drain_receive_inv.
  - unfold drain_record in Hm. destruct (ts_hand ts) eqn:Hh; [|done]. injection Hm as <-.
    by apply record_event_inv.
  - by eapply drain_finish_inv.
  - destruct (deliver d (ts_task ts)) as [t|] eqn:Hd; [|done]. injection Hm as <-.
    by eapply begin_resolve_inv.
  - case_decide; [|done]. injection Hm as <-. by apply mark_resolved_inv.
Qed.

Lemma ts_reachable_inv e ts : rtc ts_steps (new_task e) ts → ts_inv ts.
Proof. apply rtc_invariant; [apply ts_steps_inv|apply new_task_inv]. Qed.

(** ** Properties *)

(** C21: Every snapshot the runtime service can serve is consistent: its status is one of
    four, its events are a prefix of what the task sent, there is a pending approval
    exactly while it is awaiting one, and a final status shows the task's own result and
    its closing events. *)
Theorem snapshot_sound e ts :
  rtc ts_steps (new_task e) ts →
  let s := take_snapshot ts in
  sn_Status s ∈ ["running"; "awaiting_approval"; "done"; "error"]%string ∧
  sn_Events s `prefix_of` h_sent (ts_task ts) ∧
  (is_Some (sn_Pending s) ↔ sn_Status s = "awaiting_approval"%string) ∧
  (sn_Status s = "done"%string → ∃ l res,
     sn_Result s = Some res ∧ t_result (ts_task ts) = (res, None) ∧
     sn_Events s = l ++ [event KindOutput (r_Output res); event KindDone EmptyString]) ∧
  (sn_Status s = "error"%string → ∃ l err,
     (t_result (ts_task ts)).2 = Some err ∧ sn_Result s = None ∧
     sn_Events s = l ++ [event KindError (Error err); event KindDone EmptyString]).
Proof.
  intros Hr. apply ts_reachable_inv in Hr as []. simpl.
  assert (ts_drained ts = true → ts_events ts = h_sent (ts_task ts) ∧
    ∃ l, h_sent (ts_task ts) = l ++ [closing (t_result (ts_task ts)); event KindDone EmptyString]) as Hall.
  { intros Hd. destruct (ti_drained0 Hd) as (Hdone & _ & He & Hh & _).
    destruct ti_task0. split.
    - rewrite inv_fifo, <-ti_events0, He. unfold hand_list. rewrite Hh. simpl. by rewrite !app_nil_r.
    - unfold phase in inv_phase. rewrite Hdone in inv_phase.
      destruct (t_pc (ts_task ts)); naive_solver. }
  assert (∀ s, ts_status ts = s → s ≠ "running"%string → s ≠ "awaiting_approval"%string →
    ts_drained ts = true) as Hfin.
  { intros s Hs ??. destruct (ts_drained ts); [done|].
    destruct (ti_live0 eq_refl); congruence. }
  split_and!.
  - destruct (ts_drained ts) eqn:Hd.
    + destruct (ti_drained0 eq_refl) as (_ & _ & _ & _ & _ & ->).
      destruct (t_result (ts_task ts)).2; set_solver.
    + destruct (ti_live0 eq_refl) as [->| ->]; set_solver.
  - destruct ti_task0. rewrite inv_fifo, <-ti_events0.
    exists (hand_list ts ++ t_events (ts_task ts)). by rewrite <-(assoc_L (++)).
  - done.
  - intros Hs. specialize (Hfin _ Hs ltac:(done) ltac:(done)).
    destruct (Hall Hfin) as [He (l & Hl)].
    destruct (ti_drained0 Hfin) as (_ & _ & _ & _ & Hres & Hst).
    destruct (t_result (ts_task ts)) as [res [err|]] eqn:Ht; simpl in *; [congruence|].
    exists l, res. rewrite Hs, He, Hl, Hres. done.
  - intros Hs. specialize (Hfin _ Hs ltac:(done) ltac:(done)).
    destruct (Hall Hfin) as [He (l & Hl)].
    destruct (ti_drained0 Hfin) as (_ & _ & _ & _ & Hres & Hst).
    destruct (t_result (ts_task ts)) as [res [err|]] eqn:Ht; simpl in *; [|congruence].
    exists l, err. rewrite Hs, He, Hl. done.
Qed.

(** ** The manager and the handlers *)

Record Manager := MkManager {
  m_rt : Runtime;
  m_files : Files;
  m_run : RunSpec → E;          (* the engine's Run, applied to its spec *)
  tasks : gmap string (taskState E);
}.

Implicit Types (m : Manager).

Definition set_task (id : string) ts m : Manager :=
  {| m_rt := m_rt m; m_files := m_files m; m_run := m_run m; tasks := <[id := ts]> (tasks m) |}.

Definition NewManager (rt : Runtime) (files : Files) (run : RunSpec → E) : Manager :=
  {| m_rt := rt; m_files := files; m_run := run; tasks := ∅ |}.

Definition get (id : string) m : option (taskState E) := tasks m !! id.

(** [id] is what newID draws. *)
Definition Submit (id : string) (req : TaskRequest) m : result string * Manager :=
  match buildSpec (m_files m) (m_rt m) req with
  | Err e => (Err e, m)
  | Ok spec => (Ok id, set_task id (new_task (m_run m spec)) m)
  end.

(** map[string]string: null is the empty string, other values are errors. *)
Definition param_step (acc : option (gmap string string)) (kv : string * json) :
    option (gmap string string) :=
  match acc, kv.2 with
  | Some ps, JStr v => Some (<[kv.1 := v]> ps)
  | Some ps, JNull => Some (<[kv.1 := EmptyString]> ps)
  | _, _ => None
  end.

Definition decode_params (fs : list (string * json)) : option (gmap string string) :=
  foldl (λ acc kv,
    if String.eqb (ToLower kv.1) "params" then
      match kv.2 with
      | JObj ps => foldl param_step acc ps
      | JNull => (λ _, ∅) <$> acc
      | _ => None
      end
    else acc) (Some ∅) fs.

Definition decode_TaskRequest (fs : list (string * json)) : option TaskRequest :=
  rid ← decode_field conv_string EmptyString "recipe_id" fs;
  goal ← decode_field conv_string EmptyString "inline_goal" fs;
  ps ← decode_params fs;
  who ← decode_field conv_string EmptyString "identity" fs;
  com ← decode_field conv_string EmptyString "committee" fs;
  hard ← decode_field conv_bool false "hard_task" fs;
  Some {| RecipeID := rid; InlineGoal := goal; Params := ps; tr_Identity := who;
          Committee := com; HardTask := hard |}.

Definition handleSubmit (id : string) (r : Request) m : Response * Manager :=
  match decode_body decode_TaskRequest (body r) with
  | None => (writeJSON StatusBadRequest (obj1 "error" "bad request"), m)
  | Some req =>
      match Submit id req m with
      | (Err e, m) => (writeJSON StatusBadRequest (obj1 "error" (Error e)), m)
      | (Ok id, m) => (writeJSON StatusAccepted (obj1 "task_id" id), m)
      end
  end.

Definition kind_text (k : EventKind) : string :=
  match k with
  | KindStatus => "status" | KindToolCall => "tool_call"
  | KindApprovalRequired => "approval_required" | KindOutput => "output"
  | KindError => "error" | KindDone => "done"
  end.

(** A field with omitempty *)
Definition omit (k v : string) : list (string * json) :=
  if nonempty v then [(k, JStr v)] else [].

Definition json_Event (e : Event) : json :=
  JObj ([("kind"%string, JStr (kind_text (Kind e)))] ++ omit "text" (Text e) ++
        omit "tool" (ev_Tool e) ++ omit "approval_id" (ApprovalID e)).

Definition json_snapshot (s : snapshot) : json :=
  JObj ([("status", JStr (sn_Status s)); ("events", JArr (json_Event <$> sn_Events s))]%string ++
        match sn_Pending s with
        | Some p => [("pending_approval", JObj [("tool", JStr (pa_Tool p));
                                                ("approval_id", JStr (pa_ApprovalID p))])]%string
        | None => [] end ++
        match sn_Result s with
        | Some r => [("result"%string,
                      JObj ([("output"%string, JStr (r_Output r))] ++ omit "audit_ref" (r_AuditRef r)))]
        | None => [] end ++
        omit "error" (sn_Error s)).

Definition no_such_task : Response := writeJSON StatusNotFound (obj1 "error" "no such task").

Definition handleGet (id : string) m : Response :=
  match get id m with
  | None => no_such_task
  | Some ts => writeJSON StatusOK (json_snapshot (take_snapshot ts))
  end.

Definition decode_approveBody (fs : list (string * json)) : option decision :=
  aid ← decode_field conv_string EmptyString "approval_id" fs;
  ok ← decode_field conv_bool false "granted" fs;
  who ← decode_field conv_string EmptyString "decided_by" fs;
  Some {| approvalID := aid; granted := ok; decidedBy := who |}.

(** The handler when nothing else runs between its two locked regions; None is
    a handler that hangs in ResolveApproval. *)
Definition handleApprove (prefer_done : bool) (id : string) (r : Request) m :
    option (Response * Manager) :=
  match get id m with
  | None => Some (no_such_task, m)
  | Some ts =>
      match decode_body decode_approveBody (body r) with
      | None => Some (writeJSON StatusBadRequest (obj1 "error" "bad request"), m)
      | Some d =>
          match ResolveApproval prefer_done d (ts_task ts) with
          | Blocked => None
          | Finished =>
              Some (writeJSON StatusConflict (obj1 "error" "runtime: task already finished"), m)
          | Delivered t =>
              Some (writeJSON StatusOK (obj1 "status" "resolved"),
                    set_task id (mark_resolved (begin_resolve t ts)) m)
          end
      end
  end.

(** ** Routes *)

Definition rt_auth (token : string) (next : Request → gmap string string → Manager →
    option (Response * Manager)) (r : Request) (vars : gmap string string) m :
    option (Response * Manager) :=
  if bearer_ok token r then next r vars m else Some (unauthorized, m).

Definition PathValue (vars : gmap string string) (k : string) : string :=
  default EmptyString (vars !! k).

Definition rt_routes (token newID : string) (prefer_done : bool) :
    list (route (Request → gmap string string → Manager → option (Response * Manager))) :=
  [ Route "GET" [Lit "healthz"] (λ _ _ m, Some (writeJSON StatusOK (obj1 "status" "ok"), m));
    Route "POST" [Lit "tasks"] (rt_auth token (λ r _ m, Some (handleSubmit newID r m)));
    Route "GET" [Lit "tasks"; Var "id"]
      (rt_auth token (λ _ vars m, Some (handleGet (PathValue vars "id") m, m)));
    Route "POST" [Lit "tasks"; Var "id"; Lit "approve"]
      (rt_auth token (λ r vars m, handleApprove prefer_done (PathValue vars "id") r m)) ].

Definition rt_Handler (token newID : string) (prefer_done : bool) (r : Request) m :
    option (Response * Manager) :=
  match ServeMux (rt_routes token newID prefer_done) (method r) (path r) with
  | Handled h vars => h r vars m
  | NotFound => Some (not_found, m)
  | MethodNotAllowed => Some (method_not_allowed, m)
  end.

(** *** Identifiers *)

Lemma hex_digit_inj n n' : n < 16 → n' < 16 → hex_digit n = hex_digit n' → n = n'.
Proof.
  intros Hn Hn'. assert (∀ k k', k < 256 → k' < 256 → ascii_of_nat k = ascii_of_nat k' → k = k') as Ha.
  { intros k k' Hk Hk' He. apply (f_equal nat_of_ascii) in He.
    by rewrite !nat_ascii_embedding in He. }
  unfold hex_digit. destruct (Nat.ltb_spec n 10), (Nat.ltb_spec n' 10); intros ?%Ha; lia.
Qed.

(** Different bytes are different identifiers. *)
Lemma newID_inj b b' : newID b = newID b' → b = b'.
Proof.
  revert b'. induction b as [|c b IH]; intros [|c' b']; try done. cbn [newID].
  pose proof (nat_ascii_bounded c) as Hc. pose proof (nat_ascii_bounded c') as Hc'.
  assert (∀ n, n < 256 → n / 16 < 16) as Hdiv by (intros; by apply Nat.Div0.div_lt_upper_bound).
  pose proof (Nat.div_mod_eq (nat_of_ascii c) 16) as Hn.
  pose proof (Nat.div_mod_eq (nat_of_ascii c') 16) as Hn'.
  apply Hdiv in Hc, Hc'. assert (nat_of_ascii c mod 16 < 16) as Hm by by apply Nat.mod_upper_bound.
  assert (nat_of_ascii c' mod 16 < 16) as Hm' by by apply Nat.mod_upper_bound. revert Hn Hn' Hc Hc' Hm Hm'.
  generalize (nat_of_ascii c / 16) as q, (nat_of_ascii c mod 16) as r,
    (nat_of_ascii c' / 16) as q', (nat_of_ascii c' mod 16) as r'.
  intros q r q' r' Hn Hn' Hq Hq' Hr Hr' [= H1%hex_digit_inj H2%hex_digit_inj H3%IH]; [|done..].
  subst. f_equal. rewrite <-(ascii_nat_embedding c), <-(ascii_nat_embedding c'). congruence.
Qed.

(** A task is stored under its identifier, and the others keep theirs unless
    the same bytes are drawn again. *)
Lemma Submit_get b req m id m' :
  Submit (newID b) req m = (Ok id, m') →
  id = newID b ∧
  (∃ spec, buildSpec (m_files m) (m_rt m) req = Ok spec ∧
     get id m' = Some (new_task (m_run m spec))) ∧
  ∀ b', b' ≠ b → get (newID b') m' = get (newID b') m.
Proof.
  unfold Submit. destruct (buildSpec _ _ _) as [spec|]; [|done]. intros [= <- <-].
  split; [done|]. split; [exists spec; split; [done|apply lookup_insert_eq]|].
  intros b' Hb. apply lookup_insert_ne. intros He. apply Hb. symmetry. by apply newID_inj.
Qed.

(** A request to the runtime service without the bearer token changes nothing, and
    only the health check answers it with 200. *)
Theorem runtime_auth token newID pd r m :
  bearer_ok token r = false →
  ∃ resp, rt_Handler token newID pd r m = Some (resp, m) ∧
    (code resp = StatusOK → path r = ["healthz"%string]).
Proof.
  intros Hb. unfold rt_Handler.
  destruct (ServeMux _ _ _) as [h vars| |] eqn:Hd; [|by eexists..].
  apply ServeMux_route in Hd as (rt & Hin & <- & Hp & _). unfold rt_routes in Hin.
  rewrite !elem_of_cons, elem_of_nil in Hin.
  destruct Hin as [->|[->|[->|[->|[]]]]]; simpl; unfold rt_auth; rewrite ?Hb;
    (eexists; split; [done|]); [|done..].
  intros _. by apply match_path_lit in Hp.
Qed.

(** ** Decisions and the snapshot *)

Lemma ts_run_cons mv ms ts ts' : ts_step mv ts = Some ts' → ts_run (mv :: ms) ts = ts_run ms ts'.
Proof. intros Hs. unfold ts_run. simpl. by rewrite Hs. Qed.

Lemma mark_step t ts :
  ts_step MMark (begin_resolve t ts) = Some (mark_resolved (begin_resolve t ts)).
Proof. unfold ts_step. rewrite decide_True; [done|]. simpl. lia. Qed.

(** The handler delivers and marks, then the task takes the decision. *)
Lemma resolve_mark_run tool aid k d ts :
  t_pc (ts_task ts) = PWait tool aid k → t_decisions (ts_task ts) = None →
  ∃ t, h_answers t = h_answers (ts_task ts) ∧
    ts_run [MResolve d; MMark; MRun] ts =
      with_task (take_decision tool aid k d t) (mark_resolved (begin_resolve t ts)).
Proof.
  intros Hpc Hd.
  assert (∃ t, deliver d (ts_task ts) = Some t ∧ h_answers t = h_answers (ts_task ts) ∧
    t_pc t = PWait tool aid k ∧ t_decisions t = Some d) as (t & Ht & Ha & Hp & Hdd).
  { unfold deliver. rewrite Hd. by eexists. }
  exists t. split; [done|].
  erewrite ts_run_cons; [|simpl; rewrite Ht; reflexivity].
  erewrite ts_run_cons by apply mark_step.
  erewrite ts_run_cons; [reflexivity|]. simpl. unfold run_step. by rewrite Hp, Hdd.
Qed.

(** When a task waits for an approval and the approve handler gets a decision with
    that id, the engine is answered with that decision and goes on, and the snapshot
    returns to running with nothing pending. *)
Theorem approve_resumes tool aid k d ts :
  t_pc (ts_task ts) = PWait tool aid k → t_decisions (ts_task ts) = None →
  approvalID d = aid →
  ts_status ts = "awaiting_approval"%string →
  let ts' := ts_run [MResolve d; MMark; MRun] ts in
  t_pc (ts_task ts') = PRun (k (Ok (granted d))) ∧
  h_answers (ts_task ts') = h_answers (ts_task ts) ++ [(tool, aid, granted d)] ∧
  ts_status ts' = "running"%string ∧ ts_pending ts' = None.
Proof.
  intros Hpc Hd <- Hs. destruct (resolve_mark_run _ _ _ d _ Hpc Hd) as (t & Ha & Hrun).
  cbv zeta. rewrite Hrun. unfold take_decision. rewrite String.eqb_refl, andb_false_r. simpl.
  by rewrite Ha, Hs.
Qed.

(** A decision for another approval is answered as resolved; the snapshot
    forgets the pending approval, and the task goes on waiting for it. *)
Theorem approve_wrong_id tool aid k d ts :
  t_pc (ts_task ts) = PWait tool aid k → t_decisions (ts_task ts) = None →
  approvalID d ≠ aid → approvalID d ≠ EmptyString →
  ts_status ts = "awaiting_approval"%string →
  let ts' := ts_run [MResolve d; MMark; MRun] ts in
  t_pc (ts_task ts') = PWait tool aid k ∧ t_decisions (ts_task ts') = None ∧
  sn_Status (take_snapshot ts') = "running"%string ∧ sn_Pending (take_snapshot ts') = None.
Proof.
  intros Hpc Hd Ha Hne Hs. destruct (resolve_mark_run _ _ _ d _ Hpc Hd) as (t & _ & Hrun).
  apply nonempty_true in Hne. apply String.eqb_neq in Ha.
  cbv zeta. rewrite Hrun. unfold take_decision. rewrite Hne, Ha. simpl. by rewrite Hs.
Qed.
End server.

Lemma ts_run_reachable `{Engine E} ms (ts : taskState E) : rtc ts_steps ts (ts_run ms ts).
Proof.
  revert ts. induction ms as [|m ms IH]; intros ts; [done|]. unfold ts_run. cbn [foldl].
  destruct (ts_step m ts) as [ts'|] eqn:Hs; [|apply IH].
  eapply rtc_l; [by exists m|]. apply IH.
Qed.

(** ** Concrete instances *)

#[local] Existing Instance asking_Engine.

(** The task is waiting and the snapshot says so. *)
Definition sample_waiting : taskState asking :=
  ts_run [MRun; MReceive; MRecord] (new_task Ask).

Definition sample_drained : taskState asking :=
  ts_run ([MResolve sample_decision; MMark; MRun; MRun; MRun; MRun; MRun; MRun] ++
          [MReceive; MRecord; MReceive; MRecord; MFinish]) sample_waiting.

Lemma snapshot_sound_witness :
  sn_Status (take_snapshot sample_drained) = "done"%string ∧
  ∃ l res, sn_Result (take_snapshot sample_drained) = Some res ∧
    sn_Events (take_snapshot sample_drained) =
      l ++ [event KindOutput (r_Output res); event KindDone EmptyString].
Proof.
  split; [reflexivity|].
  destruct (snapshot_sound Ask sample_drained) as (_ & _ & _ & Hdone & _).
  - etransitivity; apply ts_run_reachable.
  - destruct (Hdone eq_refl) as (l & res & Hr & _ & He). exists l, res. exact (conj Hr He).
Defined.

Lemma approve_resumes_witness :
  sn_Pending (take_snapshot sample_waiting) =
    Some {| pa_Tool := "send"; pa_ApprovalID := "a1" |} ∧
  let ts' := ts_run [MResolve sample_decision; MMark; MRun] sample_waiting in
  t_pc (ts_task ts') = PRun (Answered true) ∧ ts_status ts' = "running"%string.
Proof.
  split; [reflexivity|].
  destruct (approve_resumes "send" "a1"
    (λ r, Answered (match r with Ok b => b | Err _ => false end)) sample_decision sample_waiting)
    as (Hp & _ & Hs & _); [vm_compute; reflexivity..|].
  split; [exact Hp|exact Hs].
Defined.

Definition sample_manager : Manager :=
  {| m_rt := {| rt_models := {| Default := "m"; Escalation := EmptyString |};
                rt_recipesDir := "recipes" |};
     m_files := {| Stat := λ _, false; ReadFile := λ p, Err (ErrNew p);
                   Unmarshal := λ p, Err (ErrNew p) |};
     m_run := λ _, Ask; tasks := {["1"%string := sample_waiting]} |}.

Definition forged : Request :=
  {| method := "POST"; path := ["tasks"; "1"; "approve"]%string; query := ∅; header := ∅;
     cookies := ∅; body := RawEmpty |}.

Lemma runtime_auth_witness :
  ∃ resp, rt_Handler "secret" "2" false forged sample_manager = Some (resp, sample_manager) ∧
    (code resp = StatusOK → path forged = ["healthz"%string]).
Proof. apply runtime_auth. reflexivity. Defined.
