(* ===== verification/RuntimeProcess.v ===== *)
(** * The runtime service as a process (runtime/cmd/runtime-server, runtime/internal/server)

    net/http serves every request in a goroutine of its own. All handlers but
    one are done in one step under the manager's mutex; an approve handler
    looks its task up, waits in ResolveApproval until the task takes its
    decision or ends, and then updates the snapshot under the task's mutex.
    Here requests, waiting handlers and the goroutines of all tasks interleave.
    The executions are those in which newID draws no identifier twice. *)

From S2P Require Import Prelude GoText Float64 Json Http Recipe Task RuntimeServer.
From Stdlib Require Import ZArith Lia Ascii.
From stdpp Require Import options.

Open Scope nat_scope.
Open Scope list_scope.

Lemma match_path_between a n c p vars :
  match_path [Lit a; Var n; Lit c] p = Some vars →
  ∃ x, x ≠ EmptyString ∧ p = [a; x; c] ∧ vars = {[n := x]}.
Proof.
  destruct p as [|y l]; cbn [match_path]; [done|]. destruct (String.eqb_spec a y) as [<-|]; [|done].
  destruct l as [|x l]; [done|]. destruct (nonempty x) eqn:Hx; [|done].
  destruct l as [|z l]; [done|]. destruct (String.eqb_spec c z) as [<-|]; [|done].
  destruct l; [|done]. intros [= <-]. apply nonempty_true in Hx. by exists x.
Qed.

Section process.
Context {E : Type} `{Engine E} (token : string).
Implicit Types (m : Manager (E:=E)) (ts : taskState E).

(** ** Requests *)

(** The decision that an approve request for the task brings. *)
Definition approves (id : string) (r : Request) : option decision :=
  if bearer_ok token r && String.eqb (method r) "POST" && nonempty id &&
     bool_decide (path r = ["tasks"; id; "approve"]%string)
  then decode_body decode_approveBody (body r) else None.

(** The task that a submit request asks for. *)
Definition submits (r : Request) : option TaskRequest :=
  if bearer_ok token r && String.eqb (method r) "POST" && bool_decide (path r = ["tasks"%string])
  then decode_body decode_TaskRequest (body r) else None.

(** The task and the decision of a request that goes on to ResolveApproval. *)
Definition approving (r : Request) m : option (string * decision) :=
  match path r with
  | [_; id; _] =>
      if bool_decide (is_Some (get id m)) then (λ d, (id, d)) <$> approves id r else None
  | _ => None
  end.

Lemma approving_Some r m id d :
  approving r m = Some (id, d) → is_Some (get id m) ∧ approves id r = Some d.
Proof.
  unfold approving. destruct (path r) as [|a [|b [|c []]]]; try done. case_bool_decide; [|done].
  destruct (approves b r) eqn:Ha; [|done]. by intros [= <- <-].
Qed.

Lemma approves_path id r d :
  approves id r = Some d →
  bearer_ok token r = true ∧ method r = "POST"%string ∧ id ≠ EmptyString ∧
  path r = ["tasks"; id; "approve"]%string ∧ decode_body decode_approveBody (body r) = Some d.
Proof.
  unfold approves. destruct (_ && _) eqn:Hc; [|done]. intros Hd.
  apply andb_true_iff in Hc as [Hc ?%bool_decide_eq_true].
  apply andb_true_iff in Hc as [Hc ?%nonempty_true].
  by apply andb_true_iff in Hc as [? ?%String.eqb_eq].
Qed.

Lemma Submit_result id req m x m' : Submit id req m = (x, m') → x = Ok id ∨ m' = m.
Proof. unfold Submit. destruct (buildSpec _ _ _); intros [= <- <-]; auto. Qed.

(** A request that is no approval is done in one step: it changes nothing, or
    it submits a task. *)
Lemma Handler_at_once nid pd r m :
  approving r m = None →
  ∃ resp m', rt_Handler token nid pd r m = Some (resp, m') ∧
    (m' = m ∨ ∃ req, submits r = Some req ∧ Submit nid req m = (Ok nid, m')).
Proof.
  intros Ha. unfold rt_Handler.
  destruct (ServeMux _ _ _) as [h vars| |] eqn:Hd; [|by eexists _, _; auto..].
  apply ServeMux_route in Hd as (rt & Hin & <- & Hp & Hm). unfold rt_routes in Hin.
  rewrite !elem_of_cons, elem_of_nil in Hin.
  destruct Hin as [->|[->|[->|[->|[]]]]]; cbn [r_handler r_path r_method] in *; unfold rt_auth;
    [by eexists _, _; auto|..]; (destruct (bearer_ok token r) eqn:Hb; [|by eexists _, _; auto]).
  - apply match_path_lit in Hp. apply match_method_POST in Hm. unfold handleSubmit, submits.
    rewrite Hb, Hm, Hp, String.eqb_refl, bool_decide_eq_true_2 by done. cbn [andb].
    destruct (decode_body _ _) as [req|]; [|by eexists _, _; auto].
    destruct (Submit nid req m) as [[id|e] m'] eqn:Hs; eexists _, _; (split; [reflexivity|]);
      destruct (Submit_result _ _ _ _ _ Hs) as [Hid|?]; try (by left).
    right. exists req. by injection Hid as ->.
  - by eexists _, _; auto.
  - unfold handleApprove. apply match_method_POST in Hm.
    apply match_path_between in Hp as (id & Hid%nonempty_true & Hpath & ->).
    unfold PathValue. rewrite lookup_singleton_eq. change (default EmptyString (Some id)) with id.
    unfold approving in Ha. rewrite Hpath in Ha.
    destruct (get id m) as [ts|]; [|by eexists _, _; auto].
    rewrite bool_decide_eq_true_2 in Ha by by eexists. unfold approves in Ha.
    rewrite Hb, Hm, Hid, Hpath, String.eqb_refl, bool_decide_eq_true_2 in Ha by done.
    cbn [andb] in Ha.
    destruct (decode_body decode_approveBody (body r)); [done|]. by eexists _, _; auto.
Qed.

(** ** The process *)

(** The manager, and the approve handlers that wait in ResolveApproval. *)
Record service := Service { s_mgr : Manager (E:=E); s_waiting : list (string * decision) }.
Implicit Types (y : service).

Inductive net_event : Type :=
  | Http (newID : string) (r : Request)           (* a request, and what newID would draw *)
  | Resolve (i : nat) (prefer_done : bool)        (* a waiting handler's select *)
  | Move (id : string) (mv : move).               (* a goroutine of the task, or MMark *)

Definition resolve (pd : bool) (w : string * decision) (m : Manager) : option (Manager (E:=E)) :=
  match get w.1 m with
  | None => None
  | Some ts =>
      match ResolveApproval pd w.2 (ts_task ts) with
      | Blocked => None
      | Finished => Some m
      | Delivered t => Some (set_task w.1 (begin_resolve t ts) m)
      end
  end.

(** The decisions of ResolveApproval come from the waiting handlers. *)
Definition goroutine (id : string) (mv : move) (m : Manager) : Manager (E:=E) :=
  match mv with
  | MResolve _ => m
  | _ => match get id m ≫= ts_step mv with Some ts => set_task id ts m | None => m end
  end.

Definition happen y (e : net_event) : service :=
  match e with
  | Http nid r =>
      match approving r (s_mgr y) with
      | Some w => {| s_mgr := s_mgr y; s_waiting := s_waiting y ++ [w] |}
      | None =>
          {| s_mgr := match rt_Handler token nid false r (s_mgr y) with
                      | Some (_, m) => m | None => s_mgr y end;
             s_waiting := s_waiting y |}
      end
  | Resolve i pd =>
      match s_waiting y !! i with
      | None => y
      | Some w =>
          match resolve pd w (s_mgr y) with
          | None => y
          | Some m => {| s_mgr := m; s_waiting := delete i (s_waiting y) |}
          end
      end
  | Move id mv => {| s_mgr := goroutine id mv (s_mgr y); s_waiting := s_waiting y |}
  end.

Definition happens (es : list net_event) y : service := foldl happen y es.

Definition service_start m : service := {| s_mgr := m; s_waiting := [] |}.

(** With nobody else in between, the steps of an approve request are what its
    handler does. *)
Lemma approve_alone nid pd r m id d :
  approving r m = Some (id, d) →
  match rt_Handler token nid pd r m with
  | None => resolve pd (id, d) m = None
  | Some (_, m') => ∃ m1, resolve pd (id, d) m = Some m1 ∧ (m' = m1 ∨ m' = goroutine id MMark m1)
  end.
Proof.
  intros [[ts Hts] (Hb & Hm & Hid & Hp & Hd)%approves_path]%approving_Some.
  unfold rt_Handler. rewrite Hm, Hp.
  assert (ServeMux (rt_routes (E:=E) token nid pd) "POST" ["tasks"; id; "approve"]%string =
    Handled (rt_auth token (λ r vars m, handleApprove pd (PathValue vars "id") r m))
      {["id"%string := id]}) as ->.
  { apply nonempty_true in Hid. cbn. by rewrite Hid. }
  unfold rt_auth. rewrite Hb. unfold PathValue. rewrite lookup_singleton_eq.
  change (default EmptyString (Some id)) with id. unfold handleApprove, resolve. cbn [fst snd].
  rewrite Hts, Hd. destruct (ResolveApproval pd d (ts_task ts)) as [t| |]; [|by eauto|done].
  eexists. split; [done|]. right. unfold goroutine, get, set_task. cbn [tasks].
  rewrite lookup_insert_eq. cbn [mbind option_bind]. rewrite mark_step. cbn. by rewrite insert_insert_eq.
Qed.

(** ** Safety *)

Definition answers_to (id : string) (e : net_event) : bool :=
  match e with Http _ r => bool_decide (is_Some (approves id r)) | _ => false end.

(** The approve requests for a task among the events. *)
Definition asked_for (id : string) (es : list net_event) : nat :=
  length (filter (λ e, answers_to id e = true) es).

Definition waiting_for (id : string) (ws : list (string * decision)) : nat :=
  length (filter (λ w, w.1 = id) ws).

Definition decided_in (es : list net_event) (id : string) (d : decision) : Prop :=
  ∃ nid r, Http nid r ∈ es ∧ approves id r = Some d.

(** Every task was submitted, and what it or a waiting handler holds as a
    decision came with a request of its own. *)
Record accounted (m0 : Manager) (es : list net_event) y : Prop := {
  ac_rt : m_rt (s_mgr y) = m_rt m0 ∧ m_files (s_mgr y) = m_files m0 ∧ m_run (s_mgr y) = m_run m0;
  ac_tasks : ∀ id ts, get id (s_mgr y) = Some ts →
    (∃ r req spec, Http id r ∈ es ∧ submits r = Some req ∧
       buildSpec (m_files m0) (m_rt m0) req = Ok spec ∧ rtc ts_steps (new_task (m_run m0 spec)) ts) ∧
    (∀ d, d ∈ h_delivered (ts_task ts) → decided_in es id d) ∧
    length (h_delivered (ts_task ts)) + waiting_for id (s_waiting y) ≤ asked_for id es;
  ac_waiting : ∀ id d, (id, d) ∈ s_waiting y → decided_in es id d;
  ac_count : ∀ id, waiting_for id (s_waiting y) ≤ asked_for id es;
}.

Lemma ts_step_delivered mv ts ts' :
  ts_step mv ts = Some ts' →
  h_delivered (ts_task ts') =
  h_delivered (ts_task ts) ++ match mv with MResolve d => [d] | _ => [] end.
Proof.
  destruct mv as [| | | |d|]; cbn [ts_step]; rewrite ?app_nil_r.
  - destruct (run_step (ts_task ts)) as [t|] eqn:Ht; [|done]. intros [= <-].
    by apply run_step_delivered in Ht.
  - unfold drain_receive, receive. destruct (ts_hand ts); [done|]. destruct (ts_drained ts); [done|].
    destruct (t_events (ts_task ts)); [done|]. by intros [= <-].
  - unfold drain_record. destruct (ts_hand ts); [|done]. by intros [= <-].
  - unfold drain_finish. destruct (ts_hand ts); [done|]. destruct (t_events (ts_task ts)); [|done].
    destruct (_ && _); [|done]. destruct (t_result (ts_task ts)). by intros [= <-].
  - unfold deliver. destruct (t_decisions (ts_task ts)); [done|]. by intros [= <-].
  - destruct (decide _); [|done]. by intros [= <-].
Qed.

Lemma goroutine_cases id mv m :
  goroutine id mv m = m ∨
  ∃ ts ts', get id m = Some ts ∧ ts_step mv ts = Some ts' ∧ (∀ d, mv ≠ MResolve d) ∧
    goroutine id mv m = set_task id ts' m.
Proof.
  unfold goroutine. destruct mv; try by left.
  all: destruct (get id m) as [ts|] eqn:Hg; cbn [mbind option_bind]; [|by left];
    destruct (ts_step _ ts) as [ts'|] eqn:Hs; [right; by exists ts, ts'|by left].
Qed.

Lemma resolve_cases pd id d m m' :
  resolve pd (id, d) m = Some m' →
  m' = m ∨ ∃ ts ts', get id m = Some ts ∧ ts_step (MResolve d) ts = Some ts' ∧ m' = set_task id ts' m.
Proof.
  unfold resolve. cbn [fst snd]. destruct (get id m) as [ts|] eqn:Hg; [|done].
  unfold ResolveApproval. destruct (_ && pd); [intros [= <-]; by left|].
  destruct (deliver d (ts_task ts)) as [t|] eqn:Hd.
  - intros [= <-]. right. exists ts, (begin_resolve t ts). split; [done|]. split; [|done].
    cbn [ts_step]. by rewrite Hd.
  - destruct (t_done _); [|done]. intros [= <-]. by left.
Qed.

Lemma asked_for_app id es e :
  asked_for id (es ++ [e]) = asked_for id es + (if answers_to id e then 1 else 0).
Proof.
  unfold asked_for. rewrite filter_app, length_app, filter_cons. by destruct (answers_to id e).
Qed.

Lemma waiting_for_app id ws w :
  waiting_for id (ws ++ [w]) = waiting_for id ws + (if decide (w.1 = id) then 1 else 0).
Proof.
  unfold waiting_for. rewrite filter_app, length_app, filter_cons. by destruct (decide (w.1 = id)).
Qed.

Lemma waiting_for_delete id ws i w :
  ws !! i = Some w →
  waiting_for id ws = waiting_for id (delete i ws) + (if decide (w.1 = id) then 1 else 0).
Proof.
  intros Hi. unfold waiting_for. rewrite <-(take_drop_middle ws i w Hi) at 1.
  rewrite delete_take_drop, !filter_app, !length_app, filter_cons.
  destruct (decide (w.1 = id)); simpl; lia.
Qed.

Lemma decided_in_app es e id d : decided_in es id d → decided_in (es ++ [e]) id d.
Proof. intros (nid & r & ? & ?). exists nid, r. split; [set_solver|done]. Qed.

Lemma accounted_later m0 es e y : accounted m0 es y → accounted m0 (es ++ [e]) y.
Proof.
  intros [Hr Ht Hw Hc]. split; [done|..].
  - intros id ts ((r & req & spec & ? & ?) & ? & ?)%Ht. split; [|split].
    + exists r, req, spec. split; [set_solver|done].
    + eauto using decided_in_app.
    + rewrite asked_for_app. lia.
  - eauto using decided_in_app.
  - intros id. specialize (Hc id). rewrite asked_for_app. lia.
Qed.

(** A step of a task, which uses up a waiting decision if it is a delivery. *)
Lemma accounted_step m0 es y id ts mv ts' ws :
  accounted m0 es y → get id (s_mgr y) = Some ts → ts_step mv ts = Some ts' →
  (∀ w, w ∈ ws → w ∈ s_waiting y) →
  (∀ x, waiting_for x ws +
     (match mv with MResolve _ => if decide (id = x) then 1 else 0 | _ => 0 end) ≤
     waiting_for x (s_waiting y)) →
  (∀ d, mv = MResolve d → decided_in es id d) →
  accounted m0 es {| s_mgr := set_task id ts' (s_mgr y); s_waiting := ws |}.
Proof.
  intros [Hr Ht Hw Hc] Hg Hs Hin Hle Hd. pose proof (ts_step_delivered _ _ _ Hs) as Hdel.
  split; cbn [s_mgr s_waiting]; [done|..].
  - intros x tx. unfold get, set_task. cbn [tasks]. destruct (decide (id = x)) as [<-|Hne].
    + rewrite lookup_insert_eq. intros [= <-].
      destruct (Ht id ts Hg) as ((r & req & spec & Hin1 & Hsub & Hb & Hrtc) & Hds & Hn).
      split; [|split].
      * exists r, req, spec. do 3 (split; [done|]). eapply rtc_r; [done|]. by exists mv.
      * intros d. rewrite Hdel, elem_of_app. intros [?|Hnew]; [by apply Hds|].
        destruct mv; try by apply elem_of_nil in Hnew.
        apply list_elem_of_singleton in Hnew as ->. by apply Hd.
      * rewrite Hdel, length_app. specialize (Hle id). rewrite decide_True in Hle by done.
        destruct mv; cbn [length]; lia.
    + rewrite lookup_insert_ne by done. intros Hx. destruct (Ht x tx Hx) as (? & ? & ?).
      split; [done|]. split; [done|]. specialize (Hle x). lia.
  - intros x d ?%Hin. by apply Hw.
  - intros x. specialize (Hle x). specialize (Hc x). lia.
Qed.

Lemma accounted_drop m0 es y i w :
  s_waiting y !! i = Some w → accounted m0 es y → accounted m0 es {| s_mgr := s_mgr y; s_waiting := delete i (s_waiting y) |}.
Proof.
  intros Hi [Hr Ht Hw Hc]. split; cbn [s_mgr s_waiting]; [done|..].
  - intros id ts (? & ? & ?)%Ht. split; [done|]. split; [done|].
    pose proof (waiting_for_delete id _ _ _ Hi). lia.
  - intros id d Hin. apply Hw. by eapply list_elem_of_delete_inv.
  - intros id. specialize (Hc id). pose proof (waiting_for_delete id _ _ _ Hi). lia.
Qed.

Lemma accounted_http m0 es y nid r :
  accounted m0 es y → accounted m0 (es ++ [Http nid r]) (happen y (Http nid r)).
Proof.
  intros Ha. cbn [happen]. destruct (approving r (s_mgr y)) as [[id d]|] eqn:Happ.
  - apply approving_Some in Happ as [_ Hd]. destruct Ha as [Hr Ht Hw Hc].
    assert (∀ x, asked_for x es + (if decide (id = x) then 1 else 0) ≤ asked_for x (es ++ [Http nid r])) as Hle.
    { intros x. rewrite asked_for_app. destruct (decide (id = x)) as [<-|]; [|lia].
      cbn [answers_to]. rewrite bool_decide_eq_true_2 by by eexists. lia. }
    split; cbn [s_mgr s_waiting]; [done|..].
    + intros x ts ((r' & req & spec & ? & ?) & ? & ?)%Ht. split; [|split].
      * exists r', req, spec. split; [set_solver|done].
      * eauto using decided_in_app.
      * rewrite waiting_for_app. specialize (Hle x). cbn [fst]. lia.
    + intros x d' [?%Hw|[= -> ->]%list_elem_of_singleton]%elem_of_app; [by apply decided_in_app|].
      exists nid, r. split; [set_solver|done].
    + intros x. rewrite waiting_for_app. specialize (Hle x). specialize (Hc x). cbn [fst]. lia.
  - destruct (Handler_at_once nid false r (s_mgr y) Happ) as (resp & m' & -> & Hm).
    destruct Hm as [->|(req & Hsub & Hs)];
      [destruct y; by apply accounted_later|].
    apply accounted_later with (e := Http nid r) in Ha. destruct Ha as [(Hrt & Hfs & Hrun) Ht Hw Hc].
    unfold Submit in Hs. destruct (buildSpec _ _ _) as [spec|] eqn:Hb; [|done]. injection Hs as <-.
    split; cbn [s_mgr s_waiting set_task m_rt m_files m_run]; [done| |done|done].
    intros x ts. unfold get, set_task. cbn [tasks]. destruct (decide (nid = x)) as [<-|Hne].
    + rewrite lookup_insert_eq. intros [= <-]. split; [|split].
      * exists r, req, spec. rewrite <-Hfs, <-Hrt, <-Hrun. split; [set_solver|]. by rewrite Hb.
      * by intros d ?%elem_of_nil.
      * cbn. apply Hc.
    + rewrite lookup_insert_ne by done. apply Ht.
Qed.

Lemma accounted_happens m0 es :
  tasks m0 = ∅ → accounted m0 es (happens es (service_start m0)).
Proof.
  intros H0. induction es as [|e es IH] using rev_ind.
  - split; cbn; [done|..|done]; [|by intros ? ? ?%elem_of_nil].
    intros id ts. unfold get. by rewrite H0.
  - unfold happens. rewrite foldl_app. cbn [foldl]. fold (happens es (service_start m0)).
    set (y := happens es (service_start m0)) in *.
    destruct e as [nid r|i pd|id mv]; [by apply accounted_http|..];
      apply accounted_later; cbn [happen].
    + destruct (s_waiting y !! i) as [[id d]|] eqn:Hi; [|done].
      destruct (resolve pd (id, d) (s_mgr y)) as [m|] eqn:Hm; [|done].
      apply resolve_cases in Hm as [->|(ts & ts' & Hg & Hs & ->)]; [by eapply accounted_drop|].
      eapply accounted_step; [done..| | |].
      * intros w. apply list_elem_of_delete_inv.
      * intros x. pose proof (waiting_for_delete x _ _ _ Hi). cbn [fst] in *. lia.
      * intros d' [= <-]. eapply ac_waiting; [done|]. by eapply list_elem_of_lookup_2.
    + destruct (goroutine_cases id mv (s_mgr y)) as [->|(ts & ts' & Hg & Hs & Hne & ->)];
        [by destruct y|].
      eapply accounted_step; [done..| | |]; [done| |by intros d ?; destruct (Hne d)].
      intros x. destruct mv; lia || by destruct (Hne d).
Qed.

(** C15: In the life of the runtime service, however its requests, the approve handlers
    that wait and the goroutines of all tasks interleave, every task under an id is one
    that a POST /tasks request with the service token submitted, in a state that its own
    goroutines can reach; its engine got at most one answer for each approve request for
    that id with the token; and when it was told that an approval is granted, one of these
    requests granted it, naming that approval or none. *)
Theorem runtime_process_safe m0 es id ts :
  tasks m0 = ∅ →
  get id (s_mgr (happens es (service_start m0))) = Some ts →
  (∃ r req spec, Http id r ∈ es ∧ submits r = Some req ∧
     buildSpec (m_files m0) (m_rt m0) req = Ok spec ∧ rtc ts_steps (new_task (m_run m0 spec)) ts) ∧
  length (h_answers (ts_task ts)) ≤ asked_for id es ∧
  (∀ tool aid, (tool, aid, true) ∈ h_answers (ts_task ts) →
     ∃ nid r d, Http nid r ∈ es ∧ approves id r = Some d ∧ granted d = true ∧
       (approvalID d = aid ∨ approvalID d = EmptyString)).
Proof.
  intros H0 Hg. destruct (accounted_happens m0 es H0) as [_ Ht _ _].
  destruct (Ht id ts Hg) as (Hsub & Hd & Hn).
  destruct Hsub as (r & req & spec & Hin & Hr & Hb & Hrtc).
  pose proof (ts_reachable_inv _ _ Hrtc) as [Hinv _ _ _ _]. destruct Hinv as [_ _ Hans _ Hcnt _].
  split; [by exists r, req, spec|]. split; [lia|]. intros tool aid Ha.
  rewrite Forall_forall in Hans. destruct (Hans _ Ha) as (d & Hdin & Hgr & Hid).
  destruct (Hd d Hdin) as (nid & r' & ? & ?). by exists nid, r', d.
Qed.
End process.

(** ** A task from its request to its answer *)

#[local] Existing Instance asking_Engine.

Definition sample_post (p : list string) (b : json) : Request :=
  {| method := "POST"; path := p; query := ∅; header := {["authorization" := "Bearer secret"]};
     cookies := ∅; body := RawJSON b |}%string.

Definition sample_start : Manager (E:=asking) :=
  NewManager (m_rt sample_manager) (m_files sample_manager) (λ _, Ask).

(** A task is submitted and asks; a request without the token, one for an
    unknown task and the right one arrive, and the task takes its decision. *)
Definition sample_life : list net_event :=
  let yes := JObj [("approval_id", JStr "a1"); ("granted", JBool true)]%string in
  [ Http "1" (sample_post ["tasks"] (JObj [("inline_goal", JStr "send it")]));
    Move "1" MRun;
    Http "x" forged;
    Http "x" (sample_post ["tasks"; "2"; "approve"] yes);
    Http "x" (sample_post ["tasks"; "1"; "approve"] yes);
    Resolve 0 false; Move "1" MMark; Move "1" MRun ]%string.

Lemma runtime_process_safe_witness :
  asked_for "secret" "1" sample_life = 1 ∧
  ∃ nid r d, Http nid r ∈ sample_life ∧ approves "secret" "1" r = Some d ∧ granted d = true.
Proof.
  split; [vm_compute; reflexivity|].
  pose proof (λ ts, runtime_process_safe "secret" sample_start sample_life "1" ts eq_refl) as Hsafe.
  assert ((λ ts, h_answers (ts_task ts)) <$>
    get "1" (s_mgr (happens "secret" sample_life (service_start sample_start))) =
    Some [("send", "a1", true)]%string) as Hend by (vm_compute; reflexivity).
  destruct (get "1" (s_mgr (happens "secret" sample_life (service_start sample_start)))) as [ts|];
    [|discriminate Hend]. injection Hend as Hend. destruct (Hsafe ts eq_refl) as (_ & _ & Ha).
  destruct (Ha "send" "a1")%string as (nid & r & d & ? & ? & ? & _); [rewrite Hend; left|].
  exists nid, r, d. do 2 (split; [assumption|]). assumption.
Defined.
