(* ===== verification/Goose.v ===== *)
(** * The Goose engine (runtime/goose.go)

    [GooseEngine.Run] as an instance of the engine interface. The process it
    starts is a parameter: what pipe, start and exit yield, and the lines that
    the scanner reads from the combined output. *)

From S2P Require Import Prelude GoText Path Recipe Task.
From Stdlib Require Import ZArith Lia Ascii.
From stdpp Require Import options.

Open Scope nat_scope.
Open Scope list_scope.

Record Process := MkProcess {
  p_pipe : option error;
  p_start : option error;
  p_lines : list string;
  p_wait : option error;
}.

(** The process for a prompt and an environment. *)
Definition Exec : Type := string → list string → Process.

Inductive goose : Type :=
  | GStart (cfg : Config) (spec : RunSpec) (exec : Exec)
  | GScan (remaining : list string) (last : string) (wait : option error).

Definition empty_result : Result := {| r_Output := EmptyString; r_AuditRef := EmptyString |}.

Definition ErrNoKey : error :=
  ErrNew "runtime: GooseEngine needs OPENROUTER_API_KEY (set via the environment; see runtime/README.md)".

Definition goose_next (g : goose) : action goose :=
  match g with
  | GStart cfg spec exec =>
      if negb (nonempty (OpenRouterAPIKey cfg)) then ARet empty_result (Some ErrNoKey)
      else
        let p := exec (goose_prompt spec) (gooseEnv cfg spec) in
        match p_pipe p, p_start p with
        | Some e, _ => ARet empty_result (Some (ErrWrap "runtime: goose stdout: " e))
        | None, Some e =>
            ARet empty_result
              (Some (ErrWrap "runtime: start goose (is the binary installed?): " e))
        | None, None => ATau (GScan (p_lines p) EmptyString (p_wait p))
        end
  | GScan (line :: rest) last wait =>
      AEmit (event KindStatus line) (GScan rest (last +:+ line +:+ NL) wait)
  | GScan [] last (Some e) => ARet empty_result (Some (ErrWrap "runtime: goose run failed: " e))
  | GScan [] last None => ARet {| r_Output := TrimSpace last; r_AuditRef := EmptyString |} None
  end.

#[export] Instance goose_Engine : Engine goose := {| next := goose_next |}.

(** The text the engine has collected after some lines. *)
Definition collected (lines : list string) : string :=
  foldl (λ acc line, acc +:+ line +:+ NL) EmptyString lines.

Definition goose_result (p : Process) : Result * option error :=
  match p_wait p with
  | Some e => (empty_result, Some (ErrWrap "runtime: goose run failed: " e))
  | None => ({| r_Output := TrimSpace (collected (p_lines p)); r_AuditRef := EmptyString |}, None)
  end.

(** Steps of a task that is not cancelled: the service submits with
    context.Background(). *)
Definition live_steps (t t' : Task goose) : Prop :=
  ∃ c, c ≠ CCancel ∧ step c t = Some t'.

Section run.
Context (cfg : Config) (spec : RunSpec) (exec : Exec).

Abbreviation proc := (exec (goose_prompt spec) (gooseEnv cfg spec)).

(** What a started Goose run has sent at each point. *)
Definition goose_phase (t : Task goose) : Prop :=
  let statuses l := event KindStatus <$> l in
  match t_pc t with
  | PRun (GStart c s x) => c = cfg ∧ s = spec ∧ x = exec ∧ h_sent t = []
  | PRun (GScan rest last wait) =>
      wait = p_wait proc ∧ ∃ seen, p_lines proc = seen ++ rest ∧ last = collected seen ∧
        h_sent t = statuses seen
  | PWait _ _ _ => False
  | PFinal e =>
      t_result t = goose_result proc ∧ e = closing (t_result t) ∧
      h_sent t = statuses (p_lines proc)
  | PDone =>
      t_result t = goose_result proc ∧
      h_sent t = statuses (p_lines proc) ++ [closing (t_result t)]
  | _ =>
      t_result t = goose_result proc ∧
      h_sent t = statuses (p_lines proc) ++ [closing (t_result t); event KindDone EmptyString]
  end.

Definition goose_inv (t : Task goose) : Prop :=
  ctx_done t = false ∧ h_answers t = [] ∧ goose_phase t.

Hypothesis key_set : OpenRouterAPIKey cfg ≠ EmptyString.
Hypothesis pipe_ok : p_pipe proc = None.
Hypothesis start_ok : p_start proc = None.

Lemma send_goose_inv ev p (t t' : Task goose) :
  goose_inv t → send ev p t = Some t' → goose_phase t' → goose_inv t'.
Proof.
  intros (Hc & Ha & _) Hs Hp. unfold send in Hs. case_decide; [|done].
  injection Hs as <-. by split.
Qed.

Lemma run_step_goose_inv (t t' : Task goose) :
  goose_inv t → run_step t = Some t' → goose_inv t'.
Proof using All.
  intros HI Hs. pose proof HI as (Hc & Ha & Hp). unfold goose_phase in Hp.
  unfold run_step in Hs. destruct (t_pc t) as [g|tool id k|e| | | |] eqn:Hpc.
  - destruct g as [c s x|[|line rest] last wait]; simpl in Hs.
    + destruct Hp as (-> & -> & -> & Hsent).
      apply nonempty_true in key_set. rewrite key_set, pipe_ok, start_ok in Hs. simpl in Hs.
      injection Hs as <-. split; [done|]. split; [done|]. split; [done|].
      exists []. done.
    + destruct Hp as (-> & seen & Hl & -> & Hsent). rewrite app_nil_r in Hl.
      unfold goose_inv, goose_phase, goose_result.
      destruct (p_wait proc); injection Hs as <-; simpl; by rewrite Hl.
    + destruct Hp as (-> & seen & Hl & -> & Hsent).
      eapply send_goose_inv; [done..|].
      apply send_Some in Hs as (Hpc' & _ & _ & Hs & _). unfold goose_phase. rewrite Hpc', Hs.
      split; [done|]. exists (seen ++ [line]). rewrite Hl, Hsent, fmap_app, <-(assoc_L (++)).
      split; [done|]. split; [|done]. unfold collected. by rewrite foldl_app.
  - done.
  - destruct Hp as (Hres & -> & Hsent). eapply send_goose_inv; [done..|].
    apply send_Some in Hs as (Hpc' & _ & _ & Hs & _ & _ & _ & Hr & _).
    unfold goose_phase. by rewrite Hpc', Hs, Hr, Hsent.
  - destruct Hp as (Hres & Hsent). eapply send_goose_inv; [done..|].
    apply send_Some in Hs as (Hpc' & _ & _ & Hs & _ & _ & _ & Hr & _).
    unfold goose_phase. rewrite Hpc', Hs, Hr, Hsent. split; [done|]. by rewrite <-(assoc_L (++)).
  - by injection Hs as <-.
  - by injection Hs as <-.
  - done.
Qed.

Lemma live_steps_goose_inv (t t' : Task goose) :
  goose_inv t → live_steps t t' → goose_inv t'.
Proof using All.
  intros HI ([] & Hne & Hs); simpl in Hs; [| | | |done].
  - by eapply run_step_goose_inv.
  - unfold ctx_step in Hs. destruct HI as (Hc & _). by rewrite Hc in Hs.
  - unfold deliver in Hs. destruct (t_decisions t); [done|]. by injection Hs as <-.
  - unfold receive in Hs. destruct (t_events t); [done|]. by injection Hs as <-.
Qed.

Lemma goose_reachable t : rtc live_steps (SubmitTask (GStart cfg spec exec)) t → goose_inv t.
Proof using All. apply rtc_invariant; [apply live_steps_goose_inv|]. done. Qed.
End run.

(** A run of the Goose engine that is not cancelled reports each line the process
    prints, once and in order, and then its result: the trimmed output, or the error with
    which the process ended. It never asks for an approval. *)
Theorem goose_run cfg spec exec t :
  let p := exec (goose_prompt spec) (gooseEnv cfg spec) in
  OpenRouterAPIKey cfg ≠ EmptyString → p_pipe p = None → p_start p = None →
  rtc live_steps (SubmitTask (GStart cfg spec exec)) t →
  h_answers t = [] ∧
  (t_done t = true →
   t_result t = goose_result p ∧
   h_sent t = (event KindStatus <$> p_lines p) ++
              [closing (goose_result p); event KindDone EmptyString]).
Proof.
  intros p Hk Hp Hs Hr. pose proof (goose_reachable cfg spec exec Hk Hp Hs t Hr) as (_ & Ha & Hph).
  split; [done|]. intros Hd.
  assert (rtc steps (SubmitTask (GStart cfg spec exec)) t) as Hall.
  { eapply (rtc_subrel live_steps); [|done]. intros a b (c & _ & Hc). by exists c. }
  apply reachable_Inv, inv_phase in Hall. unfold phase in Hall. rewrite Hd in Hall.
  unfold goose_phase in Hph. destruct (t_pc t); try (by destruct Hall as (? & ? & ?));
    try (by destruct Hall as (? & ?)).
  destruct Hph as [Hres Hsent]. by rewrite Hsent, Hres.
Qed.

(** ** A concrete run *)

Definition sample_config : Config :=
  LoadConfig (λ k, if String.eqb k "OPENROUTER_API_KEY" then "key"%string else EmptyString).

Definition sample_spec : RunSpec :=
  {| Goal := "hi"; Instructions := EmptyString; rs_Model := "m"; rs_Identity := "U1";
     rs_Committee := "finance"; rs_Params := ∅ |}.

Definition sample_exec : Exec := λ prompt _,
  {| p_pipe := None; p_start := None; p_lines := [prompt; "bye"%string]; p_wait := None |}.

(** The goroutine runs to its end. *)
Definition sample_run : Task goose :=
  sched (replicate 9 CRun) (SubmitTask (GStart sample_config sample_spec sample_exec)).

Lemma live_reachable cs (t : Task goose) :
  Forall (λ c, c ≠ CCancel) cs → rtc live_steps t (sched cs t).
Proof.
  intros Hcs. revert t. induction Hcs as [|c cs Hc Hcs IH]; intros t; [done|].
  unfold sched. cbn [foldl]. destruct (step c t) as [t'|] eqn:Hs; [|apply IH].
  eapply rtc_l; [by exists c|]. apply IH.
Qed.

Lemma goose_run_witness :
  t_done sample_run = true ∧ r_Output (t_result sample_run).1 = ("hi" +:+ NL +:+ "bye")%string ∧
  h_sent sample_run = (event KindStatus <$> ["hi"; "bye"]%string) ++
    [closing (t_result sample_run); event KindDone EmptyString].
Proof.
  split; [reflexivity|].
  destruct (goose_run sample_config sample_spec sample_exec sample_run) as [_ Hdone].
  - discriminate.
  - reflexivity.
  - reflexivity.
  - apply live_reachable. by repeat constructor.
  - destruct (Hdone eq_refl) as [Hr Hs]. rewrite Hr. split; [reflexivity|exact Hs].
Defined.
