(* ===== verification/CLI.v ===== *)
(** * The runtime's command line (runtime/cmd/runtime/main.go)

    The program that runs one task in a terminal: the loop over the task's
    events, which denies every approval, next to the task's goroutine. The two
    move in any order; what the program prints and how it exits is part of the
    state. *)

From S2P Require Import Prelude GoText Path Json Http Recipe Task RuntimeServer Goose.
From Stdlib Require Import ZArith Lia Ascii.
From stdpp Require Import options.

Open Scope nat_scope.
Open Scope list_scope.

(** ** The program *)

(** Where [main] stands after the task has been submitted. *)
Inductive main_pc : Type :=
  | LRange                     (* at [range task.Events()] *)
  | LResolve (d : decision)    (* in ResolveApproval *)
  | LResult                    (* in Result *)
  | LExit (status : Z).

(** [c_out] is what has been printed on the standard output. *)
Record cli (E : Type) := MkCli { c_pc : main_pc; c_task : Task E; c_out : list string }.
Arguments MkCli {E} _ _ _.
Arguments c_pc {E} _.
Arguments c_task {E} _.
Arguments c_out {E} _.

Definition is_approval (e : Event) : bool := bool_decide (Kind e = KindApprovalRequired).

(** The line printed for an event. *)
Definition event_line (e : Event) : string :=
  if is_approval e
  then Sprintf "[approval-required] %s (%s) — denying in CLI; approve via Slack in production"
         [Fs (ev_Tool e); Fs (ApprovalID e)] +:+ NL
  else Sprintf "[%s] %s" [Fs (kind_text (Kind e)); Fs (Text e)] +:+ NL.

Definition denial (e : Event) : decision :=
  {| approvalID := ApprovalID e; granted := false; decidedBy := "cli" |}.

Definition output_lines (r : Result) : list string :=
  [NL +:+ "=== output ===" +:+ NL; r_Output r +:+ NL].

Section main.
Context {E : Type} `{Engine E}.
Implicit Types (c : cli E).

(** One round of the loop, up to the call of ResolveApproval. *)
Definition on_event (e : Event) (t : Task E) (out : list string) : cli E :=
  {| c_pc := if is_approval e then LResolve (denial e) else LRange;
     c_task := t; c_out := out ++ [event_line e] |}.

(** The end of [main], with the result. *)
Definition finish_main (r : Result * option error) c : cli E :=
  match r.2 with
  | Some _ => {| c_pc := LExit 1; c_task := c_task c; c_out := c_out c |}
  | None => {| c_pc := LExit 0; c_task := c_task c; c_out := c_out c ++ output_lines r.1 |}
  end.

(** The next step of [main]; None while it is blocked. *)
Definition main_step (prefer_done : bool) c : option (cli E) :=
  match c_pc c with
  | LRange =>
      match receive (c_task c) with
      | Some (e, t) => Some (on_event e t (c_out c))
      | None => if t_closed (c_task c)
                then Some {| c_pc := LResult; c_task := c_task c; c_out := c_out c |} else None
      end
  | LResolve d =>
      match ResolveApproval prefer_done d (c_task c) with
      | Delivered t => Some {| c_pc := LRange; c_task := t; c_out := c_out c |}
      | Finished => Some {| c_pc := LRange; c_task := c_task c; c_out := c_out c |}
      | Blocked => None
      end
  | LResult =>
      if t_done (c_task c) then Some (finish_main (t_result (c_task c)) c) else None
  | LExit _ => None
  end.

(** Who moves: the goroutine of the task or [main]. *)
Inductive mover : Type := Goroutine | Main (prefer_done : bool).

Definition cli_step (m : mover) c : option (cli E) :=
  match m with
  | Goroutine =>
      (λ t, {| c_pc := c_pc c; c_task := t; c_out := c_out c |}) <$> run_step (c_task c)
  | Main b => main_step b c
  end.

Definition cli_steps c c' : Prop := ∃ m, cli_step m c = Some c'.

Definition cli_sched (ms : list mover) c : cli E :=
  foldl (λ c m, default c (cli_step m c)) c ms.

Definition cli_start (e : E) : cli E :=
  {| c_pc := LRange; c_task := SubmitTask e; c_out := [] |}.
End main.

(** ** [main] *)

Inductive started (E : Type) : Type :=
  | Exits (status : Z) (message : string)
  | Panics
  | Runs (c : cli E).
Arguments Exits {E} _ _.
Arguments Panics {E}.
Arguments Runs {E} _.

Definition cli_main (Getenv : string → string) (files : Files) (exec : Exec)
    (args : list string) : started goose :=
  let cfg := LoadConfig Getenv in
  match parseArgs args with
  | Panic => Panics
  | ParseError e => Exits 2 ("error: " +:+ Error e)
  | Parsed req =>
      match buildSpec files (Recipe.New [WithModels (Models cfg); WithRecipesDir (RecipesDir cfg)]) req with
      | Err e => Exits 1 ("submit: " +:+ Error e)
      | Ok spec => Runs (cli_start (GStart cfg spec exec))
      end
  end.

(** ** Questions and refusals *)

(** What the engine has asked, as tool and approval. *)
Definition asked (l : list Event) : list (string * string) :=
  (λ e, (ev_Tool e, ApprovalID e)) <$> filter (λ e, is_approval e = true) l.

Definition refused (q : string * string) : string * string * bool := (q.1, q.2, false).

Lemma asked_app l k : asked (l ++ k) = asked l ++ asked k.
Proof. unfold asked. by rewrite filter_app, fmap_app. Qed.

Lemma asked_none e : Kind e ≠ KindApprovalRequired → asked [e] = [].
Proof.
  intros Hk. unfold asked, is_approval. rewrite filter_cons_False; [done|].
  by rewrite bool_decide_eq_false_2.
Qed.

Section denial.
Context {E : Type} `{Engine E}.
Implicit Types (c : cli E) (t : Task E).

(** The engine announces no approval by itself: an approval event comes from
    its calls of Approve only. *)
Hypothesis approvals_asked : ∀ (e : E) ev k, next e = AEmit ev k → Kind ev ≠ KindApprovalRequired.

Definition waiting t : list (string * string) :=
  match t_pc t with PWait tool id _ => [(tool, id)] | _ => [] end.

(** A step of the goroutine: it adds events without a question, or asks one and
    waits, or takes the decision it waits for. *)
Inductive run_kind t t' : Prop :=
  | RunSilent evs :
      asked evs = [] → waiting t = [] → waiting t' = [] →
      h_sent t' = h_sent t ++ evs → t_events t' = t_events t ++ evs →
      t_decisions t' = t_decisions t → h_answers t' = h_answers t → run_kind t t'
  | RunAsks tool id :
      waiting t = [] → waiting t' = [(tool, id)] →
      h_sent t' = h_sent t ++ [approval_event tool id] →
      t_events t' = t_events t ++ [approval_event tool id] →
      t_decisions t' = t_decisions t → h_answers t' = h_answers t → run_kind t t'
  | RunAnswered tool id k d :
      t_pc t = PWait tool id k → t_decisions t = Some d → t' = take_decision tool id k d t →
      run_kind t t'.

Lemma run_step_kind t t' : Inv t → run_step t = Some t' → run_kind t t'.
Proof using approvals_asked.
  intros [_ _ _ _ _ Hp]. unfold run_step, phase in *.
  destruct (t_pc t) as [e|tool id k|ev| | | |] eqn:Hpc.
  - destruct (next e) as [r err|ev k|tool id k|k] eqn:Hn.
    + intros [= <-]. apply (RunSilent _ _ []); unfold waiting; by rewrite ?app_nil_r, ?Hpc.
    + intros (Hpc' & _ & He & Hs & _ & Hd & _ & _ & _ & _ & Ha)%send_Some.
      apply (RunSilent _ _ [ev]); unfold waiting; rewrite ?Hpc, ?Hpc'; try done.
      apply asked_none. by eapply approvals_asked.
    + intros (Hpc' & _ & He & Hs & _ & Hd & _ & _ & _ & _ & Ha)%send_Some.
      apply (RunAsks _ _ tool id); unfold waiting; by rewrite ?Hpc, ?Hpc'.
    + intros [= <-]. apply (RunSilent _ _ []); unfold waiting; by rewrite ?app_nil_r, ?Hpc.
  - destruct (t_decisions t) as [d|] eqn:Hd; [|done]. intros [= <-]. by eapply RunAnswered.
  - intros (Hpc' & _ & He & Hs & _ & Hd & _ & _ & _ & _ & Ha)%send_Some.
    apply (RunSilent _ _ [ev]); unfold waiting; rewrite ?Hpc, ?Hpc'; try done.
    destruct Hp as (_ & _ & ->). apply asked_none. unfold closing. by destruct (t_result t).2.
  - intros (Hpc' & _ & He & Hs & _ & Hd & _ & _ & _ & _ & Ha)%send_Some.
    apply (RunSilent _ _ [event KindDone EmptyString]); unfold waiting; by rewrite ?Hpc, ?Hpc'.
  - intros [= <-]. apply (RunSilent _ _ []); unfold waiting; by rewrite ?app_nil_r, ?Hpc.
  - intros [= <-]. apply (RunSilent _ _ []); unfold waiting; by rewrite ?app_nil_r, ?Hpc.
  - done.
Qed.

(** After the stream has been closed only [done] is left to close. *)
Lemma run_step_closed t t' :
  Inv t → t_closed t = true → run_step t = Some t' →
  t_done t = false ∧ t' = close_done t.
Proof.
  intros [_ _ _ _ _ Hp] Hc. unfold run_step, phase in *.
  destruct (t_pc t); try (destruct Hp as (? & ?); congruence).
  intros [= <-]. by destruct Hp as (_ & ? & _).
Qed.

(** The approvals that are on their way: announced but not yet read, being
    resolved, and decided but not yet taken. *)
Definition resolving c : list string :=
  match c_pc c with LResolve d => [approvalID d] | _ => [] end.

Definition on_their_way c : list string :=
  from_option (λ d, [approvalID d]) [] (t_decisions (c_task c)) ++ resolving c ++
  (asked (t_events (c_task c))).*2.

(** What follows the lines of the events. *)
Definition tail c : list string :=
  match c_pc c, t_result (c_task c) with
  | LExit _, (r, None) => output_lines r
  | _, _ => []
  end.

(** Where [main] is says what the task has done. *)
Definition main_phase c : Prop :=
  match c_pc c with
  | LRange | LResolve _ => True
  | LResult => t_closed (c_task c) = true ∧ t_events (c_task c) = []
  | LExit st => t_closed (c_task c) = true ∧ t_events (c_task c) = [] ∧ t_done (c_task c) = true ∧
      st = match (t_result (c_task c)).2 with Some _ => 1%Z | None => 0%Z end
  end.

Record cli_inv c : Prop := {
  ci_task : Inv (c_task c);
  ci_denied : Forall (λ d, granted d = false) (h_delivered (c_task c));
  ci_resolving : ∀ d, c_pc c = LResolve d → granted d = false;
  ci_way : on_their_way c = (waiting (c_task c)).*2;
  ci_asked : refused <$> asked (h_sent (c_task c)) =
    h_answers (c_task c) ++ (refused <$> waiting (c_task c));
  ci_out : c_out c = (event_line <$> h_received (c_task c)) ++ tail c;
  ci_phase : main_phase c;
}.

Lemma cli_start_inv e : cli_inv (cli_start e).
Proof. split; try done. apply SubmitTask_Inv. Qed.

Lemma take_decision_own tool id k d t :
  approvalID d = id → 
  t_pc (take_decision tool id k d t) = PRun (k (Ok (granted d))) ∧
  h_answers (take_decision tool id k d t) = h_answers t ++ [(tool, id, granted d)].
Proof.
  intros <-. unfold take_decision. simpl. by rewrite String.eqb_refl, andb_false_r.
Qed.

Lemma goroutine_inv c t :
  cli_inv c → run_step (c_task c) = Some t →
  cli_inv {| c_pc := c_pc c; c_task := t; c_out := c_out c |}.
Proof using approvals_asked.
  intros [HI Hden Hres Hway Hask Hout Hph] Hr.
  pose proof (run_step_received _ _ Hr) as Hrec. pose proof (run_step_Inv _ _ HI Hr) as HI'.
  pose proof (run_step_kind _ _ HI Hr) as Hk.
  pose proof (run_step_delivered _ _ Hr) as Hdel.
  assert (tail {| c_pc := c_pc c; c_task := t; c_out := c_out c |} = tail c ∧
    main_phase {| c_pc := c_pc c; c_task := t; c_out := c_out c |}) as [Htail Hph'].
  { unfold tail, main_phase in *. simpl. destruct (c_pc c); try done.
    - destruct Hph as [Hc He]. destruct (run_step_closed _ _ HI Hc Hr) as [_ ->]. done.
    - destruct Hph as (Hc & _ & Hd & _). destruct (run_step_closed _ _ HI Hc Hr). congruence. }
  split; cbn [c_task c_pc c_out]; try done; rewrite ?Hdel, ?Hrec, ?Htail; try done.
  - unfold on_their_way in *. cbn [c_task]. change (resolving _) with (resolving c).
    destruct Hk as [evs Hev Hw Hw' _ He Hd _|tool id Hw Hw' _ He Hd _|tool id k d Hpc Hd ->].
    + rewrite He, Hd, Hw', asked_app, Hev, app_nil_r. by rewrite Hway, Hw.
    + rewrite He, Hd, Hw', asked_app, fmap_app, !(assoc_L (++)), <-(assoc_L (++) _ (resolving c)).
      by rewrite Hway, Hw.
    + rewrite Hd in Hway. unfold waiting in Hway. rewrite Hpc in Hway. injection Hway as Hid Hway.
      unfold waiting. rewrite (proj1 (take_decision_own tool id k d _ Hid)). exact Hway.
  - destruct Hk as [evs Hev Hw Hw' Hs _ _ Ha|tool id Hw Hw' Hs _ _ Ha|tool id k d Hpc Hd ->].
    + rewrite Hs, Ha, Hw', asked_app, Hev, app_nil_r, Hask. by rewrite Hw.
    + rewrite Hs, Ha, Hw', asked_app, fmap_app, Hask, Hw. by rewrite app_nil_r.
    + unfold on_their_way, waiting in *. rewrite Hd, Hpc in *. injection Hway as Hid _.
      destruct (take_decision_own tool id k d (c_task c) Hid) as [-> ->].
      assert (granted d = false) as ->.
      { destruct HI. rewrite Forall_forall in Hden. by apply Hden, inv_buffer. }
      simpl. by rewrite app_nil_r, Hask.
Qed.

Lemma main_inv b c c' : cli_inv c → main_step b c = Some c' → cli_inv c'.
Proof using approvals_asked.
  intros [HI Hden Hres Hway Hask Hout Hph]. unfold main_step.
  destruct c as [p t out]. cbn [c_pc c_task c_out] in *. destruct p as [|d| |st]; [..|done].
  - destruct (receive t) as [[e t1]|] eqn:Hr.
    + intros [= <-]. pose proof (receive_Inv e t t1 HI Hr) as HI1.
      unfold receive in Hr. destruct (t_events t) as [|e' q] eqn:He; [done|].
      injection Hr as -> <-. unfold on_event, is_approval. 
      unfold on_their_way, resolving, asked, is_approval, tail in *. cbn [c_pc c_task c_out t_events t_decisions] in *.
      rewrite He, filter_cons in Hway.
      case_bool_decide as Hk; (split; cbn [c_pc c_task c_out]; try done).
      * by intros d [= <-].
      * cbn [h_received tail c_pc]. by rewrite Hout, fmap_app, !app_nil_r.
      * cbn [h_received tail c_pc]. by rewrite Hout, fmap_app, !app_nil_r.
    + destruct (t_closed t) eqn:Hc; [|done]. intros [= <-]. split; try done.
      split; [done|]. simpl. unfold receive in Hr. by destruct (t_events t).
  - assert (t_done t = false) as Hd.
    { apply not_true_iff_false. intros Hd. destruct HI as [_ _ _ _ _ Hp].
      unfold phase, waiting, on_their_way in *. rewrite Hd in Hp. cbn [c_task] in Hway.
      destruct (t_pc t), (t_decisions t); naive_solver. }
    unfold ResolveApproval. rewrite Hd. cbn [andb].
    destruct (deliver d t) as [t1|] eqn:Hdel; [|done]. intros [= <-].
    pose proof (deliver_Inv d t t1 HI Hdel) as HI1. unfold deliver in Hdel.
    destruct (t_decisions t) eqn:Hdec; [done|]. injection Hdel as <-.
    unfold on_their_way, resolving, tail in *. cbn [c_pc c_task c_out] in *. rewrite Hdec in Hway.
    split; try done. apply Forall_app. split; [done|]. constructor; [by apply Hres|done].
  - destruct Hph as [Hc He]. destruct (t_done t) eqn:Hd; [|done]. intros [= <-].
    unfold finish_main. destruct (t_result t) as [r [e|]] eqn:Hr; cbn [fst snd]; split; try done.
    all: unfold tail, main_phase in *; cbn [c_pc c_task c_out] in *; rewrite ?Hr.
    all: try done.
    by rewrite Hout, app_nil_r.
Qed.

Lemma cli_steps_inv c c' : cli_inv c → cli_steps c c' → cli_inv c'.
Proof using approvals_asked.
  intros HI [[|b] Hs]; simpl in Hs; [|by eapply main_inv].
  destruct (run_step (c_task c)) as [t|] eqn:Hr; [|done]. injection Hs as <-. by apply goroutine_inv.
Qed.

Lemma cli_reachable_inv e c : rtc cli_steps (cli_start e) c → cli_inv c.
Proof using approvals_asked. apply rtc_invariant; [apply cli_steps_inv|apply cli_start_inv]. Qed.

(** Somebody can move until [main] has ended. *)
Lemma cli_progress c : cli_inv c → (∀ st, c_pc c ≠ LExit st) → ∃ c', cli_steps c c'.
Proof using approvals_asked.
  intros [HI _ _ Hway _ _ Hph] Hne.
  assert (∀ t, run_step (c_task c) = Some t → ∃ c', cli_steps c c') as Hrun.
  { intros t Hr. eexists. exists Goroutine. simpl. by rewrite Hr. }
  assert (∀ b c', main_step b c = Some c' → ∃ c', cli_steps c c') as Hmain.
  { intros b c' Hm. exists c'. by exists (Main b). }
  destruct (c_pc c) as [|d| |st] eqn:Hpc; [..|by destruct (Hne st)].
  - destruct (receive (c_task c)) as [[e t]|] eqn:Hr.
    { eapply (Hmain true). unfold main_step. by rewrite Hpc, Hr. }
    assert (t_events (c_task c) = []) as He
      by (unfold receive in Hr; by destruct (t_events (c_task c))).
    assert (∀ ev p, is_Some (send ev p (c_task c))) as Hsend.
    { intros ev p. unfold send, events_cap. rewrite He. simpl. by eauto. }
    destruct (run_step (c_task c)) as [t|] eqn:Hrs; [by eapply Hrun|].
    unfold on_their_way, resolving, waiting in Hway. rewrite Hpc, He in Hway.
    destruct HI as [_ _ _ _ _ Hp]. unfold run_step, phase in *.
    destruct (t_pc (c_task c)) as [e|tool id k|ev| | | |].
    + destruct (next e) as [r err|ev k|tool id k|k]; try done.
      * by destruct (Hsend ev (PRun k)) as [? ?%eq_sym]; congruence.
      * by destruct (Hsend (approval_event tool id) (PWait tool id k)) as [? ?]; congruence.
    + by destruct (t_decisions (c_task c)).
    + destruct (Hsend ev PDone); congruence.
    + destruct (Hsend (event KindDone EmptyString) PCloseEvents); congruence.
    + done.
    + done.
    + eapply (Hmain true). unfold main_step. rewrite Hpc, Hr. by destruct Hp as [-> _].
  - unfold on_their_way, resolving in Hway. rewrite Hpc in Hway.
    destruct (t_decisions (c_task c)) as [d'|] eqn:Hd.
    { unfold waiting in Hway. by destruct (t_pc (c_task c)). }
    eapply (Hmain false). unfold main_step. rewrite Hpc. unfold ResolveApproval, deliver.
    by rewrite andb_false_r, Hd.
  - unfold main_phase in Hph. rewrite Hpc in Hph. destruct Hph as [Hc _].
    destruct (t_done (c_task c)) eqn:Hd.
    { eapply (Hmain true). unfold main_step. by rewrite Hpc, Hd. }
    destruct HI as [_ _ _ _ _ Hp]. unfold phase in Hp. rewrite Hc, Hd in Hp.
    destruct (t_pc (c_task c)) eqn:Ht; try (by destruct Hp as (? & ?)).
    + eapply Hrun. unfold run_step. by rewrite Ht.
    + by destruct Hp as (_ & ? & _).
Qed.

(** ** The property *)

(** C20: The command line runs to its end under every interleaving of main and the task's
    goroutine: until it exits something can move; it never grants an approval; and when it
    exits it has denied every approval the engine asked for, in order, has printed every
    event and then the output, and its status is 1 exactly when the task ended with an
    error. *)
Theorem cli_denies e c :
  rtc cli_steps (cli_start e) c →
  (∀ a, a ∈ h_answers (c_task c) → a.2 = false) ∧
  match c_pc c with
  | LExit st =>
      h_answers (c_task c) = refused <$> asked (h_sent (c_task c)) ∧
      c_out c = (event_line <$> h_sent (c_task c)) ++ tail c ∧
      st = match (t_result (c_task c)).2 with Some _ => 1%Z | None => 0%Z end
  | _ => ∃ c', cli_steps c c'
  end.
Proof using approvals_asked.
  intros Hr. apply cli_reachable_inv in Hr as HI. split.
  - intros a Ha. destruct HI as [_ _ _ _ Hask _ _].
    assert (a ∈ refused <$> asked (h_sent (c_task c))) as Hin
      by (rewrite Hask; apply elem_of_app; by left).
    by apply list_elem_of_fmap in Hin as (q & -> & _).
  - destruct (c_pc c) as [|d| |st] eqn:Hpc; [by apply cli_progress; [|intros st; rewrite Hpc]..|].
    destruct HI as [HT _ _ _ Hask Hout Hph]. unfold main_phase in Hph. rewrite Hpc in Hph.
    destruct Hph as (_ & He & Hd & ->). destruct HT as [Hf _ _ _ _ Hp].
    assert (waiting (c_task c) = []) as Hw.
    { unfold phase, waiting in *. rewrite Hd in Hp. destruct (t_pc (c_task c)); naive_solver. }
    rewrite Hw, app_nil_r in Hask. rewrite He, app_nil_r in Hf. split; [done|]. split; [by rewrite Hf|done].
Qed.
End denial.

(** Goose asks for nothing by itself. *)
Lemma goose_asks_nothing (g : goose) ev k : next g = AEmit ev k → Kind ev ≠ KindApprovalRequired.
Proof.
  simpl. destruct g as [cfg spec exec|[|line rest] last [w|]]; simpl; try done.
  - repeat case_match; done.
  - by intros [= <- _].
  - by intros [= <- _].
Qed.

(** ** A run *)

#[local] Existing Instance asking_Engine.

Lemma asking_asks_nothing (e : asking) ev k : next e = AEmit ev k → Kind ev ≠ KindApprovalRequired.
Proof. by destruct e. Qed.

(** The engine asks once, the program refuses, and the task ends. *)
Definition sample_cli : cli asking :=
  cli_sched [Goroutine; Main true; Main true; Goroutine; Goroutine; Goroutine; Goroutine;
             Goroutine; Goroutine; Main true; Main true; Main true; Main true] (cli_start Ask).

Lemma cli_sched_reachable {E} `{Engine E} ms (c : cli E) : rtc cli_steps c (cli_sched ms c).
Proof.
  revert c. induction ms as [|m ms IH]; intros c; [done|]. unfold cli_sched. cbn [foldl].
  destruct (cli_step m c) as [c'|] eqn:Hs; [|apply IH].
  eapply rtc_l; [by exists m|]. apply IH.
Qed.

Lemma cli_denies_witness :
  c_pc sample_cli = LExit 0 ∧
  h_answers (c_task sample_cli) = [("send", "a1", false)]%string ∧
  ∀ a, a ∈ h_answers (c_task sample_cli) → a.2 = false.
Proof.
  split; [vm_compute; reflexivity|]. split; [vm_compute; reflexivity|].
  apply (cli_denies asking_asks_nothing Ask). apply cli_sched_reachable.
Defined.
