(* ===== verification/RuntimeClient.v ===== *)
(** * Clients of the runtime service

    The three clients of the runtime's HTTP API: those of the Slack gateway
    (services/slack-gateway/internal/runtimeclient), of the scheduler and of
    the dashboard. [Transport] is what they ask of [http.Client]; the last part
    connects them to the service of RuntimeServer.v. *)

From S2P Require Import Prelude GoText Float64 Json Http Recipe Task RuntimeServer Path.
From Stdlib Require Import ZArith Lia Ascii.
From stdpp Require Import options.

Open Scope Z_scope.
Open Scope list_scope.

(** ** The transport *)

(** A request before its URL is taken apart. *)
Record Outgoing := MkOutgoing {
  o_method : string;
  o_url : string;
  o_header : gmap string string;
  o_body : RawMessage;
}.

(** [http.NewRequestWithContext] and [http.Client.Do]; the answer's body is
    read to its end. *)
Class Transport (T : Type) := {
  http_Do : Outgoing → T → result Response * T;
}.

Record Client := NewClient { baseURL : string; cl_token : string }.

Definition Client_Configured (c : Client) : bool := nonempty (baseURL c).

Definition ErrNotConfigured : error := ErrNew "runtime not configured".

(** What json.Decoder answers for a body that does not fit. *)
Definition ErrDecode : error := ErrNew "json: cannot decode".

Definition outgoing (c : Client) (m p : string) (b : RawMessage) : Outgoing :=
  {| o_method := m; o_url := baseURL c +:+ p;
     o_header := (if nonempty (cl_token c)
                  then <["authorization" := "Bearer " +:+ cl_token c]> else id)
                 {["content-type" := "application/json"]};
     o_body := b |}%string.

(** ** The Slack gateway's client *)

Record SubmitBody := MkSubmitBody {
  sb_InlineGoal : string;
  sb_RecipeID : string;
  sb_Identity : string;
  sb_Committee : string;
  sb_HardTask : bool;
}.

Definition json_SubmitBody (b : SubmitBody) : json :=
  JObj (omit "inline_goal" (sb_InlineGoal b) ++ omit "recipe_id" (sb_RecipeID b) ++
        omit "identity" (sb_Identity b) ++ omit "committee" (sb_Committee b) ++
        (if sb_HardTask b then [("hard_task"%string, JBool true)] else [])).

(** The task view of the runtime, as the client sees it. The events and
    approvals are those of the runtime; a kind is its text. *)
Record ClientEvent := MkClientEvent {
  ce_Kind : string;
  ce_Text : string;
  ce_Tool : string;
  ce_ApprovalID : string;
}.

Record Snapshot := MkClientSnapshot {
  Status : string;
  Events : list ClientEvent;
  Pending : option pendingApproval;
  Snapshot_Result : option Result;
}.

Definition decode_ClientEvent (fs : list (string * json)) : option ClientEvent :=
  k ← decode_field conv_string EmptyString "kind" fs;
  t ← decode_field conv_string EmptyString "text" fs;
  tool ← decode_field conv_string EmptyString "tool" fs;
  a ← decode_field conv_string EmptyString "approval_id" fs;
  Some {| ce_Kind := k; ce_Text := t; ce_Tool := tool; ce_ApprovalID := a |}.

Definition decode_Pending (fs : list (string * json)) : option pendingApproval :=
  t ← decode_field conv_string EmptyString "tool" fs;
  a ← decode_field conv_string EmptyString "approval_id" fs;
  Some {| pa_Tool := t; pa_ApprovalID := a |}.

Definition decode_Result (fs : list (string * json)) : option Result :=
  o ← decode_field conv_string EmptyString "output" fs;
  a ← decode_field conv_string EmptyString "audit_ref" fs;
  Some {| r_Output := o; r_AuditRef := a |}.

(** A struct inside another value: null is the zero value. *)
Definition conv_struct {A} (fields : list (string * json) → option A) (j : json) : option A :=
  match j with JObj fs => fields fs | JNull => fields [] | _ => None end.

Definition conv_slice {A} (conv : json → option A) (j : json) : option (list A) :=
  match j with JArr l => mapM conv l | _ => None end.

(** A pointer to a struct; the field is nil when null or absent. *)
Definition conv_pointer {A} (fields : list (string * json) → option A) (j : json) :
    option (option A) :=
  match j with JObj fs => Some <$> fields fs | _ => None end.

Definition decode_Snapshot (fs : list (string * json)) : option Snapshot :=
  s ← decode_field conv_string EmptyString "status" fs;
  e ← decode_field (conv_slice (conv_struct decode_ClientEvent)) [] "events" fs;
  p ← decode_field (conv_pointer decode_Pending) None "pending_approval" fs;
  r ← decode_field (conv_pointer decode_Result) None "result" fs;
  Some {| Status := s; Events := e; Pending := p; Snapshot_Result := r |}.

(** The answer of POST /tasks: the task's id and an error text. *)
Definition decode_submitted (fs : list (string * json)) : option (string * string) :=
  i ← decode_field conv_string EmptyString "task_id" fs;
  e ← decode_field conv_string EmptyString "error" fs;
  Some (i, e).

Definition json_approve (approvalID : string) (granted : bool) (by_ : string) : json :=
  JObj [("approval_id", JStr approvalID); ("decided_by", JStr by_); ("granted", JBool granted)]%string.

Section client.
Context {T : Type} `{Transport T} (c : Client).

(** [do]: the body of an answer below 300. *)
Definition client_do (m p : string) (b : RawMessage) : M T (result RawMessage) :=
  if Client_Configured c then
    r ← (http_Do (outgoing c m p b) : M T _);
    mret (match r with
          | Err e => Err e
          | Ok resp => if 300 <=? code resp
                       then Err (Errorf "runtime: status %d" [Fd (code resp)])
                       else Ok (payload resp)
          end)
  else mret (Err ErrNotConfigured).

(** ... and decoding it into [out]. *)
Definition decode_out {A} (fields : list (string * json) → option A) (r : result RawMessage) :
    result A :=
  match r with
  | Err e => Err e
  | Ok b => match decode_body fields b with Some a => Ok a | None => Err ErrDecode end
  end.

Definition client_Submit (body : SubmitBody) : M T (result string) :=
  r ← client_do "POST" "/tasks" (RawJSON (json_SubmitBody body));
  mret (match decode_out decode_submitted r with
        | Err e => Err e
        | Ok (i, e) => if nonempty i then Ok i else Err (Errorf "runtime: %s" [Fs e])
        end).

Definition client_Get (taskID : string) : M T (result Snapshot) :=
  r ← client_do "GET" ("/tasks/" +:+ taskID) RawEmpty;
  mret (decode_out decode_Snapshot r).

Definition client_Approve (taskID approvalID : string) (granted : bool) (by_ : string) :
    M T (option error) :=
  r ← client_do "POST" ("/tasks/" +:+ taskID +:+ "/approve")
        (RawJSON (json_approve approvalID granted by_));
  mret (match r with Ok _ => None | Err e => Some e end).

(** ** The scheduler's client *)

Definition json_params (ps : gmap string string) : json := JObj (map_fields (JStr <$> ps)).

Definition sched_Submit (recipeID committee : string) (params : option (gmap string string)) :
    M T (result string) :=
  if Client_Configured c then
    r ← (http_Do (outgoing c "POST" "/tasks"
          (RawJSON (JObj [("committee", JStr committee);
                          ("params", from_option json_params JNull params);
                          ("recipe_id", JStr recipeID)]%string))) : M T _);
    mret (match r with
          | Err e => Err e
          | Ok resp =>
              if 300 <=? code resp then Err (Errorf "runtime: status %d" [Fd (code resp)])
              else match decode_body (decode_field conv_string EmptyString "task_id") (payload resp) with
                   | Some i => Ok i
                   | None => Err ErrDecode
                   end
          end)
  else mret (Err ErrNotConfigured).

(** ** The dashboard's client: status and body as they come *)

Definition dash_Do (m p : string) (body : RawMessage) : M T (result Response) :=
  if Client_Configured c then http_Do (outgoing c m p body) else mret (Err ErrNotConfigured).
End client.

(** ** The client and the service agree on the task view *)

Definition view_Event (e : Event) : ClientEvent :=
  {| ce_Kind := kind_text (Kind e); ce_Text := Text e; ce_Tool := ev_Tool e;
     ce_ApprovalID := ApprovalID e |}.

Definition view (s : snapshot) : Snapshot :=
  {| Status := sn_Status s; Events := view_Event <$> sn_Events s; Pending := sn_Pending s;
     Snapshot_Result := sn_Result s |}.

Lemma omit_cases k v : (v = EmptyString ∧ omit k v = []) ∨ omit k v = [(k, JStr v)].
Proof.
  unfold omit. destruct (nonempty v) eqn:Hv; [by right|left].
  by apply nonempty_false in Hv as ->.
Qed.

(** Takes apart the optional fields of an encoded struct. *)
Ltac omit_fields :=
  repeat match goal with
  | |- context [omit ?k ?v] =>
      let H := fresh in
      destruct (omit_cases k v) as [[H ->]| ->]; [rewrite ?H; clear H|]
  end.

Lemma decode_json_Event e : conv_struct decode_ClientEvent (json_Event e) = Some (view_Event e).
Proof.
  destruct e as [k t tool a]. unfold json_Event, view_Event. cbn [Kind Text ev_Tool ApprovalID].
  omit_fields; reflexivity.
Qed.

Lemma decode_json_Events es :
  conv_slice (conv_struct decode_ClientEvent) (JArr (json_Event <$> es)) = Some (view_Event <$> es).
Proof.
  cbn [conv_slice]. induction es as [|e es IH]; [done|]. rewrite fmap_cons. cbn [mapM].
  rewrite decode_json_Event. cbn. by rewrite IH.
Qed.

Lemma decode_json_Result r :
  conv_pointer decode_Result
    (JObj ([("output"%string, JStr (r_Output r))] ++ omit "audit_ref" (r_AuditRef r))) =
  Some (Some r).
Proof. destruct r as [o a]. cbn [r_Output r_AuditRef]. omit_fields; reflexivity. Qed.

Lemma decode_json_snapshot s :
  decode_body decode_Snapshot (RawJSON (json_snapshot s)) = Some (view s).
Proof.
  destruct s as [st es p r err]. unfold json_snapshot, view.
  cbn [sn_Status sn_Events sn_Pending sn_Result sn_Error].
  pose proof (decode_json_Events es) as He. unfold decode_body, decode_Snapshot.
  generalize dependent (json_Event <$> es). intros l He.
  remember (conv_slice (conv_struct decode_ClientEvent)) as dec eqn:Hdec. clear Hdec.
  destruct r as [r|].
  1: pose proof (decode_json_Result r) as Hr.
  1: remember (conv_pointer decode_Result) as decr eqn:Hdecr; clear Hdecr.
  1: destruct (_ ++ omit "audit_ref" _) as [|f fs].
  all: destruct p as [[tool aid]|]; omit_fields.
  all: unfold decode_field, decode_step; simpl; rewrite He; try rewrite Hr; reflexivity.
Qed.

(** ** The service at the other end *)

(** The runtime service with the ids that newID will draw. *)
Record Service (E : Type) := MkService {
  sv_mgr : Manager (E:=E);
  sv_ids : nat → string;
  sv_next : nat;
}.
Arguments MkService {E} _ _ _.
Arguments sv_mgr {E} _.
Arguments sv_ids {E} _ _.
Arguments sv_next {E} _.

(** The segments of a URL's path below the base. *)
Definition url_path (p : string) : list string :=
  match Split SEP p with
  | EmptyString :: l => l
  | l => l
  end.

Definition incoming (base : string) (o : Outgoing) : Request :=
  {| method := o_method o; path := url_path (TrimPrefix (o_url o) base); query := ∅;
     header := o_header o; cookies := ∅; body := o_body o |}.

Section service.
Context {E : Type} `{Engine E} (base token : string) (prefer_done : bool).

(** The service at [base] answers; a handler that hangs is a timeout. *)
#[local] Instance service_Transport : Transport (Service E) := {
  http_Do o sv :=
    if HasPrefix (o_url o) base then
      match rt_Handler token (sv_ids sv (sv_next sv)) prefer_done (incoming base o) (sv_mgr sv) with
      | Some (resp, m) =>
          (Ok resp, {| sv_mgr := m; sv_ids := sv_ids sv; sv_next := S (sv_next sv) |})
      | None => (Err (ErrNew "context deadline exceeded"), sv)
      end
    else (Err (ErrNew "no such host"), sv);
}.

Implicit Types (sv : Service E).

Abbreviation the_client := {| baseURL := base; cl_token := token |}.

(** A task id as newID draws it: hexadecimal digits. *)
Definition plain_id (id : string) : Prop :=
  id ≠ EmptyString ∧ string_forall (λ ch, negb (Ascii.eqb ch SEP) && negb (Ascii.eqb ch ":"%char)) id = true.

Lemma plain_id_sep id :
  plain_id id → Split SEP id = [id] ∧ string_forall (λ ch, negb (Ascii.eqb ch ":"%char)) id = true.
Proof.
  intros [_ Hs]. assert (∀ p q : ascii → bool, string_forall (λ ch, p ch && q ch) id = true →
    string_forall p id = true ∧ string_forall q id = true) as Hand.
  { clear. intros p q. induction id as [|a s IH]; [done|]. simpl.
    rewrite !andb_true_iff. intros [[??] ?]. naive_solver. }
  apply Hand in Hs as [H1 H2]. split; [|done]. by apply Split_id.
Qed.

Lemma incoming_path m p b :
  base ≠ EmptyString →
  HasPrefix (o_url (outgoing the_client m p b)) base = true ∧
  path (incoming base (outgoing the_client m p b)) = url_path p.
Proof.
  intros Hb. unfold incoming, outgoing. cbn [o_url path baseURL]. split.
  - apply HasPrefix_true. by exists p.
  - by rewrite TrimPrefix_append.
Qed.

Lemma incoming_bearer m p b :
  token ≠ EmptyString → bearer_ok token (incoming base (outgoing the_client m p b)) = true.
Proof.
  intros Ht. apply bearer_ok_true. split; [done|].
  unfold incoming, outgoing, Header_Get. cbn [header o_header cl_token].
  apply nonempty_true in Ht. by rewrite Ht.
Qed.

Lemma approve_path id : plain_id id →
  url_path ("/tasks/" +:+ id +:+ "/approve") = ["tasks"; id; "approve"]%string.
Proof.
  intros [Hs _]%plain_id_sep. unfold url_path.
  change ("/tasks/" +:+ id +:+ "/approve")%string with
    (String SEP ("tasks" +:+ String SEP (id +:+ String SEP "approve")))%string.
  cbn [Split]. rewrite Ascii.eqb_refl.
  by rewrite (Split_app SEP "tasks"), Split_app, Hs.
Qed.

Lemma task_path id : plain_id id → url_path ("/tasks/" +:+ id) = ["tasks"; id]%string.
Proof.
  intros [Hs _]%plain_id_sep. unfold url_path.
  change ("/tasks/" +:+ id)%string with (String SEP ("tasks" +:+ String SEP id))%string.
  cbn [Split]. rewrite Ascii.eqb_refl. by rewrite (Split_app SEP "tasks"), Hs.
Qed.

Lemma route_approve nid id :
  id ≠ EmptyString →
  ServeMux (rt_routes (E:=E) token nid prefer_done) "POST" ["tasks"; id; "approve"]%string =
  Handled (rt_auth token (λ r vars m, handleApprove prefer_done (PathValue vars "id") r m))
    {["id"%string := id]}.
Proof. intros Hne%nonempty_true. cbn. by rewrite Hne. Qed.

Lemma route_get nid id :
  id ≠ EmptyString →
  ServeMux (rt_routes (E:=E) token nid prefer_done) "GET" ["tasks"; id]%string =
  Handled (rt_auth token (λ _ vars m, Some (handleGet (PathValue vars "id") m, m)))
    {["id"%string := id]}.
Proof. intros Hne%nonempty_true. cbn. by rewrite Hne. Qed.

Lemma PathValue_id id : PathValue {["id"%string := id]} "id" = id.
Proof. unfold PathValue. by rewrite lookup_singleton_eq. Qed.

(** A decision sent through the client reaches the task it names. *)
Lemma client_Approve_delivers id aid ok who sv ts t :
  base ≠ EmptyString → token ≠ EmptyString → plain_id id →
  tasks (sv_mgr sv) !! id = Some ts → t_done (ts_task ts) = false →
  deliver {| approvalID := aid; granted := ok; decidedBy := who |} (ts_task ts) = Some t →
  client_Approve the_client id aid ok who sv =
    (None, {| sv_mgr := set_task id (mark_resolved (begin_resolve t ts)) (sv_mgr sv);
              sv_ids := sv_ids sv; sv_next := S (sv_next sv) |}).
Proof using All.
  intros Hb Ht Hid Hts Hdone Hd. unfold client_Approve, client_do, Client_Configured.
  cbn [baseURL]. apply nonempty_true in Hb as Hb'. rewrite Hb'.
  unfold mbind, M_bind. set (o := outgoing _ _ _ _). cbn [http_Do service_Transport].
  destruct (incoming_path "POST" ("/tasks/" +:+ id +:+ "/approve")
    (RawJSON (json_approve aid ok who)) Hb) as [Hpre Hpath]. fold o in Hpre, Hpath.
  rewrite Hpre. unfold rt_Handler. rewrite Hpath, approve_path by done.
  pose proof (incoming_bearer "POST" ("/tasks/" +:+ id +:+ "/approve")
    (RawJSON (json_approve aid ok who)) Ht) as Hbear. fold o in Hbear.
  assert (method (incoming base o) = "POST"%string) as -> by done.
  assert (body (incoming base o) = RawJSON (json_approve aid ok who)) as Hbody by done.
  rewrite route_approve by apply Hid. unfold rt_auth. rewrite Hbear. unfold handleApprove, RuntimeServer.get.
  rewrite PathValue_id. rewrite Hts, Hbody. cbn [decode_body json_approve].
  change (decode_approveBody _) with (Some {| approvalID := aid; granted := ok; decidedBy := who |}).
  cbv beta iota. unfold ResolveApproval. rewrite Hdone. cbn [andb]. rewrite Hd. reflexivity.
Qed.
(** What the client reads is what the service serves. *)
Lemma client_Get_serves id sv ts :
  base ≠ EmptyString → token ≠ EmptyString → plain_id id →
  tasks (sv_mgr sv) !! id = Some ts →
  client_Get the_client id sv =
    (Ok (view (take_snapshot ts)),
     {| sv_mgr := sv_mgr sv; sv_ids := sv_ids sv; sv_next := S (sv_next sv) |}).
Proof using All.
  intros Hb Ht Hid Hts. unfold client_Get, client_do, Client_Configured.
  cbn [baseURL]. apply nonempty_true in Hb as Hb'. rewrite Hb'.
  unfold mbind, M_bind. set (o := outgoing _ _ _ _). cbn [http_Do service_Transport].
  destruct (incoming_path "GET" ("/tasks/" +:+ id) RawEmpty Hb) as [Hpre Hpath].
  fold o in Hpre, Hpath. rewrite Hpre. unfold rt_Handler. rewrite Hpath, task_path by done.
  pose proof (incoming_bearer "GET" ("/tasks/" +:+ id) RawEmpty Ht) as Hbear. fold o in Hbear.
  assert (method (incoming base o) = "GET"%string) as -> by done.
  rewrite route_get by apply Hid. unfold rt_auth. rewrite Hbear. unfold handleGet, RuntimeServer.get.
  rewrite PathValue_id, Hts. cbn [code writeJSON payload]. unfold mret, M_ret.
  change (300 <=? StatusOK) with false. cbv beta iota. unfold decode_out.
  by rewrite decode_json_snapshot.
Qed.

(** A submitted goal becomes a task under the next id. *)
Lemma client_Submit_starts goal who sv :
  base ≠ EmptyString → token ≠ EmptyString → goal ≠ EmptyString →
  sv_ids sv (sv_next sv) ≠ EmptyString →
  let req := {| RecipeID := EmptyString; InlineGoal := goal; Params := ∅; tr_Identity := who;
                Committee := EmptyString; HardTask := false |} in
  let body := {| sb_InlineGoal := goal; sb_RecipeID := EmptyString; sb_Identity := who;
                 sb_Committee := EmptyString; sb_HardTask := false |} in
  ∃ spec, buildSpec (m_files (sv_mgr sv)) (m_rt (sv_mgr sv)) req = Ok spec ∧
  client_Submit the_client body sv =
    (Ok (sv_ids sv (sv_next sv)),
     {| sv_mgr := set_task (sv_ids sv (sv_next sv)) (new_task (m_run (sv_mgr sv) spec)) (sv_mgr sv);
        sv_ids := sv_ids sv; sv_next := S (sv_next sv) |}).
Proof using All.
  intros Hb Ht Hg Hid req b.
  assert (∃ spec, buildSpec (m_files (sv_mgr sv)) (m_rt (sv_mgr sv)) req = Ok spec) as [spec Hspec].
  { unfold buildSpec. cbn. apply nonempty_true in Hg. rewrite Hg. by eexists. }
  exists spec. split; [done|]. unfold client_Submit, client_do, Client_Configured.
  cbn [baseURL]. apply nonempty_true in Hb as Hb'. rewrite Hb'.
  unfold mbind, M_bind. set (o := outgoing _ _ _ _). cbn [http_Do service_Transport].
  destruct (incoming_path "POST" "/tasks" (RawJSON (json_SubmitBody b)) Hb) as [Hpre Hpath].
  fold o in Hpre, Hpath. rewrite Hpre. unfold rt_Handler. rewrite Hpath.
  pose proof (incoming_bearer "POST" "/tasks" (RawJSON (json_SubmitBody b)) Ht) as Hbear.
  fold o in Hbear.
  assert (method (incoming base o) = "POST"%string) as -> by done.
  assert (ServeMux (rt_routes (E:=E) token (sv_ids sv (sv_next sv)) prefer_done) "POST" (url_path "/tasks") =
    Handled (rt_auth token (λ r _ m, Some (handleSubmit (sv_ids sv (sv_next sv)) r m))) ∅)
    as -> by reflexivity.
  unfold rt_auth. rewrite Hbear. unfold handleSubmit.
  assert (decode_body decode_TaskRequest (Http.body (incoming base o)) = Some req) as ->.
  { unfold incoming, o, outgoing, b, req. cbn [Http.body o_body].
    unfold json_SubmitBody. cbn [sb_InlineGoal sb_RecipeID sb_Identity sb_Committee sb_HardTask].
    unfold omit. cbn [nonempty String.eqb negb]. apply nonempty_true in Hg. rewrite Hg.
    destruct (nonempty who) eqn:Hw; [reflexivity|].
    apply nonempty_false in Hw as ->. reflexivity. }
  unfold Submit. rewrite Hspec. unfold mret, M_ret. cbn [code writeJSON payload].
  change (300 <=? StatusAccepted) with false. cbv beta iota. unfold decode_out.
  assert (decode_body decode_submitted (RawJSON (obj1 "task_id" (sv_ids sv (sv_next sv)))) =
    Some (sv_ids sv (sv_next sv), EmptyString)) as -> by reflexivity.
  apply nonempty_true in Hid. by rewrite Hid.
Qed.
End service.
