(* ===== verification/Url.v ===== *)
(** * Package net/url: query strings

    [url.ParseQuery] and [Values.Get], as the Slack gateway uses them on form
    bodies. *)

From S2P Require Import Prelude GoText.
From Stdlib Require Import ZArith Lia Ascii.
From stdpp Require Import options.

Open Scope nat_scope.
Open Scope list_scope.

Definition hex_nibble (c : ascii) : option nat :=
  if in_range 48 57 c then Some (nat_of_ascii c - 48)
  else if in_range 97 102 c then Some (nat_of_ascii c - 87)
  else if in_range 65 70 c then Some (nat_of_ascii c - 55)
  else None.

(** None is an error: a percent sign without two hexadecimal digits. *)
Fixpoint QueryUnescape (s : string) : option string :=
  match s with
  | EmptyString => Some EmptyString
  | String c s' =>
      if Ascii.eqb c "%" then
        match s' with
        | String h (String l s'') =>
            match hex_nibble h, hex_nibble l, QueryUnescape s'' with
            | Some a, Some b, Some r => Some (String (ascii_of_nat (16 * a + b)) r)
            | _, _, _ => None
            end
        | _ => None
        end
      else match QueryUnescape s' with
           | Some r => Some (String (if Ascii.eqb c "+" then " "%char else c) r)
           | None => None
           end
  end.

(** One setting of the query; None is skipped. *)
Definition query_pair (kv : string) : option (string * string) :=
  if Contains kv ";" || negb (nonempty kv) then None
  else
    let '(k, v) := match Cut "=" kv with Some x => x | None => (kv, EmptyString) end in
    match QueryUnescape k, QueryUnescape v with
    | Some k, Some v => Some (k, v)
    | _, _ => None
    end.

Definition ParseQuery (q : string) : list (string * string) := omap query_pair (Split "&"%char q).

(** [Values.Get]: the first value of the key. *)
Definition Values_Get (vals : list (string * string)) (k : string) : string :=
  match List.find (λ kv, String.eqb kv.1 k) vals with Some kv => kv.2 | None => EmptyString end.

Example parse_form :
  let v := ParseQuery "payload=%7B%22a%22%3A+1%7D&x=%zz&payload=b" in
  Values_Get v "payload" = String.concat (chr 34) ["{"; "a"; ": 1}"]%string ∧ Values_Get v "x" = EmptyString.
Proof. split; reflexivity. Qed.
