(* ===== verification/Slack.v ===== *)
(** * The Slack gateway (services/slack-gateway/internal/slack)

    The handlers for events, button clicks and slash commands, the background
    task that reports a run to its thread, and the blocks it posts. The runtime
    is behind the class [SlackRuntime]; the SDK's signature check and parsers
    are parameters. *)

From S2P Require Import Prelude GoText Float64 Json Http Url Recipe Task RuntimeServer RuntimeClient.
From Stdlib Require Import ZArith Lia Ascii.
From stdpp Require Import options.

Open Scope Z_scope.
Open Scope list_scope.

(** ** Blocks (blocks.go) *)

Definition ActionApprove : string := "sl_approve".
Definition ActionReview : string := "sl_review".
Definition ActionCancel : string := "sl_cancel".

Definition valueSep : string := "::".

Definition encodeValue (taskID approvalID : string) : string := taskID +:+ valueSep +:+ approvalID.

Definition decodeValue (v : string) : string * string :=
  match Cut valueSep v with Some p => p | None => (v, EmptyString) end.

Record Button := MkButton { bt_action : string; bt_value : string; bt_text : string; bt_style : string }.

Inductive Block : Type :=
  | SectionBlock (text : string)
  | ContextBlock (text : string)
  | ActionBlock (id : string) (buttons : list Button).

(** [s[:n] + "…"], in bytes *)
Definition truncate (s : string) (n : nat) : string :=
  if decide (String.length s ≤ n)%nat then s else byte_prefix n s +:+ "…".

Definition statusBlocks (text : string) : list Block := [SectionBlock (":robot_face: " +:+ text)].

Definition resultBlocks (output : string) : list Block :=
  let output := if nonempty (TrimSpace output) then output else "_(no output)_"%string in
  [SectionBlock (":white_check_mark: *Done.*" +:+ NL +:+ truncate output 2800);
   ContextBlock "ScottyLabs Agent · audited"].

Definition errorBlocks (msg : string) : list Block :=
  [SectionBlock (":x: *Task failed:* " +:+ truncate msg 2800)].

Definition approvalBlocks (taskID approvalID tool argsJSON : string) : list Block :=
  let val := encodeValue taskID approvalID in
  [SectionBlock (":warning: *Approval required* — high-impact action" +:+ NL +:+ "*Tool:* `" +:+ tool +:+ "`");
   SectionBlock ("*Arguments (redacted):*" +:+ NL +:+ "```" +:+ truncate argsJSON 1200 +:+ "```");
   ActionBlock "sl_approval"
     [{| bt_action := ActionApprove; bt_value := val; bt_text := "Approve"; bt_style := "primary" |};
      {| bt_action := ActionReview; bt_value := val; bt_text := "Review"; bt_style := EmptyString |};
      {| bt_action := ActionCancel; bt_value := val; bt_text := "Cancel"; bt_style := "danger" |}]].

(** ** Data (handler.go) *)

Record Message := MkMessage {
  msg_Channel : string;
  msg_ThreadTS : string;
  msg_Fallback : string;
  msg_Blocks : list Block;
}.

(** The interface [Runtime]. *)
Class SlackRuntime (R : Type) := {
  sr_Submit : SubmitBody → R → result string * R;
  sr_Get : string → R → result Snapshot * R;
  sr_Approve : string → string → bool → string → R → option error * R;
}.

Record Handler := MkHandler {
  signingSecret : string;
  botUserID : string;
  pollEvery : Z;
  pollFor : Z;
}.

Definition New (secret bot : string) : Handler :=
  {| signingSecret := secret; botUserID := bot;
     pollEvery := 900 * 1000000; pollFor := 100 * 1000000000 |}.

(** ** Texts *)

Definition upper_or_digit (c : ascii) : bool := in_range 65 90 c || in_range 48 57 c.

(** What follows a run of upper-case letters and digits and a '>'. *)
Fixpoint mention_end (started : bool) (s : string) : option string :=
  match s with
  | String c s' =>
      if upper_or_digit c then mention_end true s'
      else if started && Ascii.eqb c ">" then Some s' else None
  | EmptyString => None
  end.

Definition mention (s : string) : option string :=
  match s with
  | String "<" (String "@" s') => mention_end false s'
  | _ => None
  end.

(** [mentionRE.ReplaceAllString(s, "")]: the fuel is the length of the text. *)
Fixpoint strip_mentions (fuel : nat) (s : string) : string :=
  match fuel, s with
  | S fuel, String c s' =>
      match mention s with
      | Some rest => strip_mentions fuel rest
      | None => String c (strip_mentions fuel s')
      end
  | _, _ => EmptyString
  end.

Definition cleanText (s : string) : string := TrimSpace (strip_mentions (String.length s) s).

Definition identity (slackUserID : string) : string :=
  if nonempty slackUserID then "slack:" +:+ slackUserID else "slack:unknown".

(** The text of the last error event. *)
Definition lastError (s : Snapshot) : string :=
  match List.find (λ e, String.eqb (ce_Kind e) "error") (reverse (Events s)) with
  | Some e => ce_Text e
  | None => "task failed"
  end.

(** ** Requests and the SDK *)

Record SlackRequest := MkSlackRequest { sq_header : gmap string string; sq_body : string }.

Record InnerEvent := MkInnerEvent {
  ie_User : string;
  ie_Text : string;
  ie_Channel : string;
  ie_ThreadTimeStamp : string;
  ie_TimeStamp : string;
  ie_BotID : string;
  ie_SubType : string;
  ie_ChannelType : string;
}.

(** [slackevents.EventsAPIEvent], with the challenge that the handler decodes
    from the same body. *)
Inductive SlackEvent : Type :=
  | URLVerification (challenge : string)
  | AppMentionEvent (e : InnerEvent)
  | MessageEvent (e : InnerEvent)
  | OtherCallback
  | OtherEvent.

Record BlockAction := MkBlockAction { ba_ActionID : string; ba_Value : string }.

Record InteractionCallback := MkInteractionCallback {
  cb_Type : string;
  cb_UserID : string;
  cb_ChannelID : string;
  cb_MessageTimestamp : string;
  cb_BlockActions : list BlockAction;
}.

(** What the Slack SDK does: checking a request's signature against the
    secret, and decoding a body or a payload. *)
Record SDK := MkSDK {
  Ensure : gmap string string → string → string → bool;
  ParseEvent : string → option SlackEvent;
  UnmarshalCallback : string → option InteractionCallback;
}.

(** The arguments of [go h.runTask(...)]. *)
Record Job := MkJob { j_channel : string; j_threadTS : string; j_identity : string; j_text : string }.

Section handlers.
Context (sdk : SDK) (h : Handler).

Definition verify (r : SlackRequest) : option string :=
  if negb (nonempty (signingSecret h)) || Ensure sdk (sq_header r) (signingSecret h) (sq_body r)
  then Some (sq_body r) else None.

Definition job_of (e : InnerEvent) : Job :=
  {| j_channel := ie_Channel e;
     j_threadTS := firstNonEmpty [ie_ThreadTimeStamp e; ie_TimeStamp e];
     j_identity := identity (ie_User e); j_text := cleanText (ie_Text e) |}.

(** Who may start a task with a direct message. *)
Definition ignored_message (e : InnerEvent) : bool :=
  nonempty (ie_BotID e) || String.eqb (ie_User e) (botUserID h) || nonempty (ie_SubType e) ||
  negb (String.eqb (ie_ChannelType e) "im").

(** The answer, and the task that is started in the background. *)
Definition Events (r : SlackRequest) : Response * option Job :=
  match verify r with
  | None => (http_Error "unauthorized" StatusUnauthorized, None)
  | Some b =>
      match ParseEvent sdk b with
      | None => (http_Error "bad request" StatusBadRequest, None)
      | Some (URLVerification c) => ({| code := StatusOK; payload := RawText c |}, None)
      | Some ev =>
          ({| code := StatusOK; payload := RawEmpty |},
           match ev with
           | AppMentionEvent e =>
               if String.eqb (ie_User e) (botUserID h) then None else Some (job_of e)
           | MessageEvent e => if ignored_message e then None else Some (job_of e)
           | _ => None
           end)
      end
  end.

Definition Command (r : SlackRequest) : Response :=
  match verify r with
  | None => http_Error "unauthorized" StatusUnauthorized
  | Some b =>
      let vals := ParseQuery b in
      writeJSON StatusOK
        (JObj [("response_type", JStr "ephemeral");
               ("text", JStr (":wrench: `" +:+ Values_Get vals "command" +:+ " " +:+
                  Values_Get vals "text" +:+
                  "` enqueued to the Engineering Agent. You'll get a draft PR link here when it's ready. (WP-11)"))])%string
  end.

(** ** The background task *)

Context {R : Type} `{SlackRuntime R}.

(** The runtime, and the messages posted so far, the oldest first. *)
Record world := World { w_rt : R; w_posts : list Message }.

Implicit Types (w : world).

Definition rt_op {A} (f : R → A * R) : M world A := λ w,
  let '(a, r) := f (w_rt w) in (a, {| w_rt := r; w_posts := w_posts w |}).

(** An error of the poster is ignored. *)
Definition post (channel threadTS fallback : string) (blocks : list Block) : M world unit := λ w,
  ((), {| w_rt := w_rt w;
          w_posts := w_posts w ++ [{| msg_Channel := channel; msg_ThreadTS := threadTS;
                                      msg_Fallback := fallback; msg_Blocks := blocks |}] |}).

(** A pending approval that has not been shown yet is shown. *)
Definition show_pending (ch ts taskID : string) (snap : Snapshot) (posted : gset string) :
    M world (gset string) :=
  match Pending snap with
  | Some p =>
      if decide (pa_ApprovalID p ∈ posted) then mret posted
      else
        _ ← post ch ts "Approval required."
              (approvalBlocks taskID (pa_ApprovalID p) (pa_Tool p) EmptyString);
        mret ({[pa_ApprovalID p]} ∪ posted)
  | None => mret posted
  end.

(** The switch on the status: whether the task has ended. *)
Definition show_end (ch ts : string) (snap : Snapshot) : M world bool :=
  if String.eqb (Status snap) "done" then
    _ ← post ch ts "Done."
          (resultBlocks (from_option r_Output EmptyString (Snapshot_Result snap)));
    mret true
  else if String.eqb (Status snap) "error" then
    _ ← post ch ts "Task failed." (errorBlocks (lastError snap)); mret true
  else mret false.

(** The polling loop. [clock i] is the reading in its i-th condition; None is a
    loop that the fuel did not finish. *)
Fixpoint poll (fuel : nat) (clock : nat → Z) (i : nat) (deadline : Z) (ch ts taskID : string)
    (posted : gset string) : M world (option unit) :=
  match fuel with
  | O => mret None
  | S fuel =>
      if clock i <? deadline then
        r ← rt_op (sr_Get taskID);
        match r with
        | Err _ => poll fuel clock (S i) deadline ch ts taskID posted
        | Ok snap =>
            posted ← show_pending ch ts taskID snap posted;
            ended ← show_end ch ts snap;
            if (ended : bool) then mret (Some ())
            else poll fuel clock (S i) deadline ch ts taskID posted
        end
      else
        _ ← post ch ts "Task timed out." (errorBlocks "task timed out before completing");
        mret (Some ())
  end.

(** [start] is the clock when the deadline is set. *)
Definition runTask (fuel : nat) (start : Z) (clock : nat → Z) (j : Job) : M world (option unit) :=
  if nonempty (TrimSpace (j_text j)) then
    _ ← post (j_channel j) (j_threadTS j) "Got it — working on it." (statusBlocks "Got it — working on it…");
    r ← rt_op (sr_Submit {| sb_InlineGoal := j_text j; sb_RecipeID := EmptyString;
                            sb_Identity := j_identity j; sb_Committee := EmptyString;
                            sb_HardTask := false |});
    match r with
    | Err e =>
        _ ← post (j_channel j) (j_threadTS j) "Could not start the task." (errorBlocks (Error e));
        mret (Some ())
    | Ok taskID =>
        poll fuel clock 0 (start + pollFor h) (j_channel j) (j_threadTS j) taskID ∅
    end
  else mret (Some ()).

(** ** Button clicks *)

Definition on_action (cb : InteractionCallback) (a : BlockAction) : M world unit :=
  let '(taskID, approvalID) := decodeValue (ba_Value a) in
  let by_ := identity (cb_UserID cb) in
  let say := post (cb_ChannelID cb) (cb_MessageTimestamp cb) in
  if String.eqb (ba_ActionID a) ActionApprove then
    _ ← rt_op (sr_Approve taskID approvalID true by_);
    say "Approved." (statusBlocks ("Approved by <@" +:+ cb_UserID cb +:+ "> — resuming."))
  else if String.eqb (ba_ActionID a) ActionCancel then
    _ ← rt_op (sr_Approve taskID approvalID false by_);
    say "Cancelled." (statusBlocks (":no_entry: Cancelled by <@" +:+ cb_UserID cb +:+ ">."))
  else if String.eqb (ba_ActionID a) ActionReview then
    say "Left for review." (statusBlocks ("Left pending for review by <@" +:+ cb_UserID cb +:+ ">."))
  else mret ().

Fixpoint on_actions (cb : InteractionCallback) (l : list BlockAction) : M world unit :=
  match l with
  | [] => mret ()
  | a :: l => _ ← on_action cb a; on_actions cb l
  end.

Definition Interactions (r : SlackRequest) : M world Response :=
  match verify r with
  | None => mret (http_Error "unauthorized" StatusUnauthorized)
  | Some b =>
      match UnmarshalCallback sdk (Values_Get (ParseQuery b) "payload") with
      | None => mret (http_Error "bad request" StatusBadRequest)
      | Some cb =>
          _ ← (if String.eqb (cb_Type cb) "block_actions"
               then on_actions cb (cb_BlockActions cb) else mret ());
          mret {| code := StatusOK; payload := RawEmpty |}
      end
  end.
End handlers.
Arguments world : clear implicits.
Arguments World {R} _ _.

(** ** Lemmas *)

Section lemmas.
Context {R : Type} `{SlackRuntime R}.
Implicit Types (w : world R).

Definition approval_message (ch ts taskID : string) (p : pendingApproval) : Message :=
  {| msg_Channel := ch; msg_ThreadTS := ts; msg_Fallback := "Approval required.";
     msg_Blocks := approvalBlocks taskID (pa_ApprovalID p) (pa_Tool p) EmptyString |}.

(** The last message of a task that was submitted. *)
Definition final_message (ch ts : string) (m : Message) : Prop :=
  msg_Channel m = ch ∧ msg_ThreadTS m = ts ∧
  msg_Fallback m ∈ ["Done."; "Task failed."; "Task timed out."]%string.

Lemma show_pending_posts ch ts id snap posted w :
  let '(posted', w') := show_pending ch ts id snap posted w in
  ∃ ps, w_posts w' = w_posts w ++ (approval_message ch ts id <$> ps) ∧
    NoDup (pa_ApprovalID <$> ps) ∧ (∀ p, p ∈ ps → pa_ApprovalID p ∉ posted) ∧
    posted' = list_to_set (pa_ApprovalID <$> ps) ∪ posted.
Proof.
  unfold show_pending. destruct (Pending snap) as [p|].
  2: { exists []. rewrite app_nil_r. split_and!; [done|constructor|set_solver|set_solver]. }
  case_decide.
  { exists []. rewrite app_nil_r. split_and!; [done|constructor|set_solver|set_solver]. }
  exists [p]. cbn. split_and!; [done|apply NoDup_singleton|set_solver|set_solver].
Qed.

Lemma show_end_posts ch ts snap w :
  let '(ended, w') := show_end ch ts snap w in
  if ended then ∃ m, w_posts w' = w_posts w ++ [m] ∧ final_message ch ts m
  else w' = w.
Proof.
  unfold show_end. destruct (String.eqb (Status snap) "done").
  - eexists. split; [reflexivity|]. split; [done|]. split; [done|]. by left.
  - destruct (String.eqb (Status snap) "error"); [|done].
    eexists. split; [reflexivity|]. split; [done|]. split; [done|]. right. by left.
Qed.

Lemma poll_S fuel clock i deadline ch ts id posted w :
  poll (S fuel) clock i deadline ch ts id posted w =
  if clock i <? deadline then
    (r ← rt_op (sr_Get id);
     match r with
     | Err _ => poll fuel clock (S i) deadline ch ts id posted
     | Ok snap =>
         posted ← show_pending ch ts id snap posted;
         ended ← show_end ch ts snap;
         if (ended : bool) then mret (Some ())
         else poll fuel clock (S i) deadline ch ts id posted
     end) w
  else
    (_ ← post ch ts "Task timed out." (errorBlocks "task timed out before completing");
     mret (Some ())) w.
Proof. cbn [poll]. by destruct (clock i <? deadline). Qed.

(** The loop ends within its fuel, has shown each pending approval once, and
    has said how the task ended. *)
Lemma poll_reports fuel clock step deadline ch ts id : ∀ i posted w,
  (∀ i, clock i + step <= clock (S i)) → deadline <= clock i + step * Z.of_nat fuel →
  let '(r, w') := poll (S fuel) clock i deadline ch ts id posted w in
  r = Some () ∧ ∃ ps fin,
    w_posts w' = w_posts w ++ (approval_message ch ts id <$> ps) ++ [fin] ∧
    NoDup (pa_ApprovalID <$> ps) ∧ (∀ p, p ∈ ps → pa_ApprovalID p ∉ posted) ∧
    final_message ch ts fin.
Proof.
  assert (∀ posted w, let '(r, w') :=
      (_ ← post ch ts "Task timed out." (errorBlocks "task timed out before completing");
       mret (Some ())) w in
    r = Some () ∧ ∃ ps fin,
      w_posts w' = w_posts w ++ (approval_message ch ts id <$> ps) ++ [fin] ∧
      NoDup (pa_ApprovalID <$> ps) ∧ (∀ p, p ∈ ps → pa_ApprovalID p ∉ (posted : gset string)) ∧
      final_message ch ts fin) as Hout.
  { intros posted w. split; [done|]. eexists [], _. split; [reflexivity|].
    split; [constructor|]. split; [set_solver|]. split; [done|]. split; [done|].
    do 2 right. by left. }
  induction fuel as [|fuel IH]; intros i posted w Hc Hd; rewrite poll_S.
  { destruct (clock i <? deadline) eqn:Hlt; [apply Z.ltb_lt in Hlt; lia|apply Hout]. }
  destruct (clock i <? deadline); [|apply Hout].
  rewrite M_bind_step.
  destruct (rt_op (sr_Get id) w) as [r w1] eqn:Hr. cbn [fst snd].
  assert (w_posts w1 = w_posts w) as Hw1.
  { unfold rt_op in Hr. destruct (sr_Get id (w_rt w)). by injection Hr as <- <-. }
  rewrite <-Hw1. clear Hr Hw1.
  assert (deadline <= clock (S i) + step * Z.of_nat fuel) as Hd' by (specialize (Hc i); lia).
  destruct r as [snap|e]; [|by apply IH].
  rewrite M_bind_step. pose proof (show_pending_posts ch ts id snap posted w1) as Hs.
  destruct (show_pending ch ts id snap posted w1) as [posted' w2]. cbn [fst snd].
  destruct Hs as (ps & Hw2 & Hnd & Hnew & ->).
  rewrite M_bind_step. pose proof (show_end_posts ch ts snap w2) as He.
  destruct (show_end ch ts snap w2) as [[] w3]; cbn [fst snd].
  - destruct He as (m & Hw3 & Hm). split; [done|]. exists ps, m.
    cbn. rewrite Hw3, Hw2, <-(assoc_L (++)). done.
  - subst w3. specialize (IH (S i) (list_to_set (pa_ApprovalID <$> ps) ∪ posted) w2 Hc Hd').
    destruct (poll (S fuel) clock (S i) deadline ch ts id _ w2) as [r w4].
    destruct IH as (-> & ps' & fin & Hw4 & Hnd' & Hnew' & Hf). split; [done|].
    exists (ps ++ ps'), fin. rewrite Hw4, Hw2, !fmap_app, <-!(assoc_L (++)).
    split; [done|]. split; [|split; [|done]].
    + apply NoDup_app. split; [done|]. split; [|done].
      intros x Hx (p & -> & Hp')%list_elem_of_fmap.
      apply (Hnew' p Hp'). apply elem_of_union_l, elem_of_list_to_set. done.
    + intros p [Hp'|Hp']%elem_of_app; [by apply Hnew|].
      specialize (Hnew' p Hp'). set_solver.
Qed.
End lemmas.

(** ** Properties *)

Definition blank (s : string) : Prop := TrimSpace s = EmptyString.

(** What a task says in its thread. *)
Definition reported (j : Job) (l : list Message) : Prop :=
  (blank (j_text j) ∧ l = []) ∨
  (¬ blank (j_text j) ∧ ∃ ack mid fin, l = ack :: mid ++ [fin] ∧
     Forall (λ m, msg_Channel m = j_channel j ∧ msg_ThreadTS m = j_threadTS j) l ∧
     msg_Fallback ack = "Got it — working on it."%string ∧
     msg_Fallback fin ∈ ["Could not start the task."; "Done."; "Task failed."; "Task timed out."]%string ∧
     ∃ taskID ps, mid = approval_message (j_channel j) (j_threadTS j) taskID <$> ps ∧
       NoDup (pa_ApprovalID <$> ps)).

Lemma reported_run j ack ps fin taskID :
  ¬ blank (j_text j) →
  msg_Channel ack = j_channel j → msg_ThreadTS ack = j_threadTS j →
  msg_Fallback ack = "Got it — working on it."%string →
  msg_Channel fin = j_channel j → msg_ThreadTS fin = j_threadTS j →
  msg_Fallback fin ∈ ["Could not start the task."; "Done."; "Task failed."; "Task timed out."]%string →
  NoDup (pa_ApprovalID <$> ps) →
  reported j (ack :: (approval_message (j_channel j) (j_threadTS j) taskID <$> ps) ++ [fin]).
Proof.
  intros Hb ??????Hnd. right. split; [done|]. eexists _, _, _. split; [reflexivity|].
  split; [|by eauto 10].
  constructor; [done|]. apply Forall_app. split; [|by repeat constructor].
  apply Forall_fmap, Forall_true. done.
Qed.

(** C23: For every runtime and a clock that advances by the polling interval, runTask ends
    within 113 polls; it posts nothing for a blank text, and otherwise an acknowledgement,
    at most one approval message per approval id and, last, exactly one final message:
    done, failed, timed out or not started. *)
Theorem runTask_reports `{SlackRuntime R} secret bot start clock j (w : world R) :
  start <= clock 0%nat → (∀ i, clock i + pollEvery (New secret bot) <= clock (S i)) →
  let '(r, w') := runTask (New secret bot) 113 start clock j w in
  r = Some () ∧ ∃ l, w_posts w' = w_posts w ++ l ∧ reported j l.
Proof.
  intros Hs Hc. unfold runTask. destruct (nonempty (TrimSpace (j_text j))) eqn:Hne.
  2: { apply nonempty_false in Hne. split; [done|]. exists []. rewrite app_nil_r.
       split; [done|]. by left. }
  apply nonempty_true in Hne. rewrite M_bind_step.
  destruct (post (j_channel j) (j_threadTS j) "Got it — working on it." _ w) as [[] w1] eqn:Hw1.
  injection Hw1 as Hw1. apply (f_equal w_posts) in Hw1. cbn [w_posts] in Hw1. cbn [fst snd].
  rewrite M_bind_step.
  destruct (rt_op _ w1) as [r w2] eqn:Hr. cbn [fst snd].
  assert (w_posts w2 = w_posts w1) as Hw2.
  { unfold rt_op in Hr. destruct (sr_Submit _ (w_rt w1)). by injection Hr as <- <-. }
  clear Hr. destruct r as [taskID|e].
  - pose proof (poll_reports 112 clock (pollEvery (New secret bot)) (start + pollFor (New secret bot))
      (j_channel j) (j_threadTS j) taskID 0 ∅ w2 Hc ltac:(cbn [pollEvery pollFor New]; lia)) as Hp.
    destruct (poll 113 _ _ _ _ _ _ _ w2) as [r w3].
    destruct Hp as (-> & ps & fin & Hw3 & Hnd & _ & Hfc & Hft & Hff). split; [done|].
    eexists. rewrite Hw3, Hw2, <-Hw1, <-(assoc_L (++)).
    split; [reflexivity|]. apply reported_run; try done. set_solver.
  - split; [done|]. unfold mret, M_ret, mbind, M_bind, post. cbn [w_posts]. eexists.
    rewrite Hw2, <-Hw1, <-(assoc_L (++)).
    split; [reflexivity|]. apply (reported_run _ _ [] _ EmptyString); try done; [set_solver|constructor].
Qed.

(** A Slack event starts a task only if its signature verified and it is an app
    mention by someone else than the bot or a plain direct message of a person; the task
    carries the text without mentions and the identity of the author. *)
Theorem Events_jobs sdk h r j :
  (Events sdk h r).2 = Some j →
  (signingSecret h = EmptyString ∨ Ensure sdk (sq_header r) (signingSecret h) (sq_body r) = true) ∧
  ∃ e, j = job_of e ∧ ie_User e ≠ botUserID h ∧
    (ParseEvent sdk (sq_body r) = Some (AppMentionEvent e) ∨
     (ParseEvent sdk (sq_body r) = Some (MessageEvent e) ∧ ie_BotID e = EmptyString ∧
      ie_SubType e = EmptyString ∧ ie_ChannelType e = "im"%string)).
Proof.
  unfold Events, verify. destruct (negb _ || _) eqn:Hv; [|done].
  assert (signingSecret h = EmptyString ∨ Ensure sdk (sq_header r) (signingSecret h) (sq_body r) = true).
  { apply orb_true_iff in Hv as [Hv%negb_true_iff%nonempty_false|Hv]; auto. }
  destruct (ParseEvent sdk (sq_body r)) as [[c|e|e| |]|]; try done; cbn [snd].
  - destruct (String.eqb_spec (ie_User e) (botUserID h)); [done|]. intros [= <-].
    split; [done|]. exists e. auto.
  - destruct (ignored_message h e) eqn:Hi; [done|]. intros [= <-].
    unfold ignored_message in Hi. rewrite !orb_false_iff in Hi. destruct Hi as [[[Hb Hu] Hst] Ht].
    apply nonempty_false in Hb, Hst. apply String.eqb_neq in Hu.
    apply negb_false_iff, String.eqb_eq in Ht. split; [done|]. exists e. auto 10.
Qed.

Lemma decodeValue_encodeValue taskID approvalID :
  string_forall (λ c, negb (Ascii.eqb c ":"%char)) taskID = true →
  decodeValue (encodeValue taskID approvalID) = (taskID, approvalID).
Proof.
  intros Ht. unfold decodeValue, encodeValue, valueSep.
  by rewrite (Cut_append ":"%char ":" taskID approvalID Ht).
Qed.

(** A click on Approve is announced as approved whatever the runtime answers,
    a refusal included. *)
Theorem Approve_announced_regardless `{SlackRuntime R} cb v (w : world R) :
  let a := {| ba_ActionID := ActionApprove; ba_Value := v |} in
  w_posts (on_action cb a w).2 = w_posts w ++
    [{| msg_Channel := cb_ChannelID cb; msg_ThreadTS := cb_MessageTimestamp cb;
        msg_Fallback := "Approved.";
        msg_Blocks := statusBlocks ("Approved by <@" +:+ cb_UserID cb +:+ "> — resuming.") |}].
Proof.
  cbv zeta. unfold on_action. cbn [ba_ActionID ba_Value]. destruct (decodeValue v) as [t p].
  change (String.eqb ActionApprove ActionApprove) with true. cbv iota.
  rewrite M_bind_step. unfold rt_op. by destruct (sr_Approve _ _ _ _ _) as [x r].
Qed.

(** ** The gateway in front of the runtime service *)

Section end_to_end.
Context {E : Type} `{Engine E} (base token : string) (prefer_done : bool).

#[local] Instance the_Transport : Transport (Service E) :=
  service_Transport base token prefer_done.

#[local] Instance client_Runtime : SlackRuntime (Service E) := {
  sr_Submit b := client_Submit {| baseURL := base; cl_token := token |} b;
  sr_Get id := client_Get {| baseURL := base; cl_token := token |} id;
  sr_Approve id aid ok by_ := client_Approve {| baseURL := base; cl_token := token |} id aid ok by_;
}.

(** The button of [approvalBlocks] that grants, or that cancels. *)
Definition decision_button (ok : bool) (taskID approvalID tool : string) (b : BlockAction) : Prop :=
  ∃ bt bs, ActionBlock "sl_approval" bs ∈ approvalBlocks taskID approvalID tool EmptyString ∧
    bt ∈ bs ∧ bt_text bt = (if ok then "Approve" else "Cancel")%string ∧
    b = {| ba_ActionID := bt_action bt; ba_Value := bt_value bt |}.

Lemma decision_button_eq ok id aid tool b :
  decision_button ok id aid tool b →
  b = {| ba_ActionID := if ok then ActionApprove else ActionCancel; ba_Value := encodeValue id aid |}.
Proof.
  intros (bt & bs & Hbs & Hbt & Ht & ->). unfold approvalBlocks in Hbs.
  rewrite !elem_of_cons, elem_of_nil in Hbs. destruct Hbs as [?|[?|[Hbs|[]]]]; [done..|].
  injection Hbs as ->. rewrite !elem_of_cons, elem_of_nil in Hbt.
  destruct Hbt as [->|[->|[->|[]]]]; by destruct ok.
Qed.

Lemma reachable_not_done e (ts : taskState E) tool aid k :
  rtc ts_steps (new_task e) ts → t_pc (ts_task ts) = PWait tool aid k →
  t_done (ts_task ts) = false.
Proof.
  intros Hr Hpc. apply ts_reachable_inv in Hr as []. destruct ti_task. unfold phase in inv_phase.
  rewrite Hpc in inv_phase. by destruct inv_phase.
Qed.

(** A decision that was delivered to a waiting task. *)
Lemma delivered_resumes tool aid k d (ts : taskState E) :
  t_pc (ts_task ts) = PWait tool aid k → t_decisions (ts_task ts) = None → approvalID d = aid →
  ∃ t, deliver d (ts_task ts) = Some t ∧
    let ts' := ts_run [MRun] (mark_resolved (begin_resolve t ts)) in
    t_pc (ts_task ts') = PRun (k (Ok (granted d))) ∧
    h_answers (ts_task ts') = h_answers (ts_task ts) ++ [(tool, aid, granted d)].
Proof.
  intros Hpc Hd <-. unfold deliver. rewrite Hd. eexists. split; [reflexivity|].
  unfold ts_run. cbn [foldl ts_step ts_task mark_resolved begin_resolve].
  unfold run_step. cbn [t_pc t_decisions]. rewrite Hpc. cbn [fmap option_fmap option_map default].
  unfold take_decision. rewrite String.eqb_refl, andb_false_r. done.
Qed.

(** C22: A click on the Approve or Cancel button that the Slack gateway posted for a task
    waiting for an approval reaches the runtime service over HTTP and the waiting engine
    goes on with exactly that answer; no other task changes and the task no longer awaits
    approval. *)
Theorem click_resumes_task sdk h r cb b ok id tool aid k e ts (w : world (Service E)) :
  base ≠ EmptyString → token ≠ EmptyString → plain_id id →
  tasks (sv_mgr (w_rt w)) !! id = Some ts → rtc ts_steps (new_task e) ts →
  t_pc (ts_task ts) = PWait tool aid k → t_decisions (ts_task ts) = None →
  verify sdk h r = Some (sq_body r) →
  UnmarshalCallback sdk (Values_Get (ParseQuery (sq_body r)) "payload") = Some cb →
  cb_Type cb = "block_actions"%string → cb_BlockActions cb = [b] →
  decision_button ok id aid tool b →
  let w' := (Interactions sdk h r w).2 in
  ∃ ts', tasks (sv_mgr (w_rt w')) = <[id := ts']> (tasks (sv_mgr (w_rt w))) ∧
    ts_status ts' ≠ "awaiting_approval"%string ∧
    let ts'' := ts_run [MRun] ts' in
    t_pc (ts_task ts'') = PRun (k (Ok ok)) ∧
    h_answers (ts_task ts'') = h_answers (ts_task ts) ++ [(tool, aid, ok)].
Proof.
  intros Hb Ht Hid Hts Hreach Hpc Hd Hv Hcb Hty Hacts Hbt w'.
  apply decision_button_eq in Hbt as ->.
  pose proof (reachable_not_done e ts tool aid k Hreach Hpc) as Hdone.
  set (d := {| approvalID := aid; granted := ok; decidedBy := identity (cb_UserID cb) |}).
  destruct (delivered_resumes tool aid k d ts Hpc Hd eq_refl) as (t & Hdel & Hp & Ha).
  exists (mark_resolved (begin_resolve t ts)).
  assert (w_rt w' = {| sv_mgr := set_task id (mark_resolved (begin_resolve t ts)) (sv_mgr (w_rt w));
    sv_ids := sv_ids (w_rt w); sv_next := S (sv_next (w_rt w)) |}) as ->.
  { unfold w', Interactions. rewrite Hv, Hcb, Hty, Hacts. cbn [String.eqb Ascii.eqb Bool.eqb].
    rewrite M_bind_step. cbn [mret M_ret snd on_actions]. rewrite M_bind_step. cbn [mret M_ret snd].
    destruct (plain_id_sep id Hid) as [_ Hsep].
    pose proof (client_Approve_delivers base token prefer_done id aid ok (identity (cb_UserID cb))
      (w_rt w) ts t Hb Ht Hid Hts Hdone Hdel) as Hc.
    unfold on_action. cbn [ba_Value ba_ActionID]. rewrite decodeValue_encodeValue by done.
    destruct ok; cbn; rewrite M_bind_step; unfold rt_op; cbn [sr_Approve client_Runtime];
      unfold the_Transport; rewrite Hc; done. }
  cbn [sv_mgr set_task tasks]. split; [done|]. split; [|done].
  unfold mark_resolved. cbn [ts_status begin_resolve].
  destruct (String.eqb_spec (ts_status ts) "awaiting_approval"); done.
Qed.
End end_to_end.

(** ** Concrete instances *)

(** A runtime whose only task waits in its first view and is done in the next. *)
#[local] Instance scripted : SlackRuntime nat := {
  sr_Submit _ n := (Ok "t1"%string, n);
  sr_Get _ n :=
    (Ok (match n with
         | O => {| Status := "awaiting_approval"; RuntimeClient.Events := [];
                   Pending := Some {| pa_Tool := "send"; pa_ApprovalID := "a1" |};
                   Snapshot_Result := None |}
         | _ => {| Status := "done"; RuntimeClient.Events := []; Pending := None;
                   Snapshot_Result := Some {| r_Output := "sent"; r_AuditRef := EmptyString |} |}
         end), S n);
  sr_Approve _ _ _ _ n := (None, n);
}.

Definition sample_job : Job :=
  {| j_channel := "C1"; j_threadTS := "17.4"; j_identity := "slack:U1"; j_text := "send it" |}.

Lemma runTask_reports_witness :
  let '(r, w') := runTask (New "s" "B") 113 0 (λ i, Z.of_nat i * 1000000000) sample_job
                    {| w_rt := 0%nat; w_posts := [] |} in
  r = Some () ∧ (∃ l, w_posts w' = [] ++ l ∧ reported sample_job l) ∧
  (msg_Fallback <$> w_posts w') =
    ["Got it — working on it."; "Approval required."; "Done."]%string.
Proof.
  pose proof (runTask_reports "s" "B" 0 (λ i, Z.of_nat i * 1000000000) sample_job
    {| w_rt := 0%nat; w_posts := [] |}) as Hr.
  destruct (runTask _ 113 0 _ _ _) as [r w'] eqn:Hrun. destruct Hr as [Hok Hl].
  - lia.
  - intros i. cbn [pollEvery New]. lia.
  - split; [exact Hok|]. split; [exact Hl|]. vm_compute in Hrun. injection Hrun as _ <-. reflexivity.
Defined.

Definition sample_event (channel_type : string) : InnerEvent :=
  {| ie_User := "U1"; ie_Text := "<@B1> screen them"; ie_Channel := "C1";
     ie_ThreadTimeStamp := EmptyString; ie_TimeStamp := "17.4"; ie_BotID := EmptyString;
     ie_SubType := EmptyString; ie_ChannelType := channel_type |}.

Definition sample_callback : InteractionCallback :=
  {| cb_Type := "block_actions"; cb_UserID := "U9"; cb_ChannelID := "C1";
     cb_MessageTimestamp := "17.5";
     cb_BlockActions := [{| ba_ActionID := ActionApprove; ba_Value := "1::a1" |}] |}.

(** An SDK that accepts the signature [sig] and knows one event and one click. *)
Definition sample_sdk : SDK :=
  {| Ensure := λ hd _ _, bool_decide (hd !! "x-slack-signature"%string = Some "sig"%string);
     ParseEvent := λ b, if String.eqb b "mention" then Some (AppMentionEvent (sample_event "channel"))
                        else Some (MessageEvent (sample_event "im"));
     UnmarshalCallback := λ p, if String.eqb p "click" then Some sample_callback else None |}.

Definition signed (b : string) : SlackRequest :=
  {| sq_header := {["x-slack-signature"%string := "sig"%string]}; sq_body := b |}.

Lemma Events_jobs_witness :
  ∃ e, {| j_channel := "C1"; j_threadTS := "17.4"; j_identity := "slack:U1";
          j_text := "screen them" |} = job_of e ∧ ie_User e ≠ "B1"%string.
Proof.
  destruct (Events_jobs sample_sdk (New "secret" "B1") (signed "mention")
    {| j_channel := "C1"; j_threadTS := "17.4"; j_identity := "slack:U1"; j_text := "screen them" |})
    as (_ & e & He & Hu & _).
  - vm_compute. reflexivity.
  - exists e. split; [exact He|exact Hu].
Defined.

#[local] Existing Instance asking_Engine.

Lemma click_resumes_task_witness :
  ∃ ts', t_pc (ts_task (ts_run [MRun] ts')) = PRun (Answered true) ∧
    h_answers (ts_task (ts_run [MRun] ts')) = [("send", "a1", true)]%string.
Proof.
  destruct (click_resumes_task "http://rt" "tok" false sample_sdk (New "secret" "B1")
    (signed "payload=click") sample_callback {| ba_ActionID := ActionApprove; ba_Value := "1::a1" |}
    true "1" "send" "a1" (λ r, Answered (match r with Ok b => b | Err _ => false end)) Ask
    sample_waiting
    {| w_rt := {| sv_mgr := sample_manager; sv_ids := λ _, "2"%string; sv_next := 0 |};
       w_posts := [] |}) as (ts' & _ & _ & Hp & Ha).
  - discriminate.
  - discriminate.
  - split; [discriminate|reflexivity].
  - reflexivity.
  - apply ts_run_reachable.
  - vm_compute. reflexivity.
  - vm_compute. reflexivity.
  - vm_compute. reflexivity.
  - vm_compute. reflexivity.
  - reflexivity.
  - reflexivity.
  - exists {| bt_action := ActionApprove; bt_value := encodeValue "1" "a1"; bt_text := "Approve";
              bt_style := "primary" |}.
    eexists. split; [right; right; left|]. split; [left|]. split; reflexivity.
  - exists ts'. split; [exact Hp|exact Ha].
Defined.
