(* ===== verification/SlackProcess.v ===== *)
(** * The Slack gateway as a process (services/slack-gateway)

    Every HTTP request has a goroutine, and every task that an event starts has
    one more ([go h.runTask]). Here they are threads that stop before each
    request to the runtime and each post, so that they interleave with one
    another and with the other clients of the runtime. The requests that
    change the runtime are recorded. *)

From S2P Require Import Prelude GoText Float64 Json Http Url Recipe Task RuntimeServer RuntimeClient.
From S2P Require Import Slack.
From Stdlib Require Import ZArith Lia Ascii.
From stdpp Require Import options.

Open Scope Z_scope.
Open Scope list_scope.

(** ** Recording the requests to the runtime *)

Inductive rt_call : Type :=
  | CallSubmit (b : SubmitBody) (answer : result string)
  | CallApprove (taskID approvalID : string) (granted : bool) (decidedBy : string).

Record recorded (R : Type) := Recorded { rc_rt : R; rc_calls : list rt_call }.
Arguments Recorded {R} _ _.
Arguments rc_rt {R} _.
Arguments rc_calls {R} _.

#[export] Instance recorded_Runtime {R} `{SlackRuntime R} : SlackRuntime (recorded R) := {
  sr_Submit b s :=
    let '(x, r) := sr_Submit b (rc_rt s) in
    (x, {| rc_rt := r; rc_calls := rc_calls s ++ [CallSubmit b x] |});
  sr_Get id s :=
    let '(x, r) := sr_Get id (rc_rt s) in (x, {| rc_rt := r; rc_calls := rc_calls s |});
  sr_Approve id aid ok by_ s :=
    let '(x, r) := sr_Approve id aid ok by_ (rc_rt s) in
    (x, {| rc_rt := r; rc_calls := rc_calls s ++ [CallApprove id aid ok by_] |});
}.

(** ** Threads *)

(** Where [runTask] and the loop of [Interactions] stand. *)
Inductive pc : Type :=
  | JStart (j : Job)
  | JSubmit (j : Job)
  | JFail (j : Job) (e : error)
  | JDeadline (j : Job) (taskID : string)
  | JCheck (j : Job) (deadline : Z) (taskID : string) (posted : gset string)
  | JGet (j : Job) (deadline : Z) (taskID : string) (posted : gset string)
  | JShow (j : Job) (deadline : Z) (taskID : string) (posted : gset string) (snap : Snapshot)
  | JEnd (j : Job) (deadline : Z) (taskID : string) (posted : gset string) (snap : Snapshot)
  | JTimeout (j : Job)
  | CActions (cb : InteractionCallback) (l : list BlockAction)
  | CSay (cb : InteractionCallback) (a : BlockAction) (l : list BlockAction)
  | Finished.

Definition submit_body (j : Job) : SubmitBody :=
  {| sb_InlineGoal := j_text j; sb_RecipeID := EmptyString; sb_Identity := j_identity j;
     sb_Committee := EmptyString; sb_HardTask := false |}.

(** The decision that a button stands for. *)
Definition decision_of (a : BlockAction) : option bool :=
  if String.eqb (ba_ActionID a) ActionApprove then Some true
  else if String.eqb (ba_ActionID a) ActionCancel then Some false
  else None.

Section thread.
Context {R : Type} `{SlackRuntime R} (h : Handler).

Definition decide_action (cb : InteractionCallback) (a : BlockAction) : M (world R) unit :=
  match decision_of a with
  | None => mret ()
  | Some ok =>
      let '(taskID, approvalID) := decodeValue (ba_Value a) in
      _ ← rt_op (sr_Approve taskID approvalID ok (identity (cb_UserID cb))); mret ()
  end.

Definition say_action (cb : InteractionCallback) (a : BlockAction) : M (world R) unit :=
  let say := post (cb_ChannelID cb) (cb_MessageTimestamp cb) in
  if String.eqb (ba_ActionID a) ActionApprove then
    say "Approved." (statusBlocks ("Approved by <@" +:+ cb_UserID cb +:+ "> — resuming."))
  else if String.eqb (ba_ActionID a) ActionCancel then
    say "Cancelled." (statusBlocks (":no_entry: Cancelled by <@" +:+ cb_UserID cb +:+ ">."))
  else if String.eqb (ba_ActionID a) ActionReview then
    say "Left for review." (statusBlocks ("Left pending for review by <@" +:+ cb_UserID cb +:+ ">."))
  else mret ().

(** The next step; [now] is the clock if the step reads it. *)
Definition thread_step (now : Z) (p : pc) : M (world R) pc :=
  match p with
  | JStart j =>
      if nonempty (TrimSpace (j_text j)) then
        _ ← post (j_channel j) (j_threadTS j) "Got it — working on it."
              (statusBlocks "Got it — working on it…");
        mret (JSubmit j)
      else mret Finished
  | JSubmit j =>
      r ← rt_op (sr_Submit (submit_body j));
      mret (match r with Err e => JFail j e | Ok id => JDeadline j id end)
  | JFail j e =>
      _ ← post (j_channel j) (j_threadTS j) "Could not start the task." (errorBlocks (Error e));
      mret Finished
  | JDeadline j id => mret (JCheck j (now + pollFor h) id ∅)
  | JCheck j d id posted => mret (if now <? d then JGet j d id posted else JTimeout j)
  | JGet j d id posted =>
      r ← rt_op (sr_Get id);
      mret (match r with Err _ => JCheck j d id posted | Ok snap => JShow j d id posted snap end)
  | JShow j d id posted snap =>
      posted ← show_pending (j_channel j) (j_threadTS j) id snap posted;
      mret (JEnd j d id posted snap)
  | JEnd j d id posted snap =>
      ended ← show_end (j_channel j) (j_threadTS j) snap;
      mret (if (ended : bool) then Finished else JCheck j d id posted)
  | JTimeout j =>
      _ ← post (j_channel j) (j_threadTS j) "Task timed out."
            (errorBlocks "task timed out before completing");
      mret Finished
  | CActions cb [] => mret Finished
  | CActions cb (a :: l) => _ ← decide_action cb a; mret (CSay cb a l)
  | CSay cb a l => _ ← say_action cb a; mret (CActions cb l)
  | Finished => mret Finished
  end.

(** A thread alone, with the clock at each of its steps. *)
Fixpoint alone (ns : list Z) (p : pc) : M (world R) pc :=
  match ns with
  | [] => mret p
  | now :: ns => p ← thread_step now p; alone ns p
  end.

Lemma alone_cons now ns p w : alone (now :: ns) p w = alone ns (thread_step now p w).1 (thread_step now p w).2.
Proof. cbn [alone]. apply M_bind_step. Qed.

Lemma alone_append ns ns' p w : alone (ns ++ ns') p w = alone ns' (alone ns p w).1 (alone ns p w).2.
Proof.
  revert p w. induction ns as [|now ns IH]; intros p w; [done|].
  cbn [app]. rewrite !alone_cons. apply IH.
Qed.

(** A click is its decision and then its message. *)
Lemma on_action_split cb a w :
  on_action cb a w = (_ ← decide_action cb a; say_action cb a) w.
Proof.
  rewrite M_bind_step. unfold on_action, decide_action, say_action, decision_of.
  destruct (decodeValue (ba_Value a)) as [id aid].
  destruct (String.eqb _ ActionApprove); [by rewrite !M_bind_step|].
  destruct (String.eqb _ ActionCancel); [by rewrite !M_bind_step|]. done.
Qed.

(** Alone, the threads do what the handlers do. *)
Lemma click_alone cb l w :
  ∃ ns, alone ns (CActions cb l) w = (Finished, (on_actions cb l w).2).
Proof.
  revert w. induction l as [|a l IH]; intros w; [by exists [0]|].
  destruct (IH (on_action cb a w).2) as [ns Hns]. exists (0 :: 0 :: ns).
  rewrite !alone_cons. cbn [thread_step on_actions]. rewrite !M_bind_step.
  cbn [fst snd mret M_ret]. cbn [thread_step]. rewrite M_bind_step. cbn [fst snd mret M_ret].
  rewrite on_action_split, M_bind_step in *. exact Hns.
Qed.

Lemma poll_alone fuel clock i d j id posted w w' :
  poll fuel clock i d (j_channel j) (j_threadTS j) id posted w = (Some (), w') →
  ∃ ns, alone ns (JCheck j d id posted) w = (Finished, w').
Proof.
  revert i posted w. induction fuel as [|fuel IH]; intros i posted w; [done|]. rewrite poll_S.
  destruct (clock i <? d) eqn:Hlt.
  2: { rewrite M_bind_step. intros [= <-]. exists [clock i; 0]. rewrite !alone_cons.
       cbn [thread_step mret M_ret fst snd]. rewrite Hlt. cbn [thread_step]. by rewrite M_bind_step. }
  assert (∀ ns, alone (clock i :: 0 :: ns) (JCheck j d id posted) w =
    alone ns (match (rt_op (sr_Get id) w).1 with
              | Err _ => JCheck j d id posted | Ok snap => JShow j d id posted snap end)
      (rt_op (sr_Get id) w).2) as Hget.
  { intros ns. rewrite !alone_cons. cbn [thread_step mret M_ret fst snd]. rewrite Hlt.
    cbn [thread_step]. by rewrite M_bind_step. }
  rewrite M_bind_step. destruct (rt_op (sr_Get id) w) as [[snap|e] w1]; cbn [fst snd] in *.
  - rewrite M_bind_step. destruct (show_pending _ _ _ _ _ w1) as [posted' w2] eqn:Hs. cbn [fst snd].
    rewrite M_bind_step. destruct (show_end _ _ _ w2) as [ended w3] eqn:He. cbn [fst snd].
    intros Hp.
    assert (∀ ns, alone (clock i :: 0 :: 0 :: 0 :: ns) (JCheck j d id posted) w =
      alone ns (if ended then Finished else JCheck j d id posted') w3) as Hshow.
    { intros ns. rewrite Hget, !alone_cons. cbn [thread_step]. rewrite M_bind_step, Hs.
      cbn [fst snd mret M_ret thread_step]. by rewrite M_bind_step, He. }
    destruct ended; [injection Hp as <-; exists [clock i; 0; 0; 0]; by rewrite Hshow|].
    apply IH in Hp as [ns Hns]. exists (clock i :: 0 :: 0 :: 0 :: ns). by rewrite Hshow.
  - intros Hp. apply IH in Hp as [ns Hns]. exists (clock i :: 0 :: ns). by rewrite Hget.
Qed.

Lemma job_alone fuel start clock j w w' :
  runTask h fuel start clock j w = (Some (), w') →
  ∃ ns, alone ns (JStart j) w = (Finished, w').
Proof.
  unfold runTask. destruct (nonempty (TrimSpace (j_text j))) eqn:Hb.
  2: { intros [= <-]. exists [0]. rewrite alone_cons. cbn [thread_step]. by rewrite Hb. }
  rewrite M_bind_step, M_bind_step. set (w1 := (post _ _ _ _ w).2).
  assert (∀ ns, alone (0 :: 0 :: ns) (JStart j) w =
    alone ns (match (rt_op (sr_Submit (submit_body j)) w1).1 with
              | Err e => JFail j e | Ok id => JDeadline j id end)
      (rt_op (sr_Submit (submit_body j)) w1).2) as Hsub.
  { intros ns. rewrite !alone_cons. cbn [thread_step]. rewrite Hb, M_bind_step. fold w1.
    cbn [fst snd mret M_ret thread_step]. by rewrite M_bind_step. }
  fold (submit_body j).
  destruct (rt_op (sr_Submit (submit_body j)) w1) as [[id|e] w2]; cbn [fst snd] in *.
  - intros [ns Hns]%poll_alone. exists (0 :: 0 :: start :: ns). by rewrite Hsub, alone_cons.
  - rewrite M_bind_step. intros [= <-]. exists [0; 0; 0]. rewrite Hsub, alone_cons.
    cbn [thread_step]. by rewrite M_bind_step.
Qed.
End thread.

(** ** The process *)

Section process.
Context {R : Type} `{SlackRuntime R} (sdk : SDK) (h : Handler).

Record slack := SlackProcess { sl_world : world (recorded R); sl_threads : list pc }.
Implicit Types (y : slack) (w : world (recorded R)).

Inductive slack_event : Type :=
  | PostEvents (r : SlackRequest)
  | PostInteractions (r : SlackRequest)
  | Step (i : nat) (now : Z)              (* a step of a thread *)
  | Elsewhere (f : R → R).                (* the runtime moves by itself *)
Implicit Types (es : list slack_event).

(** The callback whose buttons an interaction handler works off. *)
Definition clicked (r : SlackRequest) : option InteractionCallback :=
  b ← verify sdk h r;
  cb ← UnmarshalCallback sdk (Values_Get (ParseQuery b) "payload");
  if String.eqb (cb_Type cb) "block_actions" then Some cb else None.

Definition spawn (p : option pc) y : slack :=
  {| sl_world := sl_world y; sl_threads := sl_threads y ++ from_option (λ p, [p]) [] p |}.

Definition happen y (e : slack_event) : slack :=
  match e with
  | PostEvents r => spawn (JStart <$> (Events sdk h r).2) y
  | PostInteractions r => spawn ((λ cb, CActions cb (cb_BlockActions cb)) <$> clicked r) y
  | Step i now =>
      match sl_threads y !! i with
      | None => y
      | Some p => let '(p, w) := thread_step h now p (sl_world y) in
                  {| sl_world := w; sl_threads := <[i := p]> (sl_threads y) |}
      end
  | Elsewhere f =>
      {| sl_world := {| w_rt := {| rc_rt := f (rc_rt (w_rt (sl_world y)));
                                   rc_calls := rc_calls (w_rt (sl_world y)) |};
                        w_posts := w_posts (sl_world y) |};
         sl_threads := sl_threads y |}
  end.

Definition happens es y : slack := foldl happen y es.

(** The process has just started. *)
Definition slack_start (r : R) : slack :=
  {| sl_world := {| w_rt := {| rc_rt := r; rc_calls := [] |}; w_posts := [] |};
     sl_threads := [] |}.

(** The interaction handler does for a request what its thread does. *)
Lemma Interactions_thread r w :
  (Interactions sdk h r w).2 =
  match clicked r with Some cb => (on_actions cb (cb_BlockActions cb) w).2 | None => w end.
Proof.
  unfold Interactions, clicked. destruct (verify sdk h r) as [b|]; [|done]. cbn [mbind option_bind].
  destruct (UnmarshalCallback _ _) as [cb|]; [|done]. cbn [mbind option_bind]. rewrite M_bind_step.
  by destruct (String.eqb _ _).
Qed.

(** ** Where requests and messages come from *)

Abbreviation calls w := (rc_calls (w_rt w)).

Definition started es (j : Job) : Prop := ∃ r, PostEvents r ∈ es ∧ (Events sdk h r).2 = Some j.

Definition clicked_in es (cb : InteractionCallback) : Prop :=
  ∃ r, PostInteractions r ∈ es ∧ clicked r = Some cb.

Definition call_ok es (c : rt_call) : Prop :=
  match c with
  | CallSubmit b _ => ∃ j, started es j ∧ b = submit_body j ∧ ¬ blank (j_text j)
  | CallApprove id aid ok by_ =>
      ∃ cb a, clicked_in es cb ∧ a ∈ cb_BlockActions cb ∧ decodeValue (ba_Value a) = (id, aid) ∧
        decision_of a = Some ok ∧ by_ = identity (cb_UserID cb)
  end.

Definition has_buttons (m : Message) : Prop := ∃ id bs, ActionBlock id bs ∈ msg_Blocks m.

(** A message goes to the thread of the request it belongs to, and buttons are
    shown for a task that this request started. *)
Definition message_ok es (cs : list rt_call) (m : Message) : Prop :=
  (∃ j, started es j ∧ msg_Channel m = j_channel j ∧ msg_ThreadTS m = j_threadTS j ∧
     (has_buttons m → ∃ id p, CallSubmit (submit_body j) (Ok id) ∈ cs ∧
        m = approval_message (j_channel j) (j_threadTS j) id p)) ∨
  (∃ cb, clicked_in es cb ∧ msg_Channel m = cb_ChannelID cb ∧
     msg_ThreadTS m = cb_MessageTimestamp cb ∧ ¬ has_buttons m).

Definition belongs es (cs : list rt_call) (p : pc) : Prop :=
  match p with
  | JStart j | JFail j _ | JTimeout j => started es j
  | JSubmit j => started es j ∧ ¬ blank (j_text j)
  | JDeadline j id | JCheck j _ id _ | JGet j _ id _ | JShow j _ id _ _ | JEnd j _ id _ _ =>
      started es j ∧ CallSubmit (submit_body j) (Ok id) ∈ cs
  | CActions cb l => clicked_in es cb ∧ ∀ a, a ∈ l → a ∈ cb_BlockActions cb
  | CSay cb a l => clicked_in es cb ∧ ∀ a, a ∈ l → a ∈ cb_BlockActions cb
  | Finished => True
  end.

(** How many submissions and decisions a thread may still send, an event may
    cause, and a list of calls has. *)
Definition decisions (l : list BlockAction) : nat :=
  length (filter (λ a, is_Some (decision_of a)) l).

Definition due (p : pc) : nat * nat :=
  match p with
  | JStart _ | JSubmit _ => (1, 0)%nat
  | CActions _ l | CSay _ _ l => (0, decisions l)%nat
  | _ => (0, 0)%nat
  end.

Definition causes (e : slack_event) : nat * nat :=
  match e with
  | PostEvents r => (match (Events sdk h r).2 with Some _ => 1 | None => 0 end, 0)%nat
  | PostInteractions r =>
      (0, match clicked r with Some cb => decisions (cb_BlockActions cb) | None => 0 end)%nat
  | _ => (0, 0)%nat
  end.

Definition sent (c : rt_call) : nat * nat :=
  match c with CallSubmit _ _ => (1, 0)%nat | CallApprove _ _ _ _ => (0, 1)%nat end.

Definition total {A} (f : A → nat * nat) (l : list A) : nat * nat :=
  (sum_list_with (fst ∘ f) l, sum_list_with (snd ∘ f) l).

Lemma total_app {A} (f : A → nat * nat) l k :
  total f (l ++ k) = ((total f l).1 + (total f k).1, (total f l).2 + (total f k).2)%nat.
Proof. unfold total. cbn [fst snd]. by rewrite !sum_list_with_app. Qed.

Lemma total_insert {A} (f : A → nat * nat) l i a b :
  l !! i = Some a →
  ((total f (<[i := b]> l)).1 + (f a).1 = (total f l).1 + (f b).1 ∧
   (total f (<[i := b]> l)).2 + (f a).2 = (total f l).2 + (f b).2)%nat.
Proof.
  intros Hi. rewrite <-(take_drop_middle l i a Hi) at 2 4.
  rewrite insert_take_drop by by eapply lookup_lt_Some.
  rewrite !total_app. unfold total. simpl. lia.
Qed.

(** ** What a step does *)

(** A step appends some calls and some messages. *)
Record effect es w (p : pc) (p' : pc) w' (cs : list rt_call) (ms : list Message) : Prop := {
  ef_calls : calls w' = calls w ++ cs;
  ef_posts : w_posts w' = w_posts w ++ ms;
  ef_call_ok : Forall (call_ok es) cs;
  ef_message_ok : Forall (message_ok es (calls w)) ms;
  ef_belongs : belongs es (calls w ++ cs) p';
  ef_due : ((total sent cs).1 + (due p').1 ≤ (due p).1 ∧
            (total sent cs).2 + (due p').2 ≤ (due p).2)%nat;
}.

Lemma plain_message es cs j m :
  started es j → msg_Channel m = j_channel j → msg_ThreadTS m = j_threadTS j →
  ¬ has_buttons m → message_ok es cs m.
Proof. intros ????. left. exists j. by repeat split. Qed.

Lemma no_buttons m : Forall (λ b, match b with ActionBlock _ _ => False | _ => True end) (msg_Blocks m) →
  ¬ has_buttons m.
Proof. rewrite Forall_forall. by intros Hf (id & bs & Hin%Hf). Qed.

(** A step without calls and with at most plain messages. *)
Lemma effect_quiet es w p p' w' ms :
  calls w' = calls w → w_posts w' = w_posts w ++ ms → Forall (message_ok es (calls w)) ms →
  belongs es (calls w) p' → ((due p').1 ≤ (due p).1 ∧ (due p').2 ≤ (due p).2)%nat →
  ∃ cs ms, effect es w p p' w' cs ms.
Proof.
  intros Hc Hp Hm Hb Hd. exists [], ms. split; rewrite ?app_nil_r; [done..|]. cbn. lia.
Qed.

Lemma show_pending_effect es j d id posted snap w :
  belongs es (calls w) (JShow j d id posted snap) →
  let '(posted', w') := show_pending (j_channel j) (j_threadTS j) id snap posted w in
  ∃ ms, calls w' = calls w ∧ w_posts w' = w_posts w ++ ms ∧ Forall (message_ok es (calls w)) ms.
Proof.
  intros [Hj Hid]. unfold show_pending.
  destruct (Pending snap) as [pa|]; [|exists []; by rewrite app_nil_r].
  case_decide; [exists []; by rewrite app_nil_r|]. rewrite M_bind_step.
  exists [approval_message (j_channel j) (j_threadTS j) id pa].
  split; [done|]. split; [done|]. constructor; [|done]. left. exists j.
  do 3 (split; [done|]). intros _. by exists id, pa.
Qed.

Lemma show_end_effect es j snap w :
  started es j →
  let '(ended, w') := show_end (j_channel j) (j_threadTS j) snap w in
  ∃ ms, calls w' = calls w ∧ w_posts w' = w_posts w ++ ms ∧ Forall (message_ok es (calls w)) ms.
Proof.
  intros Hj. unfold show_end.
  destruct (String.eqb (Status snap) "done"); [|destruct (String.eqb (Status snap) "error")];
    [rewrite M_bind_step; eexists [_]; (split; [done|]; split; [done|]); constructor; [|done];
     apply (plain_message _ _ j); [done..|]; apply no_buttons; by repeat constructor..|].
  exists []. by rewrite app_nil_r.
Qed.

Lemma say_effect es cb a w :
  clicked_in es cb →
  ∃ ms, calls (say_action cb a w).2 = calls w ∧ w_posts (say_action cb a w).2 = w_posts w ++ ms ∧
    Forall (message_ok es (calls w)) ms.
Proof.
  intros Hcb. unfold say_action.
  destruct (String.eqb _ ActionApprove); [|destruct (String.eqb _ ActionCancel);
    [|destruct (String.eqb _ ActionReview); [|exists []; by rewrite app_nil_r]]];
    (eexists [_]; (split; [done|]; split; [done|]); constructor; [|done];
     right; exists cb; do 3 (split; [done|]); apply no_buttons; by repeat constructor).
Qed.

Lemma decide_effect es cb a w :
  clicked_in es cb → a ∈ cb_BlockActions cb →
  ∃ cs, calls (decide_action cb a w).2 = calls w ++ cs ∧
    w_posts (decide_action cb a w).2 = w_posts w ∧ Forall (call_ok es) cs ∧
    total sent cs = (0, decisions [a])%nat.
Proof.
  intros Hcb Ha. unfold decide_action, decisions. rewrite filter_cons.
  destruct (decision_of a) as [ok|] eqn:Hd.
  - destruct (decodeValue (ba_Value a)) as [id aid] eqn:Hv. rewrite M_bind_step.
    exists [CallApprove id aid ok (identity (cb_UserID cb))]. unfold rt_op. cbn.
    destruct (sr_Approve _ _ _ _ _) as [x r]. cbn.
    do 2 (split; [done|]). split; [|by rewrite decide_True by by eexists].
    constructor; [|done]. by exists cb, a.
  - exists []. rewrite app_nil_r. do 3 (split; [done|]).
    by rewrite decide_False by by intros [? ?].
Qed.

Lemma decisions_cons a l : decisions (a :: l) = (decisions [a] + decisions l)%nat.
Proof.
  unfold decisions. rewrite !filter_cons, filter_nil. by destruct (decide (is_Some (decision_of a))).
Qed.

Lemma thread_step_effect es now p w :
  belongs es (calls w) p →
  ∃ cs ms, effect es w p (thread_step h now p w).1 (thread_step h now p w).2 cs ms.
Proof.
  destruct p as [j|j|j e|j id|j d id posted|j d id posted|j d id posted snap|j d id posted snap|j
                |cb [|a l]|cb a l|]; cbn [thread_step]; intros Hb.
  - destruct (nonempty (TrimSpace (j_text j))) eqn:Ht.
    + rewrite M_bind_step. apply nonempty_true in Ht. eapply effect_quiet; try done.
      constructor; [|done]. apply (plain_message _ _ j); try done.
      apply no_buttons. by repeat constructor.
    + apply (effect_quiet _ _ _ _ _ []); rewrite ?app_nil_r; try done. cbn. lia.
  - rewrite M_bind_step. unfold rt_op. destruct Hb as [Hj Ht]. cbn.
    destruct (sr_Submit (submit_body j) _) as [x r]. cbn.
    exists [CallSubmit (submit_body j) x], []. split; cbn; rewrite ?app_nil_r; try done.
    + constructor; [|done]. by exists j.
    + destruct x as [id|e]; [|done]. split; [done|]. set_solver.
    + destruct x; cbn; lia.
  - rewrite M_bind_step. eapply effect_quiet; try done. constructor; [|done].
    apply (plain_message _ _ j); try done. apply no_buttons. by repeat constructor.
  - apply (effect_quiet _ _ _ _ _ []); rewrite ?app_nil_r; done.
  - apply (effect_quiet _ _ _ _ _ []); rewrite ?app_nil_r; try done; destruct (now <? d); try done;
      by destruct Hb.
  - rewrite M_bind_step. unfold rt_op. cbn. destruct (sr_Get id _) as [x r]. cbn.
    apply (effect_quiet _ _ _ _ _ []); rewrite ?app_nil_r; try done; by destruct x.
  - rewrite M_bind_step. pose proof (show_pending_effect _ _ _ _ _ _ _ Hb) as Hs.
    destruct (show_pending _ _ _ _ _ w) as [posted' w']. destruct Hs as (ms & Hc & Hp & Hm).
    by eapply effect_quiet.
  - rewrite M_bind_step. destruct Hb as [Hj Hid]. pose proof (show_end_effect es j snap w Hj) as Hs.
    destruct (show_end _ _ _ w) as [ended w']. destruct Hs as (ms & Hc & Hp & Hm).
    by eapply effect_quiet; [done..| |]; destruct ended.
  - rewrite M_bind_step. eapply effect_quiet; try done. constructor; [|done].
    apply (plain_message _ _ j); try done. apply no_buttons. by repeat constructor.
  - apply (effect_quiet _ _ _ _ _ []); rewrite ?app_nil_r; try done.
  - rewrite M_bind_step. destruct Hb as [Hcb Hl].
    destruct (decide_effect es cb a w Hcb) as (cs & Hc & Hp & Hok & Hn); [apply Hl; by left|].
    exists cs, []. split; rewrite ?app_nil_r; try done.
    + split; [done|]. intros b Hbl. apply Hl. by right.
    + rewrite Hn. cbn [fst snd due mret M_ret]. rewrite (decisions_cons a l). lia.
  - rewrite M_bind_step. destruct Hb as [Hcb Hl].
    destruct (say_effect es cb a w Hcb) as (ms & Hc & Hp & Hm). by eapply effect_quiet.
  - apply (effect_quiet _ _ _ _ _ []); rewrite ?app_nil_r; done.
Qed.

(** ** Safety *)

Record in_order es y : Prop := {
  io_threads : ∀ p, p ∈ sl_threads y → belongs es (calls (sl_world y)) p;
  io_calls : Forall (call_ok es) (calls (sl_world y));
  io_posts : Forall (message_ok es (calls (sl_world y))) (w_posts (sl_world y));
  io_due : ((total sent (calls (sl_world y))).1 + (total due (sl_threads y)).1 ≤ (total causes es).1 ∧
            (total sent (calls (sl_world y))).2 + (total due (sl_threads y)).2 ≤ (total causes es).2)%nat;
}.

(** All of it only grows with the events and the calls. *)
Lemma started_mono es e j : started es j → started (es ++ [e]) j.
Proof. intros (r & ? & ?). exists r. split; [set_solver|done]. Qed.

Lemma clicked_mono es e cb : clicked_in es cb → clicked_in (es ++ [e]) cb.
Proof. intros (r & ? & ?). exists r. split; [set_solver|done]. Qed.

Lemma call_mono es e c : call_ok es c → call_ok (es ++ [e]) c.
Proof.
  destruct c; cbn; [intros (j & ? & ?)|intros (cb & a & ? & ?)]; eauto 10 using started_mono, clicked_mono.
Qed.

Lemma message_mono es e cs ds m : message_ok es cs m → message_ok (es ++ [e]) (cs ++ ds) m.
Proof.
  intros [(j & ? & ? & ? & Hb)|(cb & ? & ?)]; [left|right; eauto using clicked_mono].
  exists j. split; [by apply started_mono|]. do 2 (split; [done|]).
  intros (id & p & ? & ?)%Hb. exists id, p. set_solver.
Qed.

Lemma belongs_mono es e cs ds p : belongs es cs p → belongs (es ++ [e]) (cs ++ ds) p.
Proof.
  destruct p; cbn; try done; try (by apply started_mono); try (by intros []; split; eauto using started_mono, clicked_mono);
    intros []; (split; [by apply started_mono|set_solver]).
Qed.

Lemma in_order_later es e y : in_order es y → in_order (es ++ [e]) y.
Proof.
  intros [Ht Hc Hp Hd]. split.
  - intros p Hin. rewrite <-(app_nil_r (calls _)). by apply belongs_mono, Ht.
  - eapply Forall_impl; [done|]. intros c. apply call_mono.
  - eapply Forall_impl; [done|]. intros m Hm. rewrite <-(app_nil_r (calls _)). by apply message_mono.
  - rewrite total_app. cbn [fst snd]. lia.
Qed.

(** A new thread for an event that may cause what it will do. *)
Lemma in_order_spawn es e y p :
  in_order es y →
  (∀ q, p = Some q → belongs (es ++ [e]) [] q) →
  total due (from_option (λ p, [p]) [] p) = causes e →
  in_order (es ++ [e]) (spawn p y).
Proof.
  intros Hy Hb Hd. pose proof Hy as [_ _ _ Hn]. apply in_order_later with (e := e) in Hy.
  destruct Hy as [Ht Hc Hp _]. split; cbn [spawn sl_world sl_threads]; [|done|done|].
  - intros q [?|Hq]%elem_of_app; [by apply Ht|]. destruct p as [p|]; [|by apply elem_of_nil in Hq].
    apply list_elem_of_singleton in Hq as ->. specialize (Hb p eq_refl).
    destruct p; cbn in *; try done; by destruct Hb as [_ []%elem_of_nil].
  - rewrite !total_app, Hd.
    change (total causes [e]) with ((causes e).1 + 0, (causes e).2 + 0)%nat. cbn [fst snd]. lia.
Qed.

Lemma message_more es cs ds m : message_ok es cs m → message_ok es (cs ++ ds) m.
Proof.
  intros [(j & ? & ? & ? & Hb)|?]; [left|by right]. exists j. do 3 (split; [done|]).
  intros (id & p & ? & ?)%Hb. exists id, p. set_solver.
Qed.

Lemma belongs_more es cs ds p : belongs es cs p → belongs es (cs ++ ds) p.
Proof. destruct p; cbn; try done; intros []; (split; [done|set_solver]). Qed.

Lemma total_one {A} (f : A → nat * nat) a : total f [a] = f a.
Proof. unfold total. simpl. destruct (f a). cbn. f_equal; lia. Qed.

Lemma decision_of_Some a ok :
  decision_of a = Some ok → ba_ActionID a = if ok then ActionApprove else ActionCancel.
Proof.
  unfold decision_of. destruct (String.eqb_spec (ba_ActionID a) ActionApprove); [by intros [= <-]|].
  destruct (String.eqb_spec (ba_ActionID a) ActionCancel); by intros [= <-].
Qed.

(** Without a signing secret every request passes, a mode for development. *)
Definition signature_ok (q : SlackRequest) : Prop :=
  signingSecret h = EmptyString ∨ Ensure sdk (sq_header q) (signingSecret h) (sq_body q) = true.

Lemma clicked_signed q cb : clicked q = Some cb → signature_ok q.
Proof.
  unfold clicked, verify, signature_ok. destruct (negb _ || _) eqn:Hv; [|done]. intros _.
  apply orb_true_iff in Hv as [Hv%negb_true_iff%nonempty_false|Hv]; auto.
Qed.

Lemma in_order_step es y i now : in_order es y → in_order es (happen y (Step i now)).
Proof.
  intros Hy. pose proof Hy as [Ht Hc Hp Hd]. cbn [happen].
  destruct (sl_threads y !! i) as [p|] eqn:Hi; [|done].
  destruct (thread_step_effect es now p (sl_world y)) as (cs & ms & [Hcs Hms Hcok Hmok Hb Hdue]);
    [by apply Ht, list_elem_of_lookup_2 with i|].
  destruct (thread_step h now p (sl_world y)) as [p' w']. cbn [fst snd] in *.
  destruct (total_insert due _ i _ p' Hi) as [H1 H2].
  split; cbn [sl_world sl_threads]; rewrite ?Hcs, ?Hms.
  - intros q [k Hk]%list_elem_of_lookup. destruct (decide (i = k)) as [<-|Hne].
    + rewrite list_lookup_insert_eq in Hk by by eapply lookup_lt_Some. by injection Hk as <-.
    + rewrite list_lookup_insert_ne in Hk by done. apply list_elem_of_lookup_2, Ht in Hk.
      by apply belongs_more.
  - by apply Forall_app.
  - apply Forall_app. split; (eapply Forall_impl; [done|]); intros m; apply message_more.
  - rewrite total_app. cbn [fst snd]. lia.
Qed.

Lemma in_order_happens es r : in_order es (happens es (slack_start r)).
Proof.
  induction es as [|e es IH] using rev_ind.
  - split; [by intros p ?%elem_of_nil|done|done|cbn; lia].
  - unfold happens. rewrite foldl_app. cbn [foldl]. fold (happens es (slack_start r)).
    set (y := happens es (slack_start r)) in *. destruct e as [q|q|i now|f].
    + apply in_order_spawn; [done| |].
      * intros p. destruct (Events sdk h q).2 as [j|] eqn:Hj; [|done]. intros [= <-].
        exists q. split; [set_solver|done].
      * cbn [causes]. by destruct (Events sdk h q).2.
    + apply in_order_spawn; [done| |].
      * intros p. destruct (clicked q) as [cb|] eqn:Hcb; [|done]. intros [= <-].
        split; [|done]. exists q. split; [set_solver|done].
      * cbn [causes]. destruct (clicked q) as [cb|]; [|done].
        apply (total_one due (CActions cb (cb_BlockActions cb))).
    + by apply in_order_later, in_order_step.
    + by apply in_order_later; destruct IH.
Qed.

(** C24: In the life of a Slack gateway process, however its background tasks and button
    clicks interleave with each other and whatever the runtime answers: a task is
    submitted only for an event whose signature verified (or any, without a signing
    secret) that is an app mention by someone else than the bot or a plain direct message
    of a person, with the text without mentions and the identity of the author, and no
    more often than there were such events; a decision is sent only for a button in an
    interaction whose signature verified, granting for Approve and denying for Cancel, for
    the task and approval of the button's value and in the clicker's name, and no more
    often than there were such buttons; every message goes to the thread of such a
    request, and buttons are shown only there for a task that this request started. *)
Theorem slack_process_safe es r :
  let y := happens es (slack_start r) in
  (∀ b x, CallSubmit b x ∈ calls (sl_world y) →
     ∃ q e, PostEvents q ∈ es ∧ signature_ok q ∧
       (ParseEvent sdk (sq_body q) = Some (AppMentionEvent e) ∨
        ParseEvent sdk (sq_body q) = Some (MessageEvent e) ∧ ie_BotID e = EmptyString ∧
        ie_SubType e = EmptyString ∧ ie_ChannelType e = "im"%string) ∧
       ie_User e ≠ botUserID h ∧ b = submit_body (job_of e)) ∧
  (∀ id aid ok by_, CallApprove id aid ok by_ ∈ calls (sl_world y) →
     ∃ q cb a, PostInteractions q ∈ es ∧ signature_ok q ∧ clicked q = Some cb ∧
       a ∈ cb_BlockActions cb ∧ ba_ActionID a = (if ok then ActionApprove else ActionCancel) ∧
       decodeValue (ba_Value a) = (id, aid) ∧ by_ = identity (cb_UserID cb)) ∧
  ((total sent (calls (sl_world y))).1 ≤ (total causes es).1 ∧
   (total sent (calls (sl_world y))).2 ≤ (total causes es).2)%nat ∧
  Forall (message_ok es (calls (sl_world y))) (w_posts (sl_world y)).
Proof.
  intros y. destruct (in_order_happens es r) as [_ Hc Hp Hd]. fold y in Hc, Hp, Hd.
  rewrite Forall_forall in Hc. split; [|split; [|split; [lia|done]]].
  - intros b x (j & (q & Hq & Hj) & -> & _)%Hc.
    destruct (Events_jobs _ _ _ _ Hj) as (Hv & e & -> & Hu & He). by exists q, e.
  - intros id aid ok by_ (cb & a & (q & Hq & Hcb) & Ha & Hval & Hdec & ->)%Hc.
    exists q, cb, a. split; [done|]. split; [by eapply clicked_signed|].
    do 2 (split; [done|]). split; [by apply decision_of_Some|done].
Qed.
End process.

(** ** A mention, a forged click and a click *)

#[local] Existing Instance scripted.

Definition unsigned (b : string) : SlackRequest := {| sq_header := ∅; sq_body := b |}.

Definition sample_life : list (slack_event (R:=nat)) :=
  PostEvents (signed "mention") :: PostEvents (unsigned "mention") ::
  PostInteractions (unsigned "payload=click") ::
  [Step 0 0; Step 0 0; Step 0 0; Step 0 1; Step 0 1; Step 0 1; Step 0 1] ++
  PostInteractions (signed "payload=click") :: [Step 1 2; Step 1 2; Step 1 2] ++
  [Step 0 3; Step 0 3; Step 0 3; Step 0 3].

(** One task and one decision; the thread of the mention ends with the result. *)
Example sample_life_calls :
  let y := happens sample_sdk (New "secret" "B1") sample_life (slack_start 0%nat) in
  rc_calls (w_rt (sl_world y)) =
    [CallSubmit (submit_body {| j_channel := "C1"; j_threadTS := "17.4"; j_identity := "slack:U1";
                                j_text := "screen them" |}) (Ok "t1"%string);
     CallApprove "1" "a1" true "slack:U9"] ∧
  msg_Fallback <$> w_posts (sl_world y) =
    ["Got it — working on it."; "Approval required."; "Approved."; "Done."]%string ∧
  sl_threads y = [Finished; Finished].
Proof. vm_compute. done. Qed.
