(* ===== verification/Scheduler.v ===== *)
(** * The scheduler (services/scheduler)

    Which recurring jobs are due at a tick, and their submission to the
    runtime. Cron expressions are a library's: parsing one, and the next
    activation of what it parses to, are parameters. *)

From S2P Require Import Prelude GoText Float64 Json Http Recipe Task RuntimeServer RuntimeClient.
From Stdlib Require Import ZArith Lia Ascii.
From stdpp Require Import options.

Open Scope Z_scope.
Open Scope list_scope.

Record Job := MkJob {
  job_Name : string;
  job_Spec : string;
  job_Recipe : string;
  job_Committee : string;
  job_Params : option (gmap string string);   (* None is the nil map *)
}.

Record RunResult := MkRunResult { rr_Job : string; rr_TaskID : string; rr_Err : string }.

(** [cron.Schedule]: the activation after an instant. Instants are nanoseconds
    since the epoch. *)
Record Schedule := MkSchedule { Next : Z → Z }.

Definition sec : Z := 1000000000.
Definition min : Z := 60 * sec.

(** [now.UTC().Truncate(time.Minute)] *)
Definition minute_of (now : Z) : Z := now - now `mod` min.

(** The interface [Runtime]. *)
Class JobRuntime (R : Type) := {
  jr_Submit : string → string → option (gmap string string) → R → result string * R;
}.

Record Scheduler := MkScheduler {
  jobs : list Job;
  parse : string → result Schedule;   (* cron.ParseStandard *)
}.

Definition fires_now (s : Schedule) (now : Z) : bool :=
  Next s (minute_of now - sec) =? minute_of now.

(** The loop over the jobs. *)
Fixpoint due_jobs (parse : string → result Schedule) (now : Z) (js : list Job) :
    result (list Job) :=
  match js with
  | [] => Ok []
  | j :: js =>
      match parse (job_Spec j) with
      | Err e => Err (Errorf_w "scheduler: job %q has invalid spec %q: "
                        [Fs (job_Name j); Fs (job_Spec j)] e)
      | Ok sched =>
          rest ← due_jobs parse now js;
          Ok (if fires_now sched now then j :: rest else rest)
      end
  end.

Definition Due (s : Scheduler) (now : Z) : result (list Job) := due_jobs (parse s) now (jobs s).

Section run.
Context {R : Type} `{JobRuntime R}.

(** The runtime, and the submissions made so far, the oldest first. *)
Record world := World {
  w_rt : R;
  w_submitted : list (string * string * option (gmap string string));
}.

Definition submission (j : Job) : string * string * option (gmap string string) :=
  (job_Recipe j, job_Committee j, job_Params j).

(** s.rt.Submit *)
Definition submit (j : Job) : M world (result string) := λ w,
  let '(r, rt) := jr_Submit (job_Recipe j) (job_Committee j) (job_Params j) (w_rt w) in
  (r, {| w_rt := rt; w_submitted := w_submitted w ++ [submission j] |}).

(** The runtime client answers an error with the empty id. *)
Definition run_job (j : Job) : M world RunResult :=
  r ← submit j;
  mret (match r with
        | Ok id => {| rr_Job := job_Name j; rr_TaskID := id; rr_Err := EmptyString |}
        | Err e => {| rr_Job := job_Name j; rr_TaskID := EmptyString; rr_Err := Error e |}
        end).

Fixpoint run_jobs (js : list Job) : M world (list RunResult) :=
  match js with
  | [] => mret []
  | j :: js => r ← run_job j; rs ← run_jobs js; mret (r :: rs)
  end.

Definition RunDue (s : Scheduler) (now : Z) : M world (result (list RunResult)) :=
  match Due s now with
  | Err e => mret (Err e)
  | Ok due => rs ← run_jobs due; mret (Ok rs)
  end.

(** The loop of cmd/scheduler over the ticks it receives; an error of a tick is
    only logged. *)
Fixpoint serve (s : Scheduler) (ticks : list Z) : M world (list (result (list RunResult))) :=
  match ticks with
  | [] => mret []
  | t :: ticks => r ← RunDue s t; rs ← serve s ticks; mret (r :: rs)
  end.
End run.
Arguments world : clear implicits.
Arguments World {R} _ _.

Definition DefaultSchedule : list Job :=
  [ {| job_Name := "weekly-leadership-digest"; job_Spec := "0 13 * * 1";
       job_Recipe := "shared/weekly-digest"; job_Committee := "leadership"; job_Params := None |};
    {| job_Name := "daily-reimbursement-screening"; job_Spec := "0 13 * * *";
       job_Recipe := "finance/screen-reimbursement"; job_Committee := "finance";
       job_Params := Some {["sheet_id" := EmptyString]} |} ]%string.

(** [Config.Jobs]: the schedule file, or the built-in jobs. Reading the file and
    decoding its array of jobs are arguments. *)
Definition Jobs (scheduleFile : string) (ReadFile : string → result string)
    (Unmarshal : string → result (list Job)) : result (list Job) :=
  if nonempty scheduleFile then
    match ReadFile scheduleFile with
    | Err e => Err (ErrWrap "config: read schedule file: " e)
    | Ok raw => match Unmarshal raw with
                | Err e => Err (ErrWrap "config: parse schedule file: " e)
                | Ok js => Ok js
                end
    end
  else Ok DefaultSchedule.

(** ** What the cron library promises

    The activations of a schedule are whole seconds, and [Next t] is the first
    one after [t]. *)
Record activates (s : Schedule) (fires : Z → Prop) : Prop := {
  act_second : ∀ u, fires u → u `mod` sec = 0;
  act_next : ∀ t u, t < u → fires u → (∀ v, t < v < u → ¬ fires v) → Next s t = u;
  act_fires : ∀ t, t < Next s t → fires (Next s t);
}.

(** ** Lemmas *)

Lemma minute_of_mod now : minute_of now `mod` min = 0.
Proof.
  unfold minute_of. rewrite Zminus_mod, Z.mod_mod, Z.sub_diag by done. done.
Qed.

Lemma minute_of_spec now m :
  m `mod` min = 0 → m <= now < m + min → minute_of now = m.
Proof.
  intros Hm Hn. unfold minute_of. assert (now `mod` min = now - m) as ->; [|lia].
  symmetry. apply Z.mod_unique with (q := m / min); [left; lia|].
  pose proof (Z.div_mod m min ltac:(done)). lia.
Qed.

Lemma fires_now_iff s fires now :
  activates s fires → fires_now s now = true ↔ fires (minute_of now).
Proof.
  intros [Hs Hn Hf]. unfold fires_now. rewrite Z.eqb_eq. split.
  - intros He. rewrite <-He. apply Hf. unfold sec in *. lia.
  - intros Hm. apply Hn; [unfold sec; lia|done|]. intros v Hv Hv'.
    apply Hs in Hv'. pose proof (Hs _ Hm) as Hm'.
    apply Z.mod_divide in Hv' as [a ->]; [|done]. apply Z.mod_divide in Hm' as [b Hb]; [|done].
    unfold sec in *. lia.
Qed.

Lemma due_jobs_ok parse now js due :
  due_jobs parse now js = Ok due ↔
  Forall (λ j, is_ok (parse (job_Spec j)) = true) js ∧
  due = filter (λ j, match parse (job_Spec j) with
                     | Ok s => fires_now s now | Err _ => false end = true) js.
Proof.
  revert due. induction js as [|j js IH]; intros due; cbn [due_jobs].
  { rewrite filter_nil. split; [by intros [= <-]|by intros [_ ->]]. }
  rewrite Forall_cons, filter_cons. destruct (parse (job_Spec j)) as [s|e] eqn:Hp; cbn [is_ok].
  - rewrite res_bind_Ok. split.
    + intros (rest & [Hall ->]%IH & [= <-]). split; [done|]. by destruct (fires_now s now).
    + intros [[_ Hall] ->]. eexists. split; [by apply IH|]. by destruct (fires_now s now).
  - naive_solver.
Qed.

Section theorems.
Context {R : Type} `{JobRuntime R}.
Implicit Types (w : world R).

Lemma run_jobs_spec js w :
  rr_Job <$> (run_jobs js w).1 = job_Name <$> js ∧
  w_submitted (run_jobs js w).2 = w_submitted w ++ (submission <$> js).
Proof.
  revert w. induction js as [|j js IH]; intros w; [by rewrite app_nil_r|].
  cbn [run_jobs]. unfold run_job, submit. rewrite !M_bind_step.
  destruct (jr_Submit _ _ _ (w_rt w)) as [r rt]. cbn [fst snd mret M_ret].
  set (w1 := World _ _). specialize (IH w1). destruct (run_jobs js w1) as [rs w2].
  cbn [fst snd] in *. destruct IH as [H1 H2]. rewrite H2. unfold w1. cbn [w_submitted].
  rewrite <-(assoc_L (++)). split; [|done]. rewrite !fmap_cons, H1. by destruct r.
Qed.

(** The jobs whose schedule fires in the minute of [t]. *)
Definition firing (fires : Job → Z → bool) (s : Scheduler) (t : Z) : list Job :=
  filter (λ j, fires j (minute_of t) = true) (jobs s).

Definition valid (fires : Job → Z → bool) (s : Scheduler) : Prop :=
  ∀ j, j ∈ jobs s → ∃ sched, parse s (job_Spec j) = Ok sched ∧
    activates sched (λ u, fires j u = true).

Lemma Due_firing fires s t : valid fires s → Due s t = Ok (firing fires s t).
Proof.
  intros Hv. unfold Due. apply due_jobs_ok. split.
  - apply Forall_forall. intros j (sched & -> & _)%Hv. done.
  - unfold firing.
    assert (∀ js : list Job, (∀ j, j ∈ js → j ∈ jobs s) →
      filter (λ j, fires j (minute_of t) = true) js =
      filter (λ j, match parse s (job_Spec j) with
                   | Ok sc => fires_now sc t | Err _ => false end = true) js) as Hf; [|by apply Hf].
    induction js as [|j js IH]; intros Hin; [done|]. rewrite !filter_cons.
    rewrite IH by (intros; apply Hin; by right).
    destruct (Hv j (Hin j (list_elem_of_here _ _))) as (sched & -> & Ha).
    pose proof (fires_now_iff sched (λ u, fires j u = true) t Ha) as Hi. cbn in Hi.
    destruct (fires j (minute_of t)), (fires_now sched t); naive_solver.
Qed.

(** When every spec parses, each tick submits exactly the jobs whose cron spec fires
    in the tick's minute, in their order and once each, whatever the runtime answers, and
    reports one result per submission. *)
Theorem serve_submissions fires s ticks w :
  valid fires s →
  let '(rs, w') := serve s ticks w in
  w_submitted w' = w_submitted w ++ (t ← ticks; submission <$> firing fires s t) ∧
  Forall2 (λ t r, ∃ l, r = Ok l ∧ rr_Job <$> l = job_Name <$> firing fires s t) ticks rs.
Proof.
  intros Hv. revert w. induction ticks as [|t ticks IH]; intros w.
  { cbn. rewrite app_nil_r. by split; [|constructor]. }
  cbn [serve]. unfold RunDue. rewrite (Due_firing fires) by done.
  rewrite !M_bind_step. pose proof (run_jobs_spec (firing fires s t) w) as [H1 H2].
  destruct (run_jobs (firing fires s t) w) as [l w1]. cbn [fst snd mret M_ret] in *.
  specialize (IH w1). destruct (serve s ticks w1) as [rs w2].
  cbn [fst snd] in *. destruct IH as [H3 H4]. rewrite H3, H2, <-(assoc_L (++)).
  split; [done|]. constructor; [|done]. by exists l.
Qed.

(** One job with a spec that does not parse: nothing is submitted at all. *)
Theorem bad_spec_stops_all s j e now w :
  j ∈ jobs s → parse s (job_Spec j) = Err e →
  is_ok (RunDue s now w).1 = false ∧ (RunDue s now w).2 = w.
Proof.
  intros Hj He. unfold RunDue. destruct (Due s now) as [due|e'] eqn:Hd; [|done].
  unfold Due in Hd. apply due_jobs_ok in Hd as [Hall _]. rewrite Forall_forall in Hall.
  specialize (Hall j Hj). by rewrite He in Hall.
Qed.
End theorems.

(** ** The scheduler in front of the runtime service *)

Lemma foldl_param_step (l : list (string * json)) : ∀ acc : gmap string string,
  Forall (λ kv, ∃ s, kv.2 = JStr s) l →
  ∃ r, foldl param_step (Some acc) l = Some r ∧
    JStr <$> r = foldl (λ m kv, <[kv.1 := kv.2]> m) (JStr <$> acc) l.
Proof.
  induction l as [|[k v] l IH]; intros acc; [by exists acc|].
  intros [[s Hs] Hl]%Forall_cons. cbn in Hs. subst v. cbn [foldl param_step fst snd].
  destruct (IH (<[k := s]> acc) Hl) as (r & Hr & He). exists r. split; [done|].
  by rewrite He, fmap_insert.
Qed.

Lemma foldl_insert_field_map (l : list (string * json)) :
  foldl (λ (m : gmap string json) kv, <[kv.1 := kv.2]> m) ∅ l = field_map l.
Proof.
  unfold field_map. induction l as [|[k v] l IH] using rev_ind; [done|].
  rewrite foldl_app, reverse_app. cbn. by rewrite IH.
Qed.

Lemma decode_json_params (ps : gmap string string) :
  foldl param_step (Some ∅) (map_fields (JStr <$> ps)) = Some ps.
Proof.
  destruct (foldl_param_step (map_fields (JStr <$> ps)) ∅) as (r & -> & He).
  - apply Forall_forall. intros [k v] Hin. unfold map_fields in Hin.
    rewrite elem_of_order_by in Hin. apply elem_of_map_to_list in Hin.
    rewrite lookup_fmap in Hin. destruct (ps !! k); simplify_eq/=. eauto.
  - rewrite fmap_empty, foldl_insert_field_map, field_map_map_fields in He.
    f_equal. by apply (map_fmap_inj JStr) in He; [|intros ?? [= ->]].
Qed.

Definition job_request (j : Job) : TaskRequest :=
  {| RecipeID := job_Recipe j; InlineGoal := EmptyString; Params := default ∅ (job_Params j);
     tr_Identity := EmptyString; Committee := job_Committee j; HardTask := false |}.

Lemma decode_job_request j :
  decode_body decode_TaskRequest
    (RawJSON (JObj [("committee", JStr (job_Committee j));
                    ("params", from_option json_params JNull (job_Params j));
                    ("recipe_id", JStr (job_Recipe j))]%string)) = Some (job_request j).
Proof.
  unfold decode_body, decode_TaskRequest, job_request.
  destruct (job_Params j) as [ps|]; [|reflexivity]. cbn [from_option default].
  unfold json_params. pose proof (decode_json_params ps) as Hp. unfold id.
  generalize dependent (map_fields (JStr <$> ps)). intros l Hl.
  match goal with |- context [decode_params ?fs] =>
    assert (decode_params fs = Some ps) as -> by exact Hl end.
  reflexivity.
Qed.

Section end_to_end.
Context {E : Type} `{Engine E} (base token : string) (prefer_done : bool).

#[local] Instance the_Transport : Transport (Service E) :=
  service_Transport base token prefer_done.

#[local] Instance client_JobRuntime : JobRuntime (Service E) := {
  jr_Submit rid com ps := sched_Submit {| baseURL := base; cl_token := token |} rid com ps;
}.

(** C14: Submitting a job over HTTP, with the base URL and the token configured, puts
    exactly one new task, built for the job's recipe with its committee and parameters,
    under the identifier that the runtime service draws, which the result reports, and
    leaves its tasks under other identifiers as they are; when the service cannot build
    the task, the result carries the error of its status 400 and the service's tasks are
    as before. *)
Theorem job_starts_task j (w : world (Service E)) :
  base ≠ EmptyString → token ≠ EmptyString →
  let sv := w_rt w in let m := sv_mgr sv in let id := sv_ids sv (sv_next sv) in
  let '(r, w') := run_job j w in
  match buildSpec (m_files m) (m_rt m) (job_request j) with
  | Ok spec =>
      r = {| rr_Job := job_Name j; rr_TaskID := id; rr_Err := EmptyString |} ∧
      sv_mgr (w_rt w') = set_task id (new_task (m_run m spec)) m
  | Err _ =>
      r = {| rr_Job := job_Name j; rr_TaskID := EmptyString; rr_Err := "runtime: status 400" |} ∧
      sv_mgr (w_rt w') = m
  end.
Proof.
  intros Hb Ht sv m id. unfold run_job, submit. rewrite M_bind_step.
  cbn [jr_Submit client_JobRuntime]. unfold sched_Submit, Client_Configured. cbn [baseURL].
  apply nonempty_true in Hb as Hb'. rewrite Hb', M_bind_step. set (o := outgoing _ _ _ _).
  unfold the_Transport. cbn [http_Do service_Transport].
  destruct (incoming_path base token "POST" "/tasks" (o_body o) Hb) as [Hpre Hpath].
  change (outgoing {| baseURL := base; cl_token := token |} "POST" "/tasks" (o_body o)) with o
    in Hpre, Hpath.
  rewrite Hpre. unfold rt_Handler. rewrite Hpath.
  pose proof (incoming_bearer base token "POST" "/tasks" (o_body o) Ht) as Hbear.
  change (outgoing {| baseURL := base; cl_token := token |} "POST" "/tasks" (o_body o)) with o
    in Hbear.
  assert (method (incoming base o) = "POST"%string) as -> by done.
  fold sv id m.
  assert (ServeMux (rt_routes (E:=E) token id prefer_done) "POST" (url_path "/tasks") =
    Handled (rt_auth token (λ r _ m, Some (handleSubmit id r m))) ∅) as -> by reflexivity.
  unfold rt_auth. rewrite Hbear. unfold handleSubmit.
  assert (Http.body (incoming base o) = o_body o) as -> by done.
  assert (decode_body decode_TaskRequest (o_body o) = Some (job_request j)) as ->
    by apply decode_job_request.
  unfold Submit. destruct (buildSpec _ _ _) as [spec|e]; cbn [fst snd mret M_ret code writeJSON payload].
  - change (300 <=? StatusAccepted) with false. cbv iota beta.
    assert (decode_body (decode_field conv_string EmptyString "task_id") (RawJSON (obj1 "task_id" id)) =
      Some id) as -> by reflexivity.
    split; [done|]. by cbn.
  - change (300 <=? StatusBadRequest) with true. cbv iota beta. split; [done|]. by cbn.
Qed.
End end_to_end.

(** ** Concrete instances *)

(** A library that knows the two specs of the built-in jobs, firing at 13:00 of
    each day, and of each Monday. *)
Definition day : Z := 24 * 60 * min.

Definition daily (t : Z) : bool := t `mod` day =? 13 * 60 * min.

(** The first instant after [t] at 13:00. *)
Definition next_daily (t : Z) : Z := (t - 13 * 60 * min) `div` day * day + day + 13 * 60 * min.

Lemma next_daily_activates : activates {| Next := next_daily |} (λ u, daily u = true).
Proof.
  split; unfold daily, next_daily, day, min, sec; cbn [Next].
  - intros u Hu%Z.eqb_eq.
    rewrite (Z.div_mod u (24 * 60 * (60 * 1000000000)) ltac:(done)), Hu.
    replace (_ + _) with (((24 * 60 * 60) * (u / (24 * 60 * (60 * 1000000000))) + 13 * 60 * 60)
      * 1000000000) by lia. apply Z.mod_mul. lia.
  - intros t u Htu Hu%Z.eqb_eq Hno. Z.to_euclidean_division_equations. 
    assert (¬ (t < u - 24 * 60 * (60 * 1000000000))) as Hgap.
    { intros Hlt. apply (Hno (u - 24 * 60 * (60 * 1000000000))); [lia|]. apply Z.eqb_eq.
      Z.to_euclidean_division_equations. nia. }
    nia.
  - intros t _. apply Z.eqb_eq.
    rewrite <-Z.add_assoc. set (q := _ / _).
    replace (q * _ + _) with (13 * 60 * (60 * 1000000000) + (q + 1) * (24 * 60 * (60 * 1000000000))) by lia.
    rewrite Z.mod_add by lia. reflexivity.
Qed.

Definition sample_scheduler : Scheduler :=
  {| jobs := DefaultSchedule; parse := λ _, Ok {| Next := next_daily |} |}.

(** A runtime that starts nothing. *)
#[local] Instance refusing : JobRuntime unit := {
  jr_Submit _ _ _ r := (Err (ErrNew "runtime: status 503"), r);
}.

(** Ticks at 12:59:30, 13:00:30 and 13:01:30: both jobs are submitted once. *)
Lemma serve_submissions_witness :
  let ticks := [13 * 60 * min - 30 * sec; 13 * 60 * min + 30 * sec; 13 * 60 * min + 90 * sec] in
  w_submitted (serve sample_scheduler ticks (World () [])).2 = submission <$> DefaultSchedule.
Proof.
  pose proof (serve_submissions (λ _, daily) sample_scheduler
    [13 * 60 * min - 30 * sec; 13 * 60 * min + 30 * sec; 13 * 60 * min + 90 * sec] (World () []))
    as Hs.
  cbv zeta. destruct (serve sample_scheduler _ _) as [rs w]. destruct Hs as [Hw _].
  - intros j _. eexists. split; [reflexivity|apply next_daily_activates].
  - cbn [snd]. rewrite Hw. vm_compute. reflexivity.
Defined.

#[local] Existing Instance asking_Engine.

Lemma job_starts_task_witness :
  let sv := {| sv_mgr := {| m_rt := {| rt_models := {| Default := "m1"; Escalation := EmptyString |};
                                       rt_recipesDir := "recipes" |};
                            m_files := sample_files (λ _, true); m_run := λ _, Ask; tasks := ∅ |};
               sv_ids := λ _, "7"%string; sv_next := 0 |} in
  let j := {| job_Name := "daily"; job_Spec := "0 13 * * *"; job_Recipe := "finance/screen";
              job_Committee := "finance"; job_Params := Some {["sheet_id" := "s"]} |}%string in
  (run_job (H:=client_JobRuntime "http://rt" "tok" false) j (World sv [])).1 =
    {| rr_Job := "daily"; rr_TaskID := "7"; rr_Err := EmptyString |}.
Proof.
  cbv zeta. match goal with |- (run_job ?j ?w).1 = _ =>
    pose proof (job_starts_task "http://rt" "tok" false j w) as Hj;
    destruct (run_job j w) as [r w'] end.
  destruct Hj as [Hr _]; [discriminate|discriminate|exact Hr].
Defined.
