(* ===== verification/Dashboard.v ===== *)
(** * The maintainer dashboard (services/dashboard)

    The login and its cookie, the JSON API over the store, and the console that
    passes requests on to the runtime service. The encoding of a time depends
    on the process's time zone and is an argument, and so is the file server of
    the web page. *)

From S2P Require Import Prelude GoText Float64 Json Http Pg Memory Sessions Identity Governance.
From S2P Require Import Registry Repository Gateway GatewayStore Recipe Task RuntimeServer.
From S2P Require Import RuntimeClient.
From Stdlib Require Import ZArith Lia Ascii.
From stdpp Require Import options.

Open Scope Z_scope.
Open Scope list_scope.

(** The interface [Store]. *)
Class DashStore (S : Type) := {
  ds_ListServers : S → result (list Server) * S;
  ds_SetServerLifecycle : string → string → S → result unit * S;
  ds_SetServerEnabled : string → bool → S → result unit * S;
  ds_ListAudit : Z → S → result (list AuditEntry) * S;
  ds_ListPendingApprovals : S → result (list Approval) * S;
  ds_DecideApproval : string → string → string → S → result Approval * S;
}.

(** An answer and the cookie it sets. *)
Definition DashResponse : Type := Response * option string.

Definition plainly (r : Response) : DashResponse := (r, None).

Definition cookieName : string := "sl_dash".

Record Server := NewServer { token : string; runtime : Client }.

Definition devMode (s : Server) : bool := negb (nonempty (token s)).

Definition authed (s : Server) (r : Request) : bool :=
  devMode s || bool_decide (cookies r !! cookieName = Some (token s)).

Definition serverError (e : error) : Response :=
  writeJSON StatusInternalServerError (obj1 "error" (Error e)).

Definition badRequest : Response := writeJSON StatusBadRequest (obj1 "error" "bad request").

(** ** Encodings *)

Section encodings.
Context (time_json : Z → json).

(** A nil slice encodes as null. *)
Definition json_slice {A} (f : A → json) (l : list A) : json :=
  match l with [] => JNull | _ => JArr (f <$> l) end.

Definition json_Tool (t : Tool) : json :=
  JObj [("id", JStr (Tool_ID t)); ("server_id", JStr (Tool_ServerID t));
        ("name", JStr (Tool_Name t)); ("scope", JStr (Tool_Scope t));
        ("impact", JStr (Tool_Impact t))]%string.

Definition json_Server (s : Registry.Server) : json :=
  JObj [("id", JStr (Server_ID s)); ("name", JStr (Server_Name s));
        ("owner", JStr (Server_Owner s)); ("description", JStr (Server_Description s));
        ("endpoint", JStr (Server_Endpoint s)); ("transport", JStr (Server_Transport s));
        ("auth", JStr (Server_Auth s)); ("lifecycle", JStr (Server_Lifecycle s));
        ("enabled", JBool (Server_Enabled s)); ("health", JStr (Server_Health s));
        ("created_at", time_json (Server_CreatedAt s));
        ("updated_at", time_json (Server_UpdatedAt s));
        ("tools", json_slice json_Tool (Server_Tools s));
        ("committees", json_slice JStr (Server_Committees s))]%string.

(** A json.RawMessage that came from a jsonb column. *)
Definition json_Raw (r : RawMessage) : json :=
  match r with RawJSON j => j | _ => JNull end.

Definition json_Approval (a : Approval) : json :=
  JObj ([("id", JStr (Approval_ID a)); ("session_id", JStr (Approval_SessionID a));
         ("tool", JStr (Approval_Tool a)); ("args_redacted", json_Raw (Approval_ArgsRedacted a));
         ("status", JStr (Approval_Status a)); ("decided_by", JStr (Approval_DecidedBy a))]%string ++
        match Approval_DecidedAt a with
        | Some t => [("decided_at"%string, time_json t)] | None => [] end ++
        [("created_at"%string, time_json (Approval_CreatedAt a))]).

Definition json_AuditEntry (e : AuditEntry) : json :=
  JObj [("id", JInt (Audit_ID e)); ("actor", JStr (Audit_Actor e)); ("tool", JStr (Audit_Tool e));
        ("args_redacted", json_Raw (Audit_ArgsRedacted e)); ("result", JStr (Audit_Result e));
        ("latency_ms", JInt (Audit_LatencyMS e));
        ("created_at", time_json (Audit_CreatedAt e))]%string.
End encodings.

(** ** Statistics *)

Record stats := MkStats {
  ServersTotal : Z;
  ServersApproved : Z;
  ServersProposed : Z;
  ToolsTotal : Z;
  HighImpactTools : Z;
  PendingApprovals : Z;
  Audit24h : Z;
  ErrorRate : float64;
  AvgLatencyMS : Z;
  RuntimeAvailable : bool;
}.

Definition count {A} (p : A → bool) (l : list A) : Z :=
  Z.of_nat (length (filter (λ x, p x = true) l)).

Definition sum (l : list Z) : Z := foldr Z.add 0 l.

Definition failed_result (e : AuditEntry) : bool :=
  HasPrefix (Audit_Result e) "denied" || HasPrefix (Audit_Result e) "error".

(** The three loops of handleStats. *)
Definition stats_of (now : Z) (available : bool) (servers : list Registry.Server)
    (audit : list AuditEntry) (pending : list Approval) : stats :=
  let counted := Z.of_nat (length audit) in
  {| ServersTotal := Z.of_nat (length servers);
     ServersApproved := count (λ s, String.eqb (Server_Lifecycle s) LifecycleApproved) servers;
     ServersProposed := count (λ s, String.eqb (Server_Lifecycle s) LifecycleProposed) servers;
     ToolsTotal := sum ((λ s, Z.of_nat (length (Server_Tools s))) <$> servers);
     HighImpactTools :=
       sum ((λ s, count (λ t, String.eqb (Tool_Impact t) "high") (Server_Tools s)) <$> servers);
     PendingApprovals := Z.of_nat (length pending);
     Audit24h := count (λ e, now - 24 * 3600 * 1000000000 <? Audit_CreatedAt e) audit;
     ErrorRate := if 0 <? counted then f64_ratio (count failed_result audit) counted else f64_of_Z 0;
     AvgLatencyMS := if 0 <? counted then Z.quot (sum (Audit_LatencyMS <$> audit)) counted else 0;
     RuntimeAvailable := available |}.

Definition json_stats (s : stats) : json :=
  JObj [("servers_total", JInt (ServersTotal s)); ("servers_approved", JInt (ServersApproved s));
        ("servers_proposed", JInt (ServersProposed s)); ("tools_total", JInt (ToolsTotal s));
        ("high_impact_tools", JInt (HighImpactTools s));
        ("pending_approvals", JInt (PendingApprovals s)); ("audit_24h", JInt (Audit24h s));
        ("error_rate", JNum (ErrorRate s)); ("avg_latency_ms", JInt (AvgLatencyMS s));
        ("runtime_available", JBool (RuntimeAvailable s))]%string.

(** ** Handlers *)

Section handlers.
Context {S T : Type} `{DashStore S} `{Transport T}.
Context (time_json : Z → json) (FileServer : Request → Response) (s : Server).

Record world := World { w_store : S; w_net : T }.

Implicit Types (w : world).

Definition store_op {A} (f : S → A * S) : M world A := λ w,
  let '(a, st) := f (w_store w) in (a, {| w_store := st; w_net := w_net w |}).

Definition net_op {A} (f : T → A * T) : M world A := λ w,
  let '(a, n) := f (w_net w) in (a, {| w_store := w_store w; w_net := n |}).

Definition handleLogin (r : Request) : M world DashResponse :=
  let given := default EmptyString (decode_body (decode_field conv_string EmptyString "token") (body r)) in
  mret (if devMode s || String.eqb given (token s)
        then (writeJSON StatusOK (JObj [("ok"%string, JBool true)]), Some (token s))
        else plainly (writeJSON StatusUnauthorized (obj1 "error" "invalid token"))).

Definition handleMe (r : Request) : M world DashResponse :=
  mret (plainly (writeJSON StatusOK
    (JObj [("authed", JBool (authed s r)); ("dev", JBool (devMode s));
           ("runtime_available", JBool (Client_Configured (runtime s)))]%string))).

(** [now] is the clock after the audit log has been read. *)
Definition handleStats (now : Z) : M world DashResponse :=
  servers ← store_op ds_ListServers;
  match servers with
  | Err e => mret (plainly (serverError e))
  | Ok servers =>
      audit ← store_op (ds_ListAudit 500);
      match audit with
      | Err e => mret (plainly (serverError e))
      | Ok audit =>
          pending ← store_op ds_ListPendingApprovals;
          mret (plainly (match pending with
                | Err e => serverError e
                | Ok pending =>
                    writeJSON StatusOK
                      (json_stats (stats_of now (Client_Configured (runtime s)) servers audit pending))
                end))
      end
  end.

(** A list under one key; the empty list is an empty array. *)
Definition answer_list {A} (key : string) (f : A → json) (l : result (list A)) : Response :=
  match l with
  | Err e => serverError e
  | Ok l => writeJSON StatusOK (JObj [(key, JArr (f <$> l))])
  end.

Definition handleRegistry : M world DashResponse :=
  l ← store_op ds_ListServers; mret (plainly (answer_list "servers" (json_Server time_json) l)).

Definition updated (e : result unit) : Response :=
  match e with Err e => serverError e | Ok _ => writeJSON StatusOK (obj1 "status" "updated") end.

Definition handleLifecycle (name : string) (r : Request) : M world DashResponse :=
  match decode_body (decode_field conv_string EmptyString "lifecycle") (body r) with
  | None => mret (plainly badRequest)
  | Some lc => e ← store_op (ds_SetServerLifecycle name lc); mret (plainly (updated e))
  end.

Definition handleEnabled (name : string) (r : Request) : M world DashResponse :=
  match decode_body (decode_field conv_bool false "enabled") (body r) with
  | None => mret (plainly badRequest)
  | Some b => e ← store_op (ds_SetServerEnabled name b); mret (plainly (updated e))
  end.

Definition audit_limit (r : Request) : Z :=
  match query r !! "limit"%string with
  | Some v => match Atoi v with
              | Some n => if (0 <? n) && (n <=? 500) then n else 100
              | None => 100
              end
  | None => 100
  end.

Definition handleAudit (r : Request) : M world DashResponse :=
  l ← store_op (ds_ListAudit (audit_limit r));
  mret (plainly (answer_list "audit" (json_AuditEntry time_json) l)).

Definition handleApprovals : M world DashResponse :=
  l ← store_op ds_ListPendingApprovals;
  mret (plainly (answer_list "approvals" (json_Approval time_json) l)).

Definition decode_decide (fs : list (string * json)) : option (string * string) :=
  st ← decode_field conv_string EmptyString "status" fs;
  by_ ← decode_field conv_string EmptyString "decided_by" fs;
  Some (st, by_).

Definition handleDecide (id : string) (r : Request) : M world DashResponse :=
  match decode_body decode_decide (body r) with
  | None => mret (plainly badRequest)
  | Some (st, by_) =>
      ap ← store_op (ds_DecideApproval id st by_);
      mret (plainly (match ap with
            | Err e => serverError e
            | Ok ap => writeJSON StatusOK (json_Approval time_json ap)
            end))
  end.

(** The console: the runtime's status and body as they are. *)
Definition proxyRuntime (m p : string) (b : RawMessage) : M world DashResponse :=
  if Client_Configured (runtime s) then
    r ← net_op (dash_Do (runtime s) m p b);
    mret (plainly (match r with
          | Err e => writeJSON StatusBadGateway (obj1 "error" (Error e))
          | Ok resp => resp
          end))
  else mret (plainly (writeJSON StatusServiceUnavailable (obj1 "error" "runtime not configured"))).

Definition handleSubmitTask (r : Request) : M world DashResponse :=
  proxyRuntime "POST" "/tasks" (body r).

Definition handleGetTask (id : string) : M world DashResponse :=
  proxyRuntime "GET" ("/tasks/" +:+ id) RawEmpty.

Definition handleApproveTask (id : string) (r : Request) : M world DashResponse :=
  proxyRuntime "POST" ("/tasks/" +:+ id +:+ "/approve") (body r).

(** ** Routes *)

Definition auth (next : Request → gmap string string → M world DashResponse)
    (r : Request) (vars : gmap string string) : M world DashResponse :=
  if authed s r then next r vars else mret (plainly unauthorized).

Definition routes (now : Z) : list (route (Request → gmap string string → M world DashResponse)) :=
  [ Route "GET" [Lit "healthz"]
      (λ _ _, mret (plainly (writeJSON StatusOK (obj1 "status" "ok"))));
    Route "POST" [Lit "api"; Lit "login"] (λ r _, handleLogin r);
    Route "GET" [Lit "api"; Lit "me"] (λ r _, handleMe r);
    Route "GET" [Lit "api"; Lit "stats"] (auth (λ _ _, handleStats now));
    Route "GET" [Lit "api"; Lit "registry"] (auth (λ _ _, handleRegistry));
    Route "POST" [Lit "api"; Lit "registry"; Var "name"; Lit "lifecycle"]
      (auth (λ r vars, handleLifecycle (PathValue vars "name") r));
    Route "POST" [Lit "api"; Lit "registry"; Var "name"; Lit "enabled"]
      (auth (λ r vars, handleEnabled (PathValue vars "name") r));
    Route "GET" [Lit "api"; Lit "audit"] (auth (λ r _, handleAudit r));
    Route "GET" [Lit "api"; Lit "approvals"] (auth (λ _ _, handleApprovals));
    Route "POST" [Lit "api"; Lit "approvals"; Var "id"; Lit "decide"]
      (auth (λ r vars, handleDecide (PathValue vars "id") r));
    Route "POST" [Lit "api"; Lit "tasks"] (auth (λ r _, handleSubmitTask r));
    Route "GET" [Lit "api"; Lit "tasks"; Var "id"]
      (auth (λ _ vars, handleGetTask (PathValue vars "id")));
    Route "POST" [Lit "api"; Lit "tasks"; Var "id"; Lit "approve"]
      (auth (λ r vars, handleApproveTask (PathValue vars "id") r)) ]%string.

(** The pattern "/" takes every other request. *)
Definition Handler (now : Z) (r : Request) : M world DashResponse :=
  match ServeMux (routes now) (method r) (path r) with
  | Handled h vars => h r vars
  | _ => mret (plainly (FileServer r))
  end.
End handlers.
Arguments world : clear implicits.
Arguments World {S T} _ _.

(** ** Properties of the routes *)

Section properties.
Context {S T : Type} `{DashStore S} `{Transport T}.
Context (time_json : Z → json) (FileServer : Request → Response) (s : Server).
Implicit Types (w : world S T).

(** With a token configured, a dashboard request without the cookie changes nothing
    in the store and sends nothing to the runtime, and gets a 401, a file of the static
    page, or the answer of one of the three open endpoints. *)
Theorem dash_auth now r w :
  authed s r = false →
  let '(resp, w') := Handler time_json FileServer s now r w in
  w' = w ∧ (resp = plainly unauthorized ∨ resp = plainly (FileServer r) ∨
    path r ∈ [["healthz"]; ["api"; "login"]; ["api"; "me"]]%string).
Proof.
  intros Ha. unfold Handler.
  destruct (ServeMux _ _ _) as [h vars| |] eqn:Hd; [|split; [done|auto]..].
  apply ServeMux_route in Hd as (rt & Hin & <- & Hp & _).
  assert (∀ next, auth s next r vars w = (plainly unauthorized, w)) as Hauth
    by (intros; unfold auth; by rewrite Ha).
  unfold routes in Hin. rewrite !elem_of_cons, elem_of_nil in Hin.
  repeat match type of Hin with _ ∨ _ => destruct Hin as [->|Hin] | False => done end;
    cbn [r_handler]; rewrite ?Hauth; try (split; [done|by left]).
  all: split; [done|right; right].
  - apply match_path_lit in Hp as ->. by left.
  - destruct (path r) as [|a [|b [|c l]]]; try done; cbn [match_path r_path] in Hp;
      repeat case_match; try done. bools. subst. right. by left.
  - destruct (path r) as [|a [|b [|c l]]]; try done; cbn [match_path r_path] in Hp;
      repeat case_match; try done. bools. subst. right. right. by left.
Qed.

(** The cookie that a login hands out is the one that opens the API, and only a
    holder of the token gets it. *)
Theorem login_cookie r w :
  let '((resp, cookie), w') := handleLogin s r w in
  w' = w ∧ (code resp = StatusOK ↔ is_Some cookie) ∧
  (∀ c r', cookie = Some c → cookies r' !! cookieName = Some c → authed s r' = true) ∧
  (token s ≠ EmptyString → is_Some cookie →
   decode_body (decode_field conv_string EmptyString "token") (body r) = Some (token s)).
Proof.
  unfold handleLogin, mret, M_ret, authed, devMode.
  destruct (decode_body _ (body r)) as [g|]; cbn [default];
    destruct (nonempty (token s)) eqn:Hn; cbn [negb orb].
  - unfold id. destruct (String.eqb_spec g (token s)) as [->|Hne].
    + split; [done|]. split; [by split|]. split; [|done].
      intros c r' [= <-] ->. by apply bool_decide_eq_true.
    + split; [done|]. split; [by split; [|intros []]|]. split; [done|by intros _ []].
  - apply nonempty_false in Hn as ->. split; [done|]. split; [by split|]. by split.
  - assert (String.eqb EmptyString (token s) = false) as ->.
    { apply String.eqb_neq. apply nonempty_true in Hn. congruence. }
    split; [done|]. split; [by split; [|intros []]|]. split; [done|by intros _ []].
  - apply nonempty_false in Hn as ->. split; [done|]. split; [by split|]. by split.
Qed.
End properties.

(** ** The dashboard over the repository *)

Section repo.
Context `{PgText}.

#[export] Instance repo_DashStore : DashStore repo := {
  ds_ListServers := repo_read (λ d, Ok (ListServers (d_registry d)));
  ds_SetServerLifecycle n lc := repo_write (λ st d,
    let '(r, x) := SetServerLifecycle st n lc (d_registry d) in (r, with_registry x d));
  ds_SetServerEnabled n b := repo_write (λ st d,
    let '(r, x) := SetServerEnabled st n b (d_registry d) in (r, with_registry x d));
  ds_ListAudit n := repo_read (λ d, Ok (ListAudit n (d_gov d)));
  ds_ListPendingApprovals := repo_read (λ d, Ok (ListPendingApprovals (d_gov d)));
  ds_DecideApproval id status by_ := repo_write (λ st d,
    let '(r, x) := DecideApproval st id status by_ (d_gov d) in (r, with_gov x d));
}.

Lemma count_perm {A} (p : A → bool) l k : l ≡ₚ k → count p l = count p k.
Proof. intros Hp. unfold count. by rewrite Hp. Qed.

Lemma sum_perm l k : l ≡ₚ k → sum l = sum k.
Proof. intros Hp. unfold sum. induction Hp; simpl; lia. Qed.

Lemma count_cons {A} (p : A → bool) x l : count p (x :: l) = (if p x then 1 else 0) + count p l.
Proof.
  unfold count. rewrite filter_cons. destruct (p x) eqn:Hx.
  - rewrite decide_True by done. simpl. lia.
  - rewrite decide_False by congruence. lia.
Qed.

Lemma sum_cons x l : sum (x :: l) = x + sum l.
Proof. done. Qed.

Lemma sum_map_zero {A} (f : A → Z) l : (∀ x, x ∈ l → f x = 0) → sum (f <$> l) = 0.
Proof.
  induction l as [|x l IH]; intros Hf; [done|]. rewrite fmap_cons, sum_cons.
  rewrite (Hf x) by left. rewrite IH; [done|]. intros y Hy. apply Hf. by right.
Qed.

(** Counting the tools server by server counts each of them once. *)
Lemma sum_by_server (p : tool_row → bool) ids tools :
  NoDup ids → (∀ t, t ∈ tools → o_server_id t ∈ ids) →
  sum ((λ i, count p (filter (λ t, o_server_id t = i) tools)) <$> ids) = count p tools.
Proof.
  intros Hnd. induction tools as [|t tools IH]; intros Hin.
  { by apply sum_map_zero. }
  rewrite count_cons, <-IH by (intros; apply Hin; by right).
  assert (∀ l, NoDup l → sum ((λ i, count p (filter (λ u, o_server_id u = i) (t :: tools))) <$> l) =
    (if decide (o_server_id t ∈ l) then (if p t then 1 else 0) else 0) +
    sum ((λ i, count p (filter (λ u, o_server_id u = i) tools)) <$> l)) as Hl.
  { intros l. induction 1 as [|i l Hi Hl IHl]; [done|].
    rewrite !fmap_cons, !sum_cons, IHl, filter_cons. destruct (decide (o_server_id t = i)) as [<-|Hne].
    - rewrite count_cons, (decide_True (P:=_ ∈ _ :: l)) by left.
      rewrite (decide_False (P:=_ ∈ l)) by done. destruct (p t); lia.
    - destruct (decide (o_server_id t ∈ l)) as [Hl'|Hl'].
      + rewrite (decide_True (P:=_ ∈ _ :: l)) by (by right). lia.
      + rewrite (decide_False (P:=_ ∈ _ :: l)) by (by intros [?|?]%elem_of_cons). lia. }
  rewrite Hl by done. rewrite decide_True; [done|]. apply Hin. by left.
Qed.
Lemma length_count {A} (l : list A) : Z.of_nat (length l) = count (λ _, true) l.
Proof.
  induction l as [|x l IH]; [done|]. rewrite count_cons, <-IH. simpl. lia.
Qed.

Lemma count_fmap {A B} (f : A → B) (p : B → bool) l : count p (f <$> l) = count (p ∘ f) l.
Proof. induction l as [|x l IH]; [done|]. by rewrite fmap_cons, !count_cons, IH. Qed.

(** Summing over the servers of the list what their tool lists count. *)
Lemma sum_ListServers (p : Tool → bool) d :
  registry_wf d →
  sum ((λ sv, count p (Server_Tools sv)) <$> ListServers d) = count (p ∘ scanTool) (mcp_tools d).
Proof.
  intros []. unfold ListServers. rewrite <-list_fmap_compose.
  rewrite (sum_perm _ ((λ i, count (p ∘ scanTool) (filter (λ t, o_server_id t = i) (mcp_tools d)))
                         <$> (v_id <$> mcp_servers d))).
  - by apply sum_by_server.
  - rewrite <-list_fmap_compose, order_by_perm. apply Permutation_refl'.
    apply list_fmap_ext. intros _ sv _. cbn. unfold listTools.
    by rewrite count_fmap, (count_perm _ _ _ (order_by_perm _ _)).
Qed.

Lemma count_ListServers (p : Registry.Server → bool) d :
  count p (ListServers d) = count (p ∘ scanServer d) (mcp_servers d).
Proof. unfold ListServers. by rewrite count_fmap, (count_perm _ _ _ (order_by_perm _ _)). Qed.

Theorem stats_exact now available d :
  registry_wf (d_registry d) →
  let st := stats_of now available (ListServers (d_registry d)) (ListAudit 500 (d_gov d))
              (ListPendingApprovals (d_gov d)) in
  ServersTotal st = Z.of_nat (length (mcp_servers (d_registry d))) ∧
  ServersApproved st = count (λ r, String.eqb (v_lifecycle r) LifecycleApproved) (mcp_servers (d_registry d)) ∧
  ToolsTotal st = Z.of_nat (length (mcp_tools (d_registry d))) ∧
  HighImpactTools st = count (λ r, String.eqb (o_impact r) "high") (mcp_tools (d_registry d)) ∧
  PendingApprovals st = count (λ r, String.eqb (a_status r) "pending") (approvals (d_gov d)) ∧
  Audit24h st <= 500.
Proof.
  intros Hwf. unfold stats_of. cbn [ServersTotal ServersApproved ToolsTotal HighImpactTools
    PendingApprovals Audit24h]. split_and!.
  - by rewrite !length_count, count_ListServers.
  - by rewrite count_ListServers.
  - setoid_rewrite length_count. by rewrite sum_ListServers.
  - by rewrite sum_ListServers.
  - unfold ListPendingApprovals, queryApprovals. rewrite length_fmap, length_order_by. unfold count.
    do 2 f_equal. apply list_filter_iff. intros r. unfold pending. by rewrite String.eqb_eq.
  - etransitivity; [apply inj_le, length_filter|]. unfold ListAudit.
    rewrite length_fmap, length_take. change (500 <=? 0) with false. cbv iota. lia.
Qed.

(** ** Decisions *)

Context {T : Type} `{Transport T}.
Context (time_json : Z → json) (FileServer : Request → Response) (s : Server).

Definition at_repo (r : repo) (n : T) : world repo T := {| w_store := r; w_net := n |}.

(** A maintainer's request that decides an approval. *)
Definition decide_request (id status by_ : string) : Request :=
  {| method := "POST"; path := ["api"; "approvals"; id; "decide"]%string; query := ∅; header := ∅;
     cookies := {[cookieName := token s]};
     body := RawJSON (JObj [("status", JStr status); ("decided_by", JStr by_)]%string) |}.

Lemma decide_request_runs now id status by_ r n :
  id ≠ EmptyString →
  Handler time_json FileServer s now (decide_request id status by_) (at_repo r n) =
  (let '(ap, r') := (ds_DecideApproval id status by_ r : result Approval * repo) in
   (plainly (match ap with
             | Err e => serverError e
             | Ok ap => writeJSON StatusOK (json_Approval time_json ap) end), at_repo r' n)).
Proof.
  intros Hid. unfold Handler.
  assert (ServeMux (routes (S:=repo) (T:=T) time_json s now) "POST"
      ["api"; "approvals"; id; "decide"]%string =
    Handled (auth s (λ r vars, handleDecide time_json (PathValue vars "id") r)) {["id"%string := id]})
    as Hmux.
  { apply nonempty_true in Hid. cbn. by rewrite Hid. }
  change (method (decide_request id status by_)) with "POST"%string.
  change (path (decide_request id status by_)) with ["api"; "approvals"; id; "decide"]%string.
  rewrite Hmux. unfold auth.
  assert (authed s (decide_request id status by_) = true) as ->.
  { unfold authed, decide_request. cbn [cookies]. rewrite lookup_singleton_eq.
    apply orb_true_iff. right. by apply bool_decide_eq_true. }
  unfold handleDecide. rewrite PathValue_id.
  change (decode_body decode_decide (body (decide_request id status by_))) with (Some (status, by_)).
  cbv beta iota. rewrite M_bind_step. unfold store_op. cbn [w_store at_repo].
  destruct (ds_DecideApproval id status by_ r) as [ap r']. by destruct ap.
Qed.

(** C26: A decision that a maintainer posts to the dashboard opens the gateway's gate:
    after a status of approved for an approval of a session and tool, the gateway's
    hasApproval for them is true; the answer is 200. *)
Theorem decide_unlocks {D} `{ToolCaller D} now sid tool u id r who (gw : Gateway.world repo D) n :
  uuid_in sid = Some u → sid ≠ EmptyString → uuid_in id = Some (a_id r) → id ≠ EmptyString →
  r ∈ approvals (d_gov (r_db (Gateway.w_store gw))) → a_session_id r = Some u → a_tool r = tool →
  let '((resp, _), w') :=
    Handler time_json FileServer s now (decide_request id "approved" who)
      (at_repo (Gateway.w_store gw) n) in
  code resp = StatusOK ∧
  (hasApproval sid tool (with_store (w_store w') gw)).1 = Ok true.
Proof.
  intros Hsid Hne Hid Hidne Hr Hs Ht. rewrite decide_request_runs by done.
  cbn [ds_DecideApproval repo_DashStore]. unfold repo_write.
  set (st := r_stmts _ _). set (g := d_gov (r_db (Gateway.w_store gw))).
  assert (∃ ap, (DecideApproval st id "approved" who g).1 = Ok ap) as [ap Hap].
  { unfold DecideApproval, uuid_arg. rewrite Hid.
    destruct (List.find _ _) as [x|] eqn:Hf.
    - rewrite bool_decide_true by (right; by left). by eexists.
    - apply find_None_elem_of with (x := r) in Hf; [|done]. by apply bool_decide_eq_false in Hf. }
  assert (decide_row "approved" who (Pg.now st) r ∈
    approvals (DecideApproval st id "approved" who g).2) as Hin.
  { unfold DecideApproval, uuid_arg. rewrite Hid.
    destruct (List.find _ _) as [x|] eqn:Hf.
    - rewrite bool_decide_true by (right; by left). cbn. apply list_elem_of_fmap. exists r.
      by rewrite decide_True.
    - apply find_None_elem_of with (x := r) in Hf; [|done]. by apply bool_decide_eq_false in Hf. }
  destruct (DecideApproval st id "approved" who g) as [res g'] eqn:Hdec. cbn [fst snd] in *.
  subst res. split; [done|].
  by rewrite (hasApproval_elem sid tool u _ (decide_row "approved" who (Pg.now st) r)).
Qed.
End repo.


(** ** Concrete instances *)

#[local] Existing Instance unary_text.
#[local] Existing Instance null_caller.

(** A network without a runtime service. *)
#[local] Instance no_network : Transport unit := { http_Do _ n := (Err (ErrNew "no such host"), n) }.

Definition sample_dashboard : Server :=
  {| token := "tok"; runtime := {| baseURL := EmptyString; cl_token := EmptyString |} |}.

Definition sample_page : Request → Response := λ _, {| code := StatusOK; payload := RawText "page" |}.

Lemma dash_auth_witness :
  let r := {| method := "POST"; path := ["api"; "registry"; "google"; "enabled"]%string; query := ∅;
              header := ∅; cookies := {[cookieName := "guess"%string]};
              body := RawJSON (JObj [("enabled"%string, JBool true)]) |} in
  let w := at_repo {| r_db := run sample_history db_empty; r_stmts := λ _, sample_stmt 1 1; r_next := 0 |} () in
  let '(resp, w') := Handler (λ _, JNull) sample_page sample_dashboard 0 r w in
  w' = w ∧ code resp.1 = StatusUnauthorized.
Proof.
  cbv zeta.
  match goal with |- context [Handler ?tj ?fs ?s ?n ?r ?w] =>
    pose proof (dash_auth tj fs s n r w eq_refl) as Ha;
    assert (code (Handler tj fs s n r w).1.1 = StatusUnauthorized) as Hc by reflexivity;
    destruct (Handler tj fs s n r w) as [resp w'] end.
  destruct Ha as [-> _]. split; [reflexivity|exact Hc].
Defined.

Lemma stats_exact_witness :
  let d := run sample_history db_empty in
  let st := stats_of 0 false (ListServers (d_registry d)) (ListAudit 500 (d_gov d))
              (ListPendingApprovals (d_gov d)) in
  ToolsTotal st = 2 ∧ HighImpactTools st = 1 ∧ ServersApproved st = 1.
Proof.
  cbv zeta. destruct (stats_exact 0 false (run sample_history db_empty)) as (_ & Ha & Ht & Hh & _ & _).
  - apply run_wf, db_empty_wf.
  - split; [etransitivity; [exact Ht|reflexivity]|].
    split; [etransitivity; [exact Hh|reflexivity]|]. etransitivity; [exact Ha|reflexivity].
Defined.

(** A pending approval of the sample session. *)
Definition sample_pending : list (Stmt * op) :=
  sample_history ++ [(sample_stmt 5 30, OpCreateApproval (strokes 2) "send" (RawJSON (JObj [])))].

Lemma decide_unlocks_witness :
  let gw := sample_world sample_pending in
  (hasApproval (strokes 2) "send" gw).1 = Ok false ∧
  let '((resp, _), w') :=
    Handler (λ _, JNull) sample_page sample_dashboard 0
      (decide_request sample_dashboard (strokes 30) "approved" "U9") (at_repo (Gateway.w_store gw) ()) in
  code resp = StatusOK ∧
  (hasApproval (strokes 2) "send" (with_store (w_store w') gw)).1 = Ok true.
Proof.
  cbv zeta. split; [reflexivity|].
  apply (decide_unlocks (λ _, JNull) sample_page sample_dashboard 0 (strokes 2) "send" 2 (strokes 30)
    {| a_id := 30; a_session_id := Some 2%N; a_tool := "send"; a_args_redacted := RawJSON (JObj []);
       a_status := "pending"; a_decided_by := EmptyString; a_decided_at := None; a_created_at := 5 |}
    "U9" (sample_world sample_pending) ()).
  - reflexivity.
  - discriminate.
  - reflexivity.
  - discriminate.
  - vm_compute. left.
  - reflexivity.
  - reflexivity.
Defined.
