(* ===== verification/Proxy.v ===== *)
(** * The downstream caller (gateway/internal/proxy)

    The instance of the gateway's [ToolCaller] that speaks JSON-RPC over HTTP
    to the endpoint of the tool's server. *)

From S2P Require Import Prelude GoText Float64 Json Http Pg Memory Registry Governance Gateway.
From S2P Require Import GatewayServer Recipe Task RuntimeServer RuntimeClient.
From Stdlib Require Import ZArith Lia Ascii.
From stdpp Require Import options.

Open Scope Z_scope.
Open Scope list_scope.

Record rpcError := MkRpcError { rpc_Code : Z; rpc_Message : string }.

Record jsonRPCResponse := MkRpcResponse { rpc_Result : RawMessage; rpc_Error : option rpcError }.

Definition decode_rpcError (fs : list (string * json)) : option rpcError :=
  c ← decode_field conv_int 0 "code" fs;
  m ← decode_field conv_string EmptyString "message" fs;
  Some {| rpc_Code := c; rpc_Message := m |}.

Definition decode_rpc (fs : list (string * json)) : option jsonRPCResponse :=
  e ← decode_field (conv_pointer decode_rpcError) None "error" fs;
  Some {| rpc_Result := decode_raw "result" fs; rpc_Error := e |}.

(** Empty arguments become an empty object; None when they are not JSON. *)
Definition arguments (args : RawMessage) : option json :=
  match args with
  | RawEmpty => Some (JObj [])
  | RawJSON j => Some j
  | RawText _ => None
  end.

(** The body of the request: a struct, whose params are a map. *)
Definition json_rpc (tool : string) (args : json) : json :=
  JObj [("jsonrpc", JStr "2.0"); ("id", JInt 1); ("method", JStr "tools/call");
        ("params", JObj [("arguments", args); ("name", JStr tool)])]%string.

Definition rpc_request (token : string) (s : Server) (t : Tool) (args : json) : Outgoing :=
  {| o_method := "POST"; o_url := Server_Endpoint s;
     o_header :=
       (if nonempty token then <["authorization" := "Bearer " +:+ token]> else id)
         {["content-type" := "application/json"; "accept" := "application/json, text/event-stream"]};
     o_body := RawJSON (json_rpc (Tool_Name t) args) |}%string.

(** What an answer of the server means. *)
Definition rpc_answer (server : string) (r : result Response) : result RawMessage :=
  match r with
  | Err e => Err (Errorf_w "proxy: call %s: " [Fs server] e)
  | Ok resp =>
      if 300 <=? code resp
      then Err (Errorf "proxy: %s returned %d" [Fs server; Fd (code resp)])
      else match decode_body decode_rpc (payload resp) with
           | None => Err (ErrWrap "proxy: decode response: " ErrDecode)
           | Some rpc =>
               match rpc_Error rpc with
               | Some e => Err (Errorf "proxy: tool error %d: %s" [Fd (rpc_Code e); Fs (rpc_Message e)])
               | None => Ok (rpc_Result rpc)
               end
           end
  end.

Section caller.
Context {T : Type} `{Transport T} (token : string).

Definition HTTPCaller_Call (s : Server) (t : Tool) (args : RawMessage) : M T (result RawMessage) :=
  match arguments args with
  | None => mret (Err (ErrWrap "proxy: marshal request: " (ErrNew "json: error calling MarshalJSON")))
  | Some a =>
      r ← (http_Do (rpc_request token s t a) : M T _);
      mret (rpc_answer (Server_Name s) r)
  end.

#[export] Instance HTTPCaller : ToolCaller T := {
  tc_Call s t args := HTTPCaller_Call s t args;
}.
End caller.

(** ** Properties *)

Section properties.
Context {T : Type} `{Transport T} (token : string).

(** A result is the result field of an answer below 300 without an error field
    (or with a null one), to a request for exactly this tool and these
    arguments at the server's endpoint. *)
Theorem HTTPCaller_Ok s t args n out n' :
  HTTPCaller_Call token s t args n = (Ok out, n') →
  ∃ a resp fs, arguments args = Some a ∧
    http_Do (rpc_request token s t a) n = (Ok resp, n') ∧ code resp < 300 ∧
    (payload resp = RawJSON (JObj fs) ∨ payload resp = RawJSON JNull ∧ fs = []) ∧
    out = decode_raw "result" fs ∧
    decode_field (conv_pointer decode_rpcError) None "error" fs = Some None.
Proof.
  unfold HTTPCaller_Call. destruct (arguments args) as [a|]; [|done]. rewrite M_bind_step.
  destruct (http_Do _ n) as [[resp|e] n1] eqn:Hd; cbn [fst snd mret M_ret rpc_answer]; [|done].
  destruct (300 <=? code resp) eqn:Hc; [done|]. apply Z.leb_gt in Hc.
  destruct (decode_body decode_rpc (payload resp)) as [rpc|] eqn:Hb; [|done].
  destruct (rpc_Error rpc) eqn:He; [done|]. intros [= <- <-].
  assert (∀ fs, decode_rpc fs = Some rpc →
    rpc_Result rpc = decode_raw "result" fs ∧
    decode_field (conv_pointer decode_rpcError) None "error" fs = Some None) as Hdec.
  { intros fs Hfs. unfold decode_rpc in Hfs.
    destruct (decode_field _ _ "error" fs) as [e|] eqn:Hf; [|done]. injection Hfs as <-.
    cbn in *. by subst. }
  exists a, resp. unfold decode_body in Hb.
  destruct (payload resp) as [| |[| | | | | |fs]]; try done.
  - exists []. destruct (Hdec [] Hb). eauto 10.
  - exists fs. destruct (Hdec fs Hb). eauto 10.
Qed.

(** The caller's own errors are never answered as refusals: with errors of the
    network that are none either, 202, 403 and 404 mean that no call left. *)
Lemma HTTPCaller_no_refusal s t args n e n' :
  (∀ o n e n', http_Do o n = (Err e, n') → refusal e = false) →
  HTTPCaller_Call token s t args n = (Err e, n') → refusal e = false.
Proof.
  intros Hnet. unfold HTTPCaller_Call. destruct (arguments args) as [a|]; [|by intros [= <- _]].
  rewrite M_bind_step. destruct (http_Do _ n) as [[resp|e1] n1] eqn:Hd; cbn [fst snd mret M_ret rpc_answer].
  - repeat case_match; by intros [= <- _].
  - intros [= <- _]. unfold Errorf_w. rewrite refusal_wrapped. by eapply Hnet.
Qed.
End properties.
