(* ===== verification/Time.v ===== *)
(** * Instants (package time)

    An instant is the number of nanoseconds since 1970 in UTC; [parse_RFC3339]
    is [time.Parse(time.RFC3339, s)], with the quirks of the layout parser: an
    hour of one digit and a fraction after a comma are accepted. *)

From S2P Require Import Prelude GoText.
From Stdlib Require Import ZArith Lia Ascii.
From stdpp Require Import options.

Open Scope Z_scope.
Open Scope list_scope.

Definition is_leap (y : Z) : bool :=
  (y mod 4 =? 0) && (negb (y mod 100 =? 0) || (y mod 400 =? 0)).

Definition days_in (m y : Z) : Z :=
  if m =? 2 then (if is_leap y then 29 else 28)
  else if bool_decide (m ∈ [4; 6; 9; 11]) then 30 else 31.

(** Days from 1970-01-01 to the first of January of a year. *)
Definition days_to_year (y : Z) : Z :=
  365 * (y - 1970) + ((y - 1) / 4 - 1969 / 4) - ((y - 1) / 100 - 1969 / 100)
    + ((y - 1) / 400 - 1969 / 400).

Definition days_to_month (m y : Z) : Z :=
  foldr (λ k n, days_in (Z.of_nat k + 1) y + n) 0 (seq 0 (Z.to_nat (m - 1))).

Definition second : Z := 1000000000.

Definition unix_nano (y mo d h mi s : Z) : Z :=
  ((days_to_year y + days_to_month mo y + (d - 1)) * 86400 + h * 3600 + mi * 60 + s) * second.

(** [n] digits *)
Fixpoint digits (n : nat) (acc : Z) (s : string) : option (Z * string) :=
  match n with
  | O => Some (acc, s)
  | S n =>
      match s with
      | String c s =>
          if is_digit c then digits n (acc * 10 + Z.of_nat (nat_of_ascii c - 48)) s else None
      | EmptyString => None
      end
  end.

Definition lit (c : ascii) (s : string) : option string :=
  match s with String d s => if Ascii.eqb c d then Some s else None | EmptyString => None end.

Definition in_bounds (lo hi : Z) (x : Z) : option unit :=
  if (lo <=? x) && (x <=? hi) then Some () else None.

(** One or two digits *)
Definition hour_digits (s : string) : option (Z * string) :=
  match digits 2 0 s with Some r => Some r | None => digits 1 0 s end.

(** The digits of a fraction, of which nine count. *)
Fixpoint fraction (n : nat) (acc : Z) (s : string) : Z * string :=
  match s with
  | String c s' =>
      if is_digit c then
        match n with
        | O => fraction O acc s'
        | S n => fraction n (acc * 10 + Z.of_nat (nat_of_ascii c - 48)) s'
        end
      else (acc * 10 ^ Z.of_nat n, s)
  | EmptyString => (acc * 10 ^ Z.of_nat n, s)
  end.

Definition nanos (s : string) : Z * string :=
  match s with
  | String p (String c r) =>
      if (Ascii.eqb p "."%char || Ascii.eqb p ","%char) && is_digit c
      then fraction 9 0 (String c r) else (0, s)
  | _ => (0, s)
  end.

(** Z, or a sign with hours and minutes: the offset in seconds *)
Definition zone (s : string) : option (Z * string) :=
  match s with
  | String c r =>
      if Ascii.eqb c "Z"%char then Some (0, r)
      else
        sign ← (if Ascii.eqb c "+"%char then Some 1
                else if Ascii.eqb c "-"%char then Some (-1) else None);
        '(h, r) ← digits 2 0 r; r ← lit ":"%char r; '(m, r) ← digits 2 0 r;
        _ ← in_bounds 0 24 h; _ ← in_bounds 0 60 m;
        Some (sign * (h * 3600 + m * 60), r)
  | EmptyString => None
  end.

Definition parse_RFC3339 (s : string) : option Z :=
  '(y, r) ← digits 4 0 s; r ← lit "-"%char r;
  '(mo, r) ← digits 2 0 r; r ← lit "-"%char r;
  '(d, r) ← digits 2 0 r; r ← lit "T"%char r;
  '(h, r) ← hour_digits r; r ← lit ":"%char r;
  '(mi, r) ← digits 2 0 r; r ← lit ":"%char r;
  '(sec, r) ← digits 2 0 r;
  let '(ns, r) := nanos r in
  '(off, r) ← zone r;
  _ ← in_bounds 1 12 mo; _ ← in_bounds 1 (days_in mo y) d;
  _ ← in_bounds 0 23 h; _ ← in_bounds 0 59 mi; _ ← in_bounds 0 59 sec;
  if nonempty r then None
  else Some (unix_nano y mo d h mi sec + ns - off * second).

Example epoch : parse_RFC3339 "1970-01-01T00:00:00Z" = Some 0.
Proof. by vm_compute. Qed.

Example y2024 : parse_RFC3339 "2024-03-01T12:30:05.25+02:00" = Some (1709289005250000000).
Proof. by vm_compute. Qed.

Example no_leap : parse_RFC3339 "2023-02-29T00:00:00Z" = None.
Proof. by vm_compute. Qed.
