(* ===== verification/Net.v ===== *)
(** * IP addresses (package net)

    [net.ParseIP] and the predicates on addresses that the egress policy uses.
    An address is its sixteen bytes, as net.IP holds it after parsing. *)

From S2P Require Import Prelude GoText.
From Stdlib Require Import ZArith Lia Ascii.
From stdpp Require Import options.

Open Scope Z_scope.
Open Scope list_scope.

Abbreviation IP := (list Z).

(** ** Parsing *)

Definition hex_value (c : ascii) : option Z :=
  let n := Z.of_nat (nat_of_ascii c) in
  if (48 <=? n) && (n <=? 57) then Some (n - 48)
  else if (97 <=? n) && (n <=? 102) then Some (n - 87)
  else if (65 <=? n) && (n <=? 70) then Some (n - 55)
  else None.

(** A decimal field of an IPv4 address: no leading zero, at most 255. *)
Definition octet (s : string) : option Z :=
  match s with
  | EmptyString => None
  | String c r =>
      if Ascii.eqb c "0"%char && nonempty r then None
      else v ← digits_value 0 s; if v <=? 255 then Some v else None
  end.

Definition parseIPv4 (s : string) : option (list Z) :=
  match Split "."%char s with
  | [a; b; c; d] => a ← octet a; b ← octet b; c ← octet c; d ← octet d; Some [a; b; c; d]
  | _ => None
  end.

(** The hexadecimal digits at the front: how many, their value, the rest. *)
Fixpoint hex_group (n : nat) (acc : Z) (s : string) : nat * Z * string :=
  match s with
  | String c r =>
      match hex_value c with
      | Some d => hex_group (S n) (acc * 16 + d) r
      | None => (n, acc, s)
      end
  | EmptyString => (n, acc, s)
  end.

(** The groups from the byte [length bytes] on; [ellipsis] is the position of
    the double colon. Every round consumes a character of the text. *)
Fixpoint groups (fuel : nat) (bytes : list Z) (ellipsis : option nat) (s : string) :
    option (list Z * option nat) :=
  match fuel with
  | O => None
  | S fuel =>
      if decide (16 ≤ length bytes)%nat then
        if nonempty s then None else Some (bytes, ellipsis)
      else
        let '(off, acc, r) := hex_group 0 0 s in
        if (bool_decide (off = 0%nat) || bool_decide (4 < off)%nat) then None
        else match r with
        | EmptyString => Some (bytes ++ [Z.shiftr acc 8; Z.land acc 255], ellipsis)
        | String c r' =>
            if Ascii.eqb c "."%char then
              if (bool_decide (ellipsis = None) && negb (bool_decide (length bytes = 12%nat))) ||
                 bool_decide (16 < length bytes + 4)%nat
              then None
              else v4 ← parseIPv4 s; Some (bytes ++ v4, ellipsis)
            else if Ascii.eqb c ":"%char then
              let bytes := bytes ++ [Z.shiftr acc 8; Z.land acc 255] in
              match r' with
              | EmptyString => None
              | String c' r'' =>
                  if Ascii.eqb c' ":"%char then
                    if ellipsis then None
                    else if nonempty r'' then groups fuel bytes (Some (length bytes)) r''
                    else Some (bytes, Some (length bytes))
                  else groups fuel bytes ellipsis r'
              end
            else None
        end
  end.

(** The double colon stands for at least one group of zeros. *)
Definition expand (r : list Z * option nat) : option (list Z) :=
  let '(bytes, ellipsis) := r in
  match ellipsis with
  | Some k =>
      if decide (length bytes < 16)%nat
      then Some (take k bytes ++ replicate (16 - length bytes) 0 ++ drop k bytes) else None
  | None => if decide (length bytes = 16%nat) then Some bytes else None
  end.

Definition parseIPv6 (s : string) : option (list Z) :=
  if is_prefix "::" s then
    let r := TrimPrefix s "::" in
    if nonempty r then groups (S (String.length s)) [] (Some 0%nat) r ≫= expand
    else Some (replicate 16 0)
  else groups (S (String.length s)) [] None s ≫= expand.

Definition v4_mapped (v4 : list Z) : IP := replicate 10 0 ++ [255; 255] ++ v4.

(** The first dot or colon decides the form. *)
Fixpoint ip_form (s : string) : option bool :=
  match s with
  | EmptyString => None
  | String c r =>
      if Ascii.eqb c "."%char then Some true
      else if Ascii.eqb c ":"%char then Some false
      else if Ascii.eqb c "%"%char then None
      else ip_form r
  end.

Definition ParseIP (s : string) : option IP :=
  match ip_form s with
  | Some true => v4_mapped <$> parseIPv4 s
  | Some false => if Contains s "%" then None else parseIPv6 s
  | None => None
  end.

(** ** Predicates *)

(** ip.To4() *)
Definition To4 (ip : IP) : option (list Z) :=
  if decide (length ip = 4%nat) then Some ip
  else if decide (length ip = 16%nat ∧ take 12 ip = replicate 10 0 ++ [255; 255])
  then Some (drop 12 ip) else None.

Definition byte (n : nat) (ip : list Z) : Z := default 0 (ip !! n).

Definition loopback6 : IP := replicate 15 0 ++ [1].

Definition IsLoopback (ip : IP) : bool :=
  match To4 ip with
  | Some v4 => byte 0 v4 =? 127
  | None => bool_decide (ip = loopback6)
  end.

Definition IsPrivate (ip : IP) : bool :=
  match To4 ip with
  | Some v4 =>
      (byte 0 v4 =? 10) || ((byte 0 v4 =? 172) && (Z.land (byte 1 v4) 240 =? 16)) ||
      ((byte 0 v4 =? 192) && (byte 1 v4 =? 168))
  | None => bool_decide (length ip = 16%nat) && (Z.land (byte 0 ip) 254 =? 252)
  end.

Definition IsLinkLocalUnicast (ip : IP) : bool :=
  match To4 ip with
  | Some v4 => (byte 0 v4 =? 169) && (byte 1 v4 =? 254)
  | None => bool_decide (length ip = 16%nat) && (byte 0 ip =? 254) &&
            (Z.land (byte 1 ip) 192 =? 128)
  end.

Definition IsLinkLocalMulticast (ip : IP) : bool :=
  match To4 ip with
  | Some v4 => (byte 0 v4 =? 224) && (byte 1 v4 =? 0) && (byte 2 v4 =? 0)
  | None => bool_decide (length ip = 16%nat) && (byte 0 ip =? 255) &&
            (Z.land (byte 1 ip) 15 =? 2)
  end.

Definition IsUnspecified (ip : IP) : bool :=
  bool_decide (ip = replicate 16 0) || bool_decide (To4 ip = Some [0; 0; 0; 0]).

(** ip.Equal: the two forms of an IPv4 address are equal. *)
Definition ip_Equal (a b : IP) : bool :=
  bool_decide (a = b) ||
  match To4 a, To4 b with Some x, Some y => bool_decide (x = y) | _, _ => false end.

Example parse_v4 : ParseIP "10.0.0.1" = Some (v4_mapped [10; 0; 0; 1]).
Proof. by vm_compute. Qed.
Example parse_v6 : ParseIP "fd00:ec2::254" =
  Some ([253; 0; 14; 194] ++ replicate 10 0 ++ [2; 84]).
Proof. by vm_compute. Qed.
Example parse_loopback : ParseIP "::1" = Some loopback6.
Proof. by vm_compute. Qed.
Example parse_mapped : ParseIP "::ffff:127.0.0.1" = Some (v4_mapped [127; 0; 0; 1]).
Proof. by vm_compute. Qed.
Example parse_name : ParseIP "github.com" = None.
Proof. by vm_compute. Qed.
Example parse_bad : ParseIP "01.2.3.4" = None ∧ ParseIP "1:2" = None ∧ ParseIP "1:2:3:4:5:6:7:8:" = None.
Proof. by vm_compute. Qed.
