(* ===== verification/Assembly.v ===== *)
(** * Context assembly (services/session-memory/internal/assembly)

    assemble.go: the token budget over parts in priority order. builder.go: the
    parts of a turn, read from the store through the interface it declares. *)

From S2P Require Import Prelude GoText Json Pg Memory Sessions Identity Repository.
From Stdlib Require Import ZArith Lia Ascii.
From stdpp Require Import options.

Open Scope Z_scope.
Open Scope list_scope.

(** ** Parts and the budget *)

Record Part := MkPart { Name : string; Content : string; Trimmable : bool }.

Record Assembled := MkAssembled {
  as_Text : string;
  as_Tokens : Z;
  Included : list string;
  Truncated : list string;
  Dropped : list string;
}.

Definition Assembled_zero : Assembled :=
  {| as_Text := EmptyString; as_Tokens := 0; Included := []; Truncated := []; Dropped := [] |}.

(** The type TokenCounter; [EstimateTokens] is the default. *)
Abbreviation TokenCounter := (string → Z).

Definition len (s : string) : Z := Z.of_nat (String.length s).

Definition EstimateTokens (s : string) : Z :=
  if String.eqb s EmptyString then 0 else Z.quot (len s + 3) 4.

(** A newline and "…[trimmed]" in UTF-8. *)
Definition marker : string := NL +:+ chr 226 +:+ chr 128 +:+ chr 166 +:+ "[trimmed]".

(** [for cut > 0 { ...; cut -= 16 }]; None is a loop that has not ended. *)
Fixpoint shrink (fuel : nat) (count : TokenCounter) (maxTokens : Z) (s : string) (cut : Z) :
    option string :=
  match fuel with
  | O => None
  | S fuel =>
      if 0 <? cut then
        let candidate := byte_prefix (Z.to_nat cut) s +:+ marker in
        if count candidate <=? maxTokens then Some candidate
        else shrink fuel count maxTokens s (cut - 16)
      else Some EmptyString
  end.

(** The first cut; four times a large budget wraps around. *)
Definition first_cut (maxTokens : Z) (s : string) : Z :=
  Z.min (wrap64 (maxTokens * 4)) (len s).

Definition shrink_fuel (s : string) : nat := S (String.length s).

Definition truncateToTokens (count : TokenCounter) (s : string) (maxTokens : Z) : string :=
  if maxTokens <=? 0 then EmptyString
  else if count s <=? maxTokens then s
  else default EmptyString
         (shrink (shrink_fuel s) count maxTokens s (first_cut maxTokens s)).

(** The loop of Assemble: the segments so far and what happened to the parts. *)
Record progress := Progress {
  segs : list string;
  tokens : Z;
  incl : list string;
  trunc : list string;
  drop_ : list string;
}.

Definition include (p : Part) (cost : Z) (o : progress) : progress :=
  {| segs := segs o ++ [Content p]; tokens := tokens o + cost;
     incl := incl o ++ [Name p]; trunc := trunc o; drop_ := drop_ o |}.

Definition drop_part (p : Part) (o : progress) : progress :=
  {| segs := segs o; tokens := tokens o; incl := incl o; trunc := trunc o;
     drop_ := drop_ o ++ [Name p] |}.

Definition trim_part (p : Part) (t : string) (cost : Z) (o : progress) : progress :=
  {| segs := segs o ++ [t]; tokens := tokens o + cost; incl := incl o;
     trunc := trunc o ++ [Name p]; drop_ := drop_ o |}.

(** A part that does not fit ends the loop. *)
Definition overflowing (count : TokenCounter) (remaining : Z) (p : Part) (o : progress) : progress :=
  if Trimmable p && (0 <? remaining) then
    let t := truncateToTokens count (Content p) remaining in
    if nonempty t then trim_part p t (count t) o else drop_part p o
  else drop_part p o.

Fixpoint assemble_loop (count : TokenCounter) (budget : Z) (ps : list Part) (o : progress) :
    progress :=
  match ps with
  | [] => o
  | p :: ps =>
      if negb (nonempty (Content p)) then assemble_loop count budget ps o
      else
        let cost := count (Content p) in
        let remaining := budget - tokens o in
        if (budget <=? 0) || (cost <=? remaining)
        then assemble_loop count budget ps (include p cost o)
        else overflowing count remaining p o
  end.

Definition start : progress :=
  {| segs := []; tokens := 0; incl := []; trunc := []; drop_ := [] |}.

Definition Assemble (parts : list Part) (budget : Z) (count : TokenCounter) : Assembled :=
  let o := assemble_loop count budget parts start in
  {| as_Text := Join (NL +:+ NL) (segs o); as_Tokens := tokens o;
     Included := incl o; Truncated := trunc o; Dropped := drop_ o |}.

(** ** Lemmas *)

(** The loop of truncateToTokens ends within the fuel, with a text that fits. *)
Lemma shrink_total fuel count mx s cut :
  cut <= 16 * Z.of_nat fuel → is_Some (shrink (S fuel) count mx s cut).
Proof.
  revert cut. induction fuel as [|fuel IH]; intros cut Hc; cbn [shrink].
  - destruct (0 <? cut) eqn:H0; [bools; lia|by eexists].
  - destruct (0 <? cut); [|by eexists]. destruct (_ <=? mx); [by eexists|].
    apply IH. lia.
Qed.

Lemma shrink_fits fuel count mx s cut t :
  shrink fuel count mx s cut = Some t → t = EmptyString ∨
    count t <= mx ∧ ∃ n, t = byte_prefix n s +:+ marker.
Proof.
  revert cut. induction fuel as [|fuel IH]; intros cut; [done|]. simpl.
  destruct (0 <? cut); [|intros [= <-]; by left].
  destruct (_ <=? mx) eqn:Hm; [|apply IH]. intros [= <-]. right. bools.
  split; [done|]. by eexists.
Qed.

Lemma truncate_fits count s mx :
  let t := truncateToTokens count s mx in
  t = EmptyString ∨ count t <= mx ∧ (t = s ∨ ∃ n, t = byte_prefix n s +:+ marker).
Proof.
  unfold truncateToTokens. destruct (mx <=? 0); [by left|].
  destruct (count s <=? mx) eqn:Hc; [right; bools; by auto|].
  destruct (shrink _ _ _ _ _) as [t|] eqn:Hs; [|by left]. simpl.
  apply shrink_fits in Hs as [?|[? ?]]; auto.
Qed.

Lemma truncate_terminates count s mx :
  is_Some (shrink (shrink_fuel s) count mx s (first_cut mx s)).
Proof. apply shrink_total; unfold first_cut, shrink_fuel, len; lia. Qed.

Definition nonempty_part (p : Part) : Prop := nonempty (Content p) = true.

Lemma overflowing_incl count remaining p o : incl (overflowing count remaining p o) = incl o.
Proof. unfold overflowing. by repeat case_match. Qed.

(** The tokens of parts that are included whole. *)
Definition used (count : TokenCounter) (ps : list Part) : Z :=
  foldr (λ p n, count (Content p) + n) 0 ps.

(** The [k]-th cut that is tried, sixteen bytes shorter each time. *)
Definition cut_at (mx : Z) (s : string) (k : nat) : Z := first_cut mx s - 16 * Z.of_nat k.

Definition candidate (s : string) (cut : Z) : string := byte_prefix (Z.to_nat cut) s +:+ marker.

(** [t] is the longest candidate that fits. *)
Definition trimmed_to (count : TokenCounter) (s : string) (mx : Z) (t : string) : Prop :=
  ∃ k, 0 < cut_at mx s k ∧ t = candidate s (cut_at mx s k) ∧ count t <= mx ∧
    ∀ j, (j < k)%nat → mx < count (candidate s (cut_at mx s j)).

(** No candidate fits. *)
Definition untrimmable (count : TokenCounter) (s : string) (mx : Z) : Prop :=
  ∀ k, 0 < cut_at mx s k → mx < count (candidate s (cut_at mx s k)).

Lemma shrink_exact fuel count mx s cut t :
  shrink fuel count mx s cut = Some t →
  (∃ k, 0 < cut - 16 * Z.of_nat k ∧ t = candidate s (cut - 16 * Z.of_nat k) ∧ count t <= mx ∧
     ∀ j, (j < k)%nat → mx < count (candidate s (cut - 16 * Z.of_nat j))) ∨
  (t = EmptyString ∧
   ∀ k, 0 < cut - 16 * Z.of_nat k → mx < count (candidate s (cut - 16 * Z.of_nat k))).
Proof.
  revert cut. induction fuel as [|fuel IH]; intros cut; [done|]. cbn [shrink].
  fold (candidate s cut). destruct (0 <? cut) eqn:H0.
  2: { intros [= <-]. right. split; [done|]. intros k. bools. lia. }
  destruct (count (candidate s cut) <=? mx) eqn:Hm.
  - intros [= <-]. left. exists O. rewrite Z.mul_0_r, Z.sub_0_r. bools. split_and!; try done. lia.
  - assert (∀ k, cut - 16 - 16 * Z.of_nat k = cut - 16 * Z.of_nat (S k)) as Hk by lia.
    assert (∀ k, (∀ j, k = S j → mx < count (candidate s (cut - 16 * Z.of_nat (S j)))) →
      mx < count (candidate s (cut - 16 * Z.of_nat k))) as Hcase.
    { intros [|k] H; [|by apply H]. rewrite Z.mul_0_r, Z.sub_0_r. bools. lia. }
    intros [(k & Hp & -> & Hc & Hj)|[-> Hn]]%IH; [left|right].
    + exists (S k). rewrite <-Hk. split_and!; try done. intros j Hlt. apply Hcase. intros j' ->.
      rewrite <-Hk. apply Hj. lia.
    + split; [done|]. intros k Hp. apply Hcase. intros j ->. rewrite <-Hk. apply Hn. by rewrite Hk.
Qed.

(** What becomes of the part that does not fit. *)
Lemma overflowing_exact count left p o :
  left < count (Content p) →
  let o' := overflowing count left p o in
  (∃ t, Trimmable p = true ∧ 0 < left ∧ trimmed_to count (Content p) left t ∧
     Join (NL +:+ NL) (segs o') = Join (NL +:+ NL) (segs o ++ [t]) ∧
     tokens o' = tokens o + count t ∧ trunc o' = trunc o ++ [Name p] ∧ drop_ o' = drop_ o) ∨
  ((Trimmable p = false ∨ left <= 0 ∨ untrimmable count (Content p) left) ∧
     Join (NL +:+ NL) (segs o') = Join (NL +:+ NL) (segs o) ∧
     tokens o' = tokens o ∧ trunc o' = trunc o ∧ drop_ o' = drop_ o ++ [Name p]).
Proof.
  intros Hlt. cbv zeta. unfold overflowing. destruct (Trimmable p); cbn [andb]; [|right; by auto 6].
  destruct (0 <? left) eqn:H0; bools; [|right; by auto 6]. unfold truncateToTokens.
  rewrite (proj2 (Z.leb_gt left 0)), (proj2 (Z.leb_gt (count (Content p)) left)) by lia.
  destruct (truncate_terminates count (Content p) left) as [t Ht]. rewrite Ht. cbn [default from_option id].
  destruct (shrink_exact _ _ _ _ _ _ Ht) as [(k & Hk & Hc & Hfit & Hj)|[-> Hn]].
  - assert (nonempty t = true) as ->.
    { apply nonempty_true. rewrite Hc. unfold candidate. by destruct (byte_prefix _ _). }
    left. exists t. split_and!; try done. by exists k.
  - right. auto 6.
Qed.

(** What one pass over the parts adds to the progress. *)
Lemma assemble_loop_spec count budget ps : ∀ o,
  let o' := assemble_loop count budget ps o in
  ∃ done_ rest, filter nonempty_part ps = done_ ++ rest ∧
    incl o' = incl o ++ (Name <$> done_) ∧
    (∀ l p l', done_ = l ++ p :: l' →
       budget <= 0 ∨ tokens o + used count l + count (Content p) <= budget) ∧
    ((rest = [] ∧ segs o' = segs o ++ (Content <$> done_) ∧
      tokens o' = tokens o + used count done_ ∧
      trunc o' = trunc o ∧ drop_ o' = drop_ o) ∨
     ∃ p rest' mid, rest = p :: rest' ∧ 0 < budget ∧
       budget - tokens mid < count (Content p) ∧
       segs mid = segs o ++ (Content <$> done_) ∧
       tokens mid = tokens o + used count done_ ∧
       incl mid = incl o ++ (Name <$> done_) ∧ trunc mid = trunc o ∧ drop_ mid = drop_ o ∧
       o' = overflowing count (budget - tokens mid) p mid).
Proof.
  induction ps as [|p ps IH]; intros o; simpl.
  - exists [], []. simpl. rewrite !app_nil_r. split; [done|]. split; [done|].
    split; [by intros [] ? ?|]. left. by rewrite Z.add_0_r.
  - rewrite filter_cons. case_decide as Hn; unfold nonempty_part in Hn.
    2: { apply not_true_is_false in Hn. rewrite Hn. apply IH. }
    rewrite Hn. simpl.
    destruct ((budget <=? 0) || (count (Content p) <=? budget - tokens o)) eqn:Hc.
    + destruct (IH (include p (count (Content p)) o)) as (dn & rest & Hf & Hi & Hfit & Hrest).
      exists (p :: dn), rest. rewrite Hf. split; [done|]. simpl in *.
      split; [by rewrite Hi, <-(assoc_L (++))|]. split.
      { intros [|q l] r l' [= <- Hl]; cbn; [apply orb_true_iff in Hc as [Hc|Hc]; bools; lia|].
        destruct (Hfit l r l' Hl); [by left|right]. unfold used in *. lia. }
      destruct Hrest as [(-> & Hs & Ht & ? & ?)|(q & rest' & mid & -> & Hb & Hlt & Hs & Ht & Hm & Htr & Hd & ->)].
      * left. rewrite Hs, Ht, <-(assoc_L (++)). split_and!; try done. unfold used. simpl. lia.
      * right. exists q, rest', mid. rewrite Hs, Ht, Hm, <-!(assoc_L (++)).
        split_and!; try done; try lia.
    + apply orb_false_iff in Hc as [Hb Hc]. bools.
      exists [], (p :: filter nonempty_part ps). simpl. rewrite app_nil_r. split; [done|].
      split; [apply overflowing_incl|]. split; [by intros [] ? ?|right].
      exists p, (filter nonempty_part ps), o. simpl. rewrite !app_nil_r.
      split_and!; try done; lia.
Qed.

Lemma overflowing_tokens count remaining p o :
  0 <= remaining → tokens (overflowing count remaining p o) <= tokens o + remaining.
Proof.
  intros Hr. unfold overflowing. destruct (_ && _); [|simpl; lia].
  destruct (nonempty (truncateToTokens _ _ _)) eqn:Hn; simpl; [|lia].
  apply nonempty_true in Hn.
  destruct (truncate_fits count (Content p) remaining) as [?|[? _]]; [done|lia].
Qed.

Lemma loop_budget count budget ps : ∀ o,
  0 < budget → tokens o <= budget → tokens (assemble_loop count budget ps o) <= budget.
Proof.
  induction ps as [|p ps IH]; intros o Hb Ho; simpl; [done|].
  destruct (nonempty (Content p)); simpl; [|by apply IH].
  destruct (budget <=? 0) eqn:?; [bools; lia|]. simpl.
  destruct (count (Content p) <=? budget - tokens o) eqn:?; bools.
  - apply IH; [done|]. simpl. lia.
  - pose proof (overflowing_tokens count (budget - tokens o) p o). lia.
Qed.

(** ** Properties of Assemble *)

(** C35: With a positive budget the tokens that Assemble counts never exceed it, for every
    token counter. *)
Theorem Assemble_budget parts budget count :
  0 < budget → as_Tokens (Assemble parts budget count) <= budget.
Proof. intros. apply loop_budget; [done|]. simpl. lia. Qed.

(** C34: Assemble takes the longest prefix of the non-empty parts whose costs add up
    within the budget, whole and in their order (all of them without a budget). The next
    part, which costs more than what is left, is trimmed when it may be trimmed and
    something is left, to the longest cut of itself with the marker that fits, counting
    from the first cut sixteen bytes at a time; it is dropped when it may not be trimmed,
    when nothing is left, or when no such cut fits; and nothing after it is included. Text
    and token count are those of what was taken. *)
Theorem Assemble_priority parts budget count :
  let a := Assemble parts budget count in
  ∃ taken rest, filter nonempty_part parts = taken ++ rest ∧
    Included a = Name <$> taken ∧
    (∀ l p l', taken = l ++ p :: l' →
       budget <= 0 ∨ used count l + count (Content p) <= budget) ∧
    match rest with
    | [] => as_Text a = Join (NL +:+ NL) (Content <$> taken) ∧ as_Tokens a = used count taken ∧
            Truncated a = [] ∧ Dropped a = []
    | p :: _ =>
        let left := budget - used count taken in
        0 < budget ∧ left < count (Content p) ∧
        ((∃ t, Trimmable p = true ∧ 0 < left ∧ trimmed_to count (Content p) left t ∧
            as_Text a = Join (NL +:+ NL) ((Content <$> taken) ++ [t]) ∧
            as_Tokens a = used count taken + count t ∧
            Truncated a = [Name p] ∧ Dropped a = []) ∨
         ((Trimmable p = false ∨ left <= 0 ∨ untrimmable count (Content p) left) ∧
            as_Text a = Join (NL +:+ NL) (Content <$> taken) ∧ as_Tokens a = used count taken ∧
            Truncated a = [] ∧ Dropped a = [Name p]))
    end.
Proof.
  destruct (assemble_loop_spec count budget parts start) as (dn & rest & Hf & Hi & Hfit & Hrest).
  exists dn, rest. split; [done|]. split; [exact Hi|]. split; [exact Hfit|]. unfold Assemble. cbn.
  destruct Hrest as [(-> & Hs & Htok & Ht & Hd)|
    (p & rest' & mid & -> & Hb & Hlt & Hs & Htok & _ & Ht & Hd & ->)]; [by rewrite Hs, Htok, Ht, Hd|].
  cbn in Hs, Htok, Ht, Hd. split; [done|]. rewrite Htok in Hlt |- *. split; [exact Hlt|].
  pose proof (overflowing_exact count (budget - used count dn) p mid Hlt) as Ho.
  rewrite Hs, Htok, Ht, Hd in Ho. exact Ho.
Qed.

(** The joined text can cost more than the tokens that were counted: the
    blank line between two parts is not. *)
Theorem Assemble_text_over_budget :
  let a := Assemble [ {| Name := "a"; Content := "abcd"; Trimmable := false |};
                      {| Name := "b"; Content := "abcd"; Trimmable := false |} ] 2 EstimateTokens in
  as_Tokens a = 2 ∧ EstimateTokens (as_Text a) = 3.
Proof. by vm_compute. Qed.

(** ** The builder *)

(** The interface [Store] of builder.go. *)
Class ContextStore (S : Type) := {
  cs_SearchFacts : FactQuery → S → result (list Fact) * S;
  cs_GetSummary : string → S → result Summary * S;
  cs_ListTurns : string → Z → S → result (list Turn) * S;
  cs_UpsertSummary : string → string → S → result Summary * S;
  cs_WriteFact : FactInput → S → result Fact * S;
}.

Record TurnInput := MkTurnInput {
  tn_SessionID : string;
  tn_ScopeType : string;
  tn_ScopeID : string;
  MemoryTags : list string;
  MemoryTopK : Z;
  RecentTurns : Z;
  SystemPrompt : string;
  GooseHints : string;
  RecipeInstructions : string;
  ToolOutput : string;
  Budget : Z;
}.

Definition formatFact (f : Fact) : string :=
  NL +:+ "- " +:+ Fact_Key f +:+ ": " +:+ Fact_Value f +:+
  match Fact_Tags f with [] => EmptyString | ts => " [" +:+ Join ", " ts +:+ "]" end.

Definition formatFacts (facts : list Fact) : string :=
  match facts with
  | [] => EmptyString
  | _ => "Relevant memory:" +:+ String.concat EmptyString (formatFact <$> facts)
  end.

Definition formatTurn (t : Turn) : string := NL +:+ Turn_Role t +:+ ": " +:+ Turn_Content t.

Definition formatTurns (turns : list Turn) : string :=
  match turns with
  | [] => EmptyString
  | _ => "Recent conversation:" +:+ String.concat EmptyString (formatTurn <$> turns)
  end.

Definition prefixed (prefix body : string) : string :=
  if nonempty (TrimSpace body) then prefix +:+ NL +:+ body else EmptyString.

Definition parts_of (i : TurnInput) (memoryText summaryText turnsText : string) : list Part :=
  [ {| Name := "system"; Content := SystemPrompt i; Trimmable := false |};
    {| Name := "goosehints"; Content := GooseHints i; Trimmable := false |};
    {| Name := "recipe"; Content := RecipeInstructions i; Trimmable := false |};
    {| Name := "memory"; Content := memoryText; Trimmable := false |};
    {| Name := "summary"; Content := prefixed "Conversation summary:" summaryText; Trimmable := false |};
    {| Name := "recent_turns"; Content := turnsText; Trimmable := false |};
    {| Name := "tool_output"; Content := prefixed "Tool results:" (ToolOutput i); Trimmable := true |} ].

Section builder.
Context {S : Type} `{ContextStore S} (count : TokenCounter).

Definition memory_query (i : TurnInput) : FactQuery :=
  {| q_ScopeType := tn_ScopeType i; q_ScopeID := tn_ScopeID i; q_Tags := MemoryTags i;
     q_Limit := MemoryTopK i; q_IncludeExpired := false |}.

Definition build_memory (i : TurnInput) : M S (result string) :=
  if nonempty (tn_ScopeType i) && nonempty (tn_ScopeID i) then
    r ← (cs_SearchFacts (memory_query i) : M S _);
    mret (match r with
          | Ok fs => Ok (formatFacts fs)
          | Err e => Err (ErrWrap "assembly: retrieve memory: " e)
          end)
  else mret (Ok EmptyString).

Definition build_summary (i : TurnInput) : M S (result string) :=
  r ← (cs_GetSummary (tn_SessionID i) : M S _);
  mret (match r with
        | Ok s => Ok (TrimSpace (Summary_Summary s))
        | Err e => if errors_Is e ErrNotFound then Ok EmptyString
                   else Err (ErrWrap "assembly: get summary: " e)
        end).

Definition build_turns (i : TurnInput) : M S (result string) :=
  if 0 <? RecentTurns i then
    r ← (cs_ListTurns (tn_SessionID i) (RecentTurns i) : M S _);
    mret (match r with
          | Ok ts => Ok (formatTurns ts)
          | Err e => Err (ErrWrap "assembly: list turns: " e)
          end)
  else mret (Ok EmptyString).

(** The summary and the recent turns, when there is a session. *)
Definition build_session (i : TurnInput) : M S (result (string * string)) :=
  if nonempty (tn_SessionID i) then
    s ← build_summary i;
    match s with
    | Err e => mret (Err e)
    | Ok s => t ← build_turns i; mret (match t with Ok t => Ok (s, t) | Err e => Err e end)
    end
  else mret (Ok (EmptyString, EmptyString)).

Definition Build (i : TurnInput) : M S (result Assembled) :=
  m ← build_memory i;
  match m with
  | Err e => mret (Err e)
  | Ok memoryText =>
      s ← build_session i;
      mret (match s with
            | Err e => Err e
            | Ok (summaryText, turnsText) =>
                Ok (Assemble (parts_of i memoryText summaryText turnsText) (Budget i) count)
            end)
  end.

Fixpoint persist_facts (fs : list FactInput) : M S (result unit) :=
  match fs with
  | [] => mret (Ok ())
  | f :: fs =>
      r ← (cs_WriteFact f : M S _);
      match r with
      | Err e => mret (Err (Errorf_w "assembly: persist fact %q: " [Fs (in_Key f)] e))
      | Ok _ => persist_facts fs
      end
  end.

Definition PersistTurnResult (sessionID summary : string) (fs : list FactInput) :
    M S (result unit) :=
  if nonempty summary then
    r ← (cs_UpsertSummary sessionID summary : M S _);
    match r with
    | Err e => mret (Err (ErrWrap "assembly: persist summary: " e))
    | Ok _ => persist_facts fs
    end
  else persist_facts fs.
End builder.

(** ** Concrete instance *)

Definition sample_parts : list Part :=
  [ {| Name := "system"; Content := "be kind"; Trimmable := false |};
    {| Name := "tool_output"; Content := String.concat EmptyString (replicate 30 "row "%string);
       Trimmable := true |} ].

Lemma Assemble_budget_witness :
  Truncated (Assemble sample_parts 9 EstimateTokens) = ["tool_output"%string] ∧
  as_Tokens (Assemble sample_parts 9 EstimateTokens) <= 9.
Proof. split; [reflexivity|]. apply Assemble_budget. lia. Defined.
