(* ===== verification/AssemblyStore.v ===== *)
(** * Context assembly over the repository

    The instance of the builder's store by the tables of Repository.v: which
    facts a turn's context can depend on, and what persisting a turn leaves. *)

From S2P Require Import Prelude GoText Json Pg Memory Sessions.
From S2P Require Import Identity Governance Registry Repository Assembly.
From Stdlib Require Import ZArith Lia Ascii.
From stdpp Require Import options.

Open Scope Z_scope.
Open Scope list_scope.

Section repo.
Context `{PgText}.

#[export] Instance repo_ContextStore : ContextStore repo := {
  cs_SearchFacts q := repo_query (λ st d, SearchFacts st q (d_facts d));
  cs_GetSummary id := repo_query (λ _ d, GetSummary id (d_conv d));
  cs_ListTurns id n := repo_query (λ _ d, ListTurns id n (d_conv d));
  cs_UpsertSummary id s := repo_write (λ st d,
    let '(r, c) := UpsertSummary st id s (d_conv d) in (r, with_conv c d));
  cs_WriteFact i := repo_write (λ st d,
    let '(r, f) := WriteFact st i (d_facts d) in (r, with_facts f d));
}.

(** ** Lemmas *)

(** A search sees only the rows of its scope. *)
Lemma select_facts_scope st q facts :
  select_facts st q facts =
  select_facts st q (filter (λ r, in_scope (q_ScopeType q) (q_ScopeID q) r = true) facts).
Proof.
  unfold select_facts. do 2 f_equal. rewrite list_filter_filter. apply list_filter_iff.
  intros r. unfold matches. rewrite !andb_true_iff. tauto.
Qed.

(** Two repositories that a turn in a scope cannot tell apart. *)
Definition same_view (scopeType scopeID : string) (r1 r2 : repo) : Prop :=
  d_conv (r_db r1) = d_conv (r_db r2) ∧ r_stmts r1 = r_stmts r2 ∧ r_next r1 = r_next r2 ∧
  filter (λ r, in_scope scopeType scopeID r = true) (d_facts (r_db r1)) =
  filter (λ r, in_scope scopeType scopeID r = true) (d_facts (r_db r2)).

(** A computation with the same result on both, that keeps them alike. *)
Definition blind {A} (t i : string) (m : M repo A) : Prop :=
  ∀ r1 r2, same_view t i r1 r2 → (m r1).1 = (m r2).1 ∧ same_view t i (m r1).2 (m r2).2.

Lemma blind_ret {A} t i (a : A) : blind t i (mret a).
Proof. done. Qed.

Lemma blind_bind {A B} t i (m : M repo A) (f : A → M repo B) :
  blind t i m → (∀ a, blind t i (f a)) → blind t i (m ≫= f).
Proof.
  intros Hm Hf r1 r2 Hv. destruct (Hm r1 r2 Hv) as [H1 H2]. unfold mbind, M_bind.
  destruct (m r1) as [a1 s1], (m r2) as [a2 s2]. simpl in *. subst a2. by apply Hf.
Qed.

Lemma blind_query {A} t i (f : Stmt → db → A) :
  (∀ st d1 d2, d_conv d1 = d_conv d2 →
     filter (λ r, in_scope t i r = true) (d_facts d1) =
     filter (λ r, in_scope t i r = true) (d_facts d2) → f st d1 = f st d2) →
  blind t i (repo_query f).
Proof.
  intros Hf r1 r2 (Hc & Hs & Hn & Hfa). simpl. rewrite Hs, Hn. split; [by apply Hf|].
  by repeat split; simpl; rewrite ?Hn.
Qed.

Lemma Build_blind count i : blind (tn_ScopeType i) (tn_ScopeID i) (Build count i).
Proof.
  unfold Build. apply blind_bind.
  - unfold build_memory. case_match; [|apply blind_ret]. apply blind_bind.
    + apply blind_query. intros st d1 d2 _ Hf. unfold SearchFacts. case_match; [|done].
      rewrite (select_facts_scope _ _ (d_facts d1)), (select_facts_scope _ _ (d_facts d2)).
      simpl. by rewrite Hf.
    + intros ?. apply blind_ret.
  - intros [m|e]; [|apply blind_ret]. apply blind_bind; [|intros ?; apply blind_ret].
    unfold build_session. case_match; [|apply blind_ret]. apply blind_bind.
    + unfold build_summary. apply blind_bind; [|intros ?; apply blind_ret].
      apply blind_query. by intros st d1 d2 -> _.
    + intros [s|e]; [|apply blind_ret]. apply blind_bind; [|intros ?; apply blind_ret].
      unfold build_turns. case_match; [|apply blind_ret].
      apply blind_bind; [|intros ?; apply blind_ret].
      apply blind_query. by intros st d1 d2 -> _.
Qed.

(** ** Properties *)

(** C33: The context assembled for a turn depends only on the conversations and on the
    facts of the turn's own scope: changing the facts of other users, committees or the
    organisation changes nothing. *)
Theorem Build_noninterference count i r1 r2 :
  same_view (tn_ScopeType i) (tn_ScopeID i) r1 r2 →
  (Build count i r1).1 = (Build count i r2).1.
Proof. intros Hv. by apply Build_blind. Qed.

(** The rows that a prefix of the facts became. *)
Definition persisted (fs : list FactInput) (rows : list fact_row) : Prop :=
  Forall2 (λ i r, f_scope_type r = in_ScopeType i ∧ f_scope_id r = in_ScopeID i ∧
                  f_key r = in_Key i ∧ f_value r = in_Value i) fs rows.

Lemma persisted_nil : persisted [] [].
Proof. constructor. Qed.

(** Closes the case in which no fact was written. *)
Ltac nothing_persisted :=
  split_and!; first [done | apply persisted_nil | by rewrite app_nil_r | by split].

Lemma persist_facts_spec fs : ∀ r,
  let '(res, r') := persist_facts fs r in
  d_conv (r_db r') = d_conv (r_db r) ∧
  ∃ rows done_ rest, fs = done_ ++ rest ∧ persisted done_ rows ∧
    d_facts (r_db r') = d_facts (r_db r) ++ rows ∧
    (res = Ok () ↔ rest = []).
Proof.
  induction fs as [|f fs IH]; intros r; simpl.
  - split; [done|]. exists [], [], []. nothing_persisted.
  - unfold mbind, M_bind, repo_write.
    unfold WriteFact. destruct (validScope (in_ScopeType f)).
    2: { cbn. split; [done|]. exists [], [], (f :: fs).
      nothing_persisted. }
    case_bool_decide.
    { cbn. split; [done|]. exists [], [], (f :: fs).
      nothing_persisted. }
    match goal with |- context [persist_facts fs ?s] => specialize (IH s) end.
    destruct (persist_facts fs _) as [res r']. cbn in IH.
    destruct IH as (Hc & rows & dn & rest & -> & Hp & Hf & Hres). split; [done|].
    exists (fact_of_input (r_stmts r (r_next r)) f :: rows), (f :: dn), rest.
    split; [done|]. split; [by apply Forall2_cons|].
    rewrite Hf, <-(assoc_L (++)). done.
Qed.

(** PersistTurnResult stores the summary and then the facts in order; on an error the
    facts stored are a prefix of those given and the rest are not stored, and without an
    error all are and the summary reads back. *)
Theorem PersistTurnResult_prefix sid summary fs r :
  let '(res, r') := PersistTurnResult sid summary fs r in
  ∃ rows done_ rest, fs = done_ ++ rest ∧ persisted done_ rows ∧
    d_facts (r_db r') = d_facts (r_db r) ++ rows ∧
    (res = Ok () → rest = []) ∧
    (res = Ok () → summary ≠ EmptyString → ∃ s, GetSummary sid (d_conv (r_db r')) = Ok s ∧
       Summary_Summary s = summary) ∧
    (summary = EmptyString → d_conv (r_db r') = d_conv (r_db r)).
Proof.
  unfold PersistTurnResult. destruct (nonempty summary) eqn:Hs.
  - apply nonempty_true in Hs. unfold mbind, M_bind. cbn [cs_UpsertSummary repo_ContextStore].
    unfold repo_write. unfold UpsertSummary, uuid_arg, GetSummary, uuid_arg.
    destruct (uuid_in sid) as [u|] eqn:Hu.
    2: { cbn. exists [], [], fs.
      nothing_persisted. }
    destruct (session_exists (d_conv (r_db r)) u).
    2: { cbn. exists [], [], fs.
      nothing_persisted. }
    match goal with |- context [persist_facts fs ?s] => pose proof (persist_facts_spec fs s) as Hp end.
    destruct (persist_facts fs _) as [res r']. cbn in Hp.
    destruct Hp as (Hc & rows & dn & rest & Hfs & Hpe & Hf & Hres).
    exists rows, dn, rest. repeat (split; [done|]). split; [by apply Hres|]. split; [|done].
    intros _ _. rewrite Hc. cbn. rewrite lookup_insert_eq. eexists. by split.
  - apply nonempty_false in Hs. pose proof (persist_facts_spec fs r) as Hp.
    destruct (persist_facts fs r) as [res r'].
    destruct Hp as (Hc & rows & dn & rest & Hfs & Hpe & Hf & Hres).
    exists rows, dn, rest. repeat (split; [done|]). split; [by apply Hres|].
    split; [by intros _ ?|]. done.
Qed.
End repo.

(** ** Concrete instance *)

#[local] Existing Instance unary_text.

Definition sample_repo (facts : list fact_row) : repo :=
  {| r_db := with_facts facts db_empty; r_stmts := λ n, sample_stmt (100 + Z.of_nat n) (N.of_nat n);
     r_next := 0 |}.

Definition sample_fact (scopeID value : string) : fact_row :=
  {| f_id := 7; f_scope_type := ScopeUser; f_scope_id := scopeID; f_key := "lunch";
     f_value := value; f_tags := []; f_source := EmptyString; f_created_at := 1;
     f_expires_at := None |}.

Definition sample_turn : TurnInput :=
  {| tn_SessionID := EmptyString; tn_ScopeType := ScopeUser; tn_ScopeID := "U1"; MemoryTags := [];
     MemoryTopK := 5; RecentTurns := 0; SystemPrompt := "be kind"; GooseHints := EmptyString;
     RecipeInstructions := EmptyString; ToolOutput := EmptyString; Budget := 100 |}.

(** The turn of U1 reads the fact of U1, and does not see that of U2. *)
Lemma Build_noninterference_witness :
  (Build EstimateTokens sample_turn
    (sample_repo [sample_fact "U2" "sushi"; sample_fact "U1" "ramen"])).1 =
  (Build EstimateTokens sample_turn (sample_repo [sample_fact "U1" "ramen"])).1 ∧
  (as_Text <$> (Build EstimateTokens sample_turn (sample_repo [sample_fact "U1" "ramen"])).1) =
  Ok ("be kind" +:+ NL +:+ NL +:+ "Relevant memory:" +:+ NL +:+ "- lunch: ramen")%string.
Proof.
  split; [|reflexivity]. apply Build_noninterference. repeat split.
Defined.
