(* ===== verification/MemoryMCP.v ===== *)
(** * The Memory MCP and the retention job

    services/session-memory/internal/memory/tools.go over the interface it
    declares, the bearer check of cmd/memory-mcp, and the job cmd/retention. *)

From S2P Require Import Prelude GoText Time Json Http Pg.
From S2P Require Import Memory Sessions Identity Governance Registry Repository.
From Stdlib Require Import ZArith Lia Ascii.
From stdpp Require Import options.

Open Scope Z_scope.
Open Scope list_scope.

(** The interface [FactStore]. *)
Class FactStore (S : Type) := {
  fs_WriteFact : FactInput → S → result Fact * S;
  fs_SearchFacts : FactQuery → S → result (list Fact) * S;
  fs_ForgetFact : string → S → result bool * S;
  fs_ForgetFactsByKey : string → string → string → S → result Z * S;
}.

Record WriteFactInput := MkWriteFactInput {
  wf_ScopeType : string;
  wf_ScopeID : string;
  wf_Key : string;
  wf_Value : string;
  wf_Tags : list string;
  wf_Source : string;
  wf_ExpiresAt : string;
}.

Record SearchInput := MkSearchInput {
  sr_ScopeType : string; sr_ScopeID : string; sr_Tags : list string; sr_Limit : Z }.

Record ForgetInput := MkForgetInput {
  fg_ID : string; fg_ScopeType : string; fg_ScopeID : string; fg_Key : string }.

Section handlers.
Context {S : Type} `{FactStore S}.

Definition mcp_fact (i : WriteFactInput) (expires : option Z) : FactInput :=
  {| in_ScopeType := wf_ScopeType i; in_ScopeID := wf_ScopeID i; in_Key := wf_Key i;
     in_Value := wf_Value i; in_Tags := wf_Tags i; in_Source := wf_Source i;
     in_ExpiresAt := expires |}.

Definition err_expires (s : string) : error :=
  ErrWrap "memory: invalid expires_at: " (Errorf "parsing time %q" [Fs s]).

Definition mcp_WriteFact (i : WriteFactInput) : M S (result Fact) :=
  if nonempty (wf_ExpiresAt i) then
    match parse_RFC3339 (wf_ExpiresAt i) with
    | None => mret (Err (err_expires (wf_ExpiresAt i)))
    | Some t => fs_WriteFact (mcp_fact i (Some t))
    end
  else fs_WriteFact (mcp_fact i None).

Definition mcp_Search (i : SearchInput) : M S (result (list Fact)) :=
  fs_SearchFacts {| q_ScopeType := sr_ScopeType i; q_ScopeID := sr_ScopeID i;
                    q_Tags := sr_Tags i; q_Limit := sr_Limit i; q_IncludeExpired := false |}.

(** ForgetOutput is its count. *)
Definition mcp_Forget (i : ForgetInput) : M S (result Z) :=
  if nonempty (fg_ID i) then
    r ← (fs_ForgetFact (fg_ID i) : M S _);
    mret (match r with Err e => Err e | Ok true => Ok 1 | Ok false => Ok 0 end)
  else if nonempty (fg_ScopeType i) && nonempty (fg_ScopeID i) && nonempty (fg_Key i) then
    fs_ForgetFactsByKey (fg_ScopeType i) (fg_ScopeID i) (fg_Key i)
  else mret (Err (ErrNew "memory: forget requires either id or (scope_type, scope_id, key)")).
End handlers.

(** cmd/memory-mcp's withAuth: without a token every request passes. *)
Definition withAuth {A} (token : string) (next : Request → A) (denied : A) (r : Request) : A :=
  if nonempty token && negb (String.eqb (Header_Get r "Authorization") ("Bearer " +:+ token))
  then denied else next r.

(** ** Over the repository *)

Section repo.
Context `{PgText}.

#[export] Instance repo_FactStore : FactStore repo := {
  fs_WriteFact i := repo_write (λ st d,
    let '(r, f) := WriteFact st i (d_facts d) in (r, with_facts f d));
  fs_SearchFacts q := repo_query (λ st d, SearchFacts st q (d_facts d));
  fs_ForgetFact id := repo_write (λ _ d,
    let '(r, f) := ForgetFact id (d_facts d) in (r, with_facts f d));
  fs_ForgetFactsByKey t i k := repo_write (λ _ d,
    let '(r, f) := ForgetFactsByKey t i k (d_facts d) in (r, with_facts f d));
}.

(** cmd/retention: the instants are those of the single [now] it takes. *)
Definition retention_days (Getenv : string → string) : Z :=
  envInt Getenv "AUDIT_RETENTION_DAYS" 365.

Definition AddDays (t n : Z) : Z := t + n * 86400 * second.

Definition retention (Getenv : string → string) (now : Z) (d : db) : (Z * Z) * db :=
  let '(n, facts) := delete_where (expired now) (d_facts d) in
  let cutoff := AddDays now (- retention_days Getenv) in
  let '(m, audit) := delete_where (λ r, l_created_at r <? cutoff) (audit_log (d_gov d)) in
  ((n, m), with_gov (set_audit audit (d_gov d)) (with_facts facts d)).

(** The job is the two statements of the store. *)
Lemma retention_store env t d :
  let '((n, m), d') := retention env t d in
  DeleteExpiredFacts t (d_facts d) = (Ok n, d_facts d') ∧
  AgeOutAudit (AddDays t (- retention_days env)) (d_gov d) = (Ok m, d_gov d').
Proof. done. Qed.

(** ** Properties *)

(** Forget removes exactly the fact with the given id, or every fact with the given
    scope and key, and reports how many; an error removes nothing. *)
Theorem Forget_exact i (r : repo) :
  let '(res, r') := mcp_Forget i r in
  let gone f := match fg_ID i with
                | EmptyString => f_scope_type f = fg_ScopeType i ∧ f_scope_id f = fg_ScopeID i ∧
                                 f_key f = fg_Key i
                | id => uuid_in id = Some (f_id f) end in
  match res with
  | Err _ => d_facts (r_db r') = d_facts (r_db r)
  | Ok n =>
      (∀ f, f ∈ d_facts (r_db r') ↔ f ∈ d_facts (r_db r) ∧ ¬ gone f) ∧
      (fg_ID i = EmptyString →
       n + Z.of_nat (length (d_facts (r_db r'))) = Z.of_nat (length (d_facts (r_db r))))
  end.
Proof.
  unfold mcp_Forget. destruct (fg_ID i) as [|c id] eqn:Hid.
  - cbn [nonempty String.eqb negb]. destruct (_ && _ && _) eqn:Hk; [|done].
    unfold fs_ForgetFactsByKey, repo_FactStore, repo_write, ForgetFactsByKey.
    destruct (delete_where _ _) as [n fs] eqn:Hd. cbn [r_db with_facts d_facts].
    split.
    + intros f. apply (f_equal snd) in Hd as Hs. simpl in Hs. rewrite <-Hs, list_elem_of_filter.
      rewrite <-not_true_iff_false, andb_true_iff, in_scope_true, String.eqb_eq. tauto.
    + intros _. pose proof (delete_where_count
        (λ r0, in_scope (fg_ScopeType i) (fg_ScopeID i) r0 && (f_key r0 =? fg_Key i)%string)
        (d_facts (r_db r))) as Hc. rewrite Hd in Hc. simpl in Hc. lia.
  - cbn [nonempty String.eqb negb]. unfold mbind, M_bind, fs_ForgetFact, repo_FactStore, repo_write.
    unfold ForgetFact, uuid_arg. destruct (uuid_in (String c id)) as [u|] eqn:Hu; [|done].
    destruct (delete_where _ _) as [n fs] eqn:Hd.
    apply (f_equal snd) in Hd as Hs. simpl in Hs.
    assert (∀ f, f ∈ fs ↔ f ∈ d_facts (r_db r) ∧ ¬ Some u = Some (f_id f)) as Hfs.
    { intros f. rewrite <-Hs, list_elem_of_filter, bool_decide_eq_false. naive_solver. }
    destruct (0 <? n); cbn; by split.
Qed.

(** The retention job removes exactly the facts that have expired and the audit rows
    older than the configured number of days, reports the number of facts removed, and
    touches no other table. *)
Theorem retention_exact env t d :
  let '((n, m), d') := retention env t d in
  (∀ f, f ∈ d_facts d' ↔ f ∈ d_facts d ∧ ∀ e, f_expires_at f = Some e → t < e) ∧
  (∀ a, a ∈ audit_log (d_gov d') ↔
     a ∈ audit_log (d_gov d) ∧ t - retention_days env * 86400 * second <= l_created_at a) ∧
  n = Z.of_nat (length (d_facts d)) - Z.of_nat (length (d_facts d')) ∧
  approvals (d_gov d') = approvals (d_gov d) ∧ d_conv d' = d_conv d ∧
  d_people d' = d_people d ∧ d_registry d' = d_registry d.
Proof.
  unfold retention. destruct (delete_where (expired t) _) as [n fs] eqn:Hd.
  destruct (delete_where _ (audit_log _)) as [m au] eqn:Ha. cbn.
  pose proof (delete_where_count (expired t) (d_facts d)) as Hc. rewrite Hd in Hc. simpl in Hc.
  apply (f_equal snd) in Hd. apply (f_equal snd) in Ha. simpl in Hd, Ha. split_and!; try done.
  - intros f. rewrite <-Hd, list_elem_of_filter. unfold expired.
    destruct (f_expires_at f) as [e|]; [|naive_solver]. rewrite Z.leb_gt. naive_solver.
  - intros a. rewrite <-Ha, list_elem_of_filter. unfold AddDays.
    assert ((l_created_at a <? t + - retention_days env * 86400 * second) = false ↔
      t - retention_days env * 86400 * second <= l_created_at a) as ->; [|tauto].
    rewrite Z.ltb_ge. lia.
  - lia.
Qed.
End repo.
