(* ===== verification/Process.v ===== *)
(** * Processes

    What a [main] of the source does with its environment: it exits with a
    status, returns, or serves a handler. Opening and migrating the database
    (services/session-memory/store/store.go, migrate.go) are part of the way
    there; the driver and the migration library are an interface. *)

From S2P Require Import Prelude GoText Json Http MemoryMCP.
From Stdlib Require Import ZArith Lia Ascii.
From stdpp Require Import options.

Open Scope Z_scope.
Open Scope list_scope.

(** ** How a start-up ends *)

(** [Exit status message]: os.Exit after the message was logged. [Serve]: the
    call of http.ListenAndServe, which blocks; [on_error] is the status with
    which the process ends when it returns. *)
Inductive process (W H : Type) : Type :=
  | Exit (status : Z) (message : string)
  | Return (w : W)
  | Serve (addr : string) (h : H) (w : W) (on_error : Z).
Arguments Exit {W H} _ _.
Arguments Return {W H} _.
Arguments Serve {W H} _ _ _ _.

(** Requests that a server handles one after the other. *)
Fixpoint serve_all {W R A} (h : R → M W A) (rs : list R) : M W (list A) :=
  match rs with
  | [] => mret []
  | r :: rs => a ← h r; l ← serve_all h rs; mret (a :: l)
  end.

Lemma serve_all_cons {W R A} (h : R → M W A) r rs w :
  (serve_all h (r :: rs) w).2 = (serve_all h rs (h r w).2).2.
Proof.
  change (serve_all h (r :: rs) w) with
    ((h r ≫= λ a, serve_all h rs ≫= λ l, mret (a :: l)) w).
  by rewrite M_bind_step, M_bind_step.
Qed.

(** An invariant of every handled request holds after all of them. *)
Lemma serve_all_invariant {W R A} (h : R → M W A) (I : list R → W → Prop) rs w :
  I [] w →
  (∀ done r w, (∃ rest, rs = done ++ r :: rest) → I done w → I (done ++ [r]) (h r w).2) →
  I rs (serve_all h rs w).2.
Proof.
  intros H0 Hstep.
  assert (∀ rest done w, rs = done ++ rest → I done w → I rs (serve_all h rest w).2) as Hgen.
  { induction rest as [|r rest IH]; intros done w' -> HI.
    - by rewrite app_nil_r.
    - rewrite serve_all_cons. apply (IH (done ++ [r])); [by rewrite <-(assoc_L (++))|]. apply Hstep; [by exists rest|done]. }
  by apply (Hgen rs []).
Qed.

(** ** The database (store/store.go, store/migrate.go) *)

(** The driver, and the migration library over the embedded scripts; [S] is a
    database that a connection reaches. *)
Class Postgres (S : Type) := {
  sql_Open : string → result S;
  PingContext : S → option error;
  SetDialect : option error;
  goose_Up : S → option error * S;
  goose_DownTo : Z → S → option error * S;
}.

Section store.
Context {S : Type} `{Postgres S}.

Definition Open (dsn : string) : result S :=
  if nonempty dsn then
    match sql_Open dsn with
    | Err e => Err (ErrWrap "store: open: " e)
    | Ok db => match PingContext db with
               | Some e => Err (ErrWrap "store: ping: " e)
               | None => Ok db
               end
    end
  else Err (ErrNew "store: empty database DSN").

(** A step of the migration library behind the choice of the dialect. *)
Definition with_dialect (what : string) (f : S → option error * S) : M S (option error) := λ db,
  match SetDialect with
  | Some e => (Some (ErrWrap "store: set dialect: " e), db)
  | None => let '(e, db) := f db in (ErrWrap what <$> e, db)
  end.

Definition Migrate : M S (option error) := with_dialect "store: migrate up: " goose_Up.
Definition Rollback : M S (option error) := with_dialect "store: migrate down: " (goose_DownTo 0).

(** The way of the services to their store: the DSN, the connection, the
    migrations. *)
Definition with_database {W F} (name dsn : string) (k : S → process W F) : process W F :=
  if nonempty dsn then
    match Open dsn with
    | Err _ => Exit 1 (name +:+ ": open database")
    | Ok db =>
        match Migrate db with
        | (Some _, _) => Exit 1 (name +:+ ": migrate")
        | (None, db) => k db
        end
    end
  else Exit 1 (name +:+ ": DATABASE_URL is required").

(** A service that serves has migrated the database that it opened. *)
Lemma with_database_serves {W F} name dsn (k : S → process W F) addr h w st :
  with_database name dsn k = Serve addr h w st →
  ∃ db0 db, sql_Open dsn = Ok db0 ∧ PingContext db0 = None ∧ goose_Up db0 = (None, db) ∧
    k db = Serve addr h w st.
Proof.
  unfold with_database, Open, Migrate, with_dialect. destruct (nonempty dsn); [|done].
  destruct (sql_Open dsn) as [db0|e]; [|done]. destruct (PingContext db0) eqn:Hp; [done|].
  destruct SetDialect; [done|]. destruct (goose_Up db0) as [[e|] db] eqn:Hu; [done|].
  cbn. by exists db0, db.
Qed.
End store.

(** ** The MCP servers' front

    The mux and the bearer check that the four MCP servers share: a handler of
    the MCP library at /mcp and a health check. *)

Definition healthz : Response := writeJSON StatusOK (obj1 "status" "ok").

Definition mcp_unauthorized : Response := http_Error "unauthorized" StatusUnauthorized.

Section mcp.
Context {W : Type}.

Definition mcp_routes (token : string) (mcpHandler : Request → M W Response) :
    list (route (Request → M W Response)) :=
  [ Route EmptyString [Lit "mcp"]
      (withAuth token mcpHandler (mret mcp_unauthorized));
    Route EmptyString [Lit "healthz"] (λ _, mret healthz) ]%string.

Definition mcp_mux (token : string) (mcpHandler : Request → M W Response) (r : Request) :
    M W Response :=
  match ServeMux (mcp_routes token mcpHandler) (method r) (path r) with
  | Handled h _ => h r
  | NotFound => mret not_found
  | MethodNotAllowed => mret method_not_allowed
  end.

(** The library's handler sees a request exactly at /mcp and, when a token is
    configured, with that bearer; nothing else changes anything. *)
Lemma mcp_mux_guarded token h r w :
  mcp_mux token h r w =
  if bool_decide (path r = ["mcp"%string]) && (negb (nonempty token) || bearer_ok token r)
  then h r w
  else (if bool_decide (path r = ["mcp"%string]) then mcp_unauthorized
        else if bool_decide (path r = ["healthz"%string]) then healthz else not_found, w).
Proof.
  unfold mcp_mux, mcp_routes. destruct (path r) as [|p [|q l]]; [done| |].
  - destruct (String.eqb_spec "mcp" p) as [<-|Hp]; [|destruct (String.eqb_spec "healthz" p) as [<-|Hh]].
    + rewrite !(bool_decide_eq_true_2 (["mcp"%string] = ["mcp"%string])) by done.
      unfold withAuth, bearer_ok. cbn [andb]. destruct (nonempty token); [|done].
      cbn. by destruct (String.eqb (Header_Get r _) _).
    + done.
    + apply String.eqb_neq in Hp, Hh. cbn [ServeMux r_path match_path]. rewrite Hp, Hh.
      apply String.eqb_neq in Hp, Hh. by rewrite !bool_decide_eq_false_2 by congruence.
  - rewrite !bool_decide_eq_false_2 by done. cbn [ServeMux r_path match_path andb].
    by repeat destruct (String.eqb _ p).
Qed.
End mcp.
