(* ===== verification/GatewayMain.v ===== *)
(** * The gateway's process (gateway/cmd/gateway/main.go)

    [main]: settings, database, limiter, downstream caller, then the sync or the
    HTTP service; and what a running service sends downstream in its life. *)

From S2P Require Import Prelude GoText Float64 Json Limits LimitsTime Pg Memory.
From S2P Require Import Sessions Identity Governance Registry Repository.
From S2P Require Import Http Gateway GatewayStore GatewayServer Path FileTree Manifest.
From S2P Require Import Recipe Task RuntimeServer RuntimeClient Proxy Process.
From S2P Require Import GatewayConcurrent GatewayLoad.
From Stdlib Require Import ZArith Lia Ascii.
From stdpp Require Import options.

Open Scope Z_scope.
Open Scope list_scope.

Section main.
Context {S T : Type} `{Store S} `{Postgres S} `{Transport T}.
Context (yaml : string → result manifestFile) (fs : FS).
Implicit Types (w : world S T).

(** policy.WithLimiter(limits.NewLimiter(...)) of the settings *)
Definition main_limiter (cfg : GatewayConfig) : Limiter :=
  NewLimiter (RateCommitteePerMin cfg) (RateCommitteePerMin cfg)
             (RateGlobalPerMin cfg) (RateGlobalPerMin cfg).

(** The caller that main builds, with the token of the settings. *)
Definition main_Handler (cfg : GatewayConfig) (tr : Ticks * Request) : M (world S T) Response :=
  GatewayServer.Handler (H0 := HTTPCaller (DownstreamToken cfg))
    (GatewayServer.New (ServiceToken cfg) None) tr.1 tr.2.

(** [args] are the arguments with the name of the program; [n] is the network. *)
Definition gateway_main (Getenv : string → string) (args : list string) (n : T) :
    process (world S T) (Ticks * Request → M (world S T) Response) :=
  let cfg := GatewayConfig_Load Getenv in
  with_database "gateway" (DatabaseURL cfg) (λ db,
    let w := Gateway.New db n [WithLimiter (main_limiter cfg)] in
    if bool_decide (args !! 1%nat = Some "sync"%string) then
      match syncRegistry yaml fs (RepoRoot cfg) w with
      | (Err _, _) => Exit 1 "gateway: sync"
      | (Ok _, w) => Return w
      end
    else Serve (":" +:+ cfg_Port cfg) (main_Handler cfg) w 1).

(** ** A request *)

Section requests.
Context `{TC : ToolCaller T} (token : string).

(** A call with the service's bearer and an identity. *)
Definition calls_tool (r : Request) : bool :=
  bearer_ok token r && String.eqb (method r) "POST" && bool_decide (path r = ["call"%string]) &&
  is_ok (HeaderIdentity r).

(** What such a request asks [Call] for. *)
Definition accepted (r : Request) : option CallRequest :=
  if calls_tool r then
    match HeaderIdentity r, decode_body decode_callBody (body r) with
    | Ok id, Some b =>
        Some {| req_Identity := id; req_SessionID := cb_SessionID b; req_ServerName := cb_Server b;
                req_ToolName := cb_Tool b; req_Args := cb_Args b |}
    | _, _ => None
    end
  else None.

Lemma accepted_Some r req :
  accepted r = Some req → calls_tool r = true ∧ HeaderIdentity r = Ok (req_Identity req).
Proof.
  unfold accepted. destruct (calls_tool r); [|done]. destruct (HeaderIdentity r); [|done].
  destruct (decode_body _ _); [|done]. by intros [= <-].
Qed.

(** An accepted request is answered with what [Call] returns, and its effects are
    those of the call; every other request at most reads the store. *)
Lemma Handler_accepted t r w :
  match accepted r with
  | Some req =>
      GatewayServer.Handler (GatewayServer.New token None) t r w =
        (match (Call t req w).1 with Ok out => call_answer out | Err e => error_answer e end,
         (Call t req w).2)
  | None => ∃ s, (GatewayServer.Handler (GatewayServer.New token None) t r w).2 = with_store s w ∧
              (s = w_store w ∨ ∃ cs, s = (st_ListVisibleTools cs (w_store w)).2)
  end.
Proof.
  assert (∀ w', w' = w → ∃ s, w' = with_store s w ∧
            (s = w_store w ∨ ∃ cs, s = (st_ListVisibleTools cs (w_store w)).2)) as Hsame.
  { intros ? ->. exists (w_store w). split; [by destruct w|by left]. }
  unfold accepted. destruct (calls_tool r) eqn:Hc.
  - unfold calls_tool in Hc. bools. unfold GatewayServer.Handler.
    repeat match goal with H : String.eqb _ _ = true |- _ => apply String.eqb_eq in H
      | H : bool_decide _ = true |- _ => apply bool_decide_eq_true in H end.
    assert (∃ vars, ServeMux (routes (GatewayServer.New token None) t) (method r) (path r) =
      Handled (auth (GatewayServer.New token None) (handleCall (GatewayServer.New token None) t)) vars)
      as [vars ->].
    { replace (method r) with "POST"%string. replace (path r) with ["call"%string]. by eexists. }
    unfold auth. cbn [srv_token GatewayServer.New]. replace (bearer_ok token r) with true.
    destruct (HeaderIdentity r) as [id|e] eqn:Hid; [|done].
    destruct (decode_body _ _) as [b|] eqn:Hb; [by apply handleCall_run|].
    apply Hsame. unfold handleCall. cbn [srv_resolve GatewayServer.New default]. by rewrite Hid, Hb.
  - unfold GatewayServer.Handler. destruct (ServeMux _ _ _) as [h vars| |] eqn:Hd; [|by apply Hsame..].
    apply ServeMux_route in Hd as (rt & Hin & <- & Hp & Hm). unfold routes in Hin.
    rewrite !elem_of_cons, elem_of_nil in Hin. destruct Hin as [->|[->|[->|[]]]]; cbn [r_handler].
    + by apply Hsame.
    + unfold auth, handleTools. cbn [srv_token srv_resolve GatewayServer.New default].
      destruct (bearer_ok token r); [|by apply Hsame].
      destruct (HeaderIdentity r) as [id|e]; [|by apply Hsame]. rewrite M_bind_run. unfold ListTools.
      rewrite store_op_run. exists (st_ListVisibleTools (Committees id) (w_store w)).2.
      split; [done|right; by eexists].
    + unfold auth, handleCall. cbn [srv_token srv_resolve GatewayServer.New default].
      destruct (bearer_ok token r) eqn:Hb; [|by apply Hsame].
      destruct (HeaderIdentity r) as [id|e] eqn:Hid; [|by apply Hsame].
      exfalso. apply match_path_lit in Hp. apply match_method_POST in Hm. unfold calls_tool in Hc.
      by rewrite Hb, Hid, Hp, Hm in Hc.
Qed.
End requests.

End main.

(** ** The process under load

    net/http serves every request in a goroutine of its own, and the process
    shares the database with the other services: a request arrives, a call in
    flight takes a step, or another client has a statement executed. *)

Inductive net_event : Type :=
  | Http (t : Ticks) (r : Request)
  | Step (i : nat)
  | Sql (st : Stmt) (o : op).

Section process.
Context {T : Type} `{PgText} `{Postgres shared} `{Transport T}.
Context (yaml : string → result manifestFile) (fs : FS).

(** A request that is not accepted ends without a call ([Handler_accepted]). *)
Definition to_events (token : string) (e : net_event) : list event :=
  match e with
  | Http t r => match accepted token r with Some req => [Arrive t req] | None => [] end
  | Step i => [Move i]
  | Sql st o => [Other st o]
  end.

(** The process after these events. *)
Definition process_after (cfg : GatewayConfig) (w0 : world shared T) (es : list net_event) : gateway :=
  happens (H0 := HTTPCaller (DownstreamToken cfg)) (es ≫= to_events (ServiceToken cfg))
    {| y_world := w0; y_flights := [] |}.

Definition is_call (token : string) (e : net_event) : bool :=
  match e with Http _ r => calls_tool token r | _ => false end.

Lemma arrivals_calls token es :
  (arrivals (es ≫= to_events token) ≤ length (filter (λ e, is_call token e = true) es))%nat.
Proof.
  unfold arrivals. induction es as [|e es IH]; [done|]. rewrite bind_cons, filter_app, length_app, filter_cons.
  assert (length (filter (λ e, arrives e = true) (to_events token e)) ≤ if is_call token e then 1 else 0)%nat.
  { destruct e as [t r|i|st o]; [|done..]. cbn [to_events is_call].
    destruct (accepted token r) as [req|] eqn:Ha; [|simpl; lia]. by apply accepted_Some in Ha as [-> _]. }
  destruct (is_call token e); repeat case_decide; simpl in *; (done || lia).
Qed.

Lemma arrives_http token t req es :
  Arrive t req ∈ es ≫= to_events token → ∃ r, Http t r ∈ es ∧ accepted token r = Some req.
Proof.
  intros (e & Hin & He)%list_elem_of_bind. destruct e as [t' r|i|st o]; cbn [to_events] in Hin.
  - destruct (accepted token r) as [req'|] eqn:Ha; [|by apply elem_of_nil in Hin].
    apply list_elem_of_singleton in Hin. injection Hin as -> ->. by exists r.
  - by apply list_elem_of_singleton in Hin.
  - by apply list_elem_of_singleton in Hin.
Qed.

Lemma process_after_app cfg w0 es es' :
  process_after cfg w0 (es ++ es') =
  happens (H0 := HTTPCaller (DownstreamToken cfg)) (es' ≫= to_events (ServiceToken cfg))
    (process_after cfg w0 es).
Proof. unfold process_after, happens. by rewrite bind_app, foldl_app. Qed.

(** What main serves is, for an accepted request, a thread run to its end. *)
Lemma main_Handler_thread cfg t r w :
  match accepted (ServiceToken cfg) r with
  | Some req => ∃ res w', alone (H1 := HTTPCaller (DownstreamToken cfg)) t req 8 PcLimit w = (Some res, w') ∧
      main_Handler cfg (t, r) w =
        (match res with Ok out => call_answer out | Err e => error_answer e end, w')
  | None => main_Handler cfg (t, r) w = ((main_Handler cfg (t, r) w).1, w)
  end.
Proof.
  pose proof (Handler_accepted (TC := HTTPCaller (DownstreamToken cfg)) (ServiceToken cfg) t r w) as Hh.
  unfold main_Handler. cbn [fst snd]. destruct (accepted _ r) as [req|].
  - eexists _, _. split; [apply thread_is_Call|exact Hh].
  - destruct Hh as (s & Hs & Hc). apply injective_projections; [done|]. cbn [snd]. rewrite Hs.
    destruct Hc as [->|[cs ->]]; by destruct w.
Qed.

(** C11: The handler that a gateway process serves does for an accepted request what one
    of its threads does alone, and changes nothing for any other. In the life of the
    process, however the threads interleave, statement by statement, with each other and
    with other clients of its database: it sends no more calls downstream than it got POST
    /call requests with the service token and an identity; every call is what such a
    request asked for and passed the registry, the authorization and, when high-impact,
    the approval, each as it was read by its own statement; and, when
    GATEWAY_RATE_GLOBAL_PER_MIN is at least 1, in any window of time the calls sent or
    past the limiter grow by less than that setting plus one plus what the rate earns in
    the window. The window is one in which the calls that have yet to ask the global
    bucket do so and before which the others did; the setting times the number of these
    calls is at most 2^48, and times the window's minutes at most 2^45. *)
Theorem gateway_process_safe Getenv args n addr h w0 st es :
  gateway_main yaml fs Getenv args n = Serve addr h w0 st →
  let cfg := GatewayConfig_Load Getenv in
  let G := RateGlobalPerMin cfg in
  let y es := process_after cfg w0 es in
  (∀ t r w,
     match accepted (ServiceToken cfg) r with
     | Some req => ∃ res w', alone (H1 := HTTPCaller (DownstreamToken cfg)) t req 8 PcLimit w = (Some res, w') ∧
         h (t, r) w = (match res with Ok out => call_answer out | Err e => error_answer e end, w')
     | None => h (t, r) w = ((h (t, r) w).1, w)
     end) ∧
  (length (w_calls (y_world (y es))) ≤
     length (filter (λ e, is_call (ServiceToken cfg) e = true) es))%nat ∧
  (∀ c, c ∈ w_calls (y_world (y es)) →
     ∃ t r req b, Http t r ∈ es ∧ accepted (ServiceToken cfg) r = Some req ∧
       c = (tb_Server b, tb_Tool b, req_Args req) ∧
       passed (sh_history (w_store (y_world (y es)))) req b) ∧
  (∀ before within t0 span, es = before ++ within →
     asked_before (y before) t0 → asks_in_window t0 span (y before) →
     (∀ t r, Http t r ∈ within → t0 <= t_global t <= t0 + span) →
     0 <= span → 1 <= G <= int64_max →
     Z.of_nat (waiting (y before) + length within) * G <= 2 ^ 48 → G * span <= 60000000000 * 2 ^ 45 →
     (load (y es) - load (y before)) * 60000000000 < (G + 1) * 60000000000 + G * span).
Proof.
  intros (db0 & db & _ & _ & _ & Hk)%with_database_serves cfg.
  cbv zeta in Hk. destruct (bool_decide _); [by repeat case_match|].
  injection Hk as _ <- <- _. fold cfg. cbv zeta.
  split; [intros t r w; apply main_Handler_thread|].
  set (w0 := Gateway.New db n [WithLimiter (main_limiter cfg)]).
  assert (fresh {| y_world := w0; y_flights := [] |}) as Hfresh by by split.
  destruct (sound_happens (H0 := HTTPCaller (DownstreamToken cfg)) (es ≫= to_events (ServiceToken cfg)) _ Hfresh) as [Ha Hf Hc Ho].
  split; [|split].
  - unfold process_after. pose proof (arrivals_calls (ServiceToken cfg) es). lia.
  - intros c (t & req & b & Hin & Hcb & Hp)%Hc. apply arrives_http in Hin as (r & Hin & Hacc).
    by exists t, r, req, b.
  - intros before within t0 span -> Hb Hask Hw Hspan HG Hn HGT. set (G := RateGlobalPerMin cfg) in *.
    rewrite process_after_app. replace (G + 1) with (Z.max 1 G + 1) by lia.
    apply (load_rate G G (before ≫= to_events (ServiceToken cfg)) (within ≫= to_events (ServiceToken cfg))
      t0 span {| y_world := w0; y_flights := [] |}); try done.
    + exists (main_limiter cfg). split; [done|]. cbn [after_calls]. unfold main_limiter, NewLimiter.
      fold G. by rewrite (proj2 (Z.ltb_lt 0 G)) by lia.
    + intros t req (r & Hin & _)%arrives_http. by apply (Hw t r).
    + pose proof (arrivals_calls (ServiceToken cfg) within).
      pose proof (length_filter (λ e, is_call (ServiceToken cfg) e = true) within).
      unfold process_after in Hn. nia.
Qed.
End process.

(** ** A process *)

#[local] Existing Instance unary_text.

(** The database has the tables of a history with a decision in it. *)
#[local] Instance sample_Postgres : Postgres shared := {
  sql_Open _ := Ok (w_store (y_world sample_gateway));
  PingContext _ := None;
  SetDialect := None;
  goose_Up db := (None, db);
  goose_DownTo _ db := (None, db);
}.

(** Every server answers with an empty result. *)
#[local] Instance sample_network : Transport unit := {
  http_Do _ n := (Ok (writeJSON StatusOK (JObj [("result"%string, JNull)])), n);
}.

Definition sample_Getenv (k : string) : string :=
  if String.eqb k "DATABASE_URL" then "postgres://db"
  else if String.eqb k "GATEWAY_SERVICE_TOKEN" then "s3cret"
  else if String.eqb k "GATEWAY_RATE_GLOBAL_PER_MIN" then "2" else EmptyString.

Definition sample_call (now : Z) (token : string) : Ticks * Request :=
  ({| t_start := 0; t_limit := now; t_global := now; t_audit := 2000000 |},
   {| method := "POST"; path := ["call"]; query := ∅;
      header := {["authorization" := "Bearer " +:+ token; "x-scottylabs-subject" := "agent";
                  "x-scottylabs-committees" := "finance"]};
      cookies := ∅;
      body := RawJSON (JObj [("server", JStr "google"); ("tool", JStr "list")]) |})%string.

(** A first call runs alone; a second and a third, and one with a wrong token,
    are in flight together, and another client disables the server after the
    second has asked the registry. *)
Definition sample_before : list net_event :=
  Http (sample_call 0 "s3cret").1 (sample_call 0 "s3cret").2 :: replicate 7 (Step 0).

Definition sample_within : list net_event :=
  [Http (sample_call 1000000000 "s3cret").1 (sample_call 1000000000 "s3cret").2;
   Http (sample_call 1000000000 "guess").1 (sample_call 1000000000 "guess").2;
   Http (sample_call 41000000000 "s3cret").1 (sample_call 41000000000 "s3cret").2;
   Step 1; Step 1; Step 1; Sql (sample_stmt 50 50) (OpSetServerEnabled "google" false);
   Step 2; Step 2; Step 2; Step 2; Step 2; Step 2; Step 1; Step 1; Step 1; Step 1].

(** The second still leaves, the third is refused. *)
Lemma gateway_process_safe_witness :
  match gateway_main (sample_yaml sample_manifest) (sample_fs "PORT=80") sample_Getenv
          ["gateway"%string] tt with
  | Serve addr h w0 _ =>
      let y := process_after (GatewayConfig_Load sample_Getenv) w0 in
      addr = ":8080"%string ∧
      length (w_calls (y_world (y (sample_before ++ sample_within)))) = 2%nat ∧
      (load (y (sample_before ++ sample_within)) - load (y sample_before)) * 60000000000 <
        (2 + 1) * 60000000000 + 2 * 40000000000
  | _ => False
  end.
Proof.
  destruct (gateway_main _ _ _ _ _) as [| |addr h w0 st] eqn:Hm; [discriminate..|].
  pose proof (gateway_process_safe _ _ _ _ _ _ _ _ _ (sample_before ++ sample_within) Hm) as [_ [_ [_ Hb]]].
  split; [by injection Hm|]. split.
  - injection Hm as _ _ <- _. vm_compute. reflexivity.
  - apply (Hb sample_before sample_within 1000000000 40000000000 eq_refl); injection Hm as _ _ <- _.
    + apply asked_before_dec. vm_compute. reflexivity.
    + apply asks_in_window_dec. vm_compute. reflexivity.
    + intros t r Hin. unfold sample_within in Hin.
      repeat (apply elem_of_cons in Hin as [Hin|Hin];
        [first [discriminate | injection Hin as -> _; split; vm_compute; discriminate]|]).
      by apply elem_of_nil in Hin.
    + done.
    + split; vm_compute; discriminate.
    + vm_compute; discriminate.
    + vm_compute; discriminate.
Defined.
