(* ===== verification/EngServer.v ===== *)
(** * The engineering agent's process

    services/engineering-agent/cmd/engineering-agent and internal/notify: the
    HTTP service that takes coding tasks, runs each in the background and
    reports over a Slack webhook. The background runs interleave in any way. *)

From S2P Require Import Prelude GoText Json Http Net MemoryMCP.
From S2P Require Import Recipe Task RuntimeServer RuntimeClient Process.
From S2P Require Import EngAgent.
From Stdlib Require Import ZArith Lia Ascii.
From stdpp Require Import options.

Open Scope Z_scope.
Open Scope list_scope.

(** ** Notifiers (internal/notify) *)

Section notify.
Context {T : Type} `{Transport T}.

Definition webhook_request (url text : string) : Outgoing :=
  {| o_method := "POST"; o_url := url; o_header := {["content-type" := "application/json"]};
     o_body := RawJSON (obj1 "text" text) |}%string.

(** The channel is informational: the webhook is bound to one. *)
Definition Webhook_Post (url channel text : string) : M T (option error) :=
  r ← (http_Do (webhook_request url text) : M T _);
  mret (match r with
        | Err e => Some e
        | Ok resp => if 300 <=? code resp
                     then Some (Errorf "notify: webhook status %d" [Fd (code resp)]) else None
        end).

(** It only logs. *)
Definition Log_Post (channel text : string) : M T (option error) := mret None.

(** The notifier that main chooses. *)
Definition main_Post (cfg : Config) : string → string → M T (option error) :=
  if nonempty (SlackWebhookURL cfg) then Webhook_Post (SlackWebhookURL cfg) else Log_Post.
End notify.

(** ** The service *)

Definition decode_Task (fs : list (string * json)) : option EngAgent.Task :=
  repo ← decode_field conv_string EmptyString "Repo" fs;
  issue ← decode_field conv_string EmptyString "Issue" fs;
  text ← decode_field conv_string EmptyString "IssueText" fs;
  channel ← decode_field conv_string EmptyString "Channel" fs;
  requester ← decode_field conv_string EmptyString "Requester" fs;
  Some {| tk_Repo := repo; Issue := issue; IssueText := text; Channel := channel;
          Requester := requester |}.

(** The state are the tasks handed to a goroutine, the oldest first. *)
Definition handleFixBug (token : string) (r : Request) : M (list EngAgent.Task) Response :=
  if bearer_ok token r then
    match decode_body decode_Task (body r) with
    | None => mret (http_Error "bad request" StatusBadRequest)
    | Some t => λ ts, (writeJSON StatusAccepted (obj1 "status" "accepted"), ts ++ [t])
    end
  else mret (http_Error "unauthorized" StatusUnauthorized).

Definition eng_routes (token : string) : list (route (Request → M (list EngAgent.Task) Response)) :=
  [ Route "GET" [Lit "healthz"] (λ _, mret healthz);
    Route "POST" [Lit "fix-bug"] (handleFixBug token) ]%string.

Definition eng_Handler (token : string) (r : Request) : M (list EngAgent.Task) Response :=
  match ServeMux (eng_routes token) (method r) (path r) with
  | Handled h _ => h r
  | NotFound => mret not_found
  | MethodNotAllowed => mret method_not_allowed
  end.

(** A notifier is always there. *)
Definition main_Orchestrator (cfg : Config) : Orchestrator :=
  EngAgent.New (authz_New (Maintainers cfg) (Repos cfg)) (SandboxTemplate cfg) (TimeLimit cfg) true.

Definition eng_main (Getenv : string → string) :
    process (list EngAgent.Task) (Request → M (list EngAgent.Task) Response) :=
  let cfg := EngAgent.Load Getenv in
  Serve (":" +:+ Port cfg) (eng_Handler (ServiceToken cfg)) [] 1.

(** ** What the goroutines do

    The exchanges of one run with GitHub, the sandboxes and Slack: its requests,
    each with what it was answered; and the exchanges of several runs in some
    order. *)

Inductive exchange : Type :=
  | XMint (repo : string) (a : result string)
  | XCreate (spec : Spec) (a : result string)
  | XExec (id script : string) (a : result string)
  | XOpenDraftPR (repo branch title body : string) (a : result string)
  | XPost (channel text : string)
  | XDestroy (id : string).

(** A request that follows [tr], with its answer. *)
Definition answered (out : Outside) (tr : list effect) (e : effect) : exchange :=
  match e with
  | EMint repo => XMint repo (MintInstallToken out (tr ++ [e]))
  | ECreate spec => XCreate spec (Create out (tr ++ [e]))
  | EExec id script => XExec id script (EngAgent.Exec out (tr ++ [e]))
  | EOpenDraftPR repo branch title body =>
      XOpenDraftPR repo branch title body (OpenDraftPR out (tr ++ [e]))
  | EPost channel text => XPost channel text
  | EDestroy id => XDestroy id
  end.

Fixpoint exchanges (out : Outside) (tr l : list effect) : list exchange :=
  match l with
  | [] => []
  | e :: l => answered out tr e :: exchanges out (tr ++ [e]) l
  end.

Definition run_exchanges (o : Orchestrator) (t : EngAgent.Task) (l : list exchange) : Prop :=
  ∃ out tr es, (EngAgent.Run out o t tr).2 = tr ++ es ∧ l = exchanges out tr es.

Inductive interleaved {A} : list (list A) → list A → Prop :=
  | interleaved_done ls : Forall (eq []) ls → interleaved ls []
  | interleaved_step ls1 x l ls2 e :
      interleaved (ls1 ++ l :: ls2) e → interleaved (ls1 ++ (x :: l) :: ls2) (x :: e).

(** What the process has exchanged after its started tasks ran, or while they
    run: an interleaving of what each of them has exchanged so far. *)
Definition process_log (o : Orchestrator) (ts : list EngAgent.Task) (log : list exchange) : Prop :=
  ∃ ls, Forall2 (λ t l, ∃ rest, run_exchanges o t (l ++ rest)) ts ls ∧ interleaved ls log.

(** An element of an interleaving comes after what its own list has before it. *)
Lemma interleaved_elem {A} (ls : list (list A)) e x :
  interleaved ls e → x ∈ e →
  ∃ i l1 l2, ls !! i = Some (l1 ++ x :: l2) ∧ l1 ++ [x] `sublist_of` e.
Proof.
  induction 1 as [|ls1 y l ls2 e _ IH]; [by intros ?%elem_of_nil|].
  intros [->|Hx]%elem_of_cons.
  - exists (length ls1), [], l. split; [by apply list_lookup_middle|].
    cbn. apply sublist_skip, sublist_nil_l.
  - destruct (IH Hx) as (i & l1 & l2 & Hi & Hs). destruct (decide (i = length ls1)) as [->|Hne].
    + rewrite list_lookup_middle in Hi by done. injection Hi as ->.
      exists (length ls1), (y :: l1), l2. split; [by apply list_lookup_middle|].
      cbn. by apply sublist_skip.
    + exists i, l1, l2. split; [|by apply sublist_cons].
      rewrite <-Hi. destruct (decide (i < length ls1)%nat).
      * by rewrite !lookup_app_l by done.
      * rewrite !lookup_app_r by lia. by destruct (i - length ls1)%nat eqn:?; [lia|].
Qed.

(** ** What a run exchanges *)

Section transcript.
Context (o : Orchestrator) (t : EngAgent.Task).

(** A report, when there is somebody to report to. *)
Definition posted (text : string) : list exchange :=
  if has_notify o && nonempty (Channel t) then [XPost (Channel t) text] else [].

(** The ways a run may go, from its first exchange to its last. *)
Inductive transcript : list exchange → Prop :=
  | tr_refused :
      CanTrigger (allow o) (Requester t) (tk_Repo t) = false → transcript []
  | tr_unminted e :
      CanTrigger (allow o) (Requester t) (tk_Repo t) = true →
      transcript [XMint (tk_Repo t) (Err e)]
  | tr_uncreated token e :
      CanTrigger (allow o) (Requester t) (tk_Repo t) = true →
      transcript [XMint (tk_Repo t) (Ok token); XCreate (spec_of o t token) (Err e)]
  | tr_failed token id e :
      CanTrigger (allow o) (Requester t) (tk_Repo t) = true →
      transcript ([XMint (tk_Repo t) (Ok token); XCreate (spec_of o t token) (Ok id);
                   XExec id codingScript (Err e)] ++ posted (failure_text t e) ++ [XDestroy id])
  | tr_unopened token id summary e :
      CanTrigger (allow o) (Requester t) (tk_Repo t) = true →
      transcript [XMint (tk_Repo t) (Ok token); XCreate (spec_of o t token) (Ok id);
                  XExec id codingScript (Ok summary);
                  XOpenDraftPR (tk_Repo t) (branch_of t) (pr_title t) (pr_body t summary) (Err e);
                  XDestroy id]
  | tr_opened token id summary url :
      CanTrigger (allow o) (Requester t) (tk_Repo t) = true →
      transcript ([XMint (tk_Repo t) (Ok token); XCreate (spec_of o t token) (Ok id);
                   XExec id codingScript (Ok summary);
                   XOpenDraftPR (tk_Repo t) (branch_of t) (pr_title t) (pr_body t summary) (Ok url)] ++
                  posted (success_text t url summary) ++ [XDestroy id]).

Lemma report_exchanges out tr text :
  ∃ es, (report o (Channel t) text tr).2 = tr ++ es ∧ exchanges out tr es = posted text.
Proof.
  unfold report, posted. destruct (_ && _); [by exists [EPost (Channel t) text]|].
  exists []. by rewrite app_nil_r.
Qed.

Lemma exchanges_app out tr l l' :
  exchanges out tr (l ++ l') = exchanges out tr l ++ exchanges out (tr ++ l) l'.
Proof.
  revert tr. induction l as [|e l IH]; intros tr; cbn [app exchanges]; [by rewrite app_nil_r|].
  by rewrite IH, <-(assoc_L (++)).
Qed.

Lemma report_silent out tr text id :
  ∃ es, (silent (EDestroy id) (report o (Channel t) text tr).2).2 = tr ++ es ∧
    exchanges out tr es = posted text ++ [XDestroy id].
Proof.
  destruct (report_exchanges out tr text) as (es & -> & He). exists (es ++ [EDestroy id]).
  cbn. rewrite exchanges_app, He, (assoc_L (++)). done.
Qed.

Lemma Run_transcript out tr :
  ∃ es, (EngAgent.Run out o t tr).2 = tr ++ es ∧ transcript (exchanges out tr es).
Proof.
  unfold EngAgent.Run. destruct (CanTrigger _ _ _) eqn:Hc; cbn [negb].
  2: { exists []. rewrite app_nil_r. split; [done|by apply tr_refused]. }
  rewrite M_bind_step. unfold request. cbn [fst snd].
  destruct (MintInstallToken out _) as [token|e] eqn:Hm.
  2: { exists [EMint (tk_Repo t)]. split; [done|]. cbn. rewrite Hm. by apply tr_unminted. }
  rewrite M_bind_step. unfold request. cbn [fst snd]. rewrite <-(assoc_L (++)). cbn [app].
  destruct (Create out _) as [id|e] eqn:Hcr.
  2: { exists [EMint (tk_Repo t); ECreate (spec_of o t token)]. split; [done|].
       cbn [exchanges answered app]. rewrite Hm, <-(assoc_L (++)). cbn [app]. rewrite Hcr. by apply tr_uncreated. }
  rewrite !M_bind_step. unfold in_sandbox. rewrite M_bind_step. unfold request. cbn [fst snd].
  rewrite <-(assoc_L (++)). cbn [app].
  destruct (EngAgent.Exec out _) as [summary|e] eqn:Hex.
  2: { rewrite M_bind_step. cbn [mret M_ret fst snd].
       set (es0 := [_; _; _]) in *. destruct (report_silent out (tr ++ es0) (failure_text t e) id) as (es & Hs & He).
       exists (es0 ++ es). rewrite (assoc_L (++)). split; [exact Hs|]. rewrite exchanges_app, He. subst es0.
       cbn [exchanges answered app]. rewrite Hm, <-!(assoc_L (++)). cbn [app]. rewrite Hcr, Hex. by apply tr_failed. }
  rewrite M_bind_step. unfold request. cbn [fst snd]. rewrite <-(assoc_L (++)). cbn [app].
  destruct (OpenDraftPR out _) as [url|e] eqn:Hpr; cbn [mret M_ret fst snd].
  - rewrite M_bind_step. cbn [mret M_ret fst snd].
    set (es0 := [_; _; _; _]) in *.
    destruct (report_silent out (tr ++ es0) (success_text t url summary) id) as (es & Hs & He).
    exists (es0 ++ es). rewrite (assoc_L (++)). split; [exact Hs|]. rewrite exchanges_app, He. subst es0.
    cbn [exchanges answered app]. rewrite Hm, <-!(assoc_L (++)). cbn [app]. rewrite Hcr, Hex, Hpr. by apply tr_opened.
  - unfold silent, request. cbn [snd]. rewrite <-(assoc_L (++)). cbn [app]. eexists. split; [done|].
    cbn [exchanges answered app]. rewrite Hm, <-!(assoc_L (++)). cbn [app]. rewrite Hcr, Hex, Hpr. by apply tr_unopened.
Qed.

(** ** What stays in the task *)

(** The sandbox is one that was created for this task, with its own token. *)
Definition own_sandbox (own : list exchange) (id : string) : Prop :=
  ∃ token, XMint (tk_Repo t) (Ok token) ∈ own ∧ XCreate (spec_of o t token) (Ok id) ∈ own.

(** An exchange of the task, after those of its run before it. *)
Definition within (own : list exchange) (x : exchange) : Prop :=
  match x with
  | XMint repo _ => repo = tk_Repo t
  | XCreate spec _ => ∃ token, XMint (tk_Repo t) (Ok token) ∈ own ∧ spec = spec_of o t token
  | XExec id script _ => script = codingScript ∧ own_sandbox own id
  | XOpenDraftPR repo branch title body _ =>
      repo = tk_Repo t ∧ branch = branch_of t ∧ title = pr_title t ∧
      ∃ id summary, own_sandbox own id ∧ XExec id codingScript (Ok summary) ∈ own ∧
        body = pr_body t summary
  | XPost channel _ => channel = Channel t
  | XDestroy id => own_sandbox own id
  end.

Fixpoint all_within (own l : list exchange) : Prop :=
  match l with
  | [] => True
  | x :: l => within own x ∧ all_within (own ++ [x]) l
  end.

Lemma all_within_app own l l' :
  all_within own (l ++ l') ↔ all_within own l ∧ all_within (own ++ l) l'.
Proof.
  revert own. induction l as [|x l IH]; intros own; cbn [app all_within].
  - rewrite app_nil_r. tauto.
  - rewrite IH, <-(assoc_L (++)). cbn [app]. tauto.
Qed.

Lemma posted_within own text l :
  all_within (own ++ posted text) l → all_within own (posted text ++ l).
Proof. intros Hl. apply all_within_app. split; [|done]. unfold posted. by destruct (_ && _). Qed.

(** A sandbox of the run is its own at every later exchange. *)
Lemma own_sandbox_intro token id own :
  own_sandbox ([XMint (tk_Repo t) (Ok token); XCreate (spec_of o t token) (Ok id)] ++ own) id.
Proof. exists token. split; set_solver. Qed.

Lemma started_within token id a l :
  all_within [XMint (tk_Repo t) (Ok token); XCreate (spec_of o t token) (Ok id);
              XExec id codingScript a] l →
  all_within [] ([XMint (tk_Repo t) (Ok token); XCreate (spec_of o t token) (Ok id);
                  XExec id codingScript a] ++ l).
Proof.
  intros Hl. cbn [app all_within within]. split; [done|].
  split; [exists token; split; [by left|done]|].
  split; [split; [done|apply (own_sandbox_intro token id [])]|exact Hl].
Qed.

Lemma destroy_within token id own :
  all_within ([XMint (tk_Repo t) (Ok token); XCreate (spec_of o t token) (Ok id)] ++ own)
    [XDestroy id].
Proof. split; [apply own_sandbox_intro|done]. Qed.

Lemma opened_within token id summary a l :
  let own := [XMint (tk_Repo t) (Ok token); XCreate (spec_of o t token) (Ok id);
              XExec id codingScript (Ok summary)] in
  let pr := XOpenDraftPR (tk_Repo t) (branch_of t) (pr_title t) (pr_body t summary) a in
  all_within (own ++ [pr]) l → all_within own (pr :: l).
Proof.
  intros own pr Hl. split; [|exact Hl]. do 3 (split; [done|]). exists id, summary.
  split; [apply (own_sandbox_intro token id [_])|]. split; [set_solver|done].
Qed.

Lemma transcript_within l : transcript l → all_within [] l.
Proof.
  destruct 1 as [|e|token e|token id e|token id summary e|token id summary url].
  - done.
  - by split.
  - split; [done|]. split; [|done]. exists token. split; [by left|done].
  - apply started_within, posted_within, (destroy_within token id (_ :: _)).
  - apply (started_within token id (Ok summary) [_; _]), opened_within,
      (destroy_within token id [_; _]).
  - apply (started_within token id (Ok summary) (_ :: _)), opened_within, posted_within,
      (destroy_within token id (_ :: _ :: _)).
Qed.

Lemma transcript_allowed x l :
  transcript l → x ∈ l → CanTrigger (allow o) (Requester t) (tk_Repo t) = true.
Proof. destruct 1; try done. by intros ?%elem_of_nil. Qed.

Lemma run_exchanges_transcript l : run_exchanges o t l → transcript l.
Proof.
  intros (out & tr & es & Hr & ->). destruct (Run_transcript out tr) as (es' & He & Ht).
  rewrite He in Hr. by apply app_inv_head in Hr as <-.
Qed.
End transcript.

(** ** What a request may start *)

Definition starts (token : string) (r : Request) (t : EngAgent.Task) : Prop :=
  method r = "POST"%string ∧ path r = ["fix-bug"%string] ∧ bearer_ok token r = true ∧
  decode_body decode_Task (body r) = Some t.

Lemma eng_Handler_starts token r ts :
  (eng_Handler token r ts).2 = ts ∨
  ∃ t, starts token r t ∧ (eng_Handler token r ts).2 = ts ++ [t].
Proof.
  unfold eng_Handler. destruct (ServeMux _ _ _) as [h vars| |] eqn:Hd; [|by left..].
  apply ServeMux_route in Hd as (rt & Hin & <- & Hp & Hm). unfold eng_routes in Hin.
  rewrite !elem_of_cons, elem_of_nil in Hin. destruct Hin as [->|[->|[]]]; [by left|].
  cbn [r_handler r_method r_path] in *. unfold handleFixBug.
  destruct (bearer_ok token r) eqn:Hb; [|by left].
  destruct (decode_body decode_Task (body r)) as [t|] eqn:Ht; [|by left]. right.
  exists t. split; [|done]. apply match_path_lit in Hp. by apply match_method_POST in Hm.
Qed.

Lemma serve_all_starts token rs t :
  t ∈ (serve_all (eng_Handler token) rs []).2 → ∃ r, r ∈ rs ∧ starts token r t.
Proof.
  revert t. apply (serve_all_invariant (eng_Handler token)
    (λ done ts, ∀ t, t ∈ ts → ∃ r, r ∈ done ∧ starts token r t)).
  - by intros t ?%elem_of_nil.
  - intros done r ts _ IH t. destruct (eng_Handler_starts token r ts) as [->|(t' & Ht' & ->)].
    + intros (r' & ? & ?)%IH. exists r'. set_solver.
    + intros [(r' & ? & ?)%IH| ->%list_elem_of_singleton]%elem_of_app;
        [exists r'; set_solver|exists r; set_solver].
Qed.

(** C29: In the life of an engineering-agent process, whatever GitHub, the sandboxes and
    the notifier answer and however the background runs interleave, every exchange with
    one of these belongs to a run for a task that some POST /fix-bug request with the
    service token carried, by a maintainer and for a repository of the environment's
    lists; the exchanges of that run up to it are in the process's log in their order and
    begin one of the six courses a run can take; and it stays within the task: a token is
    asked for the task's repository, a sandbox for the specification of the task (its
    repository, issue and branch) with the token that was minted for this run, only the
    coding script is executed and only in the sandbox created for this run, a draft pull
    request is on the task's repository and branch with what the script printed there, a
    report goes to the task's channel, and the sandbox destroyed is the run's own. *)
Theorem eng_process_authorized Getenv addr h ts0 st rs log x :
  let o := main_Orchestrator (EngAgent.Load Getenv) in
  eng_main Getenv = Serve addr h ts0 st →
  process_log o (serve_all h rs ts0).2 log →
  x ∈ log →
  ∃ r t own rest, r ∈ rs ∧ starts (Getenv "ENG_SERVICE_TOKEN"%string) r t ∧
    Requester t ∈ splitList (Getenv "ENG_MAINTAINERS"%string) ∧
    tk_Repo t ∈ splitList (Getenv "ENG_REPOS"%string) ∧
    own ++ [x] `sublist_of` log ∧ transcript o t (own ++ x :: rest) ∧ within o t own x.
Proof.
  intros o [= _ <- <- _] (ls & Hls & Hi) Hx.
  destruct (interleaved_elem ls log x Hi Hx) as (i & own & l2 & Hl & Hsub).
  destruct (Forall2_lookup_r _ _ _ _ _ Hls Hl) as (t & Ht & rest & Hrun).
  apply list_elem_of_lookup_2, serve_all_starts in Ht as (r & Hr & Hs).
  apply run_exchanges_transcript in Hrun as Htr. rewrite <-(assoc_L (++)) in Htr. cbn [app] in Htr.
  exists r, t, own, (l2 ++ rest). do 2 (split; [done|]).
  assert (CanTrigger (allow o) (Requester t) (tk_Repo t) = true) as [Hm Hrp]%allowlist_config
    by (apply (transcript_allowed o t x (own ++ x :: l2 ++ rest)); [done|set_solver]).
  rewrite !elem_of_splitList. do 2 (split; [done|]). split; [done|]. split; [done|].
  apply transcript_within, all_within_app in Htr as [_ [Hw _]]. exact Hw.
Qed.

(** ** The repository as it is

    The exchange with GitHub is not written yet: minting a token fails, and a
    run goes no further than asking for one. *)
Definition committed (c : GitHubConfig) (others : Outside) : Outside :=
  {| MintInstallToken _ := App_MintInstallToken c; Create := Create others;
     EngAgent.Exec := EngAgent.Exec others; OpenDraftPR _ := App_OpenDraftPR c |}.

Lemma committed_mints_only c others o t tr :
  ∃ l, (EngAgent.Run (committed c others) o t tr).2 = tr ++ l ∧ ∀ e, e ∈ l → e = EMint (tk_Repo t).
Proof.
  unfold EngAgent.Run. destruct (CanTrigger _ _ _); cbn [negb].
  - exists [EMint (tk_Repo t)]. split; [|set_solver].
    rewrite M_bind_step. unfold request. cbn. unfold App_MintInstallToken. by destruct (Configured c).
  - exists []. rewrite app_nil_r. split; [done|set_solver].
Qed.

(** ** A process *)

Definition sample_eng_env (k : string) : string :=
  if String.eqb k "ENG_SERVICE_TOKEN" then "s3cret"
  else if String.eqb k "ENG_MAINTAINERS" then "U1, U2"
  else if String.eqb k "ENG_REPOS" then "scottylabs/site" else EmptyString.

Definition sample_fix (token requester : string) : Request :=
  {| method := "POST"; path := ["fix-bug"]; query := ∅;
     header := {["authorization" := "Bearer " +:+ token]}; cookies := ∅;
     body := RawJSON (JObj [("repo", JStr "scottylabs/site"); ("issue", JStr "7");
                            ("requester", JStr requester)]) |}%string.

Definition sample_fixes : list Request :=
  [sample_fix "guess" "U1"; sample_fix "s3cret" "U2"; sample_fix "s3cret" "U9"].

Definition sample_outside : Outside :=
  committed {| AppID := EmptyString; InstallationID := EmptyString; PrivateKeyPEM := EmptyString;
               APIBase := EmptyString |}
    {| MintInstallToken _ := Ok EmptyString; Create _ := Ok "sb1"%string;
       EngAgent.Exec _ := Ok EmptyString; OpenDraftPR _ := Ok EmptyString |}.

(** An outside where everything succeeds. *)
Definition sample_success : Outside :=
  {| MintInstallToken _ := Ok "t0k3n"%string; Create _ := Ok "sb1"%string;
     EngAgent.Exec _ := Ok "12 passed"%string; OpenDraftPR _ := Ok "http://gh/pr/1"%string |}.

Definition sample_orchestrator : Orchestrator := main_Orchestrator (EngAgent.Load sample_eng_env).

Definition sample_task (requester : string) : EngAgent.Task :=
  {| tk_Repo := "scottylabs/site"; Issue := "7"; IssueText := EmptyString; Channel := EmptyString;
     Requester := requester |}%string.

Definition sample_log : list exchange :=
  exchanges sample_success [] (EngAgent.Run sample_success sample_orchestrator (sample_task "U2") []).2.

(** Two tasks start; the one of the maintainer runs to its end, and the script
    it executes runs in the sandbox that was created for it. *)
Lemma eng_process_authorized_witness :
  let ts := (serve_all (eng_Handler "s3cret") sample_fixes []).2 in
  Requester <$> ts = ["U2"; "U9"]%string ∧ length sample_log = 5%nat ∧
  ∃ t own, tk_Repo t ∈ splitList "scottylabs/site" ∧
    own ++ [XExec "sb1" codingScript (Ok "12 passed"%string)] `sublist_of` sample_log ∧
    own_sandbox sample_orchestrator t own "sb1".
Proof.
  cbv zeta. split; [vm_compute; reflexivity|]. split; [vm_compute; reflexivity|].
  destruct (eng_process_authorized sample_eng_env _ _ _ _ sample_fixes sample_log
    (XExec "sb1" codingScript (Ok "12 passed"%string)) eq_refl) as (r & t & own & rest & _ & _ & _ & Hr & Hs & _ & Hw).
  - exists [sample_log; []]. split.
    + assert ((serve_all (eng_Handler "s3cret") sample_fixes []).2 = [sample_task "U2"; sample_task "U9"])
        as Hts by (vm_compute; reflexivity). change (ServiceToken _) with "s3cret"%string. rewrite Hts.
      repeat (apply Forall2_cons; split); [..|by apply Forall2_nil].
      * exists []. exists sample_success, [], (EngAgent.Run sample_success sample_orchestrator (sample_task "U2") []).2.
        split; [done|]. by rewrite app_nil_r.
      * exists []. exists sample_success, [], []. split; [vm_compute; reflexivity|done].
    + unfold sample_log. vm_compute (exchanges _ _ _).
      repeat apply (interleaved_step [] _ _ [[]]). apply interleaved_done. by repeat constructor.
  - apply (list_elem_of_lookup_2 _ 2). vm_compute. reflexivity.
  - exists t, own. split; [exact Hr|]. split; [exact Hs|]. exact (proj2 Hw).
Defined.
