(* ===== verification/Finance.v ===== *)
(** * Reimbursement rules (mcp-servers)

    The rules as code of finance-rules/internal/domain with its service and
    reviewed standards. Amounts are float64, as in the code. Template.v has the
    copy of the rules that the server template carries. *)

From S2P Require Import Prelude GoText Float64 Json Http.
From Stdlib Require Import ZArith Lia Ascii SpecFloat.
From stdpp Require Import options.

Open Scope Z_scope.
Open Scope list_scope.

(** ** Data *)

Inductive Verdict : Type := Pass | Fail_ | Review.

#[export] Instance Verdict_eq_dec : EqDecision Verdict.
Proof. solve_decision. Defined.

Record ReimbursementRequest := MkRequest {
  RequestID : string;
  SubmitterEmail : string;
  AmountUSD : float64;
  Category : string;
  HasItemizedReceipt : bool;
  EventAssociated : bool;
  SubmittedDaysAfterPurchase : Z;
}.

Record Standards := MkStandards {
  EligibleCategories : list string;
  CategoryCapsUSD : gmap string float64;
  MaxDaysToSubmit : Z;
  RequireReceipt : bool;
  RequireEventAssoc : bool;
  ReviewBand : float64;
}.

Record RuleResult := MkRuleResult { Standard : string; Passed : bool; Detail : string }.

Record Evaluation := MkEvaluation {
  ev_RequestID : string;
  ev_Verdict : Verdict;
  FailedStandards : list RuleResult;
  Notes : list string;
}.

(** ** LoadStandards *)

Definition f64_zero : float64 := f64_of_Z 0.
Definition f64_one : float64 := f64_of_Z 1.

Definition conv_float (j : json) : option float64 :=
  match j with JNum f => Some f | _ => None end.

(** null in a list of strings is the empty string *)
Definition conv_elem (j : json) : option string :=
  match j with JStr s => Some s | JNull => Some EmptyString | _ => None end.

Definition conv_strings (j : json) : option (list string) :=
  match j with JArr l => mapM conv_elem l | _ => None end.

Definition cap_step (acc : option (gmap string float64)) (kv : string * json) :
    option (gmap string float64) :=
  match acc, kv.2 with
  | Some m, JNum f => Some (<[kv.1 := f]> m)
  | Some m, JNull => Some (<[kv.1 := f64_zero]> m)
  | _, _ => None
  end.

Definition conv_caps (j : json) : option (gmap string float64) :=
  match j with JObj fs => foldl cap_step (Some ∅) fs | _ => None end.

Definition decode_Standards (fs : list (string * json)) : option Standards :=
  cats ← decode_field conv_strings [] "eligible_categories" fs;
  caps ← decode_field conv_caps ∅ "category_caps_usd" fs;
  days ← decode_field conv_int 0 "max_days_to_submit" fs;
  receipt ← decode_field conv_bool false "require_receipt" fs;
  assoc ← decode_field conv_bool false "require_event_assoc" fs;
  band ← decode_field conv_float f64_zero "review_band" fs;
  Some {| EligibleCategories := cats; CategoryCapsUSD := caps; MaxDaysToSubmit := days;
          RequireReceipt := receipt; RequireEventAssoc := assoc; ReviewBand := band |}.

Definition LoadStandards (data : RawMessage) : result Standards :=
  match decode_body decode_Standards data with
  | None => Err (ErrWrap "domain: parse standards: " (ErrNew "json"))
  | Some s =>
      match EligibleCategories s with
      | [] => Err (ErrNew "domain: standards must list eligible_categories")
      | _ =>
          if MaxDaysToSubmit s <=? 0
          then Err (ErrNew "domain: standards max_days_to_submit must be positive")
          else if f64_ltb (ReviewBand s) f64_zero || f64_geb (ReviewBand s) f64_one
          then Err (ErrNew "domain: standards review_band must be in [0, 1)")
          else Ok s
      end
  end.

(** standards/reimbursement.json, without its _comment *)
Definition Default : RawMessage :=
  RawJSON (JObj [
    ("eligible_categories", JArr [JStr "travel"; JStr "food"; JStr "supplies"; JStr "swag"; JStr "printing"]);
    ("category_caps_usd", JObj [("travel", JInt 500); ("food", JInt 250); ("supplies", JInt 300);
                                ("swag", JInt 400); ("printing", JInt 150)]);
    ("max_days_to_submit", JInt 30);
    ("require_receipt", JBool true);
    ("require_event_assoc", JBool true);
    ("review_band", JNum (f64_ratio 1 10))]%string).

(** ** The checks *)

Implicit Types (r : ReimbursementRequest) (s : Standards).

Definition checkCategoryEligible r s : RuleResult :=
  if existsb (λ c, String.eqb c (Category r)) (EligibleCategories s)
  then {| Standard := "eligible_category"; Passed := true; Detail := "ok" |}
  else {| Standard := "eligible_category"; Passed := false;
          Detail := Sprintf "category %q is not an eligible expense type" [Fs (Category r)] |}.

Definition checkReceipt r s : RuleResult :=
  let ok := negb (RequireReceipt s) || HasItemizedReceipt r in
  {| Standard := "itemized_receipt"; Passed := ok;
     Detail := if ok then "ok" else "missing itemized receipt" |}.

Definition checkEventAssociation r s : RuleResult :=
  let ok := negb (RequireEventAssoc s) || EventAssociated r in
  {| Standard := "event_association"; Passed := ok;
     Detail := if ok then "ok" else "not associated with a ScottyLabs event" |}.

Definition checkDeadline r s : RuleResult :=
  let ok := SubmittedDaysAfterPurchase r <=? MaxDaysToSubmit s in
  {| Standard := "submission_deadline"; Passed := ok;
     Detail := if ok then "ok"
               else Sprintf "submitted %d days after purchase (max %d)"
                      [Fd (SubmittedDaysAfterPurchase r); Fd (MaxDaysToSubmit s)] |}.

Definition checkCategoryCap r s : RuleResult :=
  match CategoryCapsUSD s !! Category r with
  | None => {| Standard := "category_cap"; Passed := true; Detail := "no cap for category" |}
  | Some limit =>
      if f64_leb (AmountUSD r) limit
      then {| Standard := "category_cap"; Passed := true; Detail := "ok" |}
      else {| Standard := "category_cap"; Passed := false;
              Detail := "amount $" +:+ f64_fixed2 (AmountUSD r) +:+ " exceeds the $" +:+
                        f64_fixed2 limit +:+ " cap for " +:+ Category r |}
  end.

Definition checks : list (ReimbursementRequest → Standards → RuleResult) :=
  [checkCategoryEligible; checkReceipt; checkEventAssociation; checkDeadline; checkCategoryCap].

Definition isBorderline r s : bool :=
  match CategoryCapsUSD s !! Category r with
  | None => false
  | Some limit =>
      f64_geb (AmountUSD r) (f64_mul limit (f64_sub f64_one (ReviewBand s))) &&
      f64_leb (AmountUSD r) limit
  end.

(** The loop over the checks: the results that did not pass, in order. *)
Definition failures (cs : list (ReimbursementRequest → Standards → RuleResult)) r s :
    list RuleResult :=
  filter (λ res, Passed res = false) ((λ c, c r s) <$> cs).

Definition review_note : string :=
  "amount is within the review band of the category cap; needs a human decision".

Definition EvaluateReimbursement r s : Evaluation :=
  match failures checks r s with
  | [] =>
      if isBorderline r s
      then {| ev_RequestID := RequestID r; ev_Verdict := Review; FailedStandards := [];
              Notes := [review_note] |}
      else {| ev_RequestID := RequestID r; ev_Verdict := Pass; FailedStandards := []; Notes := [] |}
  | failed =>
      {| ev_RequestID := RequestID r; ev_Verdict := Fail_; FailedStandards := failed; Notes := [] |}
  end.

(** service.Evaluator *)
Record Evaluator := NewEvaluator { standards : Standards }.

Definition Evaluate (e : Evaluator) r : Evaluation := EvaluateReimbursement r (standards e).

(** ** The policy the rules implement *)

Definition within_cap r s : Prop :=
  ∀ limit, CategoryCapsUSD s !! Category r = Some limit → f64_leb (AmountUSD r) limit = true.

Definition acceptable r s : Prop :=
  Category r ∈ EligibleCategories s ∧
  (RequireReceipt s = true → HasItemizedReceipt r = true) ∧
  (RequireEventAssoc s = true → EventAssociated r = true) ∧
  SubmittedDaysAfterPurchase r <= MaxDaysToSubmit s ∧
  within_cap r s.

(** The amount lies in the band just below the cap of its category. *)
Definition in_band r s : Prop :=
  ∃ limit, CategoryCapsUSD s !! Category r = Some limit ∧
    f64_leb (f64_mul limit (f64_sub f64_one (ReviewBand s))) (AmountUSD r) = true ∧
    f64_leb (AmountUSD r) limit = true.

(** ** Lemmas *)

Lemma elem_of_failures cs r s res :
  res ∈ failures cs r s ↔ Passed res = false ∧ ∃ c, c ∈ cs ∧ res = c r s.
Proof.
  unfold failures. rewrite list_elem_of_filter, list_elem_of_fmap. naive_solver.
Qed.

Lemma failures_nil cs r s :
  failures cs r s = [] ↔ ∀ c, c ∈ cs → Passed (c r s) = true.
Proof.
  unfold failures. rewrite filter_nil_iff. setoid_rewrite list_elem_of_fmap. split.
  - intros Hf c Hc. apply not_false_is_true. apply Hf. by exists c.
  - intros Hp res (c & -> & Hc). rewrite (Hp c Hc). done.
Qed.

Lemma category_passed r s :
  Passed (checkCategoryEligible r s) = true ↔ Category r ∈ EligibleCategories s.
Proof.
  unfold checkCategoryEligible. destruct (existsb _ _) eqn:He; simpl.
  - apply existsb_elem_of in He as (c & Hc & ->%String.eqb_eq). done.
  - split; [done|]. intros Hin. rewrite existsb_not_elem_of in He.
    specialize (He _ Hin). by rewrite String.eqb_refl in He.
Qed.

Lemma cap_passed r s : Passed (checkCategoryCap r s) = true ↔ within_cap r s.
Proof.
  unfold checkCategoryCap, within_cap. destruct (_ !! _) as [limit|]; [|naive_solver].
  destruct (f64_leb _ _) eqn:Hl; simpl; naive_solver.
Qed.

Lemma required_passed a b : negb a || b = true ↔ (a = true → b = true).
Proof. destruct a, b; naive_solver. Qed.

Lemma checks_passed r s :
  (∀ c, c ∈ checks → Passed (c r s) = true) ↔ acceptable r s.
Proof.
  unfold checks, acceptable. split.
  - intros Hc. split_and!.
    + apply category_passed, Hc. set_solver.
    + apply required_passed. apply (Hc checkReceipt). set_solver.
    + apply required_passed. apply (Hc checkEventAssociation). set_solver.
    + apply Z.leb_le. apply (Hc checkDeadline). set_solver.
    + apply cap_passed, Hc. set_solver.
  - intros (H1 & H2 & H3 & H4 & H5) c. rewrite !elem_of_cons, elem_of_nil.
    intros [->|[->|[->|[->|[->|[]]]]]].
    + by apply category_passed.
    + by apply required_passed.
    + by apply required_passed.
    + by apply Z.leb_le.
    + by apply cap_passed.
Qed.

Lemma isBorderline_true r s : isBorderline r s = true ↔ in_band r s.
Proof.
  unfold isBorderline, in_band. destruct (_ !! _) as [limit|]; [|naive_solver].
  rewrite andb_true_iff. unfold f64_geb, f64_leb. naive_solver.
Qed.

(** ** Properties *)

Lemma band_dec r s : in_band r s ∨ ¬ in_band r s.
Proof. rewrite <-isBorderline_true. destruct (isBorderline r s); auto. Qed.

(** C36: The verdict is pass exactly for an acceptable request outside the review band,
    review exactly for an acceptable one inside it and fail otherwise; the failed
    standards are those of the checks that fail, in order, and only a review carries a
    note. *)
Theorem EvaluateReimbursement_policy r s :
  let e := EvaluateReimbursement r s in
  ev_RequestID e = RequestID r ∧
  (ev_Verdict e = Pass ↔ acceptable r s ∧ ¬ in_band r s) ∧
  (ev_Verdict e = Review ↔ acceptable r s ∧ in_band r s) ∧
  (ev_Verdict e = Fail_ ↔ ¬ acceptable r s) ∧
  FailedStandards e = failures checks r s ∧
  (Notes e ≠ [] ↔ ev_Verdict e = Review).
Proof.
  intros e. unfold e, EvaluateReimbursement.
  rewrite <-checks_passed, <-isBorderline_true, <-failures_nil.
  destruct (failures checks r s) as [|x l]; [destruct (isBorderline r s)|]; simpl; naive_solver.
Qed.

(** Standards that load can be met: some category is eligible, and the number of
    days and the review band are in range. *)
Theorem LoadStandards_valid data s :
  LoadStandards data = Ok s →
  EligibleCategories s ≠ [] ∧ 0 < MaxDaysToSubmit s ∧
  f64_ltb (ReviewBand s) f64_zero = false ∧ f64_geb (ReviewBand s) f64_one = false.
Proof.
  unfold LoadStandards. destruct (decode_body _ _) as [s'|]; [|done].
  destruct (EligibleCategories s') eqn:He; [done|].
  destruct (MaxDaysToSubmit s' <=? 0) eqn:Hd; [done|].
  destruct (_ || _) eqn:Hb; [done|]. intros [= <-]. bools. rewrite He. done.
Qed.

(** The reviewed standards load, and decide three requests. *)
Definition reviewed : Standards :=
  match LoadStandards Default with
  | Ok s => s
  | Err _ => {| EligibleCategories := []; CategoryCapsUSD := ∅; MaxDaysToSubmit := 0;
                RequireReceipt := false; RequireEventAssoc := false; ReviewBand := f64_zero |}
  end.

Definition sample (amount : Z) (receipt : bool) : ReimbursementRequest :=
  {| RequestID := "r"; SubmitterEmail := "m@scottylabs.org"; AmountUSD := f64_of_Z amount;
     Category := "food"; HasItemizedReceipt := receipt; EventAssociated := true;
     SubmittedDaysAfterPurchase := 2 |}.

(** The standards in the repository load, and decide five requests. *)
Theorem reviewed_verdicts :
  LoadStandards Default = Ok reviewed ∧
  ev_Verdict (EvaluateReimbursement (sample 224 true) reviewed) = Pass ∧
  ev_Verdict (EvaluateReimbursement (sample 225 true) reviewed) = Review ∧
  ev_Verdict (EvaluateReimbursement (sample 250 true) reviewed) = Review ∧
  ev_Verdict (EvaluateReimbursement (sample 251 true) reviewed) = Fail_ ∧
  FailedStandards (EvaluateReimbursement (sample 10 false) reviewed) =
    [{| Standard := "itemized_receipt"; Passed := false; Detail := "missing itemized receipt" |}].
Proof. vm_compute. done. Qed.

Lemma LoadStandards_valid_witness :
  0 < MaxDaysToSubmit reviewed ∧ f64_geb (ReviewBand reviewed) f64_one = false.
Proof.
  destruct (LoadStandards_valid Default reviewed) as (_ & Hd & _ & Hb); [vm_compute; reflexivity|].
  split; [exact Hd|exact Hb].
Defined.
