(* ===== verification/Template.v ===== *)
(** * The server template (mcp-servers/_template)

    The template for a new MCP server in Go: its data, rules and logging. The
    rules are compared with those of the finance server, of which they are a
    copy with other wordings. Its audit clients, service and main are in
    McpServers.v. *)

From S2P Require Import Prelude GoText Float64 Json Http Finance.
From Stdlib Require Import ZArith Lia Ascii SpecFloat.
From stdpp Require Import options.

Open Scope Z_scope.
Open Scope list_scope.

(** ** Data *)

Inductive Verdict : Type := Pass | Fail_ | Review.

Record ReimbursementRequest := MkRequest {
  RequestID : string;
  SubmitterEmail : string;
  AmountUSD : float64;
  Category : string;
  HasItemizedReceipt : bool;
  EventAssociated : bool;
  SubmittedDaysAfterPurchase : Z;
}.

Record Standards := MkStandards {
  EligibleCategories : list string;
  CategoryCapsUSD : gmap string float64;
  MaxDaysToSubmit : Z;
  RequireReceipt : bool;
  RequireEventAssoc : bool;
  ReviewBand : float64;
}.

Record RuleResult := MkRuleResult { Standard : string; Passed : bool; Detail : string }.

Record Evaluation := MkEvaluation {
  ev_RequestID : string;
  ev_Verdict : Verdict;
  FailedStandards : list RuleResult;
  Notes : list string;
}.

(** ** The rules *)

Implicit Types (r : ReimbursementRequest) (s : Standards).

Definition DefaultStandards : Standards :=
  {| EligibleCategories := ["travel"; "food"; "supplies"; "swag"]%string;
     CategoryCapsUSD := list_to_map [("travel", f64_of_Z 500); ("food", f64_of_Z 250);
                                     ("supplies", f64_of_Z 300); ("swag", f64_of_Z 400)]%string;
     MaxDaysToSubmit := 30; RequireReceipt := true; RequireEventAssoc := true;
     ReviewBand := f64_ratio 1 10 |}.

Definition checkCategoryEligible r s : RuleResult :=
  if existsb (λ c, String.eqb c (Category r)) (EligibleCategories s)
  then {| Standard := "eligible_category"; Passed := true; Detail := "ok" |}
  else {| Standard := "eligible_category"; Passed := false;
          Detail := Sprintf "category %q is not eligible" [Fs (Category r)] |}.

Definition checkReceipt r s : RuleResult :=
  let ok := negb (RequireReceipt s) || HasItemizedReceipt r in
  {| Standard := "itemized_receipt"; Passed := ok;
     Detail := if ok then "ok" else "missing itemized receipt" |}.

Definition checkEventAssociation r s : RuleResult :=
  let ok := negb (RequireEventAssoc s) || EventAssociated r in
  {| Standard := "event_association"; Passed := ok;
     Detail := if ok then "ok" else "no associated event" |}.

Definition checkDeadline r s : RuleResult :=
  let ok := SubmittedDaysAfterPurchase r <=? MaxDaysToSubmit s in
  {| Standard := "submission_deadline"; Passed := ok;
     Detail := if ok then "ok"
               else Sprintf "submitted %d days after purchase (max %d)"
                      [Fd (SubmittedDaysAfterPurchase r); Fd (MaxDaysToSubmit s)] |}.

Definition checkCategoryCap r s : RuleResult :=
  match CategoryCapsUSD s !! Category r with
  | None => {| Standard := "category_cap"; Passed := true; Detail := "no cap for category" |}
  | Some limit =>
      if f64_leb (AmountUSD r) limit
      then {| Standard := "category_cap"; Passed := true; Detail := "ok" |}
      else {| Standard := "category_cap"; Passed := false;
              Detail := "amount $" +:+ f64_fixed2 (AmountUSD r) +:+ " exceeds cap $" +:+
                        f64_fixed2 limit |}
  end.

Definition checks : list (ReimbursementRequest → Standards → RuleResult) :=
  [checkCategoryEligible; checkReceipt; checkEventAssociation; checkDeadline; checkCategoryCap].

Definition isBorderline r s : bool :=
  match CategoryCapsUSD s !! Category r with
  | None => false
  | Some limit =>
      f64_geb (AmountUSD r) (f64_mul limit (f64_sub (f64_of_Z 1) (ReviewBand s))) &&
      f64_leb (AmountUSD r) limit
  end.

(** The loop over the checks: the results that did not pass, in order. *)
Definition failed r s : list RuleResult :=
  filter (λ res, Passed res = false) ((λ c, c r s) <$> checks).

Definition EvaluateReimbursement r s : Evaluation :=
  match failed r s with
  | [] =>
      if isBorderline r s
      then {| ev_RequestID := RequestID r; ev_Verdict := Review; FailedStandards := [];
              Notes := ["amount is within the review band of the category cap; needs a human"%string] |}
      else {| ev_RequestID := RequestID r; ev_Verdict := Pass; FailedStandards := []; Notes := [] |}
  | l =>
      {| ev_RequestID := RequestID r; ev_Verdict := Fail_; FailedStandards := l; Notes := [] |}
  end.

Definition verdict_text (v : Verdict) : string :=
  match v with Pass => "pass" | Fail_ => "fail" | Review => "review" end.

(** ** Logging (internal/logging)

    logging.Setup: the least level of record that the default logger writes. *)
Inductive Level := LevelDebug | LevelInfo | LevelWarn | LevelError.

Definition Setup (level : string) : Level :=
  let l := ToLower level in
  if String.eqb l "debug" then LevelDebug
  else if String.eqb l "warn" then LevelWarn
  else if String.eqb l "error" then LevelError
  else LevelInfo.

(** logging.Redact *)
Definition redactKeys : gset string :=
  {["authorization"; "token"; "api_key"; "password"; "secret"]}.

Definition Redact (payload : gmap string json) : gmap string json :=
  map_imap (λ k v, Some (if bool_decide (ToLower k ∈ redactKeys) then JStr "***" else v)) payload.

(** ** The same policy as the finance rules

    The server template is what a new server starts from: its rules are a copy
    of those of the finance server, over types of its own. *)

Definition finance_request r : Finance.ReimbursementRequest :=
  Finance.MkRequest (RequestID r) (SubmitterEmail r) (AmountUSD r) (Category r)
    (HasItemizedReceipt r) (EventAssociated r) (SubmittedDaysAfterPurchase r).

Definition finance_standards s : Finance.Standards :=
  Finance.MkStandards (EligibleCategories s) (CategoryCapsUSD s) (MaxDaysToSubmit s)
    (RequireReceipt s) (RequireEventAssoc s) (ReviewBand s).

Definition finance_verdict (v : Verdict) : Finance.Verdict :=
  match v with Pass => Finance.Pass | Fail_ => Finance.Fail_ | Review => Finance.Review end.

(** Checks that agree but for their wording leave the same failures. *)
Definition same_check (c : ReimbursementRequest → Standards → RuleResult)
    (c' : Finance.ReimbursementRequest → Finance.Standards → Finance.RuleResult) : Prop :=
  ∀ r s, Passed (c r s) = Finance.Passed (c' (finance_request r) (finance_standards s)) ∧
    Standard (c r s) = Finance.Standard (c' (finance_request r) (finance_standards s)).

Lemma same_failures cs cs' r s :
  Forall2 same_check cs cs' →
  Standard <$> filter (λ res, Passed res = false) ((λ c, c r s) <$> cs) =
  Finance.Standard <$> Finance.failures cs' (finance_request r) (finance_standards s).
Proof.
  unfold Finance.failures. induction 1 as [|c c' cs cs' Hc _ IH]; [done|].
  destruct (Hc r s) as [Hp Hs]. rewrite !fmap_cons, !filter_cons, Hp.
  case_decide; [|done]. by rewrite !fmap_cons, Hs, IH.
Qed.

Lemma same_checks : Forall2 same_check checks Finance.checks.
Proof.
  unfold checks, Finance.checks. repeat constructor;
    unfold checkCategoryEligible, Finance.checkCategoryEligible, checkCategoryCap,
      Finance.checkCategoryCap, finance_request, finance_standards; simpl; by repeat case_match.
Qed.

(** The template gives every request the verdict of the finance rules under the
    same standards, and the same failed standards. *)
Theorem Template_same_verdict r s :
  let e := EvaluateReimbursement r s in
  let e' := Finance.EvaluateReimbursement (finance_request r) (finance_standards s) in
  finance_verdict (ev_Verdict e) = Finance.ev_Verdict e' ∧
  Standard <$> FailedStandards e = Finance.Standard <$> Finance.FailedStandards e'.
Proof.
  intros e e'. unfold e, e', EvaluateReimbursement, Finance.EvaluateReimbursement.
  pose proof (same_failures _ _ r s same_checks) as Heq. fold (failed r s) in Heq.
  destruct (failed r s), (Finance.failures _ _ _); try done.
  change (Finance.isBorderline _ _) with (isBorderline r s). by destruct (isBorderline r s).
Qed.

(** So whatever the policy accepts or sends to a human, the template does. *)
Lemma Template_policy r s :
  (ev_Verdict (EvaluateReimbursement r s) = Pass ↔
   Finance.acceptable (finance_request r) (finance_standards s) ∧
   ¬ Finance.in_band (finance_request r) (finance_standards s)) ∧
  (ev_Verdict (EvaluateReimbursement r s) = Fail_ ↔
   ¬ Finance.acceptable (finance_request r) (finance_standards s)).
Proof.
  rewrite <-Finance.checks_passed, <-Finance.isBorderline_true, <-Finance.failures_nil.
  pose proof (same_failures _ _ r s same_checks) as Heq. fold (failed r s) in Heq.
  change (Finance.isBorderline _ _) with (isBorderline r s). unfold EvaluateReimbursement.
  destruct (failed r s), (Finance.failures _ _ _); try done.
  - destruct (isBorderline r s); simpl; naive_solver.
  - simpl. naive_solver.
Qed.

(** The standards the template carries decide these requests. *)
Example default_verdicts :
  let r amount days := {| RequestID := "r"; SubmitterEmail := "m@scottylabs.org";
    AmountUSD := f64_of_Z amount; Category := "food"; HasItemizedReceipt := true;
    EventAssociated := true; SubmittedDaysAfterPurchase := days |} in
  (λ r, ev_Verdict (EvaluateReimbursement r DefaultStandards)) <$>
    [r 224 30; r 225 30; r 250 30; r 251 30; r 224 31] = [Pass; Review; Review; Fail_; Fail_].
Proof. vm_compute. reflexivity. Qed.
