(* ===== verification/McpServers.v ===== *)
(** * The MCP servers' processes

    Tools, settings and [main] of the memory server (session-memory), the
    finance rules and the Google Workspace server (mcp-servers), and of the
    template they were made from, with its audit clients. The MCP library, which
    decodes a tool's arguments, calls the tool and encodes its outcome, is a
    parameter. *)

From S2P Require Import Prelude GoText Float64 Json Http Pg Memory MemoryMCP.
From S2P Require Import Recipe Task RuntimeServer RuntimeClient Process.
From S2P Require Import Governance Registry Gateway Proxy Workspace Template Finance.
From Stdlib Require Import ZArith Lia Ascii.
From stdpp Require Import options.

Open Scope Z_scope.
Open Scope list_scope.

(** A registered tool: its name, and the handler behind the decoding of its
    arguments and the encoding of its outcome. *)
Definition McpTool (W : Type) : Type := string * (RawMessage → M W (result RawMessage)).

(** mcp.AddTool *)
Definition AddTool {W I O} (name : string) (decode : RawMessage → result I)
    (encode : result O → result RawMessage) (f : I → M W (result O)) : McpTool W :=
  (name, λ args, match decode args with
                 | Err e => mret (encode (Err e))
                 | Ok i => o ← f i; mret (encode o)
                 end).

(** mcp.NewStreamableHTTPHandler for a server with these tools *)
Definition HTTPHandlerOf : Type := ∀ W, list (McpTool W) → Request → M W Response.

(** ** The memory server *)

Module MemoryServer.

Record SDK := MkSDK {
  in_write : RawMessage → result WriteFactInput;
  in_search : RawMessage → result SearchInput;
  in_forget : RawMessage → result ForgetInput;
  out_write : result Fact → result RawMessage;
  out_search : result (list Fact) → result RawMessage;
  out_forget : result Z → result RawMessage;
}.

Section memory.
Context {S : Type} `{FactStore S} `{Postgres S}.

(** [memory.Register] *)
Definition tools (sdk : SDK) : list (McpTool S) :=
  [ AddTool "write_fact" (in_write sdk) (out_write sdk) mcp_WriteFact;
    AddTool "search" (in_search sdk) (out_search sdk) mcp_Search;
    AddTool "forget" (in_forget sdk) (out_forget sdk) mcp_Forget ]%string.

Definition main (sdk : SDK) (handler : HTTPHandlerOf) (Getenv : string → string) :
    process S (Request → M S Response) :=
  with_database "memory-mcp" (Getenv "DATABASE_URL"%string) (λ db,
    let port := if nonempty (Getenv "PORT") then Getenv "PORT" else "8080"%string in
    Serve (":" +:+ port) (mcp_mux (Getenv "MCP_AUTH_TOKEN"%string) (handler S (tools sdk))) db 1).
End memory.
End MemoryServer.

(** ** The finance rules *)

Module FinanceServer.

Record Config := MkConfig { Port : string; LogLevel : string; AuthToken : string; StandardsFile : string }.

Definition Load (Getenv : string → string) : Config :=
  {| Port := firstNonEmpty [Getenv "PORT"; Getenv "MCP_PORT"; "8080"];
     LogLevel := firstNonEmpty [Getenv "MCP_LOG_LEVEL"; "info"];
     AuthToken := Getenv "MCP_AUTH_TOKEN";
     StandardsFile := Getenv "FINANCE_STANDARDS_FILE" |}%string.

(** The evaluator is the whole server: it has no state. *)
Definition tools (decode : RawMessage → result ReimbursementRequest)
    (encode : result Evaluation → result RawMessage) (ev : Evaluator) : list (McpTool unit) :=
  [ AddTool "evaluate" decode encode (λ r, mret (Ok (Evaluate ev r))) ]%string.

(** The evaluator that main builds; [ReadFile] reads a file as JSON. *)
Definition main_Evaluator (ReadFile : string → result RawMessage) (cfg : Config) :
    Evaluator + string :=
  match (if nonempty (StandardsFile cfg) then ReadFile (StandardsFile cfg) else Ok Default) with
  | Err _ => inr "finance-rules: read FINANCE_STANDARDS_FILE"%string
  | Ok raw => match LoadStandards raw with
              | Err _ => inr "finance-rules: invalid standards"%string
              | Ok std => inl (NewEvaluator std)
              end
  end.

Definition main (decode : RawMessage → result ReimbursementRequest)
    (encode : result Evaluation → result RawMessage) (handler : HTTPHandlerOf)
    (ReadFile : string → result RawMessage) (Getenv : string → string) :
    process unit (Request → M unit Response) :=
  let cfg := Load Getenv in
  match main_Evaluator ReadFile cfg with
  | inr message => Exit 1 message
  | inl ev => Serve (":" +:+ Port cfg)
                (mcp_mux (AuthToken cfg) (handler unit (tools decode encode ev))) tt 1
  end.
End FinanceServer.

(** ** The Google Workspace server *)

Module WorkspaceServer.

Record Config := MkConfig {
  Port : string; LogLevel : string; AuthToken : string;
  GoogleSAJSON : string; DelegatedSubject : string }.

Definition Load (ReadFile : string → result string) (Getenv : string → string) : result Config :=
  let cfg json :=
    {| Port := firstNonEmpty [Getenv "PORT"; Getenv "MCP_PORT"; "8080"];
       LogLevel := firstNonEmpty [Getenv "MCP_LOG_LEVEL"; "info"];
       AuthToken := Getenv "MCP_AUTH_TOKEN";
       GoogleSAJSON := json; DelegatedSubject := Getenv "GOOGLE_DELEGATED_SUBJECT" |}%string in
  if nonempty (Getenv "GOOGLE_SA_JSON") then Ok (cfg (Getenv "GOOGLE_SA_JSON"%string))
  else if nonempty (Getenv "GOOGLE_SA_JSON_FILE") then
    match ReadFile (Getenv "GOOGLE_SA_JSON_FILE"%string) with
    | Err e => Err (ErrWrap "config: read GOOGLE_SA_JSON_FILE: " e)
    | Ok b => Ok (cfg b)
    end
  else Ok (cfg EmptyString).

Definition HasGoogleCredentials (c : Config) : bool :=
  nonempty (GoogleSAJSON c) && nonempty (DelegatedSubject c).

Section workspace.
Context {A : Type} `{GoogleAPI A}.

Definition tools (sdk : McpSDK) : list (McpTool (account A)) :=
  (λ t, (t.1, λ args, r ← t.2 args; mret (encode_outcome sdk r))) <$> registered_tools sdk.

(** *** The client's construction (clients/google.go)

    Google's libraries: the scopes' names, the token source of a service
    account's key for a subject, and the four services over a token source,
    which make up the client. *)
Record GoogleLibraries := MkGoogleLibraries {
  SpreadsheetsReadonlyScope : string;
  CalendarEventsScope : string;
  GmailComposeScope : string;
  GmailSendScope : string;
  DriveReadonlyScope : string;
  TokenSource : Type;
  JWTConfigFromJSON : string → list string → result (string → TokenSource);
  sheets_NewService : TokenSource → option error;
  calendar_NewService : TokenSource → option error;
  gmail_NewService : TokenSource → option error;
  drive_NewService : TokenSource → option error;
  services : TokenSource → A;
}.

Definition Scopes (g : GoogleLibraries) : list string :=
  [SpreadsheetsReadonlyScope g; CalendarEventsScope g; GmailComposeScope g; GmailSendScope g;
   DriveReadonlyScope g].

(** An error of a service under the client's prefix. *)
Definition service_built (prefix : string) (e : option error) : result unit :=
  match e with Some e => Err (ErrWrap prefix e) | None => Ok () end.

Definition NewGoogle (g : GoogleLibraries) (saJSON subject : string) : result A :=
  match JWTConfigFromJSON g saJSON (Scopes g) with
  | Err e => Err (ErrWrap "clients: parse service account: " e)
  | Ok cfg =>
      let ts := cfg subject in
      _ ← service_built "clients: sheets: " (sheets_NewService g ts);
      _ ← service_built "clients: calendar: " (calendar_NewService g ts);
      _ ← service_built "clients: gmail: " (gmail_NewService g ts);
      _ ← service_built "clients: drive: " (drive_NewService g ts);
      Ok (services g ts)
  end.

(** A client acts for the configured subject and within [Scopes]. *)
Lemma NewGoogle_scoped g saJSON subject api :
  NewGoogle g saJSON subject = Ok api →
  ∃ cfg, JWTConfigFromJSON g saJSON (Scopes g) = Ok cfg ∧ api = services g (cfg subject).
Proof.
  unfold NewGoogle, service_built. destruct (JWTConfigFromJSON _ _ _) as [cfg|]; [|done].
  destruct (sheets_NewService _ _); [done|]. destruct (calendar_NewService _ _); [done|].
  destruct (gmail_NewService _ _); [done|]. destruct (drive_NewService _ _); [done|].
  intros [= <-]. by exists cfg.
Qed.

Definition main (sdk : McpSDK) (handler : HTTPHandlerOf) (ReadFile : string → result string)
    (google : GoogleLibraries) (Getenv : string → string) :
    process (account A) (Request → M (account A) Response) :=
  match Load ReadFile Getenv with
  | Err _ => Exit 1 "config"
  | Ok cfg =>
      if HasGoogleCredentials cfg then
        match NewGoogle google (GoogleSAJSON cfg) (DelegatedSubject cfg) with
        | Err _ => Exit 1 "google-workspace: build client"
        | Ok api => Serve (":" +:+ Port cfg)
                      (mcp_mux (AuthToken cfg) (handler (account A) (tools sdk)))
                      {| ac_api := api; ac_sent := [] |} 1
        end
      else Exit 1 "google-workspace: GOOGLE_SA_JSON(_FILE) and GOOGLE_DELEGATED_SUBJECT are required"
  end.

(** A listed tool is what [call_tool] calls. *)
Lemma tools_call_tool sdk name args :
  call_tool sdk name args =
  match List.find (λ t, String.eqb t.1 name) (tools sdk) with
  | Some t => t.2 args
  | None => mret (Err (Errorf "unknown tool %q" [Fs name]))
  end.
Proof.
  unfold call_tool, tools. induction (registered_tools sdk) as [|[n f] l IH]; [done|].
  cbn [List.find fmap list_fmap fst snd]. destruct (String.eqb n name); [done|]. exact IH.
Qed.
End workspace.
End WorkspaceServer.

(** ** The template *)

Module TemplateServer.

(** The interface [AuditSink] (service/reimbursement.go). *)
Class AuditSink (A : Type) := {
  audit_Record : string → string → gmap string json → A → option error * A;
}.

(** The event of a record: entries of the payload win over the two labels. *)
Definition event_of (actor action : string) (payload : gmap string json) : gmap string json :=
  payload ∪ {["actor" := JStr actor; "action" := JStr action]}%string.

(** *** The audit clients (clients/audit.go) *)

Definition InMemoryAudit : Type := list (gmap string json).

#[export] Instance InMemoryAudit_Sink : AuditSink InMemoryAudit := {
  audit_Record actor action payload events := (None, events ++ [event_of actor action payload]);
}.

Section http_audit.
Context {T : Type} `{Transport T} (NewRequest : string → option error).

Record HTTPAudit := MkHTTPAudit { au_URL : string; au_HTTP : T }.

Definition audit_request (url : string) (event : gmap string json) : Outgoing :=
  {| o_method := "POST"; o_url := url; o_header := {["content-type" := "application/json"]};
     o_body := RawJSON (JObj (map_fields event)) |}%string.

(** A URL that is no URL is an error; a failed post is only logged. *)
#[export] Instance HTTPAudit_Sink : AuditSink HTTPAudit := {
  audit_Record actor action payload a :=
    match NewRequest (au_URL a) with
    | Some e => (Some e, a)
    | None => let '(_, n) := http_Do (audit_request (au_URL a) (event_of actor action payload))
                               (au_HTTP a) in
              (None, {| au_URL := au_URL a; au_HTTP := n |})
    end;
}.

(** The sink that main chooses. *)
Inductive sink : Type := InMemory (events : InMemoryAudit) | OverHTTP (a : HTTPAudit).

#[export] Instance sink_Sink : AuditSink sink := {
  audit_Record actor action payload s :=
    match s with
    | InMemory l => let '(e, l) := audit_Record actor action payload l in (e, InMemory l)
    | OverHTTP a => let '(e, a) := audit_Record actor action payload a in (e, OverHTTP a)
    end;
}.
End http_audit.
Arguments HTTPAudit : clear implicits.
Arguments sink : clear implicits.

(** *** The service and its tools *)

Record recordDecisionInput := MkRecordDecisionInput {
  rd_RequestID : string; rd_Decision : string; rd_DecidedBy : string }.
Record recordDecisionOutput := MkRecordDecisionOutput {
  ro_RequestID : string; ro_Decision : string; ro_Recorded : bool }.

Section service.
Context {A : Type} `{AuditSink A} (std : Template.Standards).

(** The error of the audit sink is dropped. *)
Definition svc_Evaluate (r : Template.ReimbursementRequest) : M A (result Template.Evaluation) :=
  let ev := Template.EvaluateReimbursement r std in
  _ ← (audit_Record "reimbursement-service" "evaluate"
         {["request_id" := JStr (Template.RequestID r);
           "verdict" := JStr (Template.verdict_text (Template.ev_Verdict ev))]}%string : M A _);
  mret (Ok ev).

Definition RecordReviewDecision (requestID decision decidedBy : string) : M A (option error) :=
  audit_Record decidedBy "review_decision"
    {["request_id" := JStr requestID; "decision" := JStr decision]}%string.

Definition record_review_decision (i : recordDecisionInput) : M A (result recordDecisionOutput) :=
  e ← RecordReviewDecision (rd_RequestID i) (rd_Decision i) (rd_DecidedBy i);
  mret (match e with
        | Some e => Err e
        | None => Ok {| ro_RequestID := rd_RequestID i; ro_Decision := rd_Decision i;
                        ro_Recorded := true |}
        end).

Definition tools (in1 : RawMessage → result Template.ReimbursementRequest)
    (in2 : RawMessage → result recordDecisionInput)
    (out1 : result Template.Evaluation → result RawMessage)
    (out2 : result recordDecisionOutput → result RawMessage) : list (McpTool A) :=
  [ AddTool "evaluate_reimbursement" in1 out1 svc_Evaluate;
    AddTool "record_review_decision" in2 out2 record_review_decision ]%string.
End service.

(** *** Settings and main *)

Record Config := MkConfig { Port : string; LogLevel : string; AuthToken : string; AuditURL : string }.

Definition Load (Getenv : string → string) : Config :=
  {| Port := firstNonEmpty [Getenv "PORT"; Getenv "MCP_PORT"; "8080"];
     LogLevel := firstNonEmpty [Getenv "MCP_LOG_LEVEL"; "info"];
     AuthToken := Getenv "MCP_AUTH_TOKEN";
     AuditURL := Getenv "MCP_AUDIT_URL" |}%string.

(** The process ends with status 0 even when the server fails. *)
Definition main {T} `{Transport T} NewRequest in1 in2 out1 out2 (handler : HTTPHandlerOf)
    (Getenv : string → string) (n : T) : process (sink T) (Request → M (sink T) Response) :=
  let cfg := Load Getenv in
  let audit := if nonempty (AuditURL cfg) then OverHTTP {| au_URL := AuditURL cfg; au_HTTP := n |}
               else InMemory [] in
  Serve (":" +:+ Port cfg)
    (mcp_mux (AuthToken cfg)
       (handler (sink T) (tools (H := sink_Sink NewRequest) Template.DefaultStandards
                            in1 in2 out1 out2))) audit 0.

(** A verdict never depends on the sink; a decision is reported as recorded
    exactly when the sink took it. *)
Lemma Evaluate_any_sink {A} `{AuditSink A} std r (a : A) :
  (svc_Evaluate std r a).1 = Ok (Template.EvaluateReimbursement r std).
Proof. unfold svc_Evaluate. by rewrite M_bind_step. Qed.

(** The audit is meant never to break a tool, but the error of a malformed
    audit URL comes through. *)
Lemma bad_audit_url_fails {T} `{Transport T} NewRequest (a : HTTPAudit T) e i :
  NewRequest (au_URL a) = Some e →
  (record_review_decision (H := HTTPAudit_Sink NewRequest) i a).1 = Err e.
Proof.
  intros He. unfold record_review_decision, RecordReviewDecision. rewrite M_bind_step.
  simpl. by rewrite He.
Qed.
End TemplateServer.

(** ** Who gets in

    With a token configured none of the four servers does anything for a
    request without it; and the gateway's caller gets in exactly with the
    server's token. *)

Section guarded.
Context {W : Type} (token : string) (h : Request → M W Response).

Lemma mcp_unauthorized_inert rs w :
  nonempty token = true → Forall (λ r, bearer_ok token r = false) rs →
  (serve_all (mcp_mux token h) rs w).2 = w.
Proof.
  intros Ht Hrs. apply (serve_all_invariant (mcp_mux token h) (λ _ w', w' = w)); [done|].
  intros done r w' [rest Heq] ->. rewrite Heq, Forall_app, Forall_cons in Hrs.
  destruct Hrs as (_ & Hr & _). rewrite mcp_mux_guarded, Ht, Hr. cbn [negb orb].
  by rewrite andb_false_r.
Qed.

(** The gateway's request, as it arrives at the endpoint's /mcp. *)
Lemma proxy_gets_in down s t a (r : Request) w :
  header r = o_header (rpc_request down s t a) → path r = ["mcp"%string] →
  mcp_mux token h r w =
  if bool_decide (token = EmptyString ∨ token = down) then h r w else (mcp_unauthorized, w).
Proof.
  intros Hh Hp. rewrite mcp_mux_guarded, Hp. cbn [andb].
  rewrite bool_decide_eq_true_2 by done. cbn [andb].
  assert (Header_Get r "Authorization" =
    if nonempty down then "Bearer " +:+ down else EmptyString) as Ha.
  { unfold Header_Get. rewrite Hh. unfold rpc_request. cbn [o_header].
    destruct (nonempty down).
    - change (ToLower "Authorization") with "authorization"%string. by rewrite lookup_insert_eq.
    - done. }
  unfold bearer_ok. rewrite Ha. destruct (nonempty token) eqn:Ht; cbn [negb orb andb].
  - apply nonempty_true in Ht. destruct (nonempty down) eqn:Hd.
    + destruct (String.eqb_spec ("Bearer " +:+ down) ("Bearer " +:+ token)) as [He|He].
      * rewrite bool_decide_eq_true_2; [done|]. right. injection He as ->. done.
      * rewrite bool_decide_eq_false_2; [done|]. naive_solver.
    + apply nonempty_false in Hd as ->. rewrite bool_decide_eq_false_2; [done|]. naive_solver.
  - apply nonempty_false in Ht as ->. by rewrite bool_decide_eq_true_2 by auto.
Qed.
End guarded.
