(* ===== verification/Mains.v ===== *)
(** * The other processes

    [main] and the settings of the Slack gateway, the dashboard, the runtime
    service and the scheduler (services/*/cmd, services/*/internal/config,
    runtime/cmd/runtime-server), with the Slack posters. *)

From S2P Require Import Prelude GoText Json Http Pg Memory Recipe Task Goose RuntimeServer.
From S2P Require Import RuntimeClient MemoryMCP Process Governance Registry.
From Stdlib Require Import ZArith Lia Ascii.
From stdpp Require Import options.
From S2P Require Slack Dashboard Scheduler.

Open Scope Z_scope.
Open Scope list_scope.

(** ** The Slack gateway *)

Module SlackMain.
Import Slack.

(** *** Posting (internal/slack/poster.go) *)

Inductive MsgOption : Type :=
  | MsgOptionText (text : string)
  | MsgOptionBlocks (blocks : list Block)
  | MsgOptionTS (ts : string).

(** The web API of the Slack library. *)
Class SlackAPI (A : Type) := {
  PostMessageContext : string → list MsgOption → A → option error * A;
}.

Definition post_options (m : Message) : list MsgOption :=
  [MsgOptionText (msg_Fallback m)] ++
  (match msg_Blocks m with [] => [] | bs => [MsgOptionBlocks bs] end) ++
  (if nonempty (msg_ThreadTS m) then [MsgOptionTS (msg_ThreadTS m)] else []).

Definition SlackPoster_Post {A} `{SlackAPI A} (m : Message) : M A (option error) :=
  PostMessageContext (msg_Channel m) (post_options m).

(** It only logs. *)
Definition LogPoster_Post {A} (m : Message) : M A (option error) := mret None.

(** *** Settings *)

Record Config := MkConfig {
  SigningSecret : string;
  BotToken : string;
  BotUserID : string;
  RuntimeURL : string;
  RuntimeToken : string;
  Port : string;
}.

Definition Load (Getenv : string → string) : Config :=
  {| SigningSecret := Getenv "SLACK_SIGNING_SECRET"; BotToken := Getenv "SLACK_BOT_TOKEN";
     BotUserID := Getenv "SLACK_BOT_USER_ID"; RuntimeURL := Getenv "RUNTIME_URL";
     RuntimeToken := Getenv "RUNTIME_SERVICE_TOKEN";
     Port := firstNonEmpty [Getenv "PORT"; "8080"] |}%string.

(** *** The service *)

Record SlackHTTP := MkSlackHTTP { sh_method : string; sh_path : list string; sh_request : SlackRequest }.

Section main.
Context {R : Type} `{SlackRuntime R} (sdk : SDK).

(** The runtime behind the client, the posts, and the jobs handed to a goroutine. *)
Definition state : Type := Slack.world R * list Slack.Job.

Definition on_Events (h : Slack.Handler) (r : SlackRequest) : M state Response := λ s,
  let '(resp, j) := Events sdk h r in
  (resp, (s.1, s.2 ++ from_option (λ j, [j]) [] j)).

Definition on_Interactions (h : Slack.Handler) (r : SlackRequest) : M state Response := λ s,
  let '(resp, w) := Interactions sdk h r s.1 in (resp, (w, s.2)).

Definition slack_routes (h : Slack.Handler) : list (route (SlackRequest → M state Response)) :=
  [ Route "POST" [Lit "slack"; Lit "events"] (on_Events h);
    Route "POST" [Lit "slack"; Lit "interactions"] (on_Interactions h);
    Route "POST" [Lit "slack"; Lit "commands"] (λ r, mret (Command sdk h r));
    Route "GET" [Lit "healthz"] (λ _, mret healthz) ]%string.

Definition slack_mux (h : Slack.Handler) (r : SlackHTTP) : M state Response :=
  match ServeMux (slack_routes h) (sh_method r) (sh_path r) with
  | Handled f _ => f (sh_request r)
  | NotFound => mret not_found
  | MethodNotAllowed => mret method_not_allowed
  end.

(** [connect] is the runtime that a client with this URL and token reaches. *)
Definition slack_main (connect : Client → R) (Getenv : string → string) :
    process state (SlackHTTP → M state Response) :=
  let cfg := Load Getenv in
  Serve (":" +:+ Port cfg)
    (slack_mux (Slack.New (SigningSecret cfg) (BotUserID cfg)))
    ({| Slack.w_rt := connect {| baseURL := RuntimeURL cfg; cl_token := RuntimeToken cfg |};
        w_posts := [] |}, []) 1.

(** A request whose signature does not verify changes nothing: no job, no post,
    no decision. *)
Lemma slack_unsigned_inert h rs s :
  Forall (λ r, Slack.verify sdk h (sh_request r) = None) rs →
  (serve_all (slack_mux h) rs s).2 = s.
Proof.
  intros Hrs. apply (serve_all_invariant (slack_mux h) (λ _ s', s' = s)); [done|].
  intros done r s' [rest Heq] ->. rewrite Heq, Forall_app, Forall_cons in Hrs.
  destruct Hrs as (_ & Hr & _). unfold slack_mux.
  destruct (ServeMux _ _ _) as [f vars| |] eqn:Hd; [|done..].
  apply ServeMux_route in Hd as (rt & Hin & <- & _). unfold slack_routes in Hin.
  rewrite !elem_of_cons, elem_of_nil in Hin. destruct s as [w js].
  destruct Hin as [->|[->|[->|[->|[]]]]]; cbn [r_handler]; [| |done..].
  - unfold on_Events, Events. rewrite Hr. cbn. by rewrite app_nil_r.
  - unfold on_Interactions, Interactions. by rewrite Hr.
Qed.
End main.
End SlackMain.

(** ** The dashboard *)

Module DashboardMain.
Import Dashboard.

Section main.
Context {S T : Type} `{DashStore S} `{Postgres S} `{Transport T}.
Context (time_json : Z → json) (FileServer : Request → Response).

(** A request comes with the clock that its handler reads. *)
Definition dashboard_main (Getenv : string → string) (n : T) :
    process (Dashboard.world S T) (Z * Request → M (Dashboard.world S T) DashResponse) :=
  with_database "dashboard" (Getenv "DATABASE_URL"%string) (λ db,
    let rt := {| baseURL := Getenv "RUNTIME_URL"; cl_token := Getenv "RUNTIME_SERVICE_TOKEN" |}%string in
    let srv := {| Dashboard.token := Getenv "DASHBOARD_TOKEN"%string; runtime := rt |} in
    let port := if nonempty (Getenv "PORT") then Getenv "PORT" else "8080"%string in
    Serve (":" +:+ port) (λ nr, Dashboard.Handler time_json FileServer srv nr.1 nr.2)
      {| w_store := db; w_net := n |} 1).
End main.
End DashboardMain.

(** ** The runtime service *)

Module RuntimeMain.

(** A request comes with the identifier that newID would draw and the branch
    that a select would prefer. *)
Definition runtime_main (files : Files) (exec : Exec) (Getenv : string → string) :
    process (Manager (E:=goose))
      (string * bool * Request → Manager (E:=goose) → option (Response * Manager)) :=
  let cfg := LoadConfig Getenv in
  let rt := Recipe.New [WithModels (Models cfg); WithRecipesDir (RecipesDir cfg)] in
  let port := if nonempty (Getenv "PORT") then Getenv "PORT" else "8080"%string in
  Serve (":" +:+ port)
    (λ x, rt_Handler (Getenv "RUNTIME_SERVICE_TOKEN"%string) x.1.1 x.1.2 x.2)
    (NewManager rt files (λ spec, GStart cfg spec exec)) 1.
End RuntimeMain.

(** ** The scheduler *)

Module SchedulerMain.
Import Scheduler.

Record Config := MkConfig {
  RuntimeURL : string; RuntimeToken : string; ScheduleFile : string; Port : string }.

Definition Load (Getenv : string → string) : Config :=
  {| RuntimeURL := Getenv "RUNTIME_URL"; RuntimeToken := Getenv "RUNTIME_SERVICE_TOKEN";
     ScheduleFile := Getenv "SCHEDULE_FILE"; Port := firstNonEmpty [Getenv "PORT"; "8080"] |}%string.

(** What main does: exit, run the jobs that are due once, or go on ticking
    behind a health server. *)
Inductive scheduler_process (W : Type) : Type :=
  | SchedExit (status : Z) (message : string)
  | SchedRan (results : list RunResult) (w : W)
  | SchedLoop (addr : string) (s : Scheduler) (w : W).
Arguments SchedExit {W} _ _.
Arguments SchedRan {W} _ _.
Arguments SchedLoop {W} _ _ _.

Section main.
Context {R : Type} `{JobRuntime R}.

Definition runOnce (s : Scheduler) (now : Z) (w : Scheduler.world R) :
    scheduler_process (Scheduler.world R) :=
  match RunDue s now w with
  | (Err _, _) => SchedExit 1 "scheduler: run due"
  | (Ok results, w) => SchedRan results w
  end.

(** [parse] is the cron library; [connect] the runtime a client reaches. *)
Definition scheduler_main (parse : string → result Schedule) (ReadFile : string → result string)
    (Unmarshal : string → result (list Job)) (connect : Client → R)
    (Getenv : string → string) (args : list string) (now : Z) :
    scheduler_process (Scheduler.world R) :=
  let cfg := Load Getenv in
  match Jobs (ScheduleFile cfg) ReadFile Unmarshal with
  | Err _ => SchedExit 1 "scheduler: load jobs"
  | Ok jobs =>
      let s := {| Scheduler.jobs := jobs; Scheduler.parse := parse |} in
      let w := {| w_rt := connect {| baseURL := RuntimeURL cfg; cl_token := RuntimeToken cfg |};
                  w_submitted := [] |} in
      if bool_decide (args !! 1%nat = Some "run"%string) then runOnce s now w
      else SchedLoop (":" +:+ Port cfg) s w
  end.
End main.

(** *** The ticks of serve

    It sleeps to the start of the next minute and only then makes a ticker of
    one minute, whose first tick comes a minute later. [late k] is how far past
    the minute the time of a tick is, because the sleep and the timers end a
    little late; the ticker drops a tick when the loop is still busy with the
    one before, so there are none to drop while a round takes less than a
    minute. *)
Definition ticks (start : Z) (late : nat → Z) (n : nat) : list Z :=
  (λ k, minute_of start + min + (Z.of_nat k + 1) * min + late k) <$> List.seq 0 n.

(** The minutes it looks at: from the second one after the start. *)
Definition nth_minute (start : Z) (k : nat) : Z := minute_of start + (Z.of_nat k + 2) * min.

Lemma minute_of_tick start late k :
  0 <= late k < min →
  minute_of (minute_of start + min + (Z.of_nat k + 1) * min + late k) = nth_minute start k.
Proof.
  intros Hl. unfold nth_minute. apply minute_of_spec; [|lia].
  rewrite Z.mod_add by done. apply minute_of_mod.
Qed.

Section minutes.
Context {R : Type} `{JobRuntime R}.

(** C25: A scheduler process that keeps ticking submits, minute by minute, exactly the
    jobs whose cron spec fires in that minute, in their order and once each, whatever the
    runtime answers and however late within its minute a tick comes; the minutes begin
    with the second one after the start, so the first full minute is never looked at. *)
Theorem scheduler_minutes fires parse ReadFile Unmarshal connect Getenv args start late n addr s
    (w : Scheduler.world R) :
  scheduler_main parse ReadFile Unmarshal connect Getenv args start = SchedLoop addr s w →
  valid fires s → (∀ k, 0 <= late k < min) →
  w_submitted (serve s (ticks start late n) w).2 =
    (k ← List.seq 0 n;
     submission <$> filter (λ j, fires j (nth_minute start k) = true) (Scheduler.jobs s)) ∧
  ∀ t, t ∈ ticks start late n → minute_of t ≠ minute_of start + min.
Proof.
  intros Hm Hv Hl. split.
  - assert (w_submitted w = []) as Hw.
    { unfold scheduler_main, runOnce in Hm. repeat case_match; by simplify_eq. }
    pose proof (serve_submissions fires s (ticks start late n) w Hv) as Hs.
    destruct (serve s _ w) as [rs w']. destruct Hs as [Hs _]. cbn [snd]. rewrite Hs, Hw. clear Hs.
    unfold ticks. induction (List.seq 0 n) as [|k ks IH]; [done|].
    cbn [fmap list_fmap mbind list_bind app] in *. rewrite IH. f_equal.
    unfold firing. by rewrite minute_of_tick.
  - intros t (k & -> & _)%list_elem_of_fmap. rewrite minute_of_tick by done.
    unfold nth_minute, min, sec. lia.
Qed.
End minutes.

(** A scheduler that starts at 12:59:30 runs no job of 13:00. *)
#[local] Existing Instance refusing.

Definition noon_jobs : list Z := ticks (13 * 60 * min - 30 * sec) (λ _, 1) 600.

Lemma scheduler_minutes_witness :
  w_submitted (serve sample_scheduler noon_jobs (World () [])).2 = [].
Proof.
  unfold noon_jobs.
  rewrite (proj1 (scheduler_minutes (λ _, daily) (λ _, Ok {| Next := next_daily |})
    (λ _, Ok EmptyString) (λ _, Ok []) (λ _, ()) (λ _, EmptyString) ["scheduler"%string]
    (13 * 60 * min - 30 * sec) (λ _, 1) 600 ":8080" sample_scheduler (World () [])
    eq_refl
    (λ j _, ex_intro _ _ (conj eq_refl next_daily_activates)) (λ _, ltac:(split; [discriminate|reflexivity])))).
  vm_compute. reflexivity.
Defined.
End SchedulerMain.
