(* ===== verification/ApiTypes.v ===== *)
(** * The types of the HTTP API

    The dashboard's page (internal/server/web/app.js), which has no type checker
    behind it, reads fields of the JSON answers as strings, numbers and arrays,
    and puts impacts and lifecycles into its markup as they are. This file
    gives the dashboard's answers types, and shows that over a well-formed
    database every request is answered with a value of the type of its route, a
    console route apart, which relays the runtime's answer, and that the
    database stays well-formed. *)

From S2P Require Import Prelude GoText Float64 Json Limits Pg Memory Sessions Identity.
From S2P Require Import Governance Registry Repository Http.
From S2P Require Import Recipe Task RuntimeServer RuntimeClient Dashboard.
From Stdlib Require Import ZArith Lia Ascii.
From stdpp Require Import options.

Open Scope Z_scope.
Open Scope list_scope.

(** ** Types *)

(** A field of an object has a name and may be optional. The encoder writes the
    fields in the order of the struct. *)
Inductive ty : Type :=
  | TAny
  | TBool
  | TNum
  | TStr
  | TEnum (values : list string)
  | TNullable (t : ty)
  | TArr (t : ty)
  | TObj (fields : list (string * bool * ty)).

Fixpoint has_type (t : ty) (j : json) {struct t} : bool :=
  match t, j with
  | TAny, _ => true
  | TBool, JBool _ => true
  | TNum, JNum _ => true
  | TStr, JStr _ => true
  | TEnum l, JStr s => bool_decide (s ∈ l)
  | TNullable _, JNull => true
  | TNullable t, _ => has_type t j
  | TArr t, JArr l => forallb (has_type t) l
  | TObj fs, JObj kvs =>
      (fix fields fs kvs {struct fs} :=
         match fs with
         | [] => match kvs with [] => true | _ => false end
         | (k, optional, t) :: fs =>
             match kvs with
             | (k', v) :: kvs' =>
                 if String.eqb k k' then has_type t v && fields fs kvs'
                 else optional && fields fs kvs
             | [] => optional && fields fs []
             end
         end) fs kvs
  | _, _ => false
  end.

Definition req (k : string) (t : ty) : string * bool * ty := (k, false, t).
Definition opt (k : string) (t : ty) : string * bool * ty := (k, true, t).

(** *** What the dashboard answers *)

Definition TTool : ty :=
  TObj [req "id" TStr; req "server_id" TStr; req "name" TStr; req "scope" TStr;
        req "impact" (TEnum impacts)].

Definition TServer : ty :=
  TObj [req "id" TStr; req "name" TStr; req "owner" TStr; req "description" TStr;
        req "endpoint" TStr; req "transport" TStr; req "auth" TStr;
        req "lifecycle" (TEnum lifecycles); req "enabled" TBool; req "health" TStr;
        req "created_at" TStr; req "updated_at" TStr; req "tools" (TNullable (TArr TTool));
        req "committees" (TNullable (TArr TStr))].

Definition TApproval : ty :=
  TObj [req "id" TStr; req "session_id" TStr; req "tool" TStr; req "args_redacted" TAny;
        req "status" (TEnum approval_statuses); req "decided_by" TStr; opt "decided_at" TStr;
        req "created_at" TStr].

Definition TAuditEntry : ty :=
  TObj [req "id" TNum; req "actor" TStr; req "tool" TStr; req "args_redacted" TAny;
        req "result" TStr; req "latency_ms" TNum; req "created_at" TStr].

Definition TStats : ty :=
  TObj [req "servers_total" TNum; req "servers_approved" TNum; req "servers_proposed" TNum;
        req "tools_total" TNum; req "high_impact_tools" TNum; req "pending_approvals" TNum;
        req "audit_24h" TNum; req "error_rate" TNum; req "avg_latency_ms" TNum;
        req "runtime_available" TBool].

Definition TError : ty := TObj [req "error" TStr].

(** The types of successful answers by the pattern of the route; the console's
    routes relay what the runtime answers. *)
Definition answer_types : list (list seg * ty) :=
  [ ([Lit "healthz"], TObj [req "status" TStr]);
    ([Lit "api"; Lit "login"], TObj [req "ok" TBool]);
    ([Lit "api"; Lit "me"],
     TObj [req "authed" TBool; req "dev" TBool; req "runtime_available" TBool]);
    ([Lit "api"; Lit "stats"], TStats);
    ([Lit "api"; Lit "registry"], TObj [req "servers" (TArr TServer)]);
    ([Lit "api"; Lit "registry"; Var "name"; Lit "lifecycle"], TObj [req "status" TStr]);
    ([Lit "api"; Lit "registry"; Var "name"; Lit "enabled"], TObj [req "status" TStr]);
    ([Lit "api"; Lit "audit"], TObj [req "audit" (TArr TAuditEntry)]);
    ([Lit "api"; Lit "approvals"], TObj [req "approvals" (TArr TApproval)]);
    ([Lit "api"; Lit "approvals"; Var "id"; Lit "decide"], TApproval) ]%string.

Definition answer_type (p : list string) : option ty :=
  snd <$> List.find (λ e, bool_decide (is_Some (match_path e.1 p))) answer_types.

(** Two patterns that some path matches both. *)
Fixpoint overlap (p q : list seg) : bool :=
  match p, q with
  | [], [] => true
  | Lit a :: p, Lit b :: q => String.eqb a b && overlap p q
  | _ :: p, _ :: q => overlap p q
  | _, _ => false
  end.

Lemma match_path_overlap p q segs v v' :
  match_path p segs = Some v → match_path q segs = Some v' → overlap p q = true.
Proof.
  revert q segs v v'. induction p as [|[a|a] p IH]; intros [|[b|b] q] [|x segs] v v'; simpl; try done.
  - destruct (String.eqb_spec a x) as [->|]; [|done]. destruct (String.eqb_spec b x) as [->|]; [|done].
    rewrite String.eqb_refl. apply IH.
  - destruct (String.eqb a x); [|done]. destruct (nonempty x); [|done].
    destruct (match_path q segs) eqn:Hq; [|done]. intros Hp _. by eapply IH.
  - destruct (String.eqb b x); [|done]. destruct (nonempty x); [|done].
    destruct (match_path p segs) eqn:Hp; [|done]. intros _ Hq. by eapply IH.
  - destruct (nonempty x); [|done]. destruct (match_path p segs) eqn:Hp; [|done].
    destruct (match_path q segs) eqn:Hq; [|done]. intros _ _. by eapply IH.
Qed.

(** The type of a path is one of the patterns that overlap with its route's. *)
Lemma answer_type_overlap p pattern vars t :
  match_path pattern p = Some vars → answer_type p = Some t →
  t ∈ snd <$> filter (λ e, overlap e.1 pattern = true) answer_types.
Proof.
  intros Hp. unfold answer_type. destruct (List.find _ _) as [e|] eqn:Hf; [|done].
  intros [= <-]. apply find_Some_elem_of in Hf as [Hin [v Hv]%bool_decide_eq_true].
  apply list_elem_of_fmap_2, list_elem_of_filter. split; [|done]. by eapply match_path_overlap.
Qed.

(** An answer of a type: a value of it with status 200, an error otherwise. *)
Definition answers (t : ty) (r : Response) : Prop :=
  ∃ j, payload r = RawJSON j ∧ has_type (if code r =? StatusOK then t else TError) j = true.

(** ** Encodings are of their types *)

Lemma has_type_field k o t v fs kvs :
  has_type t v = true → has_type (TObj fs) (JObj kvs) = true →
  has_type (TObj ((k, o, t) :: fs)) (JObj ((k, v) :: kvs)) = true.
Proof. intros Hv Hfs. simpl. rewrite String.eqb_refl, Hv. exact Hfs. Qed.

Lemma has_type_absent k t fs kvs :
  Forall (λ kv, kv.1 ≠ k) kvs → has_type (TObj fs) (JObj kvs) = true →
  has_type (TObj (opt k t :: fs)) (JObj kvs) = true.
Proof.
  intros Hk Hfs. simpl. destruct kvs as [|[k' v] kvs]; [exact Hfs|].
  apply Forall_cons in Hk as [Hk _]. apply not_eq_sym, String.eqb_neq in Hk. simpl in Hk.
  rewrite Hk. exact Hfs.
Qed.

Lemma has_type_enum l s : s ∈ l → has_type (TEnum l) (JStr s) = true.
Proof. apply bool_decide_eq_true_2. Qed.

(** Goes through an object field by field. *)
Ltac fields := repeat (apply has_type_field; [try done|]); try done.

Lemma has_type_arr {A} t (f : A → json) l :
  (∀ x, x ∈ l → has_type t (f x) = true) → has_type (TArr t) (JArr (f <$> l)) = true.
Proof.
  intros Hl. simpl. rewrite forallb_forall. intros j Hj.
  apply list_elem_of_In, list_elem_of_fmap in Hj as (x & -> & Hx). by apply Hl.
Qed.

Lemma has_type_slice {A} t (f : A → json) l :
  (∀ x, x ∈ l → has_type t (f x) = true) →
  has_type (TNullable (TArr t)) (json_slice f l) = true.
Proof. destruct l; [done|]. apply has_type_arr. Qed.

Lemma answers_error c v t : c ≠ StatusOK → answers t (writeJSON c (obj1 "error" v)).
Proof.
  intros Hc. exists (obj1 "error" v). split; [done|]. apply Z.eqb_neq in Hc.
  cbn [code writeJSON]. by rewrite Hc.
Qed.

Lemma answers_ok t j : has_type t j = true → answers t (writeJSON StatusOK j).
Proof. intros Hj. by exists j. Qed.

Section encodings.
Context `{PgText} (time_json : Z → json).
Hypothesis time_is_text : ∀ t, has_type TStr (time_json t) = true.

Lemma json_Tool_typed d t :
  registry_wf d → t ∈ mcp_tools d → has_type TTool (json_Tool (scanTool t)) = true.
Proof. intros Hwf Ht. unfold TTool, json_Tool. fields. apply has_type_enum. by apply Hwf. Qed.

Lemma json_Server_typed d r :
  registry_wf d → r ∈ mcp_servers d → has_type TServer (json_Server time_json (scanServer d r)) = true.
Proof using time_is_text.
  intros Hwf Hr. unfold TServer, json_Server. fields.
  - apply has_type_enum. by apply Hwf.
  - apply has_type_slice. intros x. unfold scanServer. cbn [server_of Server_Tools]. unfold listTools.
    rewrite list_elem_of_fmap. setoid_rewrite elem_of_order_by. setoid_rewrite list_elem_of_filter.
    intros (t & -> & _ & Ht). by eapply json_Tool_typed.
  - by apply has_type_slice.
Qed.

Lemma json_Approval_typed a :
  Approval_Status a ∈ approval_statuses → has_type TApproval (json_Approval time_json a) = true.
Proof using time_is_text.
  intros Ha. unfold TApproval, json_Approval. fields; [by apply has_type_enum|].
  destruct (Approval_DecidedAt a).
  - apply has_type_field; [apply time_is_text|]. fields.
  - apply has_type_absent; [by repeat constructor|]. fields.
Qed.

Lemma json_AuditEntry_typed e : has_type TAuditEntry (json_AuditEntry time_json e) = true.
Proof using time_is_text. unfold TAuditEntry, json_AuditEntry. fields. Qed.

Lemma json_stats_typed s : has_type TStats (json_stats s) = true.
Proof. done. Qed.

(** ** The handlers *)

Section answers.
Context {T : Type} `{Transport T} (FileServer : Request → Response) (s : Server).
Implicit Types (w : world repo T).

Abbreviation w_db w := (r_db (w_store w)).

(** A handler that answers with values of a type and keeps the database well-formed. *)
Definition serves (t : ty) (m : M (world repo T) DashResponse) : Prop :=
  ∀ w, db_wf (w_db w) → answers t (m w).1.1 ∧ db_wf (w_db (m w).2).

Lemma serves_ret t r c : answers t r → serves t (mret (r, c)).
Proof. by intros Hr w Hw. Qed.

Lemma serves_auth t h r vars : serves t (h r vars) → serves t (auth s h r vars).
Proof. intros Hh. unfold auth. case_match; [done|]. by apply serves_ret, answers_error. Qed.

Lemma serverError_typed t e : answers t (serverError e).
Proof. by apply answers_error. Qed.

(** A query of the store, and a statement of it. *)
Lemma serves_read {A} t (f : db → A) (k : A → M (world repo T) DashResponse) :
  (∀ d, db_wf d → serves t (k (f d))) → serves t (store_op (repo_read f) ≫= k).
Proof.
  intros Hk w Hw. rewrite M_bind_step. unfold store_op, repo_read. cbn [fst snd]. by apply Hk.
Qed.

Lemma serves_write {A} t (f : Stmt → db → A * db) (k : A → M (world repo T) DashResponse) :
  (∀ st d, db_wf d → db_wf (f st d).2 ∧ serves t (k (f st d).1)) →
  serves t (store_op (repo_write f) ≫= k).
Proof.
  intros Hk w Hw. rewrite M_bind_step. unfold store_op, repo_write.
  destruct (Hk (r_stmts (w_store w) (r_next (w_store w))) (w_db w) Hw) as [Hd Hs].
  destruct (f _ _) as [a d]. cbn [fst snd] in *. by apply Hs.
Qed.

Lemma handleLogin_typed r : serves (TObj [req "ok" TBool]) (handleLogin s r).
Proof.
  unfold handleLogin. case_match; apply serves_ret; [by apply answers_ok|by apply answers_error].
Qed.

Lemma handleStats_typed now : serves TStats (handleStats s now).
Proof.
  apply serves_read. intros d1 _. apply serves_read. intros d2 _. apply serves_read. intros d3 _.
  apply serves_ret, answers_ok, json_stats_typed.
Qed.

Lemma handleRegistry_typed : serves (TObj [req "servers" (TArr TServer)]) (handleRegistry time_json).
Proof using time_is_text.
  apply serves_read. intros d Hd. apply serves_ret, answers_ok. fields.
  apply has_type_arr. intros x. unfold ListServers. rewrite list_elem_of_fmap.
  setoid_rewrite elem_of_order_by. intros (r & -> & Hr). apply json_Server_typed; [apply Hd|done].
Qed.

Lemma updated_typed (e : result unit) : answers (TObj [req "status" TStr]) (updated e).
Proof. destruct e; [by apply answers_ok|apply serverError_typed]. Qed.

Lemma handleLifecycle_typed name r : serves (TObj [req "status" TStr]) (handleLifecycle name r).
Proof.
  unfold handleLifecycle. destruct (decode_body _ _) as [lc|]; [|by apply serves_ret, answers_error].
  apply serves_write. intros st d Hd. pose proof (exec_wf st (OpSetServerLifecycle name lc) d Hd) as Hw.
  cbn [exec] in Hw. destruct (SetServerLifecycle _ _ _ _) as [e x]. split; [done|].
  apply serves_ret, updated_typed.
Qed.

Lemma handleEnabled_typed name r : serves (TObj [req "status" TStr]) (handleEnabled name r).
Proof.
  unfold handleEnabled. destruct (decode_body _ _) as [b|]; [|by apply serves_ret, answers_error].
  apply serves_write. intros st d Hd. pose proof (exec_wf st (OpSetServerEnabled name b) d Hd) as Hw.
  cbn [exec] in Hw. destruct (SetServerEnabled _ _ _ _) as [e x]. split; [done|].
  apply serves_ret, updated_typed.
Qed.

Lemma handleAudit_typed r :
  serves (TObj [req "audit" (TArr TAuditEntry)]) (handleAudit time_json r).
Proof using time_is_text.
  apply serves_read. intros d Hd. apply serves_ret, answers_ok. fields.
  apply has_type_arr. intros x _. apply json_AuditEntry_typed.
Qed.

Lemma handleApprovals_typed :
  serves (TObj [req "approvals" (TArr TApproval)]) (handleApprovals time_json).
Proof using time_is_text.
  apply serves_read. intros d Hd. apply serves_ret, answers_ok. fields.
  apply has_type_arr. intros x. unfold ListPendingApprovals, queryApprovals. rewrite list_elem_of_fmap.
  setoid_rewrite elem_of_order_by. setoid_rewrite list_elem_of_filter.
  intros (r & -> & _ & Hr). apply json_Approval_typed. by apply Hd.
Qed.

Lemma handleDecide_typed id r : serves TApproval (handleDecide time_json id r).
Proof using time_is_text.
  unfold handleDecide.
  destruct (decode_body _ _) as [[status by_]|]; [|by apply serves_ret, answers_error].
  apply serves_write. intros st d Hd.
  pose proof (exec_wf st (OpDecideApproval id status by_) d Hd) as Hw. cbn [exec] in Hw.
  destruct (DecideApproval _ _ _ _ _) as [[a|e] g] eqn:Hdec; (split; [done|]).
  - apply serves_ret, answers_ok, json_Approval_typed. unfold DecideApproval in Hdec.
    repeat case_match; simplify_eq/=. by case_bool_decide.
  - apply serves_ret, serverError_typed.
Qed.

(** What the console's routes ask the runtime for. *)
Definition console : list (list seg * (Request → gmap string string → string * string * RawMessage)) :=
  [ ([Lit "api"; Lit "tasks"], λ r _, ("POST", "/tasks", body r));
    ([Lit "api"; Lit "tasks"; Var "id"],
     λ _ vars, ("GET", "/tasks/" +:+ PathValue vars "id", RawEmpty));
    ([Lit "api"; Lit "tasks"; Var "id"; Lit "approve"],
     λ r vars, ("POST", "/tasks/" +:+ PathValue vars "id" +:+ "/approve", body r)) ]%string.

Definition error_object (resp : Response) : Prop :=
  code resp ∈ [StatusUnauthorized; StatusBadGateway; StatusServiceUnavailable] ∧
  ∃ j, payload resp = RawJSON j ∧ has_type TError j = true.

(** An answer of the console: the status and the body of the runtime's answer as
    they are, to a logged-in member, or an error object of the dashboard's own. *)
Definition relayed (r : Request) w (resp : Response) : Prop :=
  ∃ pattern ask vars, (pattern, ask) ∈ console ∧ match_path pattern (path r) = Some vars ∧
    let '(m, p, b) := ask r vars in
    error_object resp ∨ authed s r = true ∧ (dash_Do (runtime s) m p b (w_net w)).1 = Ok resp.

(** What a route promises for a request on its path. *)
Definition route_typed (h : Request → gmap string string → M (world repo T) DashResponse)
    (pattern : list seg) : Prop :=
  ∀ r vars w, match_path pattern (path r) = Some vars → db_wf (w_db w) →
    db_wf (w_db (h r vars w).2) ∧
    match answer_type (path r) with
    | Some t => answers t (h r vars w).1.1
    | None => relayed r w (h r vars w).1.1
    end.

Lemma serves_route t h pattern :
  (∀ r vars, serves t (h r vars)) → (∃ t', (pattern, t') ∈ answer_types) →
  (∀ p vars t', match_path pattern p = Some vars → answer_type p = Some t' → t' = t) →
  route_typed h pattern.
Proof.
  intros Hh [t0 Hin] Hp r vars w Hm Hw. destruct (Hh r vars w Hw) as [Ha Hd]. split; [done|].
  destruct (answer_type (path r)) as [t'|] eqn:Ht; [by rewrite (Hp _ _ _ Hm Ht)|].
  exfalso. unfold answer_type in Ht. destruct (List.find _ _) eqn:Hf; [done|].
  apply find_None_elem_of with (x := (pattern, t0)) in Hf; [|done].
  apply bool_decide_eq_false in Hf. cbn [fst] in Hf. rewrite Hm in Hf. by apply Hf.
Qed.

Lemma proxy_route ask pattern :
  (pattern, ask) ∈ console →
  (∀ q vars, match_path pattern q = Some vars → answer_type q = None) →
  route_typed (auth s (λ r vars, proxyRuntime s (ask r vars).1.1 (ask r vars).1.2 (ask r vars).2)) pattern.
Proof.
  intros Hin Hp r vars w Hm Hw. rewrite (Hp _ _ Hm).
  assert (∀ c e, c ∈ [StatusUnauthorized; StatusBadGateway; StatusServiceUnavailable] →
    error_object (writeJSON c (obj1 "error" e))) as Herr.
  { intros c e Hc. split; [done|]. by eexists. }
  unfold auth, proxyRuntime. destruct (authed s r) eqn:Ha.
  2: { split; [done|]. exists pattern, ask, vars. do 2 (split; [done|]).
       destruct (ask r vars) as [[m p] b]. left. apply Herr. by left. }
  destruct (Client_Configured _).
  2: { split; [done|]. exists pattern, ask, vars. do 2 (split; [done|]).
       destruct (ask r vars) as [[m p] b]. left. apply Herr. by do 2 right; left. }
  rewrite M_bind_step. unfold net_op.
  assert (relayed r w (match (dash_Do (runtime s) (ask r vars).1.1 (ask r vars).1.2 (ask r vars).2 (w_net w)).1 with
    | Err e => writeJSON StatusBadGateway (obj1 "error" (Error e)) | Ok resp => resp end)) as Hr.
  { exists pattern, ask, vars. do 2 (split; [done|]). destruct (ask r vars) as [[m p] b]. cbn [fst snd].
    destruct (dash_Do _ _ _ _ _) as [[resp|e] n]; cbn [fst]; [by right|].
    left. apply Herr. by right; left. }
  destruct (dash_Do _ _ _ _ _) as [a n]. by split.
Qed.

(** Finds the one type whose pattern overlaps with the route's. *)
Ltac on_path :=
  intros p vars; intros;
  match goal with
  | Hp : match_path _ p = Some vars, Ht : answer_type p = Some ?t |- _ =>
      pose proof (answer_type_overlap p _ _ _ Hp Ht) as Hin; vm_compute in Hin;
      repeat (apply elem_of_cons in Hin as [->|Hin]; [reflexivity|]); by apply elem_of_nil in Hin
  | Hp : match_path _ p = Some vars |- answer_type p = None =>
      destruct (answer_type p) as [t|] eqn:Ht; [|done];
      pose proof (answer_type_overlap p _ _ _ Hp Ht) as Hin; by apply elem_of_nil in Hin
  end.

(** The route has a type. *)
Ltac has_answer := eexists; vm_compute; repeat first [left | right].

Lemma routes_typed now rt :
  rt ∈ Dashboard.routes time_json s now → route_typed (r_handler rt) (r_path rt).
Proof using time_is_text.
  unfold Dashboard.routes. rewrite !elem_of_cons, elem_of_nil.
  intros Hin. repeat match type of Hin with _ ∨ _ => destruct Hin as [->|Hin] | False => done end;
    cbn [r_handler r_path].
  - apply (serves_route (TObj [req "status" TStr])); [by intros; apply serves_ret, answers_ok|has_answer|on_path].
  - apply (serves_route (TObj [req "ok" TBool])); [intros; apply handleLogin_typed|has_answer|on_path].
  - apply (serves_route (TObj [req "authed" TBool; req "dev" TBool; req "runtime_available" TBool]));
      [by intros; apply serves_ret, answers_ok|has_answer|on_path].
  - apply (serves_route TStats); [intros; apply serves_auth, handleStats_typed|has_answer|on_path].
  - apply (serves_route (TObj [req "servers" (TArr TServer)]));
      [intros; apply serves_auth, handleRegistry_typed|has_answer|on_path].
  - apply (serves_route (TObj [req "status" TStr]));
      [intros; apply serves_auth, handleLifecycle_typed|has_answer|on_path].
  - apply (serves_route (TObj [req "status" TStr]));
      [intros; apply serves_auth, handleEnabled_typed|has_answer|on_path].
  - apply (serves_route (TObj [req "audit" (TArr TAuditEntry)]));
      [intros; apply serves_auth, handleAudit_typed|has_answer|on_path].
  - apply (serves_route (TObj [req "approvals" (TArr TApproval)]));
      [intros; apply serves_auth, handleApprovals_typed|has_answer|on_path].
  - apply (serves_route TApproval); [intros; apply serves_auth, handleDecide_typed|has_answer|on_path].
  - apply (proxy_route (λ r _, ("POST", "/tasks", body r)%string)); [by left|on_path].
  - apply (proxy_route (λ _ vars, ("GET", "/tasks/" +:+ PathValue vars "id", RawEmpty)%string));
      [by right; left|on_path].
  - apply (proxy_route (λ r vars, ("POST", "/tasks/" +:+ PathValue vars "id" +:+ "/approve", body r)%string));
      [by right; right; left|on_path].
Qed.

(** C27: Over a well-formed database every request to a route of the dashboard other than
    the three of the console is answered with a value of the JSON type of that route when
    the status is 200 and with an error object otherwise, enumerations such as impact and
    lifecycle included; a request to a route of the console (POST /api/tasks, GET
    /api/tasks/{id}, POST /api/tasks/{id}/approve) is answered with the status and the
    body of the runtime's answer as they are, for a logged-in member, or with an error
    object of status 401, 502 or 503; all of them leave the database well-formed, and
    every other request is left to the file server. *)
Theorem dashboard_typed now r w :
  db_wf (w_db w) →
  let '((resp, _), w') := Dashboard.Handler time_json FileServer s now r w in
  db_wf (w_db w') ∧
  match ServeMux (Dashboard.routes time_json s now) (method r) (path r) with
  | Handled _ _ =>
      match answer_type (path r) with Some t => answers t resp | None => relayed r w resp end
  | _ => resp = FileServer r
  end.
Proof using time_is_text.
  intros Hw. unfold Dashboard.Handler.
  destruct (ServeMux _ _ _) as [h vars| |] eqn:Hd; [|by split..].
  apply ServeMux_route in Hd as (rt & Hin & <- & Hp & _).
  pose proof (routes_typed now rt Hin r vars w Hp Hw) as [Hd Ha].
  by destruct (r_handler rt r vars w) as [[resp c] w'].
Qed.
End answers.
End encodings.

(** ** A concrete request *)

#[local] Existing Instance unary_text.
#[local] Instance no_network : Transport unit := { http_Do _ n := (Err (ErrNew "no such host"), n) }.

(** The registry as a logged-in maintainer reads it. *)
Definition sample_read : Request :=
  {| method := "GET"; path := ["api"; "registry"]%string; query := ∅; header := ∅;
     cookies := {[cookieName := "tok"%string]}; body := RawEmpty |}.

Lemma dashboard_typed_witness :
  let w := at_repo {| r_db := run sample_history db_empty; r_stmts := λ _, sample_stmt 1 1;
                      r_next := 0 |} () in
  let resp := (Dashboard.Handler (λ _, JStr "2025-01-01T00:00:00Z") sample_page sample_dashboard 0
                 sample_read w).1.1 in
  code resp = StatusOK ∧ answers (TObj [req "servers" (TArr TServer)]) resp.
Proof.
  cbv zeta.
  match goal with |- context [Dashboard.Handler ?tj ?fs ?s ?n ?r ?w] =>
    pose proof (dashboard_typed tj (λ _, eq_refl) fs s n r w (run_wf _ _ db_empty_wf)) as Hd;
    assert (code (Dashboard.Handler tj fs s n r w).1.1 = StatusOK) as Hc by reflexivity;
    destruct (Dashboard.Handler tj fs s n r w) as [[resp c] w'] end.
  split; [exact Hc|]. destruct Hd as [_ Hd]. exact Hd.
Defined.
